(* ===== verification/_CoqProject ===== *)
-Q . S2P
Prelude.v
JsMap.v
Config.v
Cache.v
JsValue.v
Adapters.v
Search.v
HttpClient.v
Gateway.v
Highlights.v
Debounce.v
Formatters.v
ParseInt.v
NumberFormat.v
Dates.v
HighlightsView.v
CoinTable.v
CoinTableView.v
CoinDetail.v
App.v
