(* ===== verification/Prelude.v ===== *)
(** * MediBuddy crypto dashboard: a verification of its data layer, components and views

    The repository is a React dashboard over the CoinGecko REST API.  Its
    parts, leaf first, and how they interact:

    - [services/httpClient.js] ([createApiError], [createHttpClient] with
      [buildUrl], [makeRequest], [get]): builds the URL and headers, races
      [fetch] against an abort timer of [REQUEST_TIMEOUT] and classifies
      the outcome into a value or an [ApiError] with one of six codes;
    - [services/cacheService.js] ([createCacheService]): a TTL cache on a
      JS [Map] with [get], [set], [delete], [clear], [isExpired],
      [getStats], [cleanup];
    - [services/coinGeckoService.js]: the adapters ([adaptCoinFromApi],
      [adaptTrendingCoinFromApi] and their array versions) and the gateway
      [createCoinGeckoService], whose operations look the key up in the
      cache, otherwise call the HTTP client, adapt, store and return;
      [getTopGainers]/[getTopLosers]/[getHighestVolume] post-process a
      listing; [searchCoins] filters a pool;
    - [constants/api.js]: the configuration read from the environment;
    - [components/HighlightsSection]: [fetchHighlights] issues four gateway
      calls under [Promise.allSettled] and degrades per field;
    - [components/CoinTable]: the paginated, sortable, searchable listing
      over the gateway ([fetchCoins], its handlers and effects, the
      debounced search);
    - [components/CoinDetailModal]: [fetchCoinDetails] and the modal it
      renders from a coin and its details;
    - [App.js]: the selected coin, set by a click in the highlights or the
      table, which mounts the modal;
    - [utils/formatters.js]: number formatting and [debounce].
    Each of the three components creates its own gateway instance, hence
    its own cache (a finding of the manifest).

    ** Files, in dependency order, and what they model

    - [Prelude] (this file): the [result] error monad for every fallible
      operation (a JS exception is an [Err]) with its notations in
      [medi_scope] ([res_bind], written [x ←? m ; k], also threads the
      [None] of a value outside the model, as the views use it), the
      [medi] hint and [medi_rw] rewrite databases, the
      tactics [invc] and [res_simpl], and the generic lemmas on lists,
      [map_res]/[filter_res] (an [Array.prototype.map]/[filter] whose
      callback may throw) and folds up to permutation.
    - [JsMap]: a JS [Map] as an insertion-ordered association list
      ([Map_get], [Map_set], [Map_delete], [Map_keys], [Map_size]) with its
      invariant (no duplicate key), its refinement of stdpp's [gmap]
      ([to_gmap]) and the setoid [Map_equiv] with [Proper] instances.
    - [Config]: [API_CONFIG], [API_ENDPOINTS] and the constants over an
      explicit [env] (the part of [process.env] the code reads).
    - [Cache]: Section [Cache] is [createCacheService] over [JsMap]; the
      clock [Date.now()] is the argument [now]; [cache_exec] runs one call
      of the returned interface.  Section [Spec] is the abstract TTL map
      ([spec_exec] over a [gmap] of value and expiry instant).
    - [JsValue]: parsed JSON (an object keeps the last of duplicate
      keys, as [JSON.parse] does), [undefined] as [None], [ToBoolean],
      the emptiness of [ToString] (an [Error]'s [message] is the
      [ToString] of its argument), property reads with their [TypeError], Latin-1 [toLowerCase], [trim],
      [includes], and [StringToNumber]/[ToNumber] (decimal, exponent,
      [Infinity], hexadecimal, octal and binary literals).
    - [Adapters], [Search]: the adapters and [searchCoins].
    - [HttpClient]: [buildUrl] (with the form encoding of
      [URLSearchParams]), the headers, and [classify]: the network is an
      input event (latency and outcome), the abort timer wins when
      [REQUEST_TIMEOUT <= latency]; [get], [post], [put] and [delete]
      with their method and body.
    - [Gateway]: every async operation is split at its [await] into
      [begin_op] (the cache lookup) and [finish_op] (classification,
      adaptation, [cache.set] at the completion instant); [run_op] and
      [run_call] compose them; cache keys use a model of [JSON.stringify].
    - [Highlights]: [fetchHighlights] with the four calls started at one
      instant and completed in any order given by a [schedule].
    - [Debounce]: [debounce] as a timer machine over calls and expiries.
    - [Formatters]: [toFixed], the en-US patterns of
      [Intl.NumberFormat], [formatCurrency], [formatPercentage],
      [formatMarketCap].
    - [ParseInt]: [parseInt] (ECMA-262 19.2.5) and the two counts of the
      configuration, [COINS_PER_PAGE] and [HIGHLIGHTS_COUNT].
    - [NumberFormat]: [formatNumber]: the option spread, the fraction-digit
      options of the [Intl.NumberFormat] constructor with its [RangeError],
      and the [catch] through [Number::toString].
    - [Dates]: [formatDate] and [formatTimeAgo] in a Section whose
      parameters are [Date.parse] and the printing of a valid time by
      [Intl.DateTimeFormat]; [new Date] with [TimeClip]; each [try] with
      its [catch] ([try_catch]).
    - [HighlightsView]: the render of the section ([render_highlights],
      [HighlightCard], [CoinItem]) and its mount effect and retry button as a machine
      ([hl_step]) whose retry exists only in the error state.
    - [CoinTable]: the table's hooks, the gateway cache, the loads in
      flight and the debounced search functions as a machine ([tb_step])
      over the mount, the sort select, the page buttons, the retry button,
      the search box, load completions and timer expiries.  React's
      semantics are written out: the updates after an [await] are batched
      into one render; the effects run in declaration order after the
      commit; [useMemo] makes a new debounced function (with its own
      timer) exactly when [coins] becomes another array, which the model
      tracks by allocation ids ([heap], [coins_obj]); an event is possible
      only on a control the current render shows ([tb_handle]); timers
      expire in deadline order, the oldest first on a tie.
    - [CoinTableView]: the render of the table ([CoinRow], [Pagination],
      the empty state); a row whose cell throws makes the render throw.
    - [CoinDetail]: [fetchCoinDetails] as a machine, the whole render of
      the modal ([render_modal], with [formatDate] a parameter of the
      Section [ModalView]), the all-time-low line, the description
      stripped of tags, and the regular expression of line 207 as the
      relation [replace_all_tags].
    - [App]: [selectedCoin] with the modal it mounts; clicks on rows and
      highlight items, closing by the button or the Escape key, the
      modal's load and retry, the loads of closed modals completing into
      the modal's cache, and the document state of the modal's Escape
      effect (its [keydown] listeners and the body's overflow) with its
      cleanup ([app_step]).

    ** The theorems (claim ids of the manifest)

    - The cache: freshness, expiry with eviction, never stale (C1-C3);
      refinement of the abstract TTL map by every interface call (C4).
    - The request executor: every failure is a typed [ApiError] (C5);
      timeout and rate limit (C6, C7).
    - The gateway: a repeated call within the TTL is a hit without request
      (C8); failures store nothing (C9); the kind of every stored value
      matches its key family in every reachable cache (C21).
    - The adapters and search (C15, C16, C28).
    - The orchestrator: partial failure (C10); the outcome
      and the cache's entries do not depend on the completion order (C12);
      a coin whose 24h change is a string makes the render of the whole
      section throw, and the gainers filter lets such a coin in (C14); in
      every reachable state the section's error is the aggregate error,
      with no data beside it, since the slice of the trending list never
      throws (C22).
    - The formatters: [formatPercentage] prints a signed numeral that reads
      back within half a unit of its last place (C31); [formatMarketCap]
      tiers (C32) and its rounding past a tier boundary (C33);
      [formatNumber] with only a minimum of fraction digits always falls
      back to [value.toString()] (C24); for a date at least a minute old
      [formatTimeAgo] equals a one-division reference (C18), a date in the
      future reads ['Just now'] (C19), and an unparseable date reads
      ['Just now'] where [formatDate] reaches its [catch] (C13).
    - The configuration: a count written as [String(n)] reads back as
      [n] (C23).
    - [debounce]: a burst fires exactly once (C35).
    - The coin table: in every reachable state pages stay in range (C36)
      and [coins], [filteredCoins] and the cache are well typed (C27); a
      shown, enabled page button always loads its page (C25); once no
      search timer is armed the table shows the search of the current
      query over the current coins (C30); in every reachable state the
      expiry of the first debounced function, which closes over the
      initial empty array, empties [filteredCoins] whatever [coins] holds
      (C17); a sort change sends the same request twice (C37); a
      successful load sets its own listing and page whatever the sort
      order and clears [loading] with other loads in flight (C38); a coin whose
      24h change is a string makes the render throw (C26).
    - The detail modal and the shell: the all-time-low line prints [++]
      (C39); the injected description never contains a complete tag (C40)
      (lemma [strip_tags_regex] shows the scan is the global regex
      replace); a coin without an id shows the spinner until the modal is
      closed (C20); reopening a coin within 30 s of a successful load is a
      cache hit without request (C29); a
      trending coin's modal prints [+NaN%] and [N/A] (C34); in every
      reachable state the open modal, and only it, has its Escape
      listener on [document], and the body scrolls exactly when no modal
      is open (C11).

    ** Bounds and fuel

    Clock values, TTLs, HTTP statuses and pages are integers ([Z]), all
    far below 2^53 in the code's use, so no JS rounding applies to them.
    JSON numbers are exact rationals ([Q]); the binary64 rounding of the
    parser and of division is not modelled, and [toFixed] of a value of
    magnitude 10^21 or more (which prints shortest binary64 digits) is
    [None].  The only fuel is in the printing of integers
    ([JsValue.pos_digits], [Formatters.group_digits]): one step per bit of
    the number, enough since each step divides by 10 (or 1000); lemma
    [Formatters.pos_digits_spec] proves the digits are exact with it, and
    lemma [Formatters.grouped_terminates] proves [grouped] equal to
    [group_wf], the same loop by well-founded recursion (Equations).  [parseInt] is exact up to
    [2^53] and [None] beyond (binary64 rounding); [Number::toString] is
    modelled on integers up to [2^53] and on decimals of at most 15
    significant digits and 6 places, where the shortest round-trip digits
    are the decimal's own; [formatTimeAgo]'s binary64 divisions equal the
    integer ones for [|now - date| <= 8 * 10^15] ms, and the model is
    [None] beyond.  Traces ([tb_run], [app_run],
    [deb_run]) are lists of events, so every run is finite.

    ** What is not modelled, and why

    - Markup: class names, icons, static text, the image [onError]
      fallbacks; views keep the values and attributes computed from data.
    - The static components ([Header], [Footer], the loading spinners and
      skeleton, the error and empty states): markup with no data but the
      error's title and message, which the views keep.
    - Logging and [window.scrollTo]: no effect on the program's state.
    - The URL parser's normalisation of [BASE_URL]: the prefixes built by
      the code are already normal.
    - [Date.parse] beyond ISO strings and [Intl.DateTimeFormat]'s text
      are implementation-, locale- and time-zone dependent: parameters of
      [Dates]; the modal's render takes [formatDate] as a parameter.
    - Options of [Intl.NumberFormat] other than the fraction digits, and
      [toString] of arrays, give [None].
    - A [coin.id] that is an array, or a number [Number::toString]
      prints in exponent form, interpolated into the details key and
      URL: [fetchCoinDetails] is [None] on it (other ids are printed by
      their [ToString]); React's rendering of an object child (which
      throws): the views keep such values as JS values.
    - Strings are Latin-1 byte strings: characters beyond U+00FF and the
      UTF-16 code units of [slice] are not modelled. *)

From stdpp Require Export base list sets.
#[local] Set Warnings "-clear-no-such-hyp".
From Stdlib Require Export ZArith Lia.

Declare Scope medi_scope.
Delimit Scope medi_scope with medi.

(** ** Results: the JS [throw] as an error value *)

Inductive result (E A : Type) : Type :=
  | Ok (a : A)
  | Err (e : E).
Arguments Ok {E A} a.
Arguments Err {E A} e.

#[export] Instance result_ret E : MRet (result E) := λ A a, Ok a.
#[export] Instance result_bind E : MBind (result E) := λ A B f r,
  match r with Ok a => f a | Err e => Err e end.
#[export] Instance result_fmap E : FMap (result E) := λ A B f r,
  match r with Ok a => Ok (f a) | Err e => Err e end.

Definition is_ok {E A} (r : result E A) : bool :=
  match r with Ok _ => true | Err _ => false end.

Notation "'throw' e" := (Err e) (at level 10, only parsing) : medi_scope.

(** [Array.prototype.map] with a callback that may throw: the first
    exception aborts the whole map. *)
Fixpoint map_res {E A B} (f : A → result E B) (l : list A) : result E (list B) :=
  match l with
  | [] => Ok []
  | x :: l' => y ← f x; ys ← map_res f l'; mret (y :: ys)
  end.

(** [Array.prototype.filter] with a predicate that may throw. *)
Fixpoint filter_res {E A} (p : A → result E bool) (l : list A) : result E (list A) :=
  match l with
  | [] => Ok []
  | x :: l' =>
      b ← p x; ys ← filter_res p l'; Ok (if (b : bool) then x :: ys else ys)
  end.

(** A computation that may throw and may also leave what the model
    covers ([None]: a number beyond what [Formatters.toFixed] prints):
    the first exception or [None] stops the sequence, as a render that
    throws stops at the first throwing expression. *)
Definition res_bind {E A B} (m : option (result E A)) (k : A → option (result E B))
    : option (result E B) :=
  match m with None => None | Some (Err e) => Some (Err e) | Some (Ok a) => k a end.

Notation "x ←? m ; k" := (res_bind m (λ x, k))
  (at level 20, m at level 100, k at level 200, right associativity) : medi_scope.

(** ** Automation *)

Create HintDb medi discriminated.
Create Rewrite HintDb medi_rw.

Ltac invc H := inversion H; subst; clear H.

(** Split every [match]/[if] on a result or a boolean in the goal. *)
Ltac res_simpl :=
  repeat match goal with
  | |- context [match ?r with Ok _ => _ | Err _ => _ end] => destruct r eqn:?
  | H : Ok _ = Ok _ |- _ => injection H as H
  | H : Err _ = Err _ |- _ => injection H as H
  | H : Ok _ = Err _ |- _ => discriminate H
  | H : Err _ = Ok _ |- _ => discriminate H
  end.

(** ** Generic lemmas on the monad *)

Lemma bind_Ok {E A B} (r : result E A) (f : A → result E B) b :
  (r ≫= f) = Ok b ↔ ∃ a, r = Ok a ∧ f a = Ok b.
Proof. destruct r; simpl; [naive_solver|split; [done|by intros (?&?&?)]]. Qed.

Lemma map_res_total {E A B} (f : A → B) (l : list A) :
  map_res (E:=E) (λ x, Ok (f x)) l = Ok (map f l).
Proof. induction l as [|x l IH]; simpl; [done|]. by rewrite IH. Qed.

Lemma map_res_length {E A B} (f : A → result E B) l l' :
  map_res f l = Ok l' → length l' = length l.
Proof.
  revert l'. induction l as [|x l IH]; simpl; intros l' H; [by injection H as <-|].
  destruct (f x); [|done]. simpl in H.
  destruct (map_res f l) eqn:E'; [|done]. simpl in H. injection H as <-.
  simpl. by rewrite (IH _ eq_refl).
Qed.

Lemma filter_res_total {E A} (p : A → bool) (l : list A) :
  filter_res (E:=E) (λ x, Ok (p x)) l = Ok (List.filter p l).
Proof.
  induction l as [|x l IH]; simpl; [done|]. rewrite IH. simpl.
  by destruct (p x).
Qed.

#[export] Hint Rewrite @map_res_total @filter_res_total : medi_rw.

(** ** Generic lemmas on lists *)

Lemma filter_filter_andb {A} (f g : A → bool) (l : list A) :
  List.filter f (List.filter g l) = List.filter (λ x, g x && f x) l.
Proof.
  induction l as [|x l IH]; simpl; [done|].
  destruct (g x); simpl; [destruct (f x); simpl; by rewrite IH|done].
Qed.

Lemma filter_idem {A} (f : A → bool) (l : list A) :
  List.filter f (List.filter f l) = List.filter f l.
Proof.
  rewrite filter_filter_andb. apply List.filter_ext. intros x. by destruct (f x).
Qed.

#[export] Hint Rewrite @filter_filter_andb : medi_rw.

(** The first failing element decides the error of [map_res]. *)
Lemma map_res_Err {E A B} (f : A → result E B) (P : E → Prop) l :
  (∃ x e, x ∈ l ∧ f x = Err e) →
  (∀ x e, x ∈ l → f x = Err e → P e) →
  ∃ e, map_res f l = Err e ∧ P e.
Proof.
  induction l as [|y l IH]; simpl; intros [x [e [Hin Hx]]] HP; [set_solver|].
  destruct (f y) as [b|e'] eqn:Hy; simpl.
  - apply elem_of_cons in Hin as [->|Hin]; [congruence|].
    destruct IH as [e'' [He'' HPe'']]; [by exists x, e|intros; apply (HP x0); set_solver|].
    rewrite He''. by exists e''.
  - exists e'. split; [done|]. apply (HP y); [set_solver|done].
Qed.

Lemma map_res_Forall2 {E A B} (f : A → result E B) (R : A → B → Prop) l :
  (∀ x, x ∈ l → ∃ y, f x = Ok y ∧ R x y) →
  ∃ ys, map_res f l = Ok ys ∧ Forall2 R l ys.
Proof.
  induction l as [|x l IH]; simpl; intros Hf; [by exists []|].
  destruct (Hf x) as [y [-> Hy]]; [set_solver|].
  destruct IH as [ys [-> Hys]]; [intros; apply Hf; set_solver|].
  exists (y :: ys). split; [done|]. by constructor.
Qed.

(** Folding commuting steps over two permutations of a list gives related
    results, when steps at different keys commute up to [R]. *)
Lemma fold_left_perm_rel {A X K} (R : relation A) `{!Equivalence R}
    (f : A → X → A) (key : X → K) :
  (∀ x a1 a2, R a1 a2 → R (f a1 x) (f a2 x)) →
  (∀ a x y, key x ≠ key y → R (f (f a x) y) (f (f a y) x)) →
  ∀ l1 l2, Permutation l1 l2 → NoDup (map key l1) →
  ∀ a, R (fold_left f l1 a) (fold_left f l2 a).
Proof.
  intros Hf Hc.
  assert (Hfold : ∀ l a1 a2, R a1 a2 → R (fold_left f l a1) (fold_left f l a2)).
  { induction l as [|x l IH]; simpl; [done|]. intros a1 a2 H. apply IH, Hf, H. }
  induction 1 as [|x l1 l2 _ IH|x y l|l1 l2 l3 H12 IH12 _ IH23]; simpl; intros Hnd a.
  - done.
  - apply IH. by apply NoDup_cons in Hnd as [_ ?].
  - apply Hfold. symmetry. apply Hc. apply NoDup_cons in Hnd as [Hy _]. intros Heq.
    apply Hy. rewrite Heq. set_solver.
  - etrans; [by apply IH12|]. apply IH23.
    assert (Hp : map key l1 ≡ₚ map key l2) by (by apply Permutation_map). by rewrite <- Hp.
Qed.

Lemma filter_res_Err {E A} (p : A → result E bool) (P : E → Prop) l :
  (∃ x e, x ∈ l ∧ p x = Err e) →
  (∀ x e, x ∈ l → p x = Err e → P e) →
  ∃ e, filter_res p l = Err e ∧ P e.
Proof.
  induction l as [|y l IH]; simpl; intros [x [e [Hin Hx]]] HP; [set_solver|].
  destruct (p y) as [b|e'] eqn:Hy; simpl.
  - apply elem_of_cons in Hin as [->|Hin]; [congruence|].
    destruct IH as [e'' [He'' HPe'']]; [by exists x, e|intros; apply (HP x0); set_solver|].
    rewrite He''. by exists e''.
  - exists e'. split; [done|]. apply (HP y); [set_solver|done].
Qed.

Lemma filter_res_Ok {E A} (p : A → result E bool) (q : A → bool) l :
  (∀ x, x ∈ l → p x = Ok (q x)) → filter_res p l = Ok (List.filter q l).
Proof.
  induction l as [|x l IH]; simpl; intros Hp; [done|].
  rewrite Hp by set_solver. simpl. rewrite IH by (intros; apply Hp; set_solver). done.
Qed.
