(* ===== verification/JsMap.v ===== *)
(** * The JavaScript [Map] used by [cacheService.js]

    [createCacheService] keeps its entries in [new Map()].  A JS [Map]
    remembers insertion order ([getStats] returns [Array.from(cache.keys())]),
    [set] on a present key updates the value in place and keeps its
    position, [set] on a new key appends, [delete] removes the entry.
    We model it as an association list in insertion order, state its
    invariant (keys are duplicate-free) and prove that it refines a stdpp
    [gmap]: every operation commutes with the abstraction [to_gmap].
    Lookup-equivalence [Map_equiv] is a setoid coarser than [=] (it forgets
    the order), and the read/write operations are [Proper] for it. *)

From S2P Require Import Prelude.
From stdpp Require Import gmap fin_maps.
#[local] Set Warnings "-clear-no-such-hyp".

Section JsMap.
Context {K V : Type} `{EqDecision K}.

Definition jsmap := list (K * V).

(** [Map.prototype.get] *)
Fixpoint Map_get (k : K) (m : jsmap) : option V :=
  match m with
  | [] => None
  | (k', v') :: m' => if decide (k = k') then Some v' else Map_get k m'
  end.

(** [Map.prototype.has] *)
Definition Map_has (k : K) (m : jsmap) : bool :=
  match Map_get k m with Some _ => true | None => false end.

(** [Map.prototype.set]: in place when the key is present, else appended. *)
Fixpoint Map_set (k : K) (v : V) (m : jsmap) : jsmap :=
  match m with
  | [] => [(k, v)]
  | (k', v') :: m' =>
      if decide (k = k') then (k', v) :: m' else (k', v') :: Map_set k v m'
  end.

(** [Map.prototype.delete] *)
Definition Map_delete (k : K) (m : jsmap) : jsmap :=
  List.filter (λ kv, negb (bool_decide (k = kv.1))) m.

(** [Map.prototype.keys] (as an array) and [Map.prototype.size] *)
Definition Map_keys (m : jsmap) : list K := map fst m.
Definition Map_size (m : jsmap) : nat := length m.

(** The invariant of a JS [Map]: no key occurs twice. *)
Definition Map_wf (m : jsmap) : Prop := NoDup (Map_keys m).

(** Abstraction to a finite map.  [list_to_map] lets the first
    occurrence win, as [Map_get] does. *)
Definition to_gmap `{Countable K} (m : jsmap) : gmap K V := list_to_map m.

Definition Map_equiv (m1 m2 : jsmap) : Prop := ∀ k, Map_get k m1 = Map_get k m2.

(** ** Lemmas *)

Lemma Map_get_cons k k' v m :
  Map_get k ((k', v) :: m) = if decide (k = k') then Some v else Map_get k m.
Proof. done. Qed.

Lemma Map_get_set_eq k v m : Map_get k (Map_set k v m) = Some v.
Proof.
  induction m as [|[k' v'] m IH]; simpl; [by rewrite decide_True|].
  destruct (decide (k = k')) as [->|Hne]; simpl.
  - by rewrite decide_True.
  - by rewrite decide_False.
Qed.

Lemma Map_get_set_ne k k' v m : k ≠ k' → Map_get k' (Map_set k v m) = Map_get k' m.
Proof.
  intros Hne. induction m as [|[k1 v1] m IH]; simpl.
  - by rewrite decide_False.
  - destruct (decide (k = k1)) as [->|Hne1]; simpl;
      destruct (decide (k' = k1)); congruence.
Qed.

Lemma Map_get_delete_eq k m : Map_get k (Map_delete k m) = None.
Proof.
  induction m as [|[k1 v1] m IH]; [done|]. unfold Map_delete in *; simpl.
  case_bool_decide; simpl; [done|]. by rewrite decide_False.
Qed.

Lemma Map_get_delete_ne k k' m : k ≠ k' → Map_get k' (Map_delete k m) = Map_get k' m.
Proof.
  intros Hne. induction m as [|[k1 v1] m IH]; [done|]. unfold Map_delete in *; simpl.
  case_bool_decide as Hk; simpl in *.
  - subst. by rewrite decide_False.
  - by destruct (decide (k' = k1)).
Qed.

Lemma Map_get_Some_in k v m : Map_get k m = Some v → (k, v) ∈ m.
Proof.
  induction m as [|[k1 v1] m IH]; simpl; [done|].
  destruct (decide (k = k1)) as [->|]; [intros [= ->]; left|intros; right; auto].
Qed.

Lemma Map_get_None_keys k m : Map_get k m = None ↔ k ∉ Map_keys m.
Proof.
  induction m as [|[k1 v1] m IH]; simpl; [set_solver|].
  destruct (decide (k = k1)) as [->|]; [split; [done|set_solver]|].
  rewrite IH. set_solver.
Qed.

Lemma Map_keys_set_in k v m : k ∈ Map_keys m → Map_keys (Map_set k v m) = Map_keys m.
Proof.
  induction m as [|[k1 v1] m IH]; simpl; [set_solver|].
  destruct (decide (k = k1)) as [->|Hne]; simpl; [done|].
  intros Hin. rewrite IH; [done|set_solver].
Qed.

Lemma Map_keys_set_new k v m : k ∉ Map_keys m → Map_keys (Map_set k v m) = Map_keys m ++ [k].
Proof.
  induction m as [|[k1 v1] m IH]; simpl; [done|].
  destruct (decide (k = k1)) as [->|Hne]; simpl; [set_solver|].
  intros Hin. rewrite IH; [done|set_solver].
Qed.

Lemma Map_keys_delete k m : Map_keys (Map_delete k m) = List.filter (λ k', negb (bool_decide (k = k'))) (Map_keys m).
Proof.
  induction m as [|[k1 v1] m IH]; [done|]. unfold Map_delete, Map_keys in *; simpl.
  case_bool_decide; simpl; by rewrite IH.
Qed.

Lemma Map_set_wf k v m : Map_wf m → Map_wf (Map_set k v m).
Proof.
  unfold Map_wf. intros Hwf.
  destruct (decide (k ∈ Map_keys m)) as [Hin|Hnin].
  - by rewrite Map_keys_set_in.
  - rewrite Map_keys_set_new; [|done]. apply NoDup_app. split; [done|].
    split; [set_solver|apply NoDup_singleton].
Qed.

Lemma Map_delete_wf k m : Map_wf m → Map_wf (Map_delete k m).
Proof.
  unfold Map_wf. rewrite Map_keys_delete. intros Hwf.
  apply NoDup_ListNoDup. apply List.NoDup_filter. by apply NoDup_ListNoDup.
Qed.

Lemma Map_wf_in_get key v m : Map_wf m → In (key, v) m → Map_get key m = Some v.
Proof.
  unfold Map_wf, Map_keys. induction m as [|[k1 v1] m IH]; simpl; [done|].
  intros Hnd Hin. apply NoDup_cons in Hnd as [Hk Hnd].
  destruct (decide (key = k1)) as [->|Hne].
  - destruct Hin as [[=->]|Hin]; [done|].
    exfalso. apply Hk. apply list_elem_of_fmap. exists (k1, v).
    split; [done|]. by apply list_elem_of_In.
  - destruct Hin as [[=]|Hin]; [done|]. auto.
Qed.

Lemma Map_keys_filter_sub p m k : k ∈ Map_keys (List.filter p m) → k ∈ Map_keys m.
Proof.
  unfold Map_keys. rewrite !list_elem_of_fmap. intros [kv [-> Hin]].
  exists kv. split; [done|]. apply list_elem_of_In in Hin. apply list_elem_of_In.
  by apply filter_In in Hin as [? _].
Qed.

Lemma Map_filter_wf p m : Map_wf m → Map_wf (List.filter p m).
Proof.
  unfold Map_wf. induction m as [|[k v] m IH]; simpl; [done|].
  intros Hnd. apply NoDup_cons in Hnd as [Hk Hnd].
  destruct (p (k, v)); simpl; [|auto].
  apply NoDup_cons. split; [|auto]. intros Hin. by apply Hk, (Map_keys_filter_sub p).
Qed.

Lemma Map_get_filter p k m :
  Map_wf m →
  Map_get k (List.filter p m) =
    match Map_get k m with Some v => if p (k, v) then Some v else None | None => None end.
Proof.
  unfold Map_wf. induction m as [|[k1 v1] m IH]; simpl; [done|].
  intros Hnd. apply NoDup_cons in Hnd as [Hk Hnd].
  destruct (decide (k = k1)) as [->|Hne].
  - destruct (p (k1, v1)); simpl; [by rewrite decide_True|].
    rewrite IH by done. destruct (Map_get k1 m) eqn:Hg; [|done].
    exfalso. apply Hk. apply Map_get_Some_in in Hg.
    apply list_elem_of_fmap. by exists (k1, v).
  - destruct (p (k1, v1)); simpl; [rewrite decide_False by done|]; auto.
Qed.

Lemma Map_keys_fmap m : Map_keys m = m.*1.
Proof. induction m as [|kv m IH]; simpl; [done|]. unfold Map_keys in *. by rewrite IH. Qed.

Lemma Map_nil_wf : Map_wf [].
Proof. constructor. Qed.

(** ** Refinement of [gmap] *)
Section Refinement.
Context `{Countable K}.

Lemma Map_get_to_gmap k m : Map_get k m = to_gmap m !! k.
Proof.
  induction m as [|[k1 v1] m IH]; simpl; [by rewrite lookup_empty|].
  unfold to_gmap in *. simpl. destruct (decide (k = k1)) as [->|Hne].
  - by rewrite lookup_insert_eq.
  - by rewrite lookup_insert_ne.
Qed.

Lemma to_gmap_ext m1 m2 : Map_equiv m1 m2 ↔ to_gmap m1 = to_gmap m2.
Proof.
  unfold Map_equiv. setoid_rewrite Map_get_to_gmap. split; [apply map_eq|by intros ->].
Qed.

Lemma to_gmap_set k v m : to_gmap (Map_set k v m) = <[k:=v]> (to_gmap m).
Proof.
  apply map_eq. intros k'. rewrite <- !Map_get_to_gmap.
  destruct (decide (k = k')) as [->|Hne].
  - by rewrite Map_get_set_eq, lookup_insert_eq.
  - rewrite Map_get_set_ne, lookup_insert_ne, Map_get_to_gmap; done.
Qed.

Lemma to_gmap_delete k m : to_gmap (Map_delete k m) = delete k (to_gmap m).
Proof.
  apply map_eq. intros k'. rewrite <- !Map_get_to_gmap.
  destruct (decide (k = k')) as [->|Hne].
  - by rewrite Map_get_delete_eq, lookup_delete_eq.
  - rewrite Map_get_delete_ne, lookup_delete_ne, Map_get_to_gmap; done.
Qed.

Lemma to_gmap_size m : Map_wf m → size (to_gmap m) = Map_size m.
Proof.
  unfold Map_wf, to_gmap, Map_size. rewrite Map_keys_fmap. apply map_size_list_to_map.
Qed.

Lemma to_gmap_dom m : dom (to_gmap m) = list_to_set (Map_keys m).
Proof.
  apply set_eq. intros k. rewrite elem_of_dom, elem_of_list_to_set, <- Map_get_to_gmap.
  destruct (Map_get k m) eqn:Hg; split; intros H'; try done.
  - apply dec_stable. intros Hn. apply Map_get_None_keys in Hn. congruence.
  - apply Map_get_None_keys in Hg. done.
Qed.
End Refinement.

(** ** [Map_equiv] is a setoid and the operations respect it *)

#[export] Instance Map_equiv_equivalence : Equivalence Map_equiv.
Proof.
  split; unfold Map_equiv; [done|by intros ???|intros ??? H1 H2 k; by rewrite H1].
Qed.

#[export] Instance Map_get_proper k : Proper (Map_equiv ==> eq) (Map_get k).
Proof. intros m1 m2 Hm. apply Hm. Qed.

#[export] Instance Map_set_proper k v : Proper (Map_equiv ==> Map_equiv) (Map_set k v).
Proof.
  intros m1 m2 Hm k'. destruct (decide (k = k')) as [->|Hne].
  - by rewrite !Map_get_set_eq.
  - by rewrite !Map_get_set_ne.
Qed.

Lemma Map_set_commute k1 k2 v1 v2 m :
  k1 ≠ k2 → Map_equiv (Map_set k1 v1 (Map_set k2 v2 m)) (Map_set k2 v2 (Map_set k1 v1 m)).
Proof.
  intros Hne k. destruct (decide (k1 = k)) as [<-|H1]; [|destruct (decide (k2 = k)) as [<-|H2]].
  - rewrite Map_get_set_eq, Map_get_set_ne, Map_get_set_eq; done.
  - rewrite Map_get_set_ne, Map_get_set_eq, Map_get_set_eq; done.
  - rewrite !Map_get_set_ne; done.
Qed.

#[export] Instance Map_delete_proper k : Proper (Map_equiv ==> Map_equiv) (Map_delete k).
Proof.
  intros m1 m2 Hm k'. destruct (decide (k = k')) as [->|Hne].
  - by rewrite !Map_get_delete_eq.
  - by rewrite !Map_get_delete_ne.
Qed.
End JsMap.

Arguments jsmap : clear implicits.

#[export] Hint Resolve Map_set_wf Map_delete_wf Map_nil_wf : medi.
#[export] Hint Rewrite @Map_get_set_eq @Map_get_delete_eq : medi_rw.
