(* ===== verification/Config.v ===== *)
(** * Configuration: [src/src/constants/api.js]

    [API_CONFIG] reads two environment variables; [process.env.X || d]
    falls back to [d] when the variable is unset or the empty string
    (both falsy).  The endpoint table and the default currency are plain
    constants.  [COINS_PER_PAGE] and [HIGHLIGHTS_COUNT] are computed by
    [parseInt], which needs the numerals of [JsValue]: they are defined in
    [ParseInt] over the same [env].  No other module reads them (the table
    hard-codes 50 and the highlights hard-code 5).  [SUPPORTED_CURRENCIES]
    and [ORDER_OPTIONS] are constants no module reads; [ORDER_OPTIONS] is
    kept to compare it with the orders the table's select offers. *)

From S2P Require Import Prelude.
From stdpp Require Export strings.
From Stdlib Require Export String.

Open Scope string_scope.

(** The part of [process.env] the configuration reads. *)
Record env := mk_env {
  REACT_APP_COINGECKO_API_BASE_URL : option string;
  REACT_APP_COINGECKO_API_KEY : option string;
  REACT_APP_COINS_PER_PAGE : option string;
  REACT_APP_HIGHLIGHTS_COUNT : option string;
}.

Record api_config := mk_api_config {
  BASE_URL : string;
  API_KEY : option string;
  REQUEST_TIMEOUT : Z;
  CACHE_DURATION : Z;
}.

(** [a || b] on an optional string: [undefined] and [""] are falsy. *)
Definition or_default (o : option string) (d : string) : string :=
  match o with
  | Some s => if String.eqb s "" then d else s
  | None => d
  end.

Definition API_CONFIG (e : env) : api_config := {|
  BASE_URL := or_default (REACT_APP_COINGECKO_API_BASE_URL e) "https://api.coingecko.com/api/v3";
  API_KEY := REACT_APP_COINGECKO_API_KEY e;
  REQUEST_TIMEOUT := 10000;
  CACHE_DURATION := 60000;
|}.

Definition COINS_MARKETS : string := "/coins/markets".
Definition TRENDING : string := "/search/trending".
Definition COIN_DETAIL (id : string) : string := "/coins/" ++ id.

Definition SUPPORTED_CURRENCIES : list string := ["usd"; "eur"; "btc"].
Definition DEFAULT_CURRENCY : string := "usd".

Definition ORDER_OPTIONS : list string :=
  ["market_cap_desc"; "market_cap_asc"; "volume_desc"; "volume_asc"; "id_asc"; "id_desc";
   "price_asc"; "price_desc"; "percent_change_24h_asc"; "percent_change_24h_desc"].

(** The environment of a build with no variables set. *)
Definition empty_env : env := mk_env None None None None.
