(* ===== verification/Cache.v ===== *)
(** * The TTL cache: [src/src/services/cacheService.js]

    [createCacheService] closes over one [Map] from string keys to entries
    [{data, timestamp, ttl}].  The state is that map ([cache_state], a
    [JsMap.jsmap]); [Date.now()] is the explicit argument [now] of every
    operation that reads the clock.  [get] evicts an expired entry as a side
    effect, [cleanup] collects the expired keys first and deletes them
    afterwards, as the source does.

    Theorems: a [get] within the TTL of a [set] returns the stored value and
    one past it returns nothing and evicts; [get] never returns a stale
    value; [cleanup] removes exactly the expired entries and is idempotent;
    every exported operation preserves the [Map] invariant; and the
    implementation refines an abstract TTL map (a [gmap] of values with
    their expiry instant). *)

From S2P Require Import Prelude JsMap Config.
From stdpp Require Import gmap fin_maps.
#[local] Set Warnings "-clear-no-such-hyp".
Local Open Scope Z_scope.

(** [API_CONFIG.CACHE_DURATION] does not depend on the environment. *)
Definition default_ttl : Z := CACHE_DURATION (API_CONFIG empty_env).

Section Cache.
Context {V : Type}.

(** The object [{ data, timestamp: Date.now(), ttl }] built by [set]. *)
Record entry := mk_entry {
  data : V;
  timestamp : Z;
  ttl : Z;
}.

Definition cache_state := jsmap string entry.

(** [now - entry.timestamp > entry.ttl] *)
Definition entry_expired (now : Z) (e : entry) : bool :=
  Z.ltb (ttl e) (now - timestamp e).

(** [isExpired(key)]: a missing key counts as expired. *)
Definition isExpired (now : Z) (key : string) (c : cache_state) : bool :=
  match Map_get key c with
  | None => true
  | Some e => entry_expired now e
  end.

(** [deleteKey(key)] *)
Definition deleteKey (key : string) (c : cache_state) : cache_state :=
  Map_delete key c.

(** [get(key)]: returns the data and the (possibly evicted) state. *)
Definition get (now : Z) (key : string) (c : cache_state) : option V * cache_state :=
  match Map_get key c with
  | None => (None, c)
  | Some e =>
      if isExpired now key c then (None, deleteKey key c) else (Some (data e), c)
  end.

(** [set(key, data, ttl = API_CONFIG.CACHE_DURATION)]: an absent [ttl]
    argument ([None]) takes the default. *)
Definition set (now : Z) (key : string) (d : V) (ttl_arg : option Z)
    (c : cache_state) : cache_state :=
  let t := match ttl_arg with Some t => t | None => default_ttl end in
  Map_set key (mk_entry d now t) c.

(** [clear()] *)
Definition clear (c : cache_state) : cache_state := [].

(** [getStats()]: [{ size, keys }] in insertion order. *)
Definition getStats (c : cache_state) : nat * list string :=
  (Map_size c, Map_keys c).

(** [cleanup()]: collect the expired keys while iterating [cache.keys()],
    then delete them one by one. *)
Definition cleanup (now : Z) (c : cache_state) : cache_state :=
  let expiredKeys := List.filter (λ k, isExpired now k c) (Map_keys c) in
  fold_left (λ c' k, deleteKey k c') expiredKeys c.

(** ** The exported interface as one step function

    [createCacheService] returns [{ get, set, delete, clear, isExpired,
    getStats, cleanup }]; a call is a [cache_op], its return value a
    [cache_out]. *)
Inductive cache_op :=
  | OpGet (now : Z) (key : string)
  | OpSet (now : Z) (key : string) (d : V) (ttl_arg : option Z)
  | OpDelete (key : string)
  | OpClear
  | OpIsExpired (now : Z) (key : string)
  | OpGetStats
  | OpCleanup (now : Z).

Inductive cache_out :=
  | OutUnit
  | OutData (o : option V)
  | OutBool (b : bool)
  | OutStats (size : nat) (keys : list string).

Definition cache_exec (op : cache_op) (c : cache_state) : cache_out * cache_state :=
  match op with
  | OpGet now k => let '(o, c') := get now k c in (OutData o, c')
  | OpSet now k d t => (OutUnit, set now k d t c)
  | OpDelete k => (OutUnit, deleteKey k c)
  | OpClear => (OutUnit, clear c)
  | OpIsExpired now k => (OutBool (isExpired now k c), c)
  | OpGetStats => let '(n, ks) := getStats c in (OutStats n ks, c)
  | OpCleanup now => (OutUnit, cleanup now c)
  end.

(** States reachable from [new Map()] by calls of the interface. *)
Inductive reachable : cache_state → Prop :=
  | reach_init : reachable []
  | reach_step op c : reachable c → reachable (cache_exec op c).2.

(** ** Helper lemmas *)

Lemma fold_deleteKey ks c :
  fold_left (λ c' k, deleteKey k c') ks c =
  List.filter (λ kv, negb (bool_decide (kv.1 ∈ ks))) c.
Proof.
  revert c. induction ks as [|k ks IH]; intros c; simpl.
  - induction c as [|kv c IHc]; simpl; [done|]. by rewrite <- IHc.
  - rewrite IH. unfold deleteKey, Map_delete. rewrite filter_filter_andb.
    apply List.filter_ext. intros [k' e]; simpl.
    repeat case_bool_decide; set_solver.
Qed.

Lemma cleanup_filter now c :
  Map_wf c →
  cleanup now c = List.filter (λ kv, negb (entry_expired now kv.2)) c.
Proof.
  intros Hwf. unfold cleanup. rewrite fold_deleteKey.
  apply List.filter_ext_in. intros [k e] Hin; simpl. f_equal.
  assert (Hk : isExpired now k c = entry_expired now e).
  { unfold isExpired. by rewrite (Map_wf_in_get k e c Hwf Hin). }
  assert (Hkeys : In k (Map_keys c)) by (apply in_map_iff; by exists (k, e)).
  destruct (entry_expired now e) eqn:Hx;
    [apply bool_decide_eq_true_2|apply bool_decide_eq_false_2];
    rewrite list_elem_of_In, filter_In; [done|intros [_ ?]; congruence].
Qed.

Lemma cleanup_wf now c : Map_wf c → Map_wf (cleanup now c).
Proof. intros Hwf. rewrite cleanup_filter by done. by apply Map_filter_wf. Qed.

Lemma cleanup_get now k c :
  Map_wf c →
  Map_get k (cleanup now c) =
    match Map_get k c with
    | Some e => if entry_expired now e then None else Some e
    | None => None
    end.
Proof.
  intros Hwf. rewrite cleanup_filter; [|done]. rewrite Map_get_filter; [|done].
  destruct (Map_get k c) as [e|]; [|done]. simpl. by destruct (entry_expired now e).
Qed.

Lemma set_get_entry now k d t c :
  Map_get k (set now k d (Some t) c) = Some (mk_entry d now t).
Proof. apply Map_get_set_eq. Qed.

Lemma cache_exec_wf op c : Map_wf c → Map_wf (cache_exec op c).2.
Proof.
  intros Hwf. destruct op; simpl; unfold get, set, deleteKey, clear.
  - destruct (Map_get key c); [destruct (isExpired now key c)|]; simpl; auto with medi.
  - auto with medi.
  - auto with medi.
  - auto with medi.
  - done.
  - done.
  - by apply cleanup_wf.
Qed.

Lemma entry_expired_spec now e :
  entry_expired now e = false ↔ now - timestamp e ≤ ttl e.
Proof. unfold entry_expired. destruct (Z.ltb_spec (ttl e) (now - timestamp e)); split; intros ?; try done; lia. Qed.
End Cache.

Arguments entry : clear implicits.
Arguments cache_state : clear implicits.
Arguments cache_op : clear implicits.
Arguments cache_out : clear implicits.

#[export] Hint Resolve cleanup_wf cache_exec_wf : medi.

(** ** Abstract specification of a TTL cache

    What the service promises (spec section 4.2): a finite map from keys
    to a value and the instant it expires, [expiresAt = now + ttl]; [get]
    serves a value while [now <= expiresAt] and evicts it afterwards;
    [cleanup] keeps exactly the entries not yet expired.  The order of the
    keys is not part of the contract: [getStats] promises the set of keys. *)
Section Spec.
Context {V : Type}.

Inductive spec_out :=
  | SOutUnit
  | SOutData (o : option V)
  | SOutBool (b : bool)
  | SOutStats (size : nat) (keys : gset string).

Definition ttl_or_default (t : option Z) : Z :=
  match t with Some t => t | None => default_ttl end.

Definition spec_exec (op : cache_op V) (σ : gmap string (V * Z)) : spec_out * gmap string (V * Z) :=
  match op with
  | OpGet now k =>
      match σ !! k with
      | None => (SOutData None, σ)
      | Some (v, x) => if Z.leb now x then (SOutData (Some v), σ) else (SOutData None, delete k σ)
      end
  | OpSet now k d t => (SOutUnit, <[k := (d, now + ttl_or_default t)]> σ)
  | OpDelete k => (SOutUnit, delete k σ)
  | OpClear => (SOutUnit, ∅)
  | OpIsExpired now k =>
      (SOutBool (match σ !! k with None => true | Some (_, x) => Z.ltb x now end), σ)
  | OpGetStats => (SOutStats (size σ) (dom σ), σ)
  | OpCleanup now => (SOutUnit, filter (λ kx, now ≤ kx.2.2) σ)
  end.

(** The abstraction: forget insertion order, keep value and expiry. *)
Definition abs (c : cache_state V) : gmap string (V * Z) :=
  (λ e, (data e, timestamp e + ttl e)) <$> to_gmap c.

Definition abs_out (o : cache_out V) : spec_out :=
  match o with
  | OutUnit => SOutUnit
  | OutData o => SOutData o
  | OutBool b => SOutBool b
  | OutStats n ks => SOutStats n (list_to_set ks)
  end.

Lemma abs_lookup k c :
  abs c !! k = (λ e, (data e, timestamp e + ttl e)) <$> Map_get k c.
Proof. unfold abs. by rewrite lookup_fmap, Map_get_to_gmap. Qed.

Lemma abs_delete k c : abs (deleteKey k c) = delete k (abs c).
Proof. unfold abs, deleteKey. by rewrite to_gmap_delete, fmap_delete. Qed.

Lemma abs_set now k d t c :
  abs (set now k d t c) = <[k := (d, now + ttl_or_default t)]> (abs c).
Proof. unfold abs, set. rewrite to_gmap_set, fmap_insert. by destruct t. Qed.

Lemma abs_cleanup now c :
  Map_wf c → abs (cleanup now c) = filter (λ kx, now ≤ kx.2.2) (abs c).
Proof.
  intros Hwf. apply map_eq. intros k.
  rewrite map_lookup_filter, !abs_lookup, cleanup_get by done.
  destruct (Map_get k c) as [e|]; simpl; [|done].
  unfold entry_expired. destruct (Z.ltb_spec (ttl e) (now - timestamp e)); simpl;
    [rewrite option_guard_False|rewrite option_guard_True]; simpl; (done || lia).
Qed.

Lemma isExpired_abs now k c :
  isExpired now k c = match abs c !! k with None => true | Some (_, x) => Z.ltb x now end.
Proof.
  rewrite abs_lookup. unfold isExpired. destruct (Map_get k c) as [e|]; simpl; [|done].
  unfold entry_expired. destruct (Z.ltb_spec (ttl e) (now - timestamp e));
    destruct (Z.ltb_spec (timestamp e + ttl e) now); (done || lia).
Qed.
End Spec.

Arguments spec_out : clear implicits.

(** A fresh entry is served: the common core of the hit theorems. *)
Lemma get_set_within_ttl {V} (c : cache_state V) now now' k v t :
  now' - now ≤ t →
  get now' k (set now k v (Some t) c) = (Some v, set now k v (Some t) c).
Proof.
  intros Hle. unfold get, isExpired. rewrite set_get_entry.
  assert (entry_expired now' (mk_entry v now t) = false) as ->
    by (apply entry_expired_spec; simpl; lia).
  done.
Qed.

Lemma set_default_ttl {V} now k (v : V) c : set now k v None c = set now k v (Some default_ttl) c.
Proof. reflexivity. Qed.

(** ** Properties of the cache *)

(** C1 (functional). A [get] at most [ttl] milliseconds after [set(k, v, ttl)]
    returns [v] and leaves the cache unchanged; in particular the boundary
    instant [now + ttl] still hits. *)
Theorem cache_get_fresh {V} (c : cache_state V) now now' k v t :
  now' - now ≤ t →
  get now' k (set now k v (Some t) c) = (Some v, set now k v (Some t) c).
Proof. apply get_set_within_ttl. Qed.

Lemma cache_get_fresh_witness :
  (60000 - 0 ≤ 60000)%Z ∧
  get 60000 "trending_coins" (set 0 "trending_coins" 7%nat (Some 60000) [])
    = (Some 7%nat, set 0 "trending_coins" 7%nat (Some 60000) []).
Proof. split; [lia|]. apply (cache_get_fresh [] 0 60000); lia. Defined.

(** C2 (functional). A [get] more than [ttl] milliseconds after
    [set(k, v, ttl)] returns nothing and evicts the entry: the key is no
    longer in the map. *)
Theorem cache_get_expired {V} (c : cache_state V) now now' k v t :
  now' - now > t →
  get now' k (set now k v (Some t) c) = (None, deleteKey k (set now k v (Some t) c)) ∧
  Map_get k (deleteKey k (set now k v (Some t) c)) = None.
Proof.
  intros Hgt. split; [|apply Map_get_delete_eq].
  unfold get, isExpired. rewrite set_get_entry.
  unfold entry_expired; simpl. destruct (Z.ltb_spec t (now' - now)); [done|lia].
Qed.

Lemma cache_get_expired_witness :
  (60001 - 0 > 60000)%Z ∧
  get 60001 "trending_coins" (set 0 "trending_coins" 7%nat (Some 60000) [])
    = (None, deleteKey "trending_coins" (set 0 "trending_coins" 7%nat (Some 60000) [])) ∧
  Map_get "trending_coins" (deleteKey "trending_coins" (set 0 "trending_coins" 7%nat (Some 60000) []))
    = None.
Proof. split; [lia|]. apply (cache_get_expired [] 0 60001); lia. Defined.

(** C3 (safety). [get] never returns a stale value: whatever it returns is
    the data of the key's entry, whose age [now - timestamp] is at most its
    [ttl], and a hit does not change the cache. *)
Theorem cache_get_never_stale {V} (c c' : cache_state V) now k v :
  get now k c = (Some v, c') →
  c' = c ∧ ∃ e, Map_get k c = Some e ∧ data e = v ∧ now - timestamp e ≤ ttl e.
Proof.
  unfold get, isExpired. destruct (Map_get k c) as [e|] eqn:Hg; [|done].
  destruct (entry_expired now e) eqn:Hx; [done|]. intros [= <- ->].
  split; [done|]. exists e. split; [done|]. split; [done|].
  by apply entry_expired_spec.
Qed.

Lemma cache_get_never_stale_witness :
  get 100 "k" (set 50 "k" 3%nat (Some 60) []) = (Some 3%nat, set 50 "k" 3%nat (Some 60) []) ∧
  (set 50 "k" 3%nat (Some 60) [] = set 50 "k" 3%nat (Some 60) [] ∧
   ∃ e, Map_get "k" (set 50 "k" 3%nat (Some 60) []) = Some e ∧ data e = 3%nat ∧
        100 - timestamp e ≤ ttl e).
Proof. split; [reflexivity|]. apply cache_get_never_stale. reflexivity. Defined.

(** [cleanup(now)] removes exactly the entries whose age
    exceeds their TTL at [now] and keeps every other entry unchanged. *)
Theorem cleanup_exact {V} (c : cache_state V) now k :
  Map_wf c →
  Map_get k (cleanup now c) =
    match Map_get k c with
    | Some e => if Z.ltb (ttl e) (now - timestamp e) then None else Some e
    | None => None
    end.
Proof. intros Hwf. rewrite cleanup_get by done. reflexivity. Qed.

Lemma cleanup_exact_witness :
  Map_wf (set 0 "a" 1%nat (Some 10) (set 5 "b" 2%nat None [])) ∧
  Map_get "a" (cleanup 20 (set 0 "a" 1%nat (Some 10) (set 5 "b" 2%nat None []))) =
    match Map_get "a" (set 0 "a" 1%nat (Some 10) (set 5 "b" 2%nat None [])) with
    | Some e => if Z.ltb (ttl e) (20 - timestamp e) then None else Some e
    | None => None
    end.
Proof.
  assert (Hwf : Map_wf (set 0 "a" 1%nat (Some 10) (set 5 "b" 2%nat None [])))
    by (unfold Map_wf; vm_compute; repeat constructor; set_solver).
  split; [exact Hwf|]. apply cleanup_exact. exact Hwf.
Defined.

(** [cleanup] is idempotent: a second sweep at the same
    instant finds nothing left to remove. *)
Theorem cleanup_idempotent {V} (c : cache_state V) now :
  Map_wf c → cleanup now (cleanup now c) = cleanup now c.
Proof.
  intros Hwf. rewrite (cleanup_filter now (cleanup now c)) by auto with medi.
  rewrite cleanup_filter by done. apply filter_idem.
Qed.

Lemma cleanup_idempotent_witness :
  Map_wf (set 0 "a" 1%nat (Some 10) []) ∧
  cleanup 20 (cleanup 20 (set 0 "a" 1%nat (Some 10) [])) = cleanup 20 (set 0 "a" 1%nat (Some 10) []).
Proof.
  assert (Hwf : Map_wf (set 0 "a" 1%nat (Some 10) [])) by (repeat constructor; set_solver).
  split; [exact Hwf|]. apply cleanup_idempotent. exact Hwf.
Defined.

(** Every state reachable from [new Map()] through the
    service's interface keeps the [Map] invariant: no key twice. *)
Theorem cache_reachable_wf {V} (c : cache_state V) : reachable c → Map_wf c.
Proof. induction 1; auto with medi. Qed.

Lemma cache_reachable_wf_witness :
  reachable (cache_exec (OpSet 0 "k" 1%nat None) []).2 ∧
  Map_wf (cache_exec (OpSet 0 "k" 1%nat None) []).2.
Proof.
  assert (Hr : reachable (cache_exec (OpSet 0 "k" 1%nat None) []).2)
    by (apply reach_step, reach_init).
  split; [exact Hr|]. apply cache_reachable_wf. exact Hr.
Defined.

(** Two [set]s on the same key: the last write wins, and
    the first leaves no trace (not even in the key order). *)
Theorem cache_set_last_write_wins {V} (c : cache_state V) now1 now2 k v1 v2 t1 t2 :
  set now2 k v2 t2 (set now1 k v1 t1 c) = set now2 k v2 t2 c.
Proof.
  unfold set. induction c as [|[k' e'] c IH]; simpl.
  - by rewrite decide_True.
  - destruct (decide (k = k')) as [->|Hne]; simpl.
    + by rewrite decide_True.
    + rewrite decide_False by done. by rewrite IH.
Qed.

(** C4 (refinement). Each call of the service's interface, on a cache
    satisfying the [Map] invariant, is simulated by the abstract TTL map:
    the abstraction of the new state is the specification's new state and
    the returned value is the specification's answer. *)
Theorem cache_refines {V} (op : cache_op V) (c : cache_state V) :
  Map_wf c →
  spec_exec op (abs c) = (abs_out (cache_exec op c).1, abs (cache_exec op c).2).
Proof.
  intros Hwf. destruct op as [now k|now k d t|k| |now k| |now]; simpl.
  - rewrite abs_lookup. unfold get.
    destruct (Map_get k c) as [e|] eqn:Hg; simpl; [|done].
    rewrite isExpired_abs, abs_lookup, Hg. simpl.
    destruct (Z.leb_spec now (timestamp e + ttl e));
      destruct (Z.ltb_spec (timestamp e + ttl e) now); simpl; try lia;
      [done|by rewrite abs_delete].
  - by rewrite abs_set.
  - by rewrite abs_delete.
  - unfold abs, clear, to_gmap. simpl. by rewrite fmap_empty.
  - by rewrite isExpired_abs.
  - unfold abs. by rewrite map_size_fmap, dom_fmap_L, to_gmap_size, to_gmap_dom.
  - by rewrite abs_cleanup.
Qed.

Lemma cache_refines_witness :
  Map_wf (set 0 "k" 1%nat None []) ∧
  spec_exec (OpCleanup 70000) (abs (set 0 "k" 1%nat None [])) =
    (abs_out (cache_exec (OpCleanup 70000) (set 0 "k" 1%nat None [])).1,
     abs (cache_exec (OpCleanup 70000) (set 0 "k" 1%nat None [])).2).
Proof.
  assert (Hwf : Map_wf (set 0 "k" 1%nat None [])) by (repeat constructor; set_solver).
  split; [exact Hwf|]. exact (cache_refines (OpCleanup 70000) _ Hwf).
Defined.
