(* ===== verification/JsValue.v ===== *)
(** * JavaScript values as the data layer sees them

    The services manipulate parsed JSON ([response.json()]) with plain JS
    operators.  This file gives those operators their JS meaning:
    - [json]: the values [JSON.parse] produces; a property read yields
      [option json], [None] being [undefined];
    - [js_error]: an [Error] object with its [name], [message] and the
      [status]/[code] fields that [createApiError] adds;
    - [truthy] ([if (x)], [x || y]), [get_prop] ([x.p], a [TypeError] on
      [null] and [undefined]);
    - the string methods [toLowerCase], [trim], [includes] on Latin-1
      strings (Stdlib [string] is a list of 8-bit characters, read as the
      code points U+0000..U+00FF). *)

From S2P Require Import Prelude Config.
From Stdlib Require Import QArith Ascii.
#[local] Set Warnings "-clear-no-such-hyp -register-all".
Local Open Scope string_scope.

(** ** JSON values *)

Inductive json : Type :=
  | JNull
  | JBool (b : bool)
  | JNum (q : Q)
  | JStr (s : string)
  | JArr (l : list json)
  | JObj (fields : list (string * json)).

(** A JS value read out of JSON: [None] is [undefined]. *)
Abbreviation jsval := (option json).

(** An [Error] object.  [createApiError] sets [name = 'ApiError'] and the
    extra properties [status] and [code]; errors raised by the runtime
    ([TypeError], [SyntaxError], the fetch [AbortError]) have neither.
    [err_message] is the value passed to [new Error(message)]; the
    [message] property is its [ToString]: a test of [err.message] is
    [tostring_nonempty] of the value, and a view shows the value. *)
Record js_error := mk_error {
  err_name : string;
  err_message : json;
  err_status : option Z;
  err_code : option string;
}.

Definition type_error (msg : string) : js_error := mk_error "TypeError" (JStr msg) None None.

(** ** Truthiness: [ToBoolean] *)
Definition truthy (v : jsval) : bool :=
  match v with
  | None | Some JNull => false
  | Some (JBool b) => b
  | Some (JNum q) => negb (Qeq_bool q 0)
  | Some (JStr s) => negb (String.eqb s "")
  | Some (JArr _) | Some (JObj _) => true
  end.

(** [ToString(v)] is not the empty string: [err.message || d] on the
    message of [new Error(v)].  An array joins its elements with commas,
    [null] elements giving [""]. *)
Fixpoint tostring_nonempty (j : json) : bool :=
  match j with
  | JStr s => negb (String.eqb s "")
  | JArr [] => false
  | JArr [JNull] => false
  | JArr [x] => tostring_nonempty x
  | _ => true
  end.

(** [a || b]: [a] when truthy, else [b]. *)
Definition js_or (a b : jsval) : jsval := if truthy a then a else b.

(** ** Property read [v.p]

    On an object, the first field named [p] ([JSON.parse] keeps one field
    per name); [length] on strings and arrays; [undefined] for any other
    property of a primitive or an array; a [TypeError] on [null] and
    [undefined].  The property names the services read ([id], [symbol],
    [coins], [item], [error], [message], ...) are not names of
    [Object.prototype], so the prototype chain is not modelled. *)
Fixpoint assoc (p : string) (fs : list (string * json)) : jsval :=
  match fs with
  | [] => None
  | (k, v) :: fs' =>
      match assoc p fs' with
      | Some x => Some x
      | None => if String.eqb k p then Some v else None
      end
  end.

Definition get_prop (v : jsval) (p : string) : result js_error jsval :=
  match v with
  | None => Err (type_error ("Cannot read properties of undefined (reading '" ++ p ++ "')"))
  | Some JNull => Err (type_error ("Cannot read properties of null (reading '" ++ p ++ "')"))
  | Some (JObj fs) => Ok (assoc p fs)
  | Some (JStr s) =>
      Ok (if String.eqb p "length" then Some (JNum (inject_Z (Z.of_nat (String.length s)))) else None)
  | Some (JArr l) =>
      Ok (if String.eqb p "length" then Some (JNum (inject_Z (Z.of_nat (List.length l)))) else None)
  | Some _ => Ok None
  end.

(** ** Strings *)

(** [String.prototype.toLowerCase] on U+0000..U+00FF: [A-Z] and the Latin-1
    capitals U+00C0..U+00DE except U+00D7 map 32 code points down. *)
Definition lower_char (c : ascii) : ascii :=
  let n := nat_of_ascii c in
  if ((65 <=? n) && (n <=? 90) || (192 <=? n) && (n <=? 222) && negb (n =? 215))%nat
  then ascii_of_nat (n + 32)%nat else c.

Fixpoint toLowerCase (s : string) : string :=
  match s with
  | EmptyString => EmptyString
  | String c s' => String (lower_char c) (toLowerCase s')
  end.

(** The white space and line terminators [trim] removes, restricted to
    U+0000..U+00FF: TAB, LF, VT, FF, CR, SPACE and NO-BREAK SPACE. *)
Definition is_js_space (c : ascii) : bool :=
  let n := nat_of_ascii c in
  ((9 <=? n) && (n <=? 13) || (n =? 32) || (n =? 160))%nat.

Fixpoint trim_start (s : string) : string :=
  match s with
  | EmptyString => EmptyString
  | String c s' => if is_js_space c then trim_start s' else s
  end.

Fixpoint rev_string (s : string) : string :=
  match s with
  | EmptyString => EmptyString
  | String c s' => rev_string s' ++ String c EmptyString
  end.

(** [String.prototype.trim] *)
Definition trim (s : string) : string := rev_string (trim_start (rev_string (trim_start s))).

(** [String.prototype.includes]: some suffix of [s] starts with [t]. *)
Fixpoint includes (s t : string) : bool :=
  String.prefix t s ||
  match s with
  | EmptyString => false
  | String _ s' => includes s' t
  end.

(** ** Numbers: [ToNumber] and the comparisons with [0]

    [coin.priceChangePercentage24h > 0] applies [ToNumber] to whatever the
    adapter copied from the response.  Finite JS numbers are modelled as
    exact rationals (JSON numerals are finite decimals; rounding to binary64
    and overflow to [Infinity] are not modelled); [Infinity] and [NaN] are
    constructors of their own. *)
Inductive num := NFin (q : Q) | NPosInf | NNegInf | NNaN.

Definition num_neg (n : num) : num :=
  match n with
  | NFin q => NFin (- q)
  | NPosInf => NNegInf
  | NNegInf => NPosInf
  | NNaN => NNaN
  end.

(** The value of a digit character in [base] (at most 36). *)
Definition digit_val (base : nat) (c : ascii) : option nat :=
  let n := nat_of_ascii c in
  let d :=
    if ((48 <=? n) && (n <=? 57))%nat then Some (n - 48)%nat
    else if ((97 <=? n) && (n <=? 122))%nat then Some (n - 87)%nat
    else if ((65 <=? n) && (n <=? 90))%nat then Some (n - 55)%nat
    else None in
  match d with Some d => if (d <? base)%nat then Some d else None | None => None end.

(** The longest prefix of digits of [base], and the rest. *)
Fixpoint span_digits (base : nat) (s : string) : list nat * string :=
  match s with
  | EmptyString => ([], EmptyString)
  | String c s' =>
      match digit_val base c with
      | Some d => let '(ds, r) := span_digits base s' in (d :: ds, r)
      | None => ([], s)
      end
  end.

Definition digits_value (base : nat) (ds : list nat) : Z :=
  fold_left (λ acc d, acc * Z.of_nat base + Z.of_nat d)%Z ds 0%Z.

(** [m * 10^e] as a rational. *)
Definition decimal_value (m e : Z) : Q :=
  if (0 <=? e)%Z then inject_Z (m * 10 ^ e) else Qmake m (Z.to_pos (10 ^ (- e))).

(** [ExponentPart] (or nothing): the whole rest must be consumed. *)
Definition parse_exponent (s : string) : option Z :=
  match s with
  | EmptyString => Some 0%Z
  | String c r =>
      if Ascii.eqb c "e" || Ascii.eqb c "E" then
        let '(sgn, r') :=
          match r with
          | String c' r'' =>
              if Ascii.eqb c' "+" then (1%Z, r'')
              else if Ascii.eqb c' "-" then ((-1)%Z, r'') else (1%Z, r)
          | EmptyString => (1%Z, r)
          end in
        let '(ds, rest) := span_digits 10 r' in
        match ds, rest with
        | _ :: _, EmptyString => Some (sgn * digits_value 10 ds)%Z
        | _, _ => None
        end
      else None
  end.

(** [StrUnsignedDecimalLiteral] other than [Infinity]. *)
Definition parse_unsigned_decimal (s : string) : option Q :=
  let '(d1, r1) := span_digits 10 s in
  match r1 with
  | String c r2 =>
      if Ascii.eqb c "." then
        let '(d2, r3) := span_digits 10 r2 in
        match app d1 d2 with
        | [] => None
        | ds => e ← parse_exponent r3;
                Some (decimal_value (digits_value 10 ds) (e - Z.of_nat (List.length d2)))
        end
      else match d1 with
           | [] => None
           | _ => e ← parse_exponent r1; Some (decimal_value (digits_value 10 d1) e)
           end
  | EmptyString =>
      match d1 with
      | [] => None
      | _ => Some (decimal_value (digits_value 10 d1) 0)
      end
  end.

Definition unsigned_or_infinity (s : string) : num :=
  if String.eqb s "Infinity" then NPosInf
  else match parse_unsigned_decimal s with Some q => NFin q | None => NNaN end.

(** [StrDecimalLiteral]: an optional sign. *)
Definition parse_decimal (s : string) : num :=
  match s with
  | String c r =>
      if Ascii.eqb c "+" then unsigned_or_infinity r
      else if Ascii.eqb c "-" then num_neg (unsigned_or_infinity r)
      else unsigned_or_infinity s
  | EmptyString => NNaN
  end.

(** [0x], [0o], [0b] literals: no sign, at least one digit, nothing after. *)
Definition parse_radix (base : nat) (r : string) : num :=
  match span_digits base r with
  | ((_ :: _) as ds, EmptyString) => NFin (inject_Z (digits_value base ds))
  | _ => NNaN
  end.

Definition radix_of (c : ascii) : option nat :=
  if Ascii.eqb c "x" || Ascii.eqb c "X" then Some 16%nat
  else if Ascii.eqb c "o" || Ascii.eqb c "O" then Some 8%nat
  else if Ascii.eqb c "b" || Ascii.eqb c "B" then Some 2%nat
  else None.

(** [StringToNumber]: trimmed; empty is [0]. *)
Definition string_to_number (s : string) : num :=
  match trim s with
  | EmptyString => NFin 0
  | String c0 (String c r) as t =>
      if Ascii.eqb c0 "0" then
        match radix_of c with Some b => parse_radix b r | None => parse_decimal t end
      else parse_decimal t
  | t => parse_decimal t
  end.

(** [ToNumber] on a JSON value.  An array goes through [ToPrimitive], that
    is [join(',')]: [[]] is [""] (so 0), two or more elements contain a
    comma (so [NaN]), and [[x]] is [String(x)] ([null] gives [""], a boolean
    ["true"]/["false"], an object ["[object Object]"]).  A number [x] gives
    back [x] through [ToNumber(ToString(x))]. *)
Fixpoint to_number_json (j : json) : num :=
  match j with
  | JNull => NFin 0
  | JBool b => NFin (if b then 1 else 0)
  | JNum q => NFin q
  | JStr s => string_to_number s
  | JArr [] => NFin 0
  | JArr [x] => match x with JBool _ => NNaN | _ => to_number_json x end
  | JArr _ => NNaN
  | JObj _ => NNaN
  end.

Definition js_to_number (v : jsval) : num :=
  match v with None => NNaN | Some j => to_number_json j end.

(** [v > 0] and [v < 0] *)
Definition js_gt0 (v : jsval) : bool :=
  match js_to_number v with NFin q => negb (Qle_bool q 0) | NPosInf => true | _ => false end.

Definition js_lt0 (v : jsval) : bool :=
  match js_to_number v with NFin q => negb (Qle_bool 0 q) | NNegInf => true | _ => false end.

(** ** Printing integers: [String(n)] for a safe integer [n] *)

Definition digit_char (d : Z) : ascii := ascii_of_nat (48 + Z.to_nat d).

(** Decimal digits of [n >= 0], most significant first; [fuel] bounds
    the number of digits. *)
Fixpoint pos_digits (fuel : nat) (n : Z) (acc : string) : string :=
  match fuel with
  | O => acc
  | S f =>
      let acc' := String (digit_char (n mod 10)) acc in
      if (n <? 10)%Z then acc' else pos_digits f (n / 10) acc'
  end.

(** One digit per bit is enough fuel: [n < 2^(log2 n + 1)] and [10 > 2]. *)
Definition Z_to_string (z : Z) : string :=
  if (z <? 0)%Z then "-" ++ pos_digits (S (Z.to_nat (Z.log2 (- z)))) (- z) ""
  else pos_digits (S (Z.to_nat (Z.log2 z))) z "".

(** ** Lemmas *)

(** [String.append] is [simpl never]: its two equations. *)
Lemma string_app_nil (s : string) : "" ++ s = s.
Proof. reflexivity. Qed.

Lemma string_app_cons c (s t : string) : String c s ++ t = String c (s ++ t).
Proof. reflexivity. Qed.

#[export] Hint Rewrite string_app_nil string_app_cons : medi_rw.

Lemma prefix_spec (t s : string) : String.prefix t s = true ↔ ∃ q, s = t ++ q.
Proof.
  revert s. induction t as [|a t IH]; intros [|b s]; simpl.
  - split; [by exists ""|done].
  - split; [by exists (String b s)|done].
  - split; [discriminate|intros [q Hq]; rewrite string_app_cons in Hq; discriminate].
  - destruct (ascii_dec a b) as [->|Hne].
    + rewrite IH. split; intros [q Hq]; exists q; rewrite ?string_app_cons in *; congruence.
    + split; [discriminate|intros [q Hq]; rewrite string_app_cons in Hq; congruence].
Qed.

(** [includes s t] holds exactly when [t] occurs in [s]. *)
Lemma includes_spec (s t : string) : includes s t = true ↔ ∃ p q, s = p ++ t ++ q.
Proof.
  assert (Heq : ∀ s, includes s t =
            String.prefix t s || match s with EmptyString => false | String _ s' => includes s' t end)
    by (intros []; reflexivity).
  induction s as [|c s IH]; rewrite Heq, orb_true_iff, prefix_spec.
  - split.
    + intros [[q Hq]|]; [|done]. exists "", q. exact Hq.
    + intros [p [q Hpq]]. left. exists q. by destruct p.
  - rewrite IH. split.
    + intros [[q Hq]|[p [q Hpq]]]; [exists "", q; exact Hq|]. exists (String c p), q.
      by rewrite string_app_cons, Hpq.
    + intros [[|c' p] [q Hpq]]; [left; by exists q|].
      rewrite string_app_cons in Hpq. right. injection Hpq as -> ->. by exists p, q.
Qed.

Lemma js_gt0_num q : js_gt0 (Some (JNum q)) = true ↔ (0 < q)%Q.
Proof.
  unfold js_gt0; simpl. rewrite negb_true_iff.
  destruct (Qle_bool q 0) eqn:H; split; intros Hq; try done.
  - apply Qle_bool_iff in H. exfalso. by apply (Qlt_not_le _ _ Hq).
  - apply Qnot_le_lt. intros Hle. apply Qle_bool_iff in Hle. congruence.
Qed.

Lemma js_lt0_num q : js_lt0 (Some (JNum q)) = true ↔ (q < 0)%Q.
Proof.
  unfold js_lt0; simpl. rewrite negb_true_iff.
  destruct (Qle_bool 0 q) eqn:H; split; intros Hq; try done.
  - apply Qle_bool_iff in H. exfalso. by apply (Qlt_not_le _ _ Hq).
  - apply Qnot_le_lt. intros Hle. apply Qle_bool_iff in Hle. congruence.
Qed.

(** [x > 0] and [x < 0] never both hold. *)
Lemma js_gt0_lt0_exclusive v : js_gt0 v = true → js_lt0 v = false.
Proof.
  unfold js_gt0, js_lt0. destruct (js_to_number v) as [q| | |]; try done.
  rewrite !negb_true_iff, negb_false_iff. intros H.
  apply Qle_bool_iff, Qlt_le_weak, Qnot_le_lt. intros Hle.
  apply Qle_bool_iff in Hle. congruence.
Qed.

Lemma string_app_inj_l (p a b : string) : p ++ a = p ++ b → a = b.
Proof.
  induction p as [|c p IH]; [done|]. rewrite !string_app_cons. intros [= H]. auto.
Qed.

(** [JSON.parse] keeps the last of duplicate keys. *)
Lemma assoc_snoc p fs v : assoc p (fs ++ [(p, v)]) = Some v.
Proof.
  induction fs as [|[k w] fs IH]; cbn; [by rewrite String.eqb_refl|]. by rewrite IH.
Qed.
