(* ===== verification/Adapters.v ===== *)
(** * The response adapters: [coinGeckoService.js], lines 5-54

    [adaptCoinFromApi] builds an object literal by reading 25 properties of
    the upstream coin, left to right; [adaptTrendingCoinFromApi] reads
    [item] and then 11 of its properties.  No value is converted: a field
    absent upstream is [undefined] ([None]) and a [null] stays [null].  The
    list adapters call [.map], which throws a [TypeError] on a response that
    is not an array, and the element adapter throws on a [null] element.

    Theorems: on an array of objects the coin adapter returns one coin per
    element, in order, each field being the upstream field of the rename
    table [coin_field_name]; the trending adapter likewise; the error paths
    ([null] element, non-array response, missing [coins]) are [TypeError]s. *)

From S2P Require Import Prelude Config JsValue.
From Stdlib Require Import QArith.
#[local] Set Warnings "-clear-no-such-hyp".
Local Open Scope string_scope.

(** ** The domain models *)

Record Coin := mk_coin {
  id : jsval; symbol : jsval; name : jsval; image : jsval;
  currentPrice : jsval; marketCap : jsval; marketCapRank : jsval;
  fullyDilutedValuation : jsval; totalVolume : jsval;
  high24h : jsval; low24h : jsval;
  priceChange24h : jsval; priceChangePercentage24h : jsval;
  marketCapChange24h : jsval; marketCapChangePercentage24h : jsval;
  circulatingSupply : jsval; totalSupply : jsval; maxSupply : jsval;
  ath : jsval; athChangePercentage : jsval; athDate : jsval;
  atl : jsval; atlChangePercentage : jsval; atlDate : jsval;
  lastUpdated : jsval;
}.

Record TrendingCoin := mk_trending {
  t_id : jsval; t_coinId : jsval; t_name : jsval; t_symbol : jsval;
  t_marketCapRank : jsval; t_thumb : jsval; t_small : jsval; t_large : jsval;
  t_slug : jsval; t_priceBtc : jsval; t_score : jsval;
}.

(** ** The adapters *)

Definition adaptCoinFromApi (apiCoin : jsval) : result js_error Coin :=
  id ← get_prop apiCoin "id";
  symbol ← get_prop apiCoin "symbol";
  name ← get_prop apiCoin "name";
  image ← get_prop apiCoin "image";
  currentPrice ← get_prop apiCoin "current_price";
  marketCap ← get_prop apiCoin "market_cap";
  marketCapRank ← get_prop apiCoin "market_cap_rank";
  fullyDilutedValuation ← get_prop apiCoin "fully_diluted_valuation";
  totalVolume ← get_prop apiCoin "total_volume";
  high24h ← get_prop apiCoin "high_24h";
  low24h ← get_prop apiCoin "low_24h";
  priceChange24h ← get_prop apiCoin "price_change_24h";
  priceChangePercentage24h ← get_prop apiCoin "price_change_percentage_24h";
  marketCapChange24h ← get_prop apiCoin "market_cap_change_24h";
  marketCapChangePercentage24h ← get_prop apiCoin "market_cap_change_percentage_24h";
  circulatingSupply ← get_prop apiCoin "circulating_supply";
  totalSupply ← get_prop apiCoin "total_supply";
  maxSupply ← get_prop apiCoin "max_supply";
  ath ← get_prop apiCoin "ath";
  athChangePercentage ← get_prop apiCoin "ath_change_percentage";
  athDate ← get_prop apiCoin "ath_date";
  atl ← get_prop apiCoin "atl";
  atlChangePercentage ← get_prop apiCoin "atl_change_percentage";
  atlDate ← get_prop apiCoin "atl_date";
  lastUpdated ← get_prop apiCoin "last_updated";
  Ok (mk_coin id symbol name image currentPrice marketCap marketCapRank
        fullyDilutedValuation totalVolume high24h low24h priceChange24h
        priceChangePercentage24h marketCapChange24h marketCapChangePercentage24h
        circulatingSupply totalSupply maxSupply ath athChangePercentage athDate
        atl atlChangePercentage atlDate lastUpdated).

(** [x.map(f)]: only arrays have a [map] method. *)
Definition js_array_map {A} (f : jsval → result js_error A) (x : jsval) (what : string)
    : result js_error (list A) :=
  match x with
  | Some (JArr l) => map_res f (map Some l)
  | None => Err (type_error ("Cannot read properties of undefined (reading 'map')"))
  | Some JNull => Err (type_error ("Cannot read properties of null (reading 'map')"))
  | Some _ => Err (type_error (what ++ ".map is not a function"))
  end.

Definition adaptCoinsFromApi (apiCoins : jsval) : result js_error (list Coin) :=
  js_array_map adaptCoinFromApi apiCoins "apiCoins".

Definition adaptTrendingCoinFromApi (apiTrendingItem : jsval) : result js_error TrendingCoin :=
  item ← get_prop apiTrendingItem "item";
  id ← get_prop item "id";
  coinId ← get_prop item "coin_id";
  name ← get_prop item "name";
  symbol ← get_prop item "symbol";
  marketCapRank ← get_prop item "market_cap_rank";
  thumb ← get_prop item "thumb";
  small ← get_prop item "small";
  large ← get_prop item "large";
  slug ← get_prop item "slug";
  priceBtc ← get_prop item "price_btc";
  score ← get_prop item "score";
  Ok (mk_trending id coinId name symbol marketCapRank thumb small large slug priceBtc score).

Definition adaptTrendingCoinsFromApi (apiTrendingResponse : jsval)
    : result js_error (list TrendingCoin) :=
  coins ← get_prop apiTrendingResponse "coins";
  js_array_map adaptTrendingCoinFromApi coins "apiTrendingResponse.coins".

(** ** The rename table of [adaptCoinFromApi], as a specification *)

Inductive coin_field :=
  | F_id | F_symbol | F_name | F_image | F_currentPrice | F_marketCap
  | F_marketCapRank | F_fullyDilutedValuation | F_totalVolume | F_high24h
  | F_low24h | F_priceChange24h | F_priceChangePercentage24h
  | F_marketCapChange24h | F_marketCapChangePercentage24h
  | F_circulatingSupply | F_totalSupply | F_maxSupply | F_ath
  | F_athChangePercentage | F_athDate | F_atl | F_atlChangePercentage
  | F_atlDate | F_lastUpdated.

Definition all_coin_fields : list coin_field :=
  [F_id; F_symbol; F_name; F_image; F_currentPrice; F_marketCap;
   F_marketCapRank; F_fullyDilutedValuation; F_totalVolume; F_high24h;
   F_low24h; F_priceChange24h; F_priceChangePercentage24h;
   F_marketCapChange24h; F_marketCapChangePercentage24h;
   F_circulatingSupply; F_totalSupply; F_maxSupply; F_ath;
   F_athChangePercentage; F_athDate; F_atl; F_atlChangePercentage;
   F_atlDate; F_lastUpdated].

(** The upstream (snake case) name of each field of the domain model. *)
Definition coin_field_name (f : coin_field) : string :=
  match f with
  | F_id => "id" | F_symbol => "symbol" | F_name => "name" | F_image => "image"
  | F_currentPrice => "current_price" | F_marketCap => "market_cap"
  | F_marketCapRank => "market_cap_rank"
  | F_fullyDilutedValuation => "fully_diluted_valuation"
  | F_totalVolume => "total_volume" | F_high24h => "high_24h" | F_low24h => "low_24h"
  | F_priceChange24h => "price_change_24h"
  | F_priceChangePercentage24h => "price_change_percentage_24h"
  | F_marketCapChange24h => "market_cap_change_24h"
  | F_marketCapChangePercentage24h => "market_cap_change_percentage_24h"
  | F_circulatingSupply => "circulating_supply" | F_totalSupply => "total_supply"
  | F_maxSupply => "max_supply" | F_ath => "ath"
  | F_athChangePercentage => "ath_change_percentage" | F_athDate => "ath_date"
  | F_atl => "atl" | F_atlChangePercentage => "atl_change_percentage"
  | F_atlDate => "atl_date" | F_lastUpdated => "last_updated"
  end.

Definition coin_get (c : Coin) (f : coin_field) : jsval :=
  match f with
  | F_id => id c | F_symbol => symbol c | F_name => name c | F_image => image c
  | F_currentPrice => currentPrice c | F_marketCap => marketCap c
  | F_marketCapRank => marketCapRank c
  | F_fullyDilutedValuation => fullyDilutedValuation c
  | F_totalVolume => totalVolume c | F_high24h => high24h c | F_low24h => low24h c
  | F_priceChange24h => priceChange24h c
  | F_priceChangePercentage24h => priceChangePercentage24h c
  | F_marketCapChange24h => marketCapChange24h c
  | F_marketCapChangePercentage24h => marketCapChangePercentage24h c
  | F_circulatingSupply => circulatingSupply c | F_totalSupply => totalSupply c
  | F_maxSupply => maxSupply c | F_ath => ath c
  | F_athChangePercentage => athChangePercentage c | F_athDate => athDate c
  | F_atl => atl c | F_atlChangePercentage => atlChangePercentage c
  | F_atlDate => atlDate c | F_lastUpdated => lastUpdated c
  end.

(** A coin is the adaptation of the upstream object [fs] when every field
    holds the upstream field of its name, absent ones included. *)
Definition adapted_from (fs : list (string * json)) (c : Coin) : Prop :=
  ∀ f, coin_get c f = assoc (coin_field_name f) fs.

(** The value [x] is neither [null] nor [undefined]. *)
Definition not_nullish (x : jsval) : bool :=
  match x with None | Some JNull => false | Some _ => true end.

(** The fields [adaptTrendingCoinFromApi] copies from [item]. *)
Definition trending_adapted_from (fs : list (string * json)) (t : TrendingCoin) : Prop :=
  t_id t = assoc "id" fs ∧ t_coinId t = assoc "coin_id" fs ∧
  t_name t = assoc "name" fs ∧ t_symbol t = assoc "symbol" fs ∧
  t_marketCapRank t = assoc "market_cap_rank" fs ∧ t_thumb t = assoc "thumb" fs ∧
  t_small t = assoc "small" fs ∧ t_large t = assoc "large" fs ∧
  t_slug t = assoc "slug" fs ∧ t_priceBtc t = assoc "price_btc" fs ∧
  t_score t = assoc "score" fs.

(** An upstream trending entry [{ item: { ... } }]. *)
Definition trending_entry (fs : list (string * json)) : json := JObj [("item", JObj fs)].

(** ** Lemmas *)

Lemma get_prop_not_nullish x p : not_nullish x = true → ∃ v, get_prop x p = Ok v.
Proof. destruct x as [[]|]; simpl; try done; eauto. Qed.

Lemma get_prop_nullish x p : not_nullish x = false → ∃ msg, get_prop x p = Err (type_error msg).
Proof. destruct x as [[]|]; simpl; try done; eauto. Qed.

Lemma adaptCoinFromApi_obj fs : ∃ c, adaptCoinFromApi (Some (JObj fs)) = Ok c ∧ adapted_from fs c.
Proof. eexists. split; [reflexivity|]. intros []; reflexivity. Qed.

(** Every failure of the coin adapter is a [TypeError], raised exactly on
    a [null] or [undefined] element. *)
Lemma adaptCoinFromApi_Err x e :
  adaptCoinFromApi x = Err e → not_nullish x = false ∧ ∃ msg, e = type_error msg.
Proof. destruct x as [[]|]; simpl; intros H; try discriminate; injection H as <-; eauto. Qed.

Lemma adaptTrendingCoinFromApi_entry fs :
  ∃ t, adaptTrendingCoinFromApi (Some (trending_entry fs)) = Ok t ∧ trending_adapted_from fs t.
Proof. eexists. split; [reflexivity|]. repeat split. Qed.

(** ** Properties of the adapters *)

(** C15 (functional). On an upstream array of objects, [adaptCoinsFromApi]
    succeeds with exactly one coin per entry, in the upstream order, and
    every field of each coin is the upstream field its name maps to (an
    absent field is [undefined], not zero). *)
Theorem adaptCoinsFromApi_objects (fss : list (list (string * json))) :
  ∃ cs, adaptCoinsFromApi (Some (JArr (map JObj fss))) = Ok cs ∧ Forall2 adapted_from fss cs.
Proof.
  unfold adaptCoinsFromApi, js_array_map. rewrite map_map.
  induction fss as [|fs fss IH]; [by exists []|].
  destruct IH as [cs [Hcs Hall]]. destruct (adaptCoinFromApi_obj fs) as [c [Hc Hac]].
  exists (c :: cs). split; [|by constructor].
  cbn [map map_res]. rewrite Hc, Hcs. reflexivity.
Qed.

(** A listing response that is not an array, or an array with
    a [null] entry, makes [adaptCoinsFromApi] throw a [TypeError]. *)
Theorem adaptCoinsFromApi_type_error (x : jsval) :
  (∀ l, x ≠ Some (JArr l)) ∨ (∃ l, x = Some (JArr l) ∧ JNull ∈ l) →
  ∃ msg, adaptCoinsFromApi x = Err (type_error msg).
Proof.
  unfold adaptCoinsFromApi, js_array_map. intros [Hna|[l [-> Hin]]].
  - destruct x as [[]|]; try (by eexists); by destruct (Hna l).
  - destruct (map_res_Err adaptCoinFromApi (λ e, ∃ msg, e = type_error msg) (map Some l))
      as [e [He [msg ->]]].
    + exists (Some JNull). eexists. split; [apply list_elem_of_fmap; by exists JNull|reflexivity].
    + intros x e _ Hx. by apply adaptCoinFromApi_Err in Hx as [_ ?].
    + by exists msg.
Qed.

Lemma adaptCoinsFromApi_type_error_witness :
  ((∀ l, Some (JArr [JObj []; JNull]) ≠ Some (JArr l)) ∨
   (∃ l, Some (JArr [JObj []; JNull]) = Some (JArr l) ∧ JNull ∈ l)) ∧
  ∃ msg, adaptCoinsFromApi (Some (JArr [JObj []; JNull])) = Err (type_error msg).
Proof.
  assert (H : (∀ l, Some (JArr [JObj []; JNull]) ≠ Some (JArr l)) ∨
              (∃ l, Some (JArr [JObj []; JNull]) = Some (JArr l) ∧ JNull ∈ l))
    by (right; eexists; split; [reflexivity|set_solver]).
  split; [exact H|]. apply adaptCoinsFromApi_type_error. exact H.
Defined.

(** On an upstream trending response
    [{ ..., coins: [{ item: {...} }, ...] }] (the last [coins] key is the
    one [JSON.parse] keeps), [adaptTrendingCoinsFromApi]
    returns one trending coin per entry, in the upstream order, each
    carrying the eleven fields of its [item]. *)
Theorem adaptTrendingCoinsFromApi_entries (fss : list (list (string * json)))
    (rest : list (string * json)) :
  ∃ ts, adaptTrendingCoinsFromApi (Some (JObj (rest ++ [("coins", JArr (map trending_entry fss))])))
          = Ok ts ∧ Forall2 trending_adapted_from fss ts.
Proof.
  unfold adaptTrendingCoinsFromApi. cbn [get_prop]. rewrite assoc_snoc. cbn [mbind result_bind].
  unfold js_array_map. rewrite map_map.
  induction fss as [|fs fss IH]; [by exists []|].
  destruct IH as [ts [Hts Hall]]. destruct (adaptTrendingCoinFromApi_entry fs) as [t [Ht Hat]].
  exists (t :: ts). split; [|by constructor].
  cbn [map map_res]. rewrite Ht, Hts. reflexivity.
Qed.

(** A trending response without a [coins] array makes
    [adaptTrendingCoinsFromApi] throw a [TypeError]. *)
Theorem adaptTrendingCoinsFromApi_no_coins (fs : list (string * json)) :
  assoc "coins" fs = None →
  ∃ msg, adaptTrendingCoinsFromApi (Some (JObj fs)) = Err (type_error msg).
Proof. intros H. unfold adaptTrendingCoinsFromApi. simpl. rewrite H. simpl. by eexists. Qed.

Lemma adaptTrendingCoinsFromApi_no_coins_witness :
  assoc "coins" [("status", JStr "ok")] = None ∧
  ∃ msg, adaptTrendingCoinsFromApi (Some (JObj [("status", JStr "ok")])) = Err (type_error msg).
Proof.
  split; [reflexivity|]. apply adaptTrendingCoinsFromApi_no_coins. reflexivity.
Defined.
