(* ===== verification/Search.v ===== *)
(** * Searching the loaded coins: [searchCoins] in
      [src/src/services/coinGeckoService.js], lines 167-178

    [searchCoins(query, allCoins)] is pure: an empty or blank query returns
    the pool itself; otherwise the term is [query.toLowerCase().trim()] and
    a coin is kept when [coin.name.toLowerCase()] includes it, or else when
    [coin.symbol.toLowerCase()] does ([||] short-circuits).  Calling
    [toLowerCase] on a name or symbol that is not a string throws a
    [TypeError], which rejects the whole search.

    Theorems: a blank query returns the pool unchanged; on a pool whose names
    and symbols are strings, the result is the order-preserving sublist of
    the coins whose name or symbol contains the term case-insensitively; a
    coin whose name is not a string makes a non-blank search throw. *)

From S2P Require Import Prelude Config JsValue Adapters.
From Stdlib Require Import Ascii.
#[local] Set Warnings "-clear-no-such-hyp".
Local Open Scope string_scope.

(** [v.toLowerCase()] on the value of a coin field. *)
Definition lower_field (v : jsval) (what : string) : result js_error string :=
  match v with
  | Some (JStr s) => Ok (toLowerCase s)
  | None => Err (type_error "Cannot read properties of undefined (reading 'toLowerCase')")
  | Some JNull => Err (type_error "Cannot read properties of null (reading 'toLowerCase')")
  | Some _ => Err (type_error (what ++ ".toLowerCase is not a function"))
  end.

(** The predicate of the [filter]. *)
Definition coin_matches (searchTerm : string) (coin : Coin) : result js_error bool :=
  n ← lower_field (name coin) "coin.name";
  if includes n searchTerm then Ok true
  else s ← lower_field (symbol coin) "coin.symbol"; Ok (includes s searchTerm).

Definition searchCoins (query : string) (allCoins : list Coin) : result js_error (list Coin) :=
  if String.eqb query "" || String.eqb (trim query) "" then Ok allCoins
  else
    let searchTerm := trim (toLowerCase query) in
    filter_res (coin_matches searchTerm) allCoins.

(** [t] occurs in [u]. *)
Definition occurs (t u : string) : Prop := ∃ p r, u = p ++ t ++ r.

(** The case-insensitive match the specification describes. *)
Definition spec_match (term : string) (c : Coin) : Prop :=
  ∃ n s, name c = Some (JStr n) ∧ symbol c = Some (JStr s) ∧
         (occurs term (toLowerCase n) ∨ occurs term (toLowerCase s)).

Definition string_fields (c : Coin) : Prop :=
  ∃ n s, name c = Some (JStr n) ∧ symbol c = Some (JStr s).

(** ** Lemmas *)

Definition matches_b (term : string) (c : Coin) : bool :=
  match name c, symbol c with
  | Some (JStr n), Some (JStr s) => includes (toLowerCase n) term || includes (toLowerCase s) term
  | _, _ => false
  end.

Lemma coin_matches_strings term c :
  string_fields c → coin_matches term c = Ok (matches_b term c).
Proof.
  intros (n & s & Hn & Hs). unfold coin_matches, matches_b. rewrite Hn, Hs. simpl.
  by destruct (includes (toLowerCase n) term).
Qed.

Lemma matches_b_spec term c : matches_b term c = true ↔ spec_match term c.
Proof.
  unfold matches_b, spec_match, occurs.
  destruct (name c) as [[]|] eqn:Hn; destruct (symbol c) as [[]|] eqn:Hs;
    split; try done; try (intros (?&?&?&?&_); congruence).
  - rewrite orb_true_iff, !includes_spec. intros H. eauto.
  - intros (n & s' & [= <-] & [= <-] & H). by rewrite orb_true_iff, !includes_spec.
Qed.

Lemma coin_matches_Err term c e : coin_matches term c = Err e → ∃ msg, e = type_error msg.
Proof.
  unfold coin_matches, lower_field.
  destruct (name c) as [[]|]; simpl; try (intros [= <-]; by eexists).
  destruct (includes _ term); [done|].
  destruct (symbol c) as [[]|]; simpl; try (intros [= <-]; by eexists); done.
Qed.

Lemma filter_sublist {A} (f : A → bool) (l : list A) : List.filter f l `sublist_of` l.
Proof.
  induction l as [|x l IH]; simpl; [done|].
  destruct (f x); [by apply sublist_skip|by apply sublist_cons].
Qed.

Lemma trim_nonblank q : trim q ≠ "" → (String.eqb q "" || String.eqb (trim q) "") = false.
Proof.
  intros H. apply orb_false_iff. split.
  - apply String.eqb_neq. intros ->. by apply H.
  - by apply String.eqb_neq.
Qed.

(** ** Properties of the search *)

(** A blank query (empty or white space only) returns
    the candidate pool unchanged: same elements, same order. *)
Theorem search_blank_query q pool : trim q = "" → searchCoins q pool = Ok pool.
Proof. intros H. unfold searchCoins. rewrite H, orb_true_r. done. Qed.

(** Three coins as the table holds them, for the witnesses. *)
Definition search_pool : list Coin :=
  match adaptCoinsFromApi (Some (JArr
    [JObj [("id", JStr "bitcoin"); ("symbol", JStr "btc"); ("name", JStr "Bitcoin")];
     JObj [("id", JStr "ethereum"); ("symbol", JStr "eth"); ("name", JStr "Ethereum")];
     JObj [("id", JStr "wrapped-bitcoin"); ("symbol", JStr "wbtc"); ("name", JStr "Wrapped BTC")]]))
  with Ok l => l | Err _ => [] end.

Lemma search_blank_query_witness :
  trim "   " = "" ∧ searchCoins "   " search_pool = Ok search_pool.
Proof. split; [reflexivity|]. apply search_blank_query. reflexivity. Defined.

(** C16 (functional). On a pool whose names and symbols are strings, a
    non-blank query returns the coins, in pool order, whose name or symbol
    contains the lower-cased, trimmed query case-insensitively, and only
    those. *)
Theorem search_exact q pool :
  trim q ≠ "" → (∀ c, c ∈ pool → string_fields c) →
  ∃ res, searchCoins q pool = Ok res ∧ res `sublist_of` pool ∧
         ∀ c, c ∈ res ↔ c ∈ pool ∧ spec_match (trim (toLowerCase q)) c.
Proof.
  intros Hq Hs. unfold searchCoins. rewrite trim_nonblank by done.
  exists (List.filter (matches_b (trim (toLowerCase q))) pool).
  split; [apply filter_res_Ok; intros c Hc; by apply coin_matches_strings, Hs|].
  split; [apply filter_sublist|]. intros c.
  rewrite list_elem_of_In, filter_In, <- list_elem_of_In, matches_b_spec. done.
Qed.

Lemma search_exact_witness :
  trim "BTC " ≠ "" ∧ (∀ c, c ∈ search_pool → string_fields c) ∧
  ∃ res, searchCoins "BTC " search_pool = Ok res ∧ res `sublist_of` search_pool ∧
         ∀ c, c ∈ res ↔ c ∈ search_pool ∧ spec_match (trim (toLowerCase "BTC ")) c.
Proof.
  assert (Hq : trim "BTC " ≠ "") by discriminate.
  assert (Hs : ∀ c, c ∈ search_pool → string_fields c).
  { intros c Hc. vm_compute in Hc.
    repeat (apply elem_of_cons in Hc as [->|Hc]; [eexists _, _; split; reflexivity|]).
    by apply elem_of_nil in Hc. }
  split; [exact Hq|]. split; [exact Hs|]. exact (search_exact _ _ Hq Hs).
Defined.

(** C28 (error). A non-blank search over a pool that holds a coin whose
    name is not a string (absent, [null], a number, ...) throws a
    [TypeError] instead of skipping that coin. *)
Theorem search_non_string_name q pool :
  trim q ≠ "" → (∃ c, c ∈ pool ∧ ∀ n, name c ≠ Some (JStr n)) →
  ∃ msg, searchCoins q pool = Err (type_error msg).
Proof.
  intros Hq [c [Hc Hn]]. unfold searchCoins. rewrite trim_nonblank by done.
  destruct (filter_res_Err (coin_matches (trim (toLowerCase q))) (λ e, ∃ msg, e = type_error msg) pool)
    as [e [He [msg ->]]].
  - exists c. unfold coin_matches, lower_field.
    destruct (name c) as [[| | |n| |]|]; simpl; try by eexists. by destruct (Hn n).
  - intros x e _. apply coin_matches_Err.
  - by exists msg.
Qed.

Lemma search_non_string_name_witness :
  trim "eth" ≠ "" ∧
  (∃ c, c ∈ (app search_pool [mk_coin None None None None None None None None None None None
                                None None None None None None None None None None None None None None])
        ∧ ∀ n, name c ≠ Some (JStr n)) ∧
  ∃ msg, searchCoins "eth" (app search_pool [mk_coin None None None None None None None None None None None
                                None None None None None None None None None None None None None None])
         = Err (type_error msg).
Proof.
  assert (Hq : trim "eth" ≠ "") by discriminate.
  assert (Hc : ∃ c, c ∈ (app search_pool [mk_coin None None None None None None None None None None None
                                None None None None None None None None None None None None None None])
        ∧ ∀ n, name c ≠ Some (JStr n)).
  { eexists. split; [apply elem_of_app; right; apply list_elem_of_singleton; reflexivity|]. done. }
  split; [exact Hq|]. split; [exact Hc|]. exact (search_non_string_name _ _ Hq Hc).
Defined.
