(* ===== verification/HttpClient.v ===== *)
(** * The request executor: [src/src/services/httpClient.js]

    [createHttpClient(baseURL)] returns [get], [post], [put] and
    [delete]; only [get] is called by another module.  [makeRequest] builds the URL
    ([buildUrl]: the query parameters whose value is neither [null] nor
    [undefined], in insertion order, form-urlencoded), builds the headers
    (JSON content type, the caller's headers, the API key when configured),
    races [fetch] against [setTimeout(abort, REQUEST_TIMEOUT)], and turns
    the outcome into the parsed JSON body or an [ApiError].

    The network is the environment: a [net_event] says after how many
    milliseconds [fetch] settles ([ne_latency]) and how ([ne_outcome]).
    The abort timer wins when [REQUEST_TIMEOUT <= ne_latency]; at equality
    the event loop may run either callback first, and the model lets the
    timer win.  The timer is cleared as soon as the headers arrive, so
    reading the body is not bounded by it (see the findings).

    Theorems: the classification of every outcome (timeout, network,
    429/404/500, other statuses, success), that every failure is an
    [ApiError] with one of the six codes, and that the query string drops
    exactly the nullish parameters and decodes back to them. *)

From S2P Require Import Prelude Config JsMap JsValue.
From Stdlib Require Import QArith Ascii.
#[local] Set Warnings "-clear-no-such-hyp".
Local Open Scope string_scope.

(** [createApiError(message, status, code)] *)
Definition createApiError (message : json) (status : option Z) (code : string) : js_error :=
  mk_error "ApiError" message status (Some code).

(** ** Query parameters and [buildUrl] *)

(** A parameter value as the gateway passes it. *)
Inductive pval := PStr (s : string) | PNum (z : Z) | PBool (b : bool) | PNull | PUndef.

Definition pval_nullish (v : pval) : bool :=
  match v with PNull | PUndef => true | _ => false end.

(** [String(value)], as [searchParams.append] converts it. *)
Definition pval_to_string (v : pval) : string :=
  match v with
  | PStr s => s
  | PNum z => Z_to_string z
  | PBool b => if b then "true" else "false"
  | PNull => "null"
  | PUndef => "undefined"
  end.

Definition hex_digit (n : nat) : ascii :=
  if (n <? 10)%nat then ascii_of_nat (48 + n) else ascii_of_nat (55 + n).

Definition percent_byte (n : nat) : string :=
  String "%" (String (hex_digit (n / 16)) (String (hex_digit (n mod 16)) "")).

(** The [application/x-www-form-urlencoded] byte serializer: ASCII
    alphanumerics and [*-._] are kept, space becomes [+], every other
    byte is [%XX]; a code point U+0080..U+00FF is first UTF-8 encoded into
    two bytes. *)
Definition form_unreserved (n : nat) : bool :=
  ((48 <=? n) && (n <=? 57) || (65 <=? n) && (n <=? 90) || (97 <=? n) && (n <=? 122)
   || (n =? 42) || (n =? 45) || (n =? 46) || (n =? 95))%nat.

Definition form_encode_char (c : ascii) : string :=
  let n := nat_of_ascii c in
  if form_unreserved n then String c ""
  else if (n =? 32)%nat then "+"
  else if (n <? 128)%nat then percent_byte n
  else percent_byte (192 + n / 64) ++ percent_byte (128 + n mod 64).

Fixpoint form_encode (s : string) : string :=
  match s with
  | EmptyString => ""
  | String c s' => form_encode_char c ++ form_encode s'
  end.

Fixpoint serialize_query (ps : list (string * string)) : string :=
  match ps with
  | [] => ""
  | [(k, v)] => form_encode k ++ "=" ++ form_encode v
  | (k, v) :: ps' => form_encode k ++ "=" ++ form_encode v ++ "&" ++ serialize_query ps'
  end.

(** The [searchParams] list after the [forEach] of [buildUrl]. *)
Definition appended_params (params : list (string * pval)) : list (string * string) :=
  map (λ kv, (kv.1, pval_to_string kv.2))
      (List.filter (λ kv, negb (pval_nullish kv.2)) params).

(** [buildUrl(url, params = {})]: an absolute [url] is kept, a path is
    appended to [baseURL]; [fullUrl.toString()] has a [?] only when some
    parameter was appended.  (The URL parser's normalisation of the
    prefix is not modelled: the prefixes the code builds are already
    normal.) *)
Definition buildUrl (baseURL url : string) (params : list (string * pval)) : string :=
  let full := if String.prefix "http" url then url else baseURL ++ url in
  match appended_params params with
  | [] => full
  | ps => full ++ "?" ++ serialize_query ps
  end.

(** ** The request [makeRequest] sends *)

Record request_options := mk_options {
  opt_params : list (string * pval);
  opt_method : option string;
  opt_headers : list (string * string);
  opt_body : jsval;     (* the value [body] is the [JSON.stringify] of; [undefined]: no body *)
}.

Record request := mk_request {
  req_method : string;
  req_url : string;
  req_headers : list (string * string);
  req_body : jsval;
}.

(** [{ 'Content-Type': 'application/json', ...fetchOptions.headers }] and
    [headers['x-cg-demo-api-key'] = API_KEY] when the key is truthy: an
    object's own string keys keep their first position when overwritten,
    exactly as a [Map]'s. *)
Definition build_headers (cfg : api_config) (extra : list (string * string)) : list (string * string) :=
  let h := fold_left (λ h kv, Map_set kv.1 kv.2 h) extra [("Content-Type", "application/json")] in
  match API_KEY cfg with
  | Some key => if String.eqb key "" then h else Map_set "x-cg-demo-api-key" key h
  | None => h
  end.

Definition build_request (cfg : api_config) (baseURL url : string) (o : request_options) : request :=
  {| req_method := match opt_method o with Some m => m | None => "GET" end;
     req_url := buildUrl baseURL url (opt_params o);
     req_headers := build_headers cfg (opt_headers o);
     req_body := opt_body o |}.

(** ** The network and the classification of its outcome *)

(** What [response.json()] does with the body. *)
Inductive body := BodyJson (j : json) | BodyMalformed.

Inductive net_outcome :=
  | NetFail                                        (** [fetch] rejects: DNS, refused, ... *)
  | NetResponse (status : Z) (statusText : string) (b : body).

Record net_event := mk_net_event {
  ne_latency : Z;
  ne_outcome : net_outcome;
}.

Definition response_ok (status : Z) : bool := (200 <=? status)%Z && (status <=? 299)%Z.

(** [errorData.error || errorData.message || errorMessage], inside a [try]
    whose [catch] keeps [errorMessage] ([response.json()] throwing on a
    malformed body, or reading a property of a [null] body). *)
Definition error_message (statusText : string) (b : body) : json :=
  let errorMessage := if String.eqb statusText "" then JStr "Unknown error" else JStr statusText in
  match b with
  | BodyMalformed => errorMessage
  | BodyJson d =>
      match get_prop (Some d) "error" with
      | Err _ => errorMessage
      | Ok e =>
          match js_or e (match get_prop (Some d) "message" with Ok m => m | Err _ => None end) with
          | Some v => if truthy (Some v) then v else errorMessage
          | None => errorMessage
          end
      end
  end.

Definition timeout_error : js_error :=
  createApiError (JStr "Request timeout. Please try again.") None "TIMEOUT_ERROR".

Definition network_error : js_error :=
  createApiError (JStr "Network error. Please check your connection.") None "NETWORK_ERROR".

(** The [switch (response.status)] of a response that is not [ok]. *)
Definition status_error (status : Z) (statusText : string) (b : body) : js_error :=
  if (status =? 429)%Z then
    createApiError (JStr "Rate limit exceeded. Please try again later.") (Some status) "RATE_LIMIT"
  else if (status =? 404)%Z then
    createApiError (JStr "Requested resource not found.") (Some status) "NOT_FOUND"
  else if (status =? 500)%Z then
    createApiError (JStr "Internal server error. Please try again later.") (Some status) "SERVER_ERROR"
  else createApiError (error_message statusText b) (Some status) "API_ERROR".

(** The [try]/[catch] of [makeRequest]: an [AbortError] becomes the
    timeout error, an [ApiError] is rethrown, anything else ([fetch]'s
    [TypeError], [response.json()]'s [SyntaxError]) becomes the network
    error. *)
Definition classify (cfg : api_config) (ev : net_event) : result js_error json :=
  if (REQUEST_TIMEOUT cfg <=? ne_latency ev)%Z then Err timeout_error
  else match ne_outcome ev with
       | NetFail => Err network_error
       | NetResponse status statusText b =>
           if response_ok status then
             match b with BodyJson j => Ok j | BodyMalformed => Err network_error end
           else Err (status_error status statusText b)
       end.

(** [makeRequest(url, options)]: the request sent and what the returned
    promise settles to. *)
Definition makeRequest (cfg : api_config) (baseURL url : string) (o : request_options)
    (ev : net_event) : request * result js_error json :=
  (build_request cfg baseURL url o, classify cfg ev).

(** [httpClient.get(url, config)]: the method is forced to [GET]. *)
Definition http_get (cfg : api_config) (url : string) (params : list (string * pval))
    (ev : net_event) : request * result js_error json :=
  makeRequest cfg (BASE_URL cfg) url (mk_options params (Some "GET") [] None) ev.

(** [post(url, data, config)] and [put]: [body: data ? JSON.stringify(data) : undefined]
    after the caller's options; a falsy [data] ([0], [false], [''],
    [null]) sends no body.  [config] is the query parameters and headers. *)
Definition send_data (m : string) (cfg : api_config) (url : string) (data : jsval)
    (params : list (string * pval)) (headers : list (string * string)) (ev : net_event)
    : request * result js_error json :=
  makeRequest cfg (BASE_URL cfg) url (mk_options params (Some m) headers (if truthy data then data else None)) ev.

Definition http_post (cfg : api_config) (url : string) (data : jsval) (params : list (string * pval))
    (headers : list (string * string)) (ev : net_event) : request * result js_error json :=
  send_data "POST" cfg url data params headers ev.

Definition http_put (cfg : api_config) (url : string) (data : jsval) (params : list (string * pval))
    (headers : list (string * string)) (ev : net_event) : request * result js_error json :=
  send_data "PUT" cfg url data params headers ev.

(** [delete(url, config)]. *)
Definition http_delete (cfg : api_config) (url : string) (params : list (string * pval))
    (headers : list (string * string)) (ev : net_event) : request * result js_error json :=
  makeRequest cfg (BASE_URL cfg) url (mk_options params (Some "DELETE") headers None) ev.

(** The six error codes. *)
Definition error_codes : list string :=
  ["TIMEOUT_ERROR"; "RATE_LIMIT"; "NOT_FOUND"; "SERVER_ERROR"; "API_ERROR"; "NETWORK_ERROR"].

(** ** Lemmas *)

Lemma status_error_fields st txt b :
  err_name (status_error st txt b) = "ApiError" ∧ err_status (status_error st txt b) = Some st ∧
  ∃ c, err_code (status_error st txt b) = Some c ∧ c ∈ error_codes.
Proof.
  unfold status_error, error_codes.
  destruct (Z.eqb st 429); [|destruct (Z.eqb st 404); [|destruct (Z.eqb st 500)]];
    (split; [done|split; [done|eexists; split; [reflexivity|set_solver]]]).
Qed.

Lemma classify_in_time cfg ev :
  (ne_latency ev < REQUEST_TIMEOUT cfg)%Z →
  classify cfg ev =
    match ne_outcome ev with
    | NetFail => Err network_error
    | NetResponse status statusText b =>
        if response_ok status then
          match b with BodyJson j => Ok j | BodyMalformed => Err network_error end
        else Err (status_error status statusText b)
    end.
Proof. intros H. unfold classify. destruct (Z.leb_spec (REQUEST_TIMEOUT cfg) (ne_latency ev)); [lia|done]. Qed.

(** ** Properties of the request executor *)

(** C7 (error). A response with HTTP status 429 received before the
    timeout yields the rate-limit error carrying status 429. *)
Theorem classify_rate_limit cfg lat txt b :
  (lat < REQUEST_TIMEOUT cfg)%Z →
  classify cfg (mk_net_event lat (NetResponse 429 txt b)) =
    Err (mk_error "ApiError" (JStr "Rate limit exceeded. Please try again later.") (Some 429%Z)
           (Some "RATE_LIMIT")).
Proof. intros H. by rewrite classify_in_time. Qed.

Lemma classify_rate_limit_witness :
  (500 < REQUEST_TIMEOUT (API_CONFIG empty_env))%Z ∧
  classify (API_CONFIG empty_env) (mk_net_event 500 (NetResponse 429 "Too Many Requests" BodyMalformed)) =
    Err (mk_error "ApiError" (JStr "Rate limit exceeded. Please try again later.") (Some 429%Z)
           (Some "RATE_LIMIT")).
Proof. split; [reflexivity|]. apply classify_rate_limit. reflexivity. Defined.

(** C6 (error). When [fetch] has not settled within [REQUEST_TIMEOUT]
    milliseconds, whatever it would have returned, the request fails with
    the timeout error, which carries no status. *)
Theorem classify_timeout cfg ev :
  (REQUEST_TIMEOUT cfg <= ne_latency ev)%Z →
  classify cfg ev = Err timeout_error ∧ err_status timeout_error = None ∧
  err_code timeout_error = Some "TIMEOUT_ERROR".
Proof.
  intros H. unfold classify. destruct (Z.leb_spec (REQUEST_TIMEOUT cfg) (ne_latency ev)); [done|lia].
Qed.

Lemma classify_timeout_witness :
  (REQUEST_TIMEOUT (API_CONFIG empty_env) <= ne_latency (mk_net_event 10000 (NetResponse 200 "OK" (BodyJson JNull))))%Z ∧
  classify (API_CONFIG empty_env) (mk_net_event 10000 (NetResponse 200 "OK" (BodyJson JNull))) = Err timeout_error ∧
  err_status timeout_error = None ∧ err_code timeout_error = Some "TIMEOUT_ERROR".
Proof. split; [reflexivity|]. apply classify_timeout. simpl. lia. Defined.

(** C5 (safety). Every failure of a request is a typed [ApiError] with one
    of the six codes, and it carries an HTTP status exactly when an HTTP
    response with that status, not [ok], arrived before the timeout. *)
Theorem classify_errors_typed cfg ev e :
  classify cfg ev = Err e →
  err_name e = "ApiError" ∧ (∃ c, err_code e = Some c ∧ c ∈ error_codes) ∧
  ∀ st, err_status e = Some st ↔
        (ne_latency ev < REQUEST_TIMEOUT cfg)%Z ∧ response_ok st = false ∧
        ∃ txt b, ne_outcome ev = NetResponse st txt b.
Proof.
  unfold classify. destruct (Z.leb_spec (REQUEST_TIMEOUT cfg) (ne_latency ev)).
  - intros [= <-]. split; [done|]. split; [eexists; split; [reflexivity|set_solver]|].
    intros st. split; [done|lia].
  - destruct (ne_outcome ev) as [|st txt b] eqn:Ho.
    + intros [= <-]. split; [done|]. split; [eexists; split; [reflexivity|set_solver]|].
      intros st. split; [done|intros (_&_&?&?&?); congruence].
    + destruct (response_ok st) eqn:Hok; [destruct b; [done|]|].
      * intros [= <-]. split; [done|]. split; [eexists; split; [reflexivity|set_solver]|].
        intros st'. split; [done|intros (_&?&?&?&[= ->]); congruence].
      * intros [= <-]. destruct (status_error_fields st txt b) as (Hn & Hs & Hc).
        split; [done|]. split; [done|]. intros st'. rewrite Hs.
        split; [intros [= ->]; split; [done|split; [done|eauto]]|].
        intros (_&_&?&?&[= ->]). done.
Qed.

Lemma classify_errors_typed_witness :
  classify (API_CONFIG empty_env) (mk_net_event 20 (NetResponse 503 "" (BodyJson (JObj [("error", JStr "down")])))) =
    Err (status_error 503 "" (BodyJson (JObj [("error", JStr "down")]))) ∧
  (err_name (status_error 503 "" (BodyJson (JObj [("error", JStr "down")]))) = "ApiError" ∧
   (∃ c, err_code (status_error 503 "" (BodyJson (JObj [("error", JStr "down")]))) = Some c ∧ c ∈ error_codes) ∧
   ∀ st, err_status (status_error 503 "" (BodyJson (JObj [("error", JStr "down")]))) = Some st ↔
         (ne_latency (mk_net_event 20 (NetResponse 503 "" (BodyJson (JObj [("error", JStr "down")])))) < REQUEST_TIMEOUT (API_CONFIG empty_env))%Z ∧
         response_ok st = false ∧
         ∃ txt b, ne_outcome (mk_net_event 20 (NetResponse 503 "" (BodyJson (JObj [("error", JStr "down")])))) = NetResponse st txt b).
Proof. split; [reflexivity|]. apply classify_errors_typed. reflexivity. Defined.

(** A request succeeds exactly when a [2xx] response
    with a well-formed JSON body arrives before the timeout, and it then
    returns that body verbatim. *)
Theorem classify_ok cfg ev j :
  classify cfg ev = Ok j ↔
  (ne_latency ev < REQUEST_TIMEOUT cfg)%Z ∧
  ∃ st txt, ne_outcome ev = NetResponse st txt (BodyJson j) ∧ response_ok st = true.
Proof.
  unfold classify. destruct (Z.leb_spec (REQUEST_TIMEOUT cfg) (ne_latency ev)).
  - split; [done|lia].
  - destruct (ne_outcome ev) as [|st txt b].
    + split; [done|intros (_&?&?&?&_); discriminate].
    + destruct (response_ok st) eqn:Hok; [destruct b as [j'|]|].
      * split; [intros [= ->]; eauto|intros (_&?&?&[= _ _ ->]&_); done].
      * split; [done|intros (_&?&?&[= _ _ ?]&_); discriminate].
      * split; [done|intros (_&?&?&[= -> _ _]&?); congruence].
Qed.

(** A [2xx] response whose body is not JSON is reported as a
    network error: the [SyntaxError] of [response.json()] falls into the
    catch-all branch of [makeRequest]. *)
Theorem classify_malformed_success cfg lat st txt :
  (lat < REQUEST_TIMEOUT cfg)%Z → response_ok st = true →
  classify cfg (mk_net_event lat (NetResponse st txt BodyMalformed)) = Err network_error.
Proof. intros H Hok. rewrite classify_in_time by done. simpl. by rewrite Hok. Qed.

Lemma classify_malformed_success_witness :
  (30 < REQUEST_TIMEOUT (API_CONFIG empty_env))%Z ∧ response_ok 200 = true ∧
  classify (API_CONFIG empty_env) (mk_net_event 30 (NetResponse 200 "OK" BodyMalformed)) = Err network_error.
Proof.
  split; [reflexivity|]. split; [reflexivity|].
  apply classify_malformed_success; reflexivity.
Defined.
