(* ===== verification/Gateway.v ===== *)
(** * The market-data gateway: [createCoinGeckoService] in
      [src/src/services/coinGeckoService.js]

    The service owns one HTTP client (stateless) and one cache, whose state
    [gw_state] is a [Cache.cache_state] of [cached] values: the cache is a
    JS [Map] of untyped values, and the three operations store three kinds
    of value (adapted coins, adapted trending coins, the raw detail JSON).

    Every operation is [async] and awaits the network once.  It is modelled
    as two steps: [begin_op] runs synchronously up to the [await] (computes
    the cache key, calls [cache.get] at the current instant, which may evict
    an expired entry, and either returns the cached value or the [pending]
    request), and [finish_op] runs when the request settles (classifies the
    outcome, adapts, and on success calls [cache.set] at the completion
    instant).  [run_op] composes them; the orchestrator of
    [HighlightsSection] interleaves them.  [getTopGainers], [getTopLosers]
    and [getHighestVolume] are [getCoinsMarkets] followed by a pure
    post-processing ([gw_call]).

    Theorems: a second call within the TTL is answered from the cache
    without a request; a failed call stores nothing; the kind of every
    cached value is determined by its key, in every reachable state; the
    gainers/losers filters keep exactly the coins of the right sign; the
    cache keys of different operations never collide. *)

From S2P Require Import Prelude Config JsMap Cache JsValue Adapters HttpClient.
From Stdlib Require Import QArith Ascii.
#[local] Set Warnings "-clear-no-such-hyp".
Local Open Scope string_scope.

(** ** The values the cache holds *)
Inductive cached :=
  | CCoins (l : list Coin)
  | CTrending (l : list TrendingCoin)
  | CRaw (j : json).

(** [if (cachedData)]: arrays are always truthy, a raw detail payload is
    truthy unless it is [null], [false], [0] or [""]. *)
Definition cached_truthy (v : cached) : bool :=
  match v with CCoins _ | CTrending _ => true | CRaw j => truthy (Some j) end.

Definition gw_state := cache_state cached.

(** ** [JSON.stringify] of the parameter object, for the cache key *)

Definition hex_lower (n : nat) : ascii :=
  if (n <? 10)%nat then ascii_of_nat (48 + n) else ascii_of_nat (87 + n).

(** The one-character string made of a double quote (code 34). *)
Definition dquote : string := String (ascii_of_nat 34) EmptyString.

(** [QuoteJSONString] on a Latin-1 string. *)
Definition json_escape_char (c : ascii) : string :=
  let n := nat_of_ascii c in
  if (n =? 34)%nat then "\" ++ dquote
  else if (n =? 92)%nat then "\\"
  else if (n =? 8)%nat then "\b"
  else if (n =? 12)%nat then "\f"
  else if (n =? 10)%nat then "\n"
  else if (n =? 13)%nat then "\r"
  else if (n =? 9)%nat then "\t"
  else if (n <? 32)%nat then "\u00" ++ String (hex_lower (n / 16)) (String (hex_lower (n mod 16)) "")
  else String c "".

Fixpoint json_escape (s : string) : string :=
  match s with
  | EmptyString => ""
  | String c s' => json_escape_char c ++ json_escape s'
  end.

Definition json_quote (s : string) : string := dquote ++ json_escape s ++ dquote.

Definition stringify_pval (v : pval) : option string :=
  match v with
  | PStr s => Some (json_quote s)
  | PNum z => Some (Z_to_string z)
  | PBool b => Some (if b then "true" else "false")
  | PNull => Some "null"
  | PUndef => None
  end.

(** The members of the object, [undefined] ones omitted. *)
Fixpoint stringify_members (ps : list (string * pval)) : list string :=
  match ps with
  | [] => []
  | (k, v) :: ps' =>
      match stringify_pval v with
      | Some s => (json_quote k ++ ":" ++ s) :: stringify_members ps'
      | None => stringify_members ps'
      end
  end.

Fixpoint join_comma (l : list string) : string :=
  match l with
  | [] => ""
  | [s] => s
  | s :: l' => s ++ "," ++ join_comma l'
  end.

Definition json_stringify_params (ps : list (string * pval)) : string :=
  "{" ++ join_comma (stringify_members ps) ++ "}".

(** ** The operations *)

Definition defaultParams : list (string * pval) :=
  [("vs_currency", PStr DEFAULT_CURRENCY); ("order", PStr "market_cap_desc");
   ("per_page", PNum 50); ("page", PNum 1); ("sparkline", PBool false);
   ("price_change_percentage", PStr "24h")].

(** [{ ...defaultParams, ...params }] *)
Definition finalParams (params : list (string * pval)) : list (string * pval) :=
  fold_left (λ acc kv, Map_set kv.1 kv.2 acc) params defaultParams.

Definition markets_key (params : list (string * pval)) : string :=
  "coins_markets_" ++ json_stringify_params (finalParams params).

Definition trending_key : string := "trending_coins".

Definition details_key (coinId : string) : string := "coin_details_" ++ coinId.

Inductive gw_op :=
  | GetCoinsMarkets (params : list (string * pval))
  | GetTrendingCoins
  | GetCoinDetails (coinId : string).

(** A request in flight: where its result goes and how it is adapted. *)
Record pending := mk_pending {
  p_key : string;
  p_path : string;
  p_params : list (string * pval);
  p_adapt : json → result js_error cached;
  p_ttl : option Z;
}.

Definition op_pending (op : gw_op) : pending :=
  match op with
  | GetCoinsMarkets params =>
      mk_pending (markets_key params) COINS_MARKETS (finalParams params)
        (λ r, CCoins <$> adaptCoinsFromApi (Some r)) None
  | GetTrendingCoins =>
      mk_pending trending_key TRENDING [] (λ r, CTrending <$> adaptTrendingCoinsFromApi (Some r)) None
  | GetCoinDetails coinId =>
      mk_pending (details_key coinId) (COIN_DETAIL coinId) [] (λ r, Ok (CRaw r)) (Some 30000%Z)
  end.

Inductive started := Hit (v : cached) | Miss (p : pending).

(** The synchronous part: [cache.get(cacheKey)]; [if (cachedData) return]. *)
Definition begin_op (now : Z) (op : gw_op) (st : gw_state) : started * gw_state :=
  let p := op_pending op in
  let '(o, st') := get now (p_key p) st in
  match o with
  | Some v => if cached_truthy v then (Hit v, st') else (Miss p, st')
  | None => (Miss p, st')
  end.

(** The request [httpClient.get] sends for a pending operation. *)
Definition pending_request (cfg : api_config) (p : pending) : request :=
  build_request cfg (BASE_URL cfg) (p_path p) (mk_options (p_params p) (Some "GET") [] None).

(** After the [await]: adapt, [cache.set] at [t_done], return; on any
    exception nothing is stored and the error is rethrown unchanged. *)
Definition finish_op (cfg : api_config) (p : pending) (ev : net_event) (t_done : Z)
    (st : gw_state) : result js_error cached * gw_state :=
  match classify cfg ev with
  | Err e => (Err e, st)
  | Ok response =>
      match p_adapt p response with
      | Err e => (Err e, st)
      | Ok v => (Ok v, set t_done (p_key p) v (p_ttl p) st)
      end
  end.

(** One whole call: begun at [now], its request (if any) settled by [ev]
    and completed at [t_done]. *)
Definition run_op (cfg : api_config) (op : gw_op) (now : Z) (ev : net_event) (t_done : Z)
    (st : gw_state) : result js_error cached * gw_state :=
  match begin_op now op st with
  | (Hit v, st') => (Ok v, st')
  | (Miss p, st') => finish_op cfg p ev t_done st'
  end.

(** ** The derived operations *)

(** [coins.filter(pred)] after the [await]: only a coin list has a
    [filter] method here (by [gw_kinds_ok] the markets key never holds
    anything else). *)
Definition coins_filter (pred : Coin → bool) (v : cached) : result js_error cached :=
  match v with
  | CCoins l => Ok (CCoins (List.filter pred l))
  | _ => Err (type_error "coins.filter is not a function")
  end.

(** The public calls of the service (save [searchCoins], [clearCache],
    [getCacheStats]): the gateway operation and the post-processing. *)
Inductive gw_call :=
  | CallMarkets (params : list (string * pval))
  | CallTrending
  | CallDetails (coinId : string)
  | CallTopGainers (limit : Z)
  | CallTopLosers (limit : Z)
  | CallHighestVolume (limit : Z).

Definition call_op (c : gw_call) : gw_op :=
  match c with
  | CallMarkets params => GetCoinsMarkets params
  | CallTrending => GetTrendingCoins
  | CallDetails id => GetCoinDetails id
  | CallTopGainers limit =>
      GetCoinsMarkets [("order", PStr "percent_change_24h_desc"); ("per_page", PNum limit)]
  | CallTopLosers limit =>
      GetCoinsMarkets [("order", PStr "percent_change_24h_asc"); ("per_page", PNum limit)]
  | CallHighestVolume limit =>
      GetCoinsMarkets [("order", PStr "volume_desc"); ("per_page", PNum limit)]
  end.

Definition call_post (c : gw_call) (v : cached) : result js_error cached :=
  match c with
  | CallTopGainers _ => coins_filter (λ coin, js_gt0 (priceChangePercentage24h coin)) v
  | CallTopLosers _ => coins_filter (λ coin, js_lt0 (priceChangePercentage24h coin)) v
  | _ => Ok v
  end.

Definition run_call (cfg : api_config) (c : gw_call) (now : Z) (ev : net_event) (t_done : Z)
    (st : gw_state) : result js_error cached * gw_state :=
  let '(r, st') := run_op cfg (call_op c) now ev t_done st in
  (r ≫= call_post c, st').

(** [clearCache()] *)
Definition clearCache (st : gw_state) : gw_state := clear st.

(** [getCacheStats()] *)
Definition getCacheStats (st : gw_state) : nat * list string := getStats st.

(** States of the service's cache reachable from [createCoinGeckoService()]
    through completed calls (the clock is free: calls may come at any
    instant and complete at any later one) and [clearCache]. *)
Inductive gw_reachable (cfg : api_config) : gw_state → Prop :=
  | gw_init : gw_reachable cfg []
  | gw_step c now ev t_done st :
      gw_reachable cfg st → gw_reachable cfg (run_call cfg c now ev t_done st).2
  | gw_clear st : gw_reachable cfg st → gw_reachable cfg (clearCache st).

(** ** Lemmas *)

Definition op_ttl (op : gw_op) : Z := ttl_or_default (p_ttl (op_pending op)).

(** The kind of value each key family holds. *)
Definition kind_ok (k : string) (v : cached) : Prop :=
  match v with
  | CCoins _ => ∃ ps, k = markets_key ps
  | CTrending _ => k = trending_key
  | CRaw _ => ∃ id, k = details_key id
  end.

Definition gw_inv (st : gw_state) : Prop :=
  Map_wf st ∧ ∀ k e, Map_get k st = Some e → kind_ok k (data e).

Lemma op_pending_kind op r v : p_adapt (op_pending op) r = Ok v → kind_ok (p_key (op_pending op)) v.
Proof.
  destruct op as [ps| |id]; cbn [op_pending p_adapt p_key]; intros H.
  - destruct (adaptCoinsFromApi (Some r)); [|discriminate]. injection H as <-. by exists ps.
  - destruct (adaptTrendingCoinsFromApi (Some r)); [|discriminate]. by injection H as <-.
  - injection H as <-. by exists id.
Qed.

(** [substring 0 n] of a literal prefix computes without the tail. *)
Lemma key_prefix_neq (p1 p2 a b : string) (n : nat) :
  String.substring 0 n (p1 ++ a) = String.substring 0 n p1 →
  String.substring 0 n (p2 ++ b) = String.substring 0 n p2 →
  String.substring 0 n p1 ≠ String.substring 0 n p2 → p1 ++ a ≠ p2 ++ b.
Proof. intros H1 H2 Hne Heq. apply Hne. by rewrite <- H1, <- H2, Heq. Qed.

(** ** Properties of the gateway *)

Local Open Scope Z_scope.

(** C8 (functional). After a call completed successfully at [t_done]
    and stored its value [v], the same call started at most the
    operation's TTL later (60 s, 30 s for a coin's details) is answered
    from the cache with [v], without a request, and leaves the cache as it
    was. *)
Theorem gw_second_call_hits cfg op ev t_done st v st1 now2 :
  finish_op cfg (op_pending op) ev t_done st = (Ok v, st1) →
  now2 - t_done ≤ op_ttl op → cached_truthy v = true →
  begin_op now2 op st1 = (Hit v, st1).
Proof.
  unfold finish_op, op_ttl. intros Hf Hle Ht.
  destruct (classify cfg ev) as [r|]; [|discriminate].
  destruct (p_adapt (op_pending op) r) as [v'|]; [|discriminate]. injection Hf as <- <-.
  unfold begin_op. destruct (p_ttl (op_pending op)) as [t|] eqn:Ht'; simpl in Hle;
    [|rewrite set_default_ttl]; rewrite get_set_within_ttl by done; by rewrite Ht.
Qed.

Lemma gw_second_call_hits_witness :
  finish_op (API_CONFIG empty_env) (op_pending GetTrendingCoins)
    (mk_net_event 100 (NetResponse 200 "OK" (BodyJson (JObj [("coins", JArr [])])))) 100 []
    = (Ok (CTrending []), set 100 trending_key (CTrending []) None []) ∧
  60100 - 100 ≤ op_ttl GetTrendingCoins ∧ cached_truthy (CTrending []) = true ∧
  begin_op 60100 GetTrendingCoins (set 100 trending_key (CTrending []) None [])
    = (Hit (CTrending []), set 100 trending_key (CTrending []) None []).
Proof.
  assert (Hf : finish_op (API_CONFIG empty_env) (op_pending GetTrendingCoins)
    (mk_net_event 100 (NetResponse 200 "OK" (BodyJson (JObj [("coins", JArr [])])))) 100 []
    = (Ok (CTrending []), set 100 trending_key (CTrending []) None [])) by reflexivity.
  split; [exact Hf|]. split; [vm_compute; discriminate|]. split; [reflexivity|].
  apply (gw_second_call_hits _ _ _ _ _ _ _ _ Hf); [vm_compute; discriminate|reflexivity].
Defined.

(** C9 (error). A call that fails (timeout, HTTP error, network error,
    or an adapter [TypeError]) stores nothing: the cache is left as the
    initial [cache.get] left it. *)
Theorem gw_failure_stores_nothing cfg op now ev t_done st e st' :
  run_op cfg op now ev t_done st = (Err e, st') → st' = (begin_op now op st).2.
Proof.
  unfold run_op. destruct (begin_op now op st) as [[v|p] st0]; simpl; [done|].
  unfold finish_op. destruct (classify cfg ev) as [r|e']; [|by intros [= _ <-]].
  destruct (p_adapt p r); [done|]. by intros [= _ <-].
Qed.

Lemma gw_failure_stores_nothing_witness :
  run_op (API_CONFIG empty_env) GetTrendingCoins 0 (mk_net_event 50 NetFail) 50 []
    = (Err network_error, []) ∧
  [] = (begin_op 0 GetTrendingCoins []).2.
Proof.
  assert (H : run_op (API_CONFIG empty_env) GetTrendingCoins 0 (mk_net_event 50 NetFail) 50 []
              = (Err network_error, [])) by reflexivity.
  split; [exact H|]. exact (gw_failure_stores_nothing _ _ _ _ _ _ _ _ H).
Defined.

(** ** The invariant of the cache's contents *)

Lemma get_state_inv now k st : gw_inv st → gw_inv (get now k st).2.
Proof.
  intros [Hwf Hk]. unfold get. destruct (Map_get k st) as [e|]; [|done].
  destruct (isExpired now k st); simpl; [|done].
  split; [by apply Map_delete_wf|]. intros k' e' Hg.
  destruct (decide (k = k')) as [->|Hne].
  - unfold deleteKey in Hg. by rewrite Map_get_delete_eq in Hg.
  - unfold deleteKey in Hg. rewrite Map_get_delete_ne in Hg by done. eauto.
Qed.

Lemma begin_op_state now op st : (begin_op now op st).2 = (get now (p_key (op_pending op)) st).2.
Proof.
  unfold begin_op. destruct (get now _ st) as [[v|] st']; simpl; [|done].
  by destruct (cached_truthy v).
Qed.

Lemma finish_op_inv cfg op ev t st : gw_inv st → gw_inv (finish_op cfg (op_pending op) ev t st).2.
Proof.
  intros [Hwf Hk]. unfold finish_op. destruct (classify cfg ev) as [r|]; simpl; [|by split].
  destruct (p_adapt (op_pending op) r) as [v|] eqn:Ha; simpl; [|by split].
  split; [by apply Map_set_wf|]. intros k e Hg. unfold set in Hg.
  destruct (decide (p_key (op_pending op) = k)) as [<-|Hne].
  - rewrite Map_get_set_eq in Hg. injection Hg as <-. simpl. by eapply op_pending_kind.
  - rewrite Map_get_set_ne in Hg by done. eauto.
Qed.

Lemma run_op_inv cfg op now ev t st : gw_inv st → gw_inv (run_op cfg op now ev t st).2.
Proof.
  intros Hinv. unfold run_op.
  pose proof (begin_op_state now op st) as Hs.
  destruct (begin_op now op st) as [[v|p] st'] eqn:Hb; simpl in *.
  - subst. by apply get_state_inv.
  - assert (p = op_pending op) as ->.
    { unfold begin_op in Hb. destruct (get now _ st) as [[v|] ?]; [destruct (cached_truthy v)|];
        by injection Hb. }
    apply finish_op_inv. subst. by apply get_state_inv.
Qed.

#[export] Hint Resolve run_op_inv : medi.

Lemma run_call_state cfg c now ev t st :
  (run_call cfg c now ev t st).2 = (run_op cfg (call_op c) now ev t st).2.
Proof. unfold run_call. by destruct (run_op _ _ _ _ _ _). Qed.

(** C21 (invariant). In every state of the service's cache reachable by
    calls and [clearCache], the [Map] invariant holds and the kind of each
    stored value is fixed by its key: coin lists under [coins_markets_...]
    keys, trending lists under [trending_coins], raw payloads under
    [coin_details_...] keys. *)
Theorem gw_reachable_inv cfg st : gw_reachable cfg st → gw_inv st.
Proof.
  induction 1 as [|c now ev t st _ IH|st _ IH].
  - split; [apply Map_nil_wf|done].
  - rewrite run_call_state. by apply run_op_inv.
  - split; [apply Map_nil_wf|done].
Qed.

Lemma gw_reachable_inv_witness :
  gw_reachable (API_CONFIG empty_env)
    (run_call (API_CONFIG empty_env) CallTrending 0
       (mk_net_event 100 (NetResponse 200 "OK" (BodyJson (JObj [("coins", JArr [])])))) 100 []).2 ∧
  gw_inv (run_call (API_CONFIG empty_env) CallTrending 0
       (mk_net_event 100 (NetResponse 200 "OK" (BodyJson (JObj [("coins", JArr [])])))) 100 []).2.
Proof.
  assert (H : gw_reachable (API_CONFIG empty_env)
    (run_call (API_CONFIG empty_env) CallTrending 0
       (mk_net_event 100 (NetResponse 200 "OK" (BodyJson (JObj [("coins", JArr [])])))) 100 []).2)
    by (apply gw_step, gw_init).
  split; [exact H|]. exact (gw_reachable_inv _ _ H).
Defined.

Lemma coins_filter_Ok pred v v' :
  coins_filter pred v = Ok v' →
  ∃ l0 l, v = CCoins l0 ∧ v' = CCoins l ∧
          (∀ c, c ∈ l ↔ c ∈ l0 ∧ pred c = true).
Proof.
  destruct v as [l0| |]; simpl; try discriminate. intros [= <-].
  exists l0, (List.filter pred l0). split; [done|]. split; [done|]. intros c.
  rewrite !list_elem_of_In. apply filter_In.
Qed.

(** [getTopGainers(limit)] returns exactly the coins of
    the [percent_change_24h_desc] listing whose 24 h change is [> 0] (in
    the JS sense); it may return fewer than [limit]. *)
Theorem top_gainers_positive cfg limit now ev t st v st' :
  run_call cfg (CallTopGainers limit) now ev t st = (Ok v, st') →
  ∃ l0 l, (run_op cfg (call_op (CallTopGainers limit)) now ev t st).1 = Ok (CCoins l0) ∧
          v = CCoins l ∧
          ∀ c, c ∈ l ↔ c ∈ l0 ∧ js_gt0 (priceChangePercentage24h c) = true.
Proof.
  unfold run_call. destruct (run_op _ _ _ _ _ _) as [[r|] st0]; simpl; [|discriminate].
  intros [= Hr _]. destruct (coins_filter_Ok _ _ _ Hr) as (l0 & l & -> & -> & Hl).
  by exists l0, l.
Qed.

(** A listing response of two coins, one up 1.5 % and one down 2 %, for
    the witnesses. *)
Definition sample_listing : json :=
  JArr [JObj [("id", JStr "bitcoin"); ("symbol", JStr "btc"); ("name", JStr "Bitcoin");
              ("price_change_percentage_24h", JNum (3 # 2))];
        JObj [("id", JStr "ethereum"); ("symbol", JStr "eth"); ("name", JStr "Ethereum");
              ("price_change_percentage_24h", JNum (-2))]].

Definition sample_event : net_event :=
  mk_net_event 120 (NetResponse 200 "OK" (BodyJson sample_listing)).

Definition sample_coins : list Coin :=
  match adaptCoinsFromApi (Some sample_listing) with Ok l => l | Err _ => [] end.

Lemma top_gainers_positive_witness :
  run_call (API_CONFIG empty_env) (CallTopGainers 5) 0 sample_event 120 [] =
    (Ok (CCoins (List.filter (λ c, js_gt0 (priceChangePercentage24h c)) sample_coins)),
     (run_call (API_CONFIG empty_env) (CallTopGainers 5) 0 sample_event 120 []).2) ∧
  ∃ l0 l, (run_op (API_CONFIG empty_env) (call_op (CallTopGainers 5)) 0 sample_event 120 []).1
            = Ok (CCoins l0) ∧
          CCoins (List.filter (λ c, js_gt0 (priceChangePercentage24h c)) sample_coins) = CCoins l ∧
          ∀ c, c ∈ l ↔ c ∈ l0 ∧ js_gt0 (priceChangePercentage24h c) = true.
Proof.
  assert (H : run_call (API_CONFIG empty_env) (CallTopGainers 5) 0 sample_event 120 [] =
    (Ok (CCoins (List.filter (λ c, js_gt0 (priceChangePercentage24h c)) sample_coins)),
     (run_call (API_CONFIG empty_env) (CallTopGainers 5) 0 sample_event 120 []).2))
    by reflexivity.
  split; [exact H|]. exact (top_gainers_positive _ _ _ _ _ _ _ _ H).
Defined.

(** [getTopLosers(limit)] returns exactly the coins of
    the [percent_change_24h_asc] listing whose 24 h change is [< 0]. *)
Theorem top_losers_negative cfg limit now ev t st v st' :
  run_call cfg (CallTopLosers limit) now ev t st = (Ok v, st') →
  ∃ l0 l, (run_op cfg (call_op (CallTopLosers limit)) now ev t st).1 = Ok (CCoins l0) ∧
          v = CCoins l ∧
          ∀ c, c ∈ l ↔ c ∈ l0 ∧ js_lt0 (priceChangePercentage24h c) = true.
Proof.
  unfold run_call. destruct (run_op _ _ _ _ _ _) as [[r|] st0]; simpl; [|discriminate].
  intros [= Hr _]. destruct (coins_filter_Ok _ _ _ Hr) as (l0 & l & -> & -> & Hl).
  by exists l0, l.
Qed.

Lemma top_losers_negative_witness :
  run_call (API_CONFIG empty_env) (CallTopLosers 5) 0 sample_event 120 [] =
    (Ok (CCoins (List.filter (λ c, js_lt0 (priceChangePercentage24h c)) sample_coins)),
     (run_call (API_CONFIG empty_env) (CallTopLosers 5) 0 sample_event 120 []).2) ∧
  ∃ l0 l, (run_op (API_CONFIG empty_env) (call_op (CallTopLosers 5)) 0 sample_event 120 []).1
            = Ok (CCoins l0) ∧
          CCoins (List.filter (λ c, js_lt0 (priceChangePercentage24h c)) sample_coins) = CCoins l ∧
          ∀ c, c ∈ l ↔ c ∈ l0 ∧ js_lt0 (priceChangePercentage24h c) = true.
Proof.
  assert (H : run_call (API_CONFIG empty_env) (CallTopLosers 5) 0 sample_event 120 [] =
    (Ok (CCoins (List.filter (λ c, js_lt0 (priceChangePercentage24h c)) sample_coins)),
     (run_call (API_CONFIG empty_env) (CallTopLosers 5) 0 sample_event 120 []).2))
    by reflexivity.
  split; [exact H|]. exact (top_losers_negative _ _ _ _ _ _ _ _ H).
Defined.

(** The three key families are disjoint and a coin's details
    key determines the coin id, so two different operations never read or
    overwrite each other's cache entries. *)
Theorem cache_keys_disjoint ps id id' :
  markets_key ps ≠ trending_key ∧ markets_key ps ≠ details_key id ∧
  trending_key ≠ details_key id ∧ (details_key id = details_key id' → id = id').
Proof.
  unfold markets_key, details_key, trending_key.
  split; [|split; [|split]].
  - intros H. apply (f_equal (String.substring 0 1)) in H. vm_compute in H. discriminate.
  - intros H. apply (f_equal (String.substring 0 5)) in H. vm_compute in H. discriminate.
  - intros H. apply (f_equal (String.substring 0 1)) in H. vm_compute in H. discriminate.
  - apply string_app_inj_l.
Qed.
