(* ===== verification/Highlights.v ===== *)
(** * The orchestrator: [fetchHighlights] in
      [src/src/components/HighlightsSection/HighlightsSection.js]

    [fetchHighlights] sets [loading] and clears [error], then awaits
    [Promise.allSettled] of [getTopGainers(5)], [getTopLosers(5)],
    [getHighestVolume(5)] and [getTrendingCoins()].  Evaluating the array
    literal starts the four calls in this order, each running synchronously
    up to its first [await] ([Gateway.begin_op]); the requests then settle
    in an order the network decides, each completion running
    [Gateway.finish_op] and the post-processing on the shared cache.  A
    [schedule] lists the completions (task index, network event,
    completion instant) in the order they happen.

    After the join, the four setters store the value of each fulfilled
    call or [[]], trending being cut to five entries by [slice(0, 5)];
    when all four calls were rejected an [Error] is thrown and caught into
    the [error] state; [finally] clears [loading].

    Theorems: the partial-failure and total-failure scenarios of the
    specification, the independence of the outcome and of the cache's
    contents from the completion order, and the fact that the cache's key
    order still records that order. *)

From S2P Require Import Prelude Config JsMap Cache JsValue Adapters HttpClient Gateway.
From Stdlib Require Import QArith Ascii Permutation.
#[local] Set Warnings "-clear-no-such-hyp".
Local Open Scope string_scope.

(** The component's state ([useState] hooks).  The list-valued hooks hold
    whatever value the service returned ([cached]). *)
Record hl_state := mk_hl {
  topGainers : cached;
  topLosers : cached;
  highestVolume : cached;
  trending : cached;
  loading : bool;
  error : option js_error;
}.

Definition hl_initial : hl_state :=
  mk_hl (CCoins []) (CCoins []) (CCoins []) (CTrending []) true None.

Definition highlight_calls : list gw_call :=
  [CallTopGainers 5; CallTopLosers 5; CallHighestVolume 5; CallTrending].

Record task := mk_task { tk_call : gw_call; tk_start : started }.

(** Evaluating the array literal: the calls start one after the other,
    each up to its [await], all at the same instant [now]. *)
Fixpoint start_calls (now : Z) (cs : list gw_call) (st : gw_state) : list task * gw_state :=
  match cs with
  | [] => ([], st)
  | c :: cs' =>
      let '(s, st1) := begin_op now (call_op c) st in
      let '(tks, st2) := start_calls now cs' st1 in
      (mk_task c s :: tks, st2)
  end.

(** A task settles: a cache hit resolves with the cached value, a miss
    runs the completion of its request; then the call's post-processing. *)
Definition settle_task (cfg : api_config) (tk : task) (ev : net_event) (t : Z) (st : gw_state)
    : result js_error cached * gw_state :=
  match tk_start tk with
  | Hit v => (call_post (tk_call tk) v, st)
  | Miss p => let '(r, st') := finish_op cfg p ev t st in (r ≫= call_post (tk_call tk), st')
  end.

(** The completions in the order they happen. *)
Definition schedule := list (nat * (net_event * Z)).

Definition settle_step (cfg : api_config) (tks : list task)
    (acc : list (option (result js_error cached)) * gw_state) (x : nat * (net_event * Z))
    : list (option (result js_error cached)) * gw_state :=
  let '(rs, st) := acc in
  let '(i, (ev, t)) := x in
  match tks !! i, rs !! i with
  | Some tk, Some None =>
      let '(r, st') := settle_task cfg tk ev t st in (<[i := Some r]> rs, st')
  | _, _ => (rs, st)
  end.

Definition run_schedule (cfg : api_config) (tks : list task) (sch : schedule) (st : gw_state)
    : list (option (result js_error cached)) * gw_state :=
  fold_left (settle_step cfg tks) sch ((λ _, None) <$> tks, st).

(** [arr.slice(0, 5)] on the value of the trending call. *)
Definition slice5 (v : cached) : result js_error cached :=
  match v with
  | CCoins l => Ok (CCoins (firstn 5 l))
  | CTrending l => Ok (CTrending (firstn 5 l))
  | CRaw (JArr l) => Ok (CRaw (JArr (firstn 5 l)))
  | CRaw (JStr s) => Ok (CRaw (JStr (String.substring 0 5 s)))
  | CRaw JNull => Err (type_error "Cannot read properties of null (reading 'slice')")
  | CRaw _ => Err (type_error "trendingData.value.slice is not a function")
  end.

Definition all_failed_error : js_error :=
  mk_error "Error" (JStr "All highlight requests failed") None None.

Definition value_or (r : result js_error cached) (d : cached) : cached :=
  match r with Ok v => v | Err _ => d end.

(** The code after the [await]: setters, the all-rejected check, [catch],
    [finally].  If [slice] throws, [setTrending] is not reached and the
    previous trending value stays. *)
Definition apply_settled (prev : hl_state) (g l v t : result js_error cached) : hl_state :=
  let g' := value_or g (CCoins []) in
  let l' := value_or l (CCoins []) in
  let v' := value_or v (CCoins []) in
  match (match t with Ok x => slice5 x | Err _ => Ok (CTrending []) end) with
  | Err e => mk_hl g' l' v' (trending prev) false (Some e)
  | Ok t' =>
      if negb (is_ok g) && negb (is_ok l) && negb (is_ok v) && negb (is_ok t)
      then mk_hl g' l' v' t' false (Some all_failed_error)
      else mk_hl g' l' v' t' false None
  end.

(** [setLoading(true); setError(null)]: the state while the calls run. *)
Definition fetch_started (prev : hl_state) : hl_state :=
  mk_hl (topGainers prev) (topLosers prev) (highestVolume prev) (trending prev) true None.

(** A whole run of [fetchHighlights] started at [now] from the component
    state [prev] and the service cache [st]. *)
Definition fetchHighlights (cfg : api_config) (now : Z) (sch : schedule) (prev : hl_state)
    (st : gw_state) : option hl_state * gw_state :=
  let '(tks, st1) := start_calls now highlight_calls st in
  let '(rs, st2) := run_schedule cfg tks sch st1 in
  match rs with
  | [Some g; Some l; Some v; Some t] => (Some (apply_settled (fetch_started prev) g l v t), st2)
  | _ => (None, st2)
  end.

(** A schedule settles each task exactly once. *)
Definition schedule_complete (sch : schedule) (n : nat) : Prop :=
  Permutation (map fst sch) (seq 0 n).

(** ** Lemmas *)

(** What a settling task returns does not depend on the cache. *)
Definition settle_result (cfg : api_config) (tk : task) (ev : net_event) (t : Z)
    : result js_error cached :=
  (settle_task cfg tk ev t []).1.

(** The entry a settling task writes, if any. *)
Definition write_of (cfg : api_config) (tk : task) (ev : net_event) (t : Z)
    : option (string * entry cached) :=
  match tk_start tk with
  | Hit _ => None
  | Miss p =>
      match classify cfg ev with
      | Err _ => None
      | Ok r =>
          match p_adapt p r with
          | Err _ => None
          | Ok v => Some (p_key p, mk_entry v t (ttl_or_default (p_ttl p)))
          end
      end
  end.

Definition apply_write (w : option (string * entry cached)) (st : gw_state) : gw_state :=
  match w with Some (k, e) => Map_set k e st | None => st end.

Lemma settle_task_result cfg tk ev t st : (settle_task cfg tk ev t st).1 = settle_result cfg tk ev t.
Proof.
  unfold settle_result, settle_task, finish_op. destruct (tk_start tk); [done|].
  destruct (classify cfg ev); [|done]. by destruct (p_adapt p a).
Qed.

Lemma settle_task_state cfg tk ev t st :
  (settle_task cfg tk ev t st).2 = apply_write (write_of cfg tk ev t) st.
Proof.
  unfold settle_task, write_of, finish_op. destruct (tk_start tk); [done|].
  destruct (classify cfg ev); [|done]. destruct (p_adapt p a); [|done].
  unfold set. simpl. by destruct (p_ttl p).
Qed.

(** The key a task would write. *)
Definition task_key (tk : task) : option string :=
  match tk_start tk with Hit _ => None | Miss p => Some (p_key p) end.

Lemma write_of_key cfg tk ev t k e : write_of cfg tk ev t = Some (k, e) → task_key tk = Some k.
Proof.
  unfold write_of, task_key. destruct (tk_start tk); [done|].
  destruct (classify cfg ev); [|done]. destruct (p_adapt p a); [|done]. by intros [= <- _].
Qed.

(** Two different tasks never write the same key. *)
Definition keys_distinct (tks : list task) : Prop :=
  ∀ i j tki tkj k, i ≠ j → tks !! i = Some tki → tks !! j = Some tkj →
    task_key tki = Some k → task_key tkj ≠ Some k.

Definition step_equiv (a b : list (option (result js_error cached)) * gw_state) : Prop :=
  a.1 = b.1 ∧ Map_equiv a.2 b.2.

#[export] Instance step_equiv_equivalence : Equivalence step_equiv.
Proof.
  split; unfold step_equiv.
  - intros [? ?]; done.
  - intros [? ?] [? ?] [? ?]; split; [done|by symmetry].
  - intros [? ?] [? ?] [? ?] [? ?] [? ?]; split; [congruence|by etrans].
Qed.

Lemma settle_step_eq cfg tks rs st i ev t :
  settle_step cfg tks (rs, st) (i, (ev, t)) =
    match tks !! i, rs !! i with
    | Some tk, Some None =>
        (<[i := Some (settle_result cfg tk ev t)]> rs, apply_write (write_of cfg tk ev t) st)
    | _, _ => (rs, st)
    end.
Proof.
  unfold settle_step. destruct (tks !! i) as [tk|]; [|done]. destruct (rs !! i) as [[]|]; try done.
  rewrite <- (settle_task_result cfg tk ev t st), <- (settle_task_state cfg tk ev t st).
  by destruct (settle_task cfg tk ev t st).
Qed.

Lemma apply_write_proper w st1 st2 : Map_equiv st1 st2 → Map_equiv (apply_write w st1) (apply_write w st2).
Proof. destruct w as [[k e]|]; simpl; [apply Map_set_proper|done]. Qed.

Lemma apply_write_commute cfg tki tkj evi ti evj tj st :
  (∀ k, task_key tki = Some k → task_key tkj ≠ Some k) →
  Map_equiv (apply_write (write_of cfg tki evi ti) (apply_write (write_of cfg tkj evj tj) st))
            (apply_write (write_of cfg tkj evj tj) (apply_write (write_of cfg tki evi ti) st)).
Proof.
  intros Hk. destruct (write_of cfg tki evi ti) as [[ki ei]|] eqn:Hi,
    (write_of cfg tkj evj tj) as [[kj ej]|] eqn:Hj; simpl; try done.
  apply Map_set_commute. intros <-. apply (Hk ki); eapply write_of_key; eauto.
Qed.

Section Schedules.
Context (cfg : api_config) (tks : list task) (Hkeys : keys_distinct tks).

Lemma settle_step_proper x a1 a2 :
  step_equiv a1 a2 → step_equiv (settle_step cfg tks a1 x) (settle_step cfg tks a2 x).
Proof.
  destruct a1 as [rs1 st1], a2 as [rs2 st2], x as [i [ev t]]. intros [Hrs Hst].
  simpl in Hrs, Hst. subst. rewrite !settle_step_eq. destruct (tks !! i) as [tk|]; [|by split].
  destruct (rs2 !! i) as [[]|]; try by split. split; [done|]. by apply apply_write_proper.
Qed.

Lemma settle_step_commute a x y :
  x.1 ≠ y.1 →
  step_equiv (settle_step cfg tks (settle_step cfg tks a x) y)
             (settle_step cfg tks (settle_step cfg tks a y) x).
Proof.
  destruct a as [rs st], x as [i [evi ti]], y as [j [evj tj]]. simpl fst. intros Hij.
  destruct (tks !! i) as [tki|] eqn:Hi; destruct (rs !! i) as [[]|] eqn:Hri;
    destruct (tks !! j) as [tkj|] eqn:Hj; destruct (rs !! j) as [[]|] eqn:Hrj;
    rewrite !(settle_step_eq _ _ rs), ?Hi, ?Hj, ?Hri, ?Hrj;
    rewrite ?settle_step_eq, ?Hi, ?Hj, ?list_lookup_insert_ne, ?Hri, ?Hrj by done;
    try by split.
  split; simpl.
  - by apply list_insert_insert_ne.
  - apply apply_write_commute. intros k Hk.
    first [by apply (Hkeys i j tki tkj k) | by apply (Hkeys j i tkj tki k)].
Qed.

(** The outcome of a schedule does not depend on the order of its
    completions, up to the order of the cache's keys. *)
Lemma run_schedule_perm sch1 sch2 st :
  Permutation sch1 sch2 → NoDup (map fst sch1) →
  step_equiv (run_schedule cfg tks sch1 st) (run_schedule cfg tks sch2 st).
Proof.
  intros Hp Hnd. unfold run_schedule.
  apply (fold_left_perm_rel step_equiv (settle_step cfg tks) fst); try done.
  - intros x a1 a2. apply settle_step_proper.
  - intros a x y. apply settle_step_commute.
Qed.
End Schedules.

(** The completion of task [i] in a schedule (its first entry). *)
Definition entry_of (sch : schedule) (i : nat) : option (net_event * Z) :=
  snd <$> List.find (λ x, Nat.eqb x.1 i) sch.

(** What each call settled to, by task index: the [allSettled] array. *)
Definition results_of (cfg : api_config) (tks : list task) (sch : schedule)
    : list (result js_error cached) :=
  (λ j, match tks !! j, entry_of sch j with
         | Some tk, Some (ev, t) => settle_result cfg tk ev t
         | _, _ => Err (type_error "unsettled")
         end) <$> seq 0 (List.length tks).

Lemma entry_of_notin sch i : i ∉ map fst sch → entry_of sch i = None.
Proof.
  unfold entry_of. induction sch as [|[i' x] sch IH]; simpl; [done|]. intros Hn.
  destruct (Nat.eqb_spec i' i) as [->|]; [set_solver|]. apply IH. set_solver.
Qed.

Lemma entry_of_in sch i : i ∈ map fst sch → ∃ ev t, entry_of sch i = Some (ev, t).
Proof.
  unfold entry_of. induction sch as [|[i' [ev t]] sch IH]; simpl; [set_solver|]. intros Hin.
  destruct (Nat.eqb_spec i' i) as [->|Hne]; [by exists ev, t|]. apply IH. set_solver.
Qed.

Lemma fold_settle_results cfg tks sch :
  NoDup (map fst sch) →
  ∀ rs st, (∀ i, i ∈ map fst sch → rs !! i = Some None) →
  ∀ j, (fold_left (settle_step cfg tks) sch (rs, st)).1 !! j =
       match entry_of sch j, tks !! j with
       | Some (ev, t), Some tk => Some (Some (settle_result cfg tk ev t))
       | _, _ => rs !! j
       end.
Proof.
  induction sch as [|[i [ev t]] sch IH]; cbn [fold_left map]; intros Hnd rs st Hrs j.
  - by destruct (tks !! j).
  - apply NoDup_cons in Hnd as [Hi Hnd]. rewrite settle_step_eq.
    assert (Hri : rs !! i = Some None) by (apply Hrs; set_solver).
    unfold entry_of at 1. simpl. rewrite Hri.
    destruct (tks !! i) as [tk|] eqn:Htk.
    + rewrite IH; [|done|].
      * destruct (Nat.eqb_spec i j) as [<-|Hne]; simpl.
        -- rewrite entry_of_notin by done. rewrite Htk. apply list_lookup_insert_eq.
           by apply lookup_lt_Some in Hri.
        -- fold (entry_of sch j). destruct (entry_of sch j) as [[ev' t']|]; [|by rewrite list_lookup_insert_ne].
           destruct (tks !! j); [done|by rewrite list_lookup_insert_ne].
      * intros i' Hi'. rewrite list_lookup_insert_ne by set_solver. apply Hrs. set_solver.
    + rewrite IH; [|done|intros; apply Hrs; set_solver].
      destruct (Nat.eqb_spec i j) as [<-|Hne]; simpl.
      * rewrite entry_of_notin by done. by rewrite Htk.
      * by fold (entry_of sch j).
Qed.

Lemma begin_op_miss now op st p st' : begin_op now op st = (Miss p, st') → p = op_pending op.
Proof.
  unfold begin_op. destruct (get now _ st) as [[v|] ?]; [destruct (cached_truthy v)|];
    by intros [= <- _].
Qed.

Lemma start_calls_shape now cs st tks st' :
  start_calls now cs st = (tks, st') →
  Forall2 (λ c tk, tk_call tk = c ∧
             (task_key tk = None ∨ task_key tk = Some (p_key (op_pending (call_op c))))) cs tks.
Proof.
  revert st tks. induction cs as [|c cs IH]; simpl; intros st tks H.
  - injection H as <- _. constructor.
  - destruct (begin_op now (call_op c) st) as [s st1] eqn:Hb.
    destruct (start_calls now cs st1) as [tks' st2] eqn:Hs. injection H as <- <-.
    constructor; [|by eapply IH]. cbv beta. split; [done|]. unfold task_key; simpl.
    destruct s as [v|p]; [by left|right]. by rewrite (begin_op_miss _ _ _ _ _ Hb).
Qed.

Definition highlight_keys : list string :=
  map (λ c, p_key (op_pending (call_op c))) highlight_calls.

Lemma highlight_keys_NoDup : NoDup highlight_keys.
Proof. apply NoDup_ListNoDup. vm_compute. repeat constructor; simpl; intuition discriminate. Qed.

Lemma highlight_tasks_keys_distinct now st tks st' :
  start_calls now highlight_calls st = (tks, st') → keys_distinct tks.
Proof.
  intros Hs. pose proof (start_calls_shape _ _ _ _ _ Hs) as Hf.
  intros i j tki tkj k Hij Hi Hj Hki Hkj.
  destruct (Forall2_lookup_r _ _ _ _ _ Hf Hi) as [ci [Hci [_ [Hni|Hki']]]]; [congruence|].
  destruct (Forall2_lookup_r _ _ _ _ _ Hf Hj) as [cj [Hcj [_ [Hnj|Hkj']]]]; [congruence|].
  rewrite Hki in Hki'. rewrite Hkj in Hkj'. injection Hki' as Hki'. injection Hkj' as Hkj'.
  pose proof highlight_keys_NoDup as Hnd. rewrite NoDup_alt in Hnd.
  apply Hij. apply (Hnd i j k); unfold highlight_keys; rewrite list_lookup_fmap;
    [rewrite Hci|rewrite Hcj]; simpl; congruence.
Qed.

Lemma start_calls_length now st tks st' :
  start_calls now highlight_calls st = (tks, st') → List.length tks = 4%nat.
Proof. intros Hs. apply start_calls_shape in Hs. by apply Forall2_length in Hs. Qed.

(** For a complete schedule, [fetchHighlights] ends with the settled
    values of the four calls, whatever the completion order. *)
Lemma fetchHighlights_settled cfg now sch prev st tks st1 :
  start_calls now highlight_calls st = (tks, st1) → schedule_complete sch 4 →
  ∃ g l v t, results_of cfg tks sch = [g; l; v; t] ∧
    (fetchHighlights cfg now sch prev st).1 = Some (apply_settled (fetch_started prev) g l v t).
Proof.
  intros Hs Hc. pose proof (start_calls_length _ _ _ _ Hs) as Hlen.
  assert (Hnd : NoDup (map fst sch)).
  { unfold schedule_complete in Hc. rewrite Hc. apply NoDup_seq. }
  assert (Hin : ∀ i, i ∈ map fst sch ↔ (i < 4)%nat).
  { intros i. unfold schedule_complete in Hc. rewrite Hc, elem_of_seq. lia. }
  assert (Hrs : (run_schedule cfg tks sch st1).1 = Some <$> results_of cfg tks sch).
  { apply list_eq. intros j. unfold run_schedule. rewrite fold_settle_results; [|done|].
    - unfold results_of. rewrite !list_lookup_fmap, Hlen.
      destruct (decide (j < 4)%nat) as [Hj|Hj].
      + rewrite lookup_seq_lt by done. simpl.
        destruct (entry_of_in sch j) as [ev [t ->]]; [by apply Hin|].
        destruct (lookup_lt_is_Some_2 tks j) as [tk ->]; [lia|]. done.
      + rewrite lookup_seq_ge by lia. rewrite entry_of_notin by (rewrite Hin; lia).
        by rewrite lookup_ge_None_2 by lia.
    - intros i Hi. apply Hin in Hi. rewrite list_lookup_fmap.
      by destruct (lookup_lt_is_Some_2 tks i) as [? ->]; [lia|]. }
  destruct (results_of cfg tks sch) as [|g [|l [|v [|t [|? ?]]]]] eqn:Hr;
    try (apply (f_equal List.length) in Hr; unfold results_of in Hr;
         rewrite length_fmap, length_seq in Hr; simpl in Hr; lia).
  exists g, l, v, t. split; [done|]. unfold fetchHighlights. rewrite Hs.
  destruct (run_schedule cfg tks sch st1) as [rs st2]. simpl in Hrs. by subst rs.
Qed.

(** ** The slice of the trending list never throws

    The trending hook receives [trendingData.value.slice(0, 5)]: a hit
    returns what the cache holds under [trending_coins], which by the
    service's invariant ([gw_inv]) is a trending list, and a miss the
    adapter's list.  So the error of a run is the aggregate error or none. *)

(** A started task: a hit holds a value of the kind of the call's key, a
    miss runs the call's own operation. *)
Definition task_ok (tk : task) : Prop :=
  match tk_start tk with
  | Hit v => kind_ok (p_key (op_pending (call_op (tk_call tk)))) v
  | Miss p => p = op_pending (call_op (tk_call tk))
  end.

(** The hooks after a run whose four calls were all rejected. *)
Definition hl_all_failed : hl_state :=
  mk_hl (CCoins []) (CCoins []) (CCoins []) (CTrending []) false (Some all_failed_error).

(** What the trending call can settle to. *)
Definition trending_typed (r : result js_error cached) : Prop :=
  match r with Ok (CTrending _) | Err _ => True | Ok _ => False end.

Lemma get_Some {V} now k (st : cache_state V) v st' :
  get now k st = (Some v, st') → ∃ e, Map_get k st = Some e ∧ data e = v.
Proof.
  unfold get. destruct (Map_get k st) as [e|]; [|done]. destruct (isExpired _ _ _); [done|].
  intros [= <- _]. by exists e.
Qed.

Lemma begin_op_task_ok now c st : gw_inv st → task_ok (mk_task c (begin_op now (call_op c) st).1).
Proof.
  intros [_ Hk]. unfold task_ok, begin_op. cbn [tk_start tk_call]. cbv zeta.
  destruct (get now _ st) as [[v|] st'] eqn:Hg; [|done].
  destruct (cached_truthy v); [|done]. cbn. destruct (get_Some _ _ _ _ _ Hg) as (e & He & <-). by eapply Hk.
Qed.

Lemma start_calls_ok now cs st tks st' :
  gw_inv st → start_calls now cs st = (tks, st') → gw_inv st' ∧ Forall task_ok tks ∧ tk_call <$> tks = cs.
Proof.
  revert st tks. induction cs as [|c cs IH]; cbn; intros st tks Hinv H; [by injection H as <- <-|].
  pose proof (begin_op_task_ok now c st Hinv) as Hok.
  pose proof (begin_op_state now (call_op c) st) as Hs.
  destruct (begin_op now (call_op c) st) as [s st1] eqn:Hb. destruct (start_calls now cs st1) as [tks' st2] eqn:Hc.
  injection H as <- <-. cbn in Hok, Hs.
  destruct (IH st1 tks') as (? & ? & ?); [subst st1; by apply get_state_inv|done|].
  split_and!; [done|by constructor|cbn; congruence].
Qed.

Lemma settle_task_inv cfg tk ev t st : task_ok tk → gw_inv st → gw_inv (settle_task cfg tk ev t st).2.
Proof.
  unfold task_ok, settle_task. destruct (tk_start tk) as [v|p]; [done|]. intros -> Hinv.
  pose proof (finish_op_inv cfg (call_op (tk_call tk)) ev t st Hinv) as H.
  destruct (finish_op _ _ _ _ _) as [r st']. exact H.
Qed.

(** A run's accumulator: the cache keeps its invariant, and each settled
    slot holds what its task settles to. *)
Definition sched_ok (cfg : api_config) (tks : list task)
    (acc : list (option (result js_error cached)) * gw_state) : Prop :=
  gw_inv acc.2 ∧
  ∀ j r, acc.1 !! j = Some (Some r) → ∃ tk ev t, tks !! j = Some tk ∧ r = settle_result cfg tk ev t.

Lemma settle_step_ok cfg tks acc x : Forall task_ok tks → sched_ok cfg tks acc → sched_ok cfg tks (settle_step cfg tks acc x).
Proof.
  intros Htk [Hinv Hrs]. destruct acc as [rs st], x as [i [ev t]]. cbn [settle_step].
  destruct (tks !! i) as [tk|] eqn:Hi; [|by split]. destruct (rs !! i) as [[r0|]|] eqn:Hr; [by split| |by split].
  pose proof (settle_task_inv cfg tk ev t st (Forall_lookup_1 _ _ _ _ Htk Hi) Hinv) as Hinv'.
  pose proof (settle_task_result cfg tk ev t st) as Hres.
  destruct (settle_task cfg tk ev t st) as [r st']. cbn [fst snd] in Hinv', Hres |- *. split; [done|].
  intros j r' Hj. cbn [fst] in Hj. destruct (decide (i = j)) as [<-|Hne].
  - rewrite list_lookup_insert_eq in Hj by (by apply lookup_lt_Some in Hr). injection Hj as <-.
    exists tk, ev, t. by rewrite Hres.
  - rewrite list_lookup_insert_ne in Hj by done. by apply Hrs.
Qed.

Lemma run_schedule_ok cfg tks sch st :
  Forall task_ok tks → gw_inv st → sched_ok cfg tks (run_schedule cfg tks sch st).
Proof.
  intros Htk Hinv. unfold run_schedule.
  assert (sched_ok cfg tks ((λ _, None) <$> tks, st)) as H0.
  { split; [done|]. intros j r. cbn [fst]. rewrite list_lookup_fmap. by destruct (tks !! j). }
  revert H0. generalize ((λ _, None) <$> tks : list (option (result js_error cached)), st) as acc.
  induction sch as [|x sch IH]; intros acc H; [done|]. cbn. apply IH. by apply settle_step_ok.
Qed.

Lemma trending_result_typed cfg tk ev t :
  task_ok tk → tk_call tk = CallTrending → trending_typed (settle_result cfg tk ev t).
Proof.
  unfold task_ok, settle_result, settle_task. intros Hok Hc. rewrite Hc in Hok |- *.
  destruct (tk_start tk) as [v|p].
  - destruct v; cbn in Hok |- *; try done.
    + destruct Hok as [ps Hps]. by destruct (proj1 (cache_keys_disjoint ps "" "")).
    + destruct Hok as [i Hi]. by destruct (proj1 (proj2 (proj2 (cache_keys_disjoint [] i i)))).
  - subst p. unfold finish_op. destruct (classify cfg ev) as [a|e]; cbn -[adaptTrendingCoinsFromApi]; [|done].
    destruct (adaptTrendingCoinsFromApi (Some a)); cbn; done.
Qed.

Lemma apply_settled_error prev g l v t :
  trending_typed t → error (apply_settled prev g l v t) = None ∨ apply_settled prev g l v t = hl_all_failed.
Proof.
  unfold apply_settled. destruct t as [[]|e]; cbn; intros Ht; try contradiction.
  - rewrite andb_false_r. by left.
  - destruct g, l, v; cbn; solve [by left|by right].
Qed.

(** A run started from a cache with the invariant keeps it, and ends
    with no error or with the aggregate error and no data. *)
Lemma fetchHighlights_ok cfg now sch prev st s' st' :
  gw_inv st → fetchHighlights cfg now sch prev st = (Some s', st') →
  gw_inv st' ∧ (error s' = None ∨ s' = hl_all_failed).
Proof.
  intros Hinv. unfold fetchHighlights.
  destruct (start_calls now highlight_calls st) as [tks st1] eqn:Hs.
  destruct (start_calls_ok _ _ _ _ _ Hinv Hs) as (Hinv1 & Htk & Hcalls).
  destruct (run_schedule_ok cfg tks sch st1 Htk Hinv1) as [Hinv2 Hrs].
  destruct (run_schedule cfg tks sch st1) as [rs st2]. cbn in Hinv2, Hrs. intros H.
  destruct rs as [|[g|] [|[l|] [|[v|] [|[t|] [|? ?]]]]]; try discriminate H.
  injection H as <- <-. split; [done|].
  apply apply_settled_error. destruct (Hrs 3%nat t eq_refl) as (tk & ev & t' & Htk3 & ->).
  apply trending_result_typed; [exact (Forall_lookup_1 _ _ _ _ Htk Htk3)|].
  apply (f_equal (λ l, l !! 3%nat)) in Hcalls. rewrite list_lookup_fmap, Htk3 in Hcalls. by injection Hcalls.
Qed.

(** ** Properties of the orchestrator *)

(** C10 (functional). When the trending call is rejected and the three
    other calls fulfil, whatever the completion order, [fetchHighlights]
    shows the gainers, losers and volume values, an empty trending list,
    and no error. *)
Theorem highlights_partial_failure cfg now sch prev st tks st1 g l v e :
  start_calls now highlight_calls st = (tks, st1) → schedule_complete sch 4 →
  results_of cfg tks sch = [Ok g; Ok l; Ok v; Err e] →
  (fetchHighlights cfg now sch prev st).1 = Some (mk_hl g l v (CTrending []) false None).
Proof.
  intros Hs Hc Hr. destruct (fetchHighlights_settled cfg now sch prev st tks st1 Hs Hc)
    as (g' & l' & v' & t' & Hr' & ->).
  rewrite Hr in Hr'. injection Hr' as <- <- <- <-. reflexivity.
Qed.

(** When all four calls are rejected, [fetchHighlights]
    reports the aggregate error, and every list is empty. *)
Theorem highlights_total_failure cfg now sch prev st tks st1 e1 e2 e3 e4 :
  start_calls now highlight_calls st = (tks, st1) → schedule_complete sch 4 →
  results_of cfg tks sch = [Err e1; Err e2; Err e3; Err e4] →
  (fetchHighlights cfg now sch prev st).1 =
    Some (mk_hl (CCoins []) (CCoins []) (CCoins []) (CTrending []) false (Some all_failed_error)).
Proof.
  intros Hs Hc Hr. destruct (fetchHighlights_settled cfg now sch prev st tks st1 Hs Hc)
    as (g' & l' & v' & t' & Hr' & ->).
  rewrite Hr in Hr'. injection Hr' as <- <- <- <-. reflexivity.
Qed.

(** C12 (safety). The order in which the four requests complete does not
    matter: two schedules with the same completions in different orders
    give the same component state and caches with the same entries. *)
Theorem highlights_order_independent cfg now sch1 sch2 prev st :
  Permutation sch1 sch2 → NoDup (map fst sch1) →
  (fetchHighlights cfg now sch1 prev st).1 = (fetchHighlights cfg now sch2 prev st).1 ∧
  Map_equiv (fetchHighlights cfg now sch1 prev st).2 (fetchHighlights cfg now sch2 prev st).2.
Proof.
  intros Hp Hnd. unfold fetchHighlights.
  destruct (start_calls now highlight_calls st) as [tks st1] eqn:Hs.
  destruct (run_schedule_perm cfg tks (highlight_tasks_keys_distinct _ _ _ _ Hs) sch1 sch2 st1 Hp Hnd)
    as [H1 H2].
  destruct (run_schedule cfg tks sch1 st1) as [rs1 st21], (run_schedule cfg tks sch2 st1) as [rs2 st22].
  simpl in H1, H2. subst rs2.
  destruct rs1 as [|[g|] [|[l|] [|[v|] [|[t|] []]]]]; simpl; (split; [reflexivity|exact H2]).
Qed.

(** Sample runs: the three listings succeed at 120, 130 and 140 ms, the
    trending request fails (or everything fails). *)
Definition trending_fails : net_event := mk_net_event 50%Z NetFail.

Definition sample_schedule : schedule :=
  [(0%nat, (sample_event, 120%Z)); (1%nat, (sample_event, 130%Z));
   (2%nat, (sample_event, 140%Z)); (3%nat, (trending_fails, 50%Z))].

Definition failing_schedule : schedule :=
  [(3%nat, (trending_fails, 50%Z)); (0%nat, (trending_fails, 50%Z));
   (1%nat, (trending_fails, 50%Z)); (2%nat, (trending_fails, 50%Z))].

Definition sample_tasks : list task := (start_calls 0 highlight_calls []).1.
Definition sample_started : gw_state := (start_calls 0 highlight_calls []).2.

Lemma sample_start : start_calls 0 highlight_calls [] = (sample_tasks, sample_started).
Proof. reflexivity. Qed.

Lemma highlights_partial_failure_witness :
  start_calls 0 highlight_calls [] = (sample_tasks, sample_started) ∧
  schedule_complete sample_schedule 4 ∧
  results_of (API_CONFIG empty_env) sample_tasks sample_schedule =
    [Ok (CCoins (List.filter (λ c, js_gt0 (priceChangePercentage24h c)) sample_coins));
     Ok (CCoins (List.filter (λ c, js_lt0 (priceChangePercentage24h c)) sample_coins));
     Ok (CCoins sample_coins); Err network_error] ∧
  (fetchHighlights (API_CONFIG empty_env) 0 sample_schedule hl_initial []).1 =
    Some (mk_hl (CCoins (List.filter (λ c, js_gt0 (priceChangePercentage24h c)) sample_coins))
                (CCoins (List.filter (λ c, js_lt0 (priceChangePercentage24h c)) sample_coins))
                (CCoins sample_coins) (CTrending []) false None).
Proof.
  assert (Hc : schedule_complete sample_schedule 4) by apply Permutation_refl.
  assert (Hr : results_of (API_CONFIG empty_env) sample_tasks sample_schedule =
    [Ok (CCoins (List.filter (λ c, js_gt0 (priceChangePercentage24h c)) sample_coins));
     Ok (CCoins (List.filter (λ c, js_lt0 (priceChangePercentage24h c)) sample_coins));
     Ok (CCoins sample_coins); Err network_error]) by reflexivity.
  split; [reflexivity|]. split; [exact Hc|]. split; [exact Hr|].
  exact (highlights_partial_failure _ _ _ _ _ _ _ _ _ _ _ sample_start Hc Hr).
Defined.

Lemma highlights_total_failure_witness :
  start_calls 0 highlight_calls [] = (sample_tasks, sample_started) ∧
  schedule_complete failing_schedule 4 ∧
  results_of (API_CONFIG empty_env) sample_tasks failing_schedule =
    [Err network_error; Err network_error; Err network_error; Err network_error] ∧
  (fetchHighlights (API_CONFIG empty_env) 0 failing_schedule hl_initial []).1 =
    Some (mk_hl (CCoins []) (CCoins []) (CCoins []) (CTrending []) false (Some all_failed_error)).
Proof.
  assert (Hc : schedule_complete failing_schedule 4).
  { unfold schedule_complete. simpl. apply (Permutation_cons_append [0; 1; 2]%nat 3%nat). }
  assert (Hr : results_of (API_CONFIG empty_env) sample_tasks failing_schedule =
    [Err network_error; Err network_error; Err network_error; Err network_error]) by reflexivity.
  split; [reflexivity|]. split; [exact Hc|]. split; [exact Hr|].
  exact (highlights_total_failure _ _ _ _ _ _ _ _ _ _ _ sample_start Hc Hr).
Defined.

Lemma highlights_order_independent_witness :
  Permutation sample_schedule (rev sample_schedule) ∧ NoDup (map fst sample_schedule) ∧
  ((fetchHighlights (API_CONFIG empty_env) 0 sample_schedule hl_initial []).1 =
     (fetchHighlights (API_CONFIG empty_env) 0 (rev sample_schedule) hl_initial []).1 ∧
   Map_equiv (fetchHighlights (API_CONFIG empty_env) 0 sample_schedule hl_initial []).2
             (fetchHighlights (API_CONFIG empty_env) 0 (rev sample_schedule) hl_initial []).2).
Proof.
  assert (Hp : Permutation sample_schedule (rev sample_schedule)) by apply Permutation_rev.
  assert (Hnd : NoDup (map fst sample_schedule)) by (apply NoDup_ListNoDup; vm_compute;
    repeat constructor; simpl; intuition discriminate).
  split; [exact Hp|]. split; [exact Hnd|].
  exact (highlights_order_independent _ _ _ _ _ _ Hp Hnd).
Defined.

(** The cache records the completion order all the
    same: the keys [getCacheStats] lists after the highlights come in the
    order the three listing requests completed, so two completion orders of
    the same requests give different key lists. *)
Theorem highlights_stats_reveal_order :
  (getCacheStats (fetchHighlights (API_CONFIG empty_env) 0 sample_schedule hl_initial []).2).2 ≠
  (getCacheStats (fetchHighlights (API_CONFIG empty_env) 0 (rev sample_schedule) hl_initial []).2).2.
Proof. vm_compute. discriminate. Qed.
