(* ===== verification/Debounce.v ===== *)
(** * [debounce(func, wait)]: [src/src/utils/formatters.js], lines 104-114

    The debounced function shares one variable [timeout] across its calls:
    each call clears the pending timer and arms a new one for [wait]
    milliseconds that will call [func] with that call's arguments; the
    timer's callback clears [timeout] (already fired, so a no-op) and calls
    [func].  The state is therefore the one armed timer, if any: its
    deadline and the arguments it will pass.

    The environment is a sequence of events: calls of the debounced
    function and expiries of the armed timer.  [setTimeout] promises only
    that the callback runs no earlier than the deadline, so a [DFire t] is
    possible at any [t] at or after it; time never goes back.  [deb_run]
    executes a sequence and returns [None] when it is not a possible
    behaviour of the event loop (an expiry with no timer armed or before
    its deadline, or an event earlier than the previous one). *)

From S2P Require Import Prelude.
#[local] Set Warnings "-clear-no-such-hyp".
Local Open Scope Z_scope.

Section Debounce.
Context {A : Type} (wait : Z).

(** The armed timer: [Some (deadline, args)]. *)
Definition deb_timer := option (Z * A).

Record deb_state := mk_deb { db_timer : deb_timer; db_clock : Z }.

Inductive deb_event := DCall (t : Z) (args : A) | DFire (t : Z).

Definition event_time (e : deb_event) : Z :=
  match e with DCall t _ => t | DFire t => t end.

(** One event: the new state and the call of [func] it makes, if any. *)
Definition deb_step (st : deb_state) (e : deb_event) : option (deb_state * option A) :=
  if event_time e <? db_clock st then None
  else match e with
  | DCall t args =>
      (* clearTimeout(timeout); timeout = setTimeout(later, wait);
         a negative delay counts as 0 *)
      Some (mk_deb (Some (t + Z.max 0 wait, args)) t, None)
  | DFire t =>
      match db_timer st with
      | Some (d, args) =>
          (* later: clearTimeout(timeout); func(...args) *)
          if d <=? t then Some (mk_deb None t, Some args) else None
      | None => None
      end
  end.

(** A sequence of events, and the arguments of the calls of [func]. *)
Fixpoint deb_run (st : deb_state) (es : list deb_event) : option (deb_state * list A) :=
  match es with
  | [] => Some (st, [])
  | e :: es' =>
      '(st', out) ← deb_step st e;
      '(st'', outs) ← deb_run st' es';
      Some (st'', option_list out ++ outs)
  end.

Definition deb_init (t0 : Z) : deb_state := mk_deb None t0.

(** A burst of calls: times increasing, each less than [wait] after the
    previous one. *)
Fixpoint burst (cs : list (Z * A)) : Prop :=
  match cs with
  | (t1, _) :: (((t2, _) :: _) as cs') => t1 <= t2 < t1 + wait ∧ burst cs'
  | _ => True
  end.

Definition calls (cs : list (Z * A)) : list deb_event := (λ c, DCall c.1 c.2) <$> cs.

End Debounce.

Arguments deb_event : clear implicits.

(** ** Lemmas *)

Section Lemmas.
Context {A : Type} (wait : Z).
Implicit Types (st : deb_state (A:=A)) (es : list (deb_event A)) (cs : list (Z * A)).

Lemma deb_run_app st es1 es2 :
  deb_run wait st (es1 ++ es2) =
  '(st1, o1) ← deb_run wait st es1; '(st2, o2) ← deb_run wait st1 es2; Some (st2, o1 ++ o2).
Proof.
  revert st. induction es1 as [|e es1 IH]; intros st; cbn.
  - by destruct (deb_run wait st es2) as [[]|].
  - destruct (deb_step wait st e) as [[st' o]|]; [|done]. cbn. rewrite IH.
    destruct (deb_run wait st' es1) as [[st1 o1]|]; [|done]. cbn.
    destruct (deb_run wait st1 es2) as [[st2 o2]|]; [|done]. cbn. by rewrite app_assoc.
Qed.

(** An expiry succeeds exactly on an armed timer whose deadline has come. *)
Lemma deb_run_fire st es t st' out :
  deb_run wait st (es ++ [DFire t]) = Some (st', out) →
  ∃ st1 o1 d a, deb_run wait st es = Some (st1, o1) ∧ db_timer st1 = Some (d, a) ∧
                d <= t ∧ out = o1 ++ [a].
Proof.
  rewrite deb_run_app. destruct (deb_run wait st es) as [[st1 o1]|]; [|done]. cbn.
  unfold deb_step. cbn [event_time]. destruct (t <? db_clock st1); [done|].
  destruct (db_timer st1) as [[d a]|] eqn:Ht; [|done].
  destruct (Z.leb_spec d t); [|done]. cbn. intros [= <- <-].
  by exists st1, o1, d, a.
Qed.

(** The armed timer is the one the last event armed: the last event is a
    call, and the timer carries its arguments. *)
Lemma deb_run_armed st es st1 o1 d a :
  db_timer st = None → deb_run wait st es = Some (st1, o1) → db_timer st1 = Some (d, a) →
  ∃ es' tc, es = es' ++ [DCall tc a] ∧ d = tc + Z.max 0 wait.
Proof.
  intros H0. induction es as [|e es IH] using rev_ind.
  { cbn. intros [= <- _]. congruence. }
  rewrite deb_run_app. destruct (deb_run wait st es) as [[st2 o2]|]; [|done]. cbn.
  unfold deb_step. destruct (event_time e <? db_clock st2); [done|].
  destruct e as [tc args|tf].
  - cbn. intros [= <- _]. intros [= <- <-]. by exists es, tc.
  - destruct (db_timer st2) as [[d' a']|]; [|done].
    destruct (d' <=? tf); [|done]. cbn. intros [= <- _]. done.
Qed.

Lemma last_cons_default {B} (x d : B) l : List.last (x :: l) d = List.last l x.
Proof.
  revert x d. induction l as [|y l IH]; intros x d; [done|].
  change (List.last (x :: y :: l) d) with (List.last (y :: l) d). by rewrite !IH.
Qed.

(** A nonempty burst of calls leaves the timer of its last call armed
    and calls nothing. *)
Lemma deb_run_calls st c cs :
  burst wait (c :: cs) → db_clock st <= c.1 →
  deb_run wait st (calls (c :: cs)) =
    Some (mk_deb (Some ((List.last cs c).1 + Z.max 0 wait, (List.last cs c).2)) (List.last cs c).1, []).
Proof.
  revert st c. induction cs as [|c' cs IH]; intros st [t a] Hb Hc; cbn [fst] in Hc.
  - cbn. unfold deb_step. cbn. by destruct (Z.ltb_spec t (db_clock st)); [lia|].
  - change (calls ((t, a) :: c' :: cs)) with (DCall t a :: calls (c' :: cs)).
    cbn [deb_run]. unfold deb_step at 1. cbn [event_time].
    destruct (Z.ltb_spec t (db_clock st)); [lia|].
    destruct c' as [t' a']. destruct Hb as [Hlt Hb].
    cbn [mbind option_bind]. rewrite (IH (mk_deb _ t) (t', a')) by (cbn; lia || done).
    cbn [mbind option_bind]. by rewrite last_cons_default.
Qed.

Lemma burst_split c1 (c : Z * A) c2 :
  c1 ≠ [] → burst wait (c1 ++ c :: c2) →
  burst wait c1 ∧ (List.last c1 c).1 <= c.1 < (List.last c1 c).1 + wait.
Proof.
  induction c1 as [|[t a] c1 IH]; [done|]. intros _.
  destruct c1 as [|[t' a'] c1'].
  - destruct c as [tc ac]. cbn. intros [H _]. done.
  - intros [Hlt Hb]. destruct (IH ltac:(done) Hb) as [Hb1 Hbound].
    change (List.last ((t, a) :: (t', a') :: c1') c) with (List.last ((t', a') :: c1') c).
    split; [exact (conj Hlt Hb1)|exact Hbound].
Qed.

Lemma burst_tail (c : Z * A) cs : burst wait (c :: cs) → burst wait cs.
Proof. destruct cs as [|[] cs]; [done|]. destruct c. by intros []. Qed.

(** Calls earlier than the clock are not possible. *)
Lemma deb_run_calls_late st (c : Z * A) cs :
  c.1 < db_clock st → deb_run wait st (calls (c :: cs)) = None.
Proof. intros H. cbn. unfold deb_step at 1. cbn. by destruct (Z.ltb_spec c.1 (db_clock st)); [|lia]. Qed.

End Lemmas.

(** ** Properties *)

(** Only the most recent call is carried out: in every
    possible sequence of events from a fresh debounced function, an
    expiry of the timer comes right after a call (no call or expiry in
    between), at least [wait] milliseconds after it, and calls [func] with
    that call's arguments. *)
Theorem debounce_fires_latest {A} wait t0 (es : list (deb_event A)) t st out :
  deb_run wait (deb_init t0) (es ++ [DFire t]) = Some (st, out) →
  ∃ es' tc a, es = es' ++ [DCall tc a] ∧ tc + wait <= t ∧ last out = Some a.
Proof.
  intros Hrun. destruct (deb_run_fire wait _ _ _ _ _ Hrun) as (st1 & o1 & d & a & Hr & Ht & Hd & ->).
  destruct (deb_run_armed wait (deb_init t0) _ _ _ _ _ eq_refl Hr Ht) as (es' & tc & -> & ->).
  exists es', tc, a. split_and!; [done|lia|]. apply last_snoc.
Qed.

Lemma debounce_fires_latest_witness :
  ∃ es' tc a, [DCall 0 1%nat; DCall 100 2%nat] = es' ++ [DCall tc a] ∧ tc + 300 <= 400 ∧
    last [2%nat] = Some a.
Proof.
  apply (debounce_fires_latest 300 0 _ 400 (mk_deb None 400)). reflexivity.
Defined.

(** C35 (liveness). A burst of calls, each less than [wait] after the
    previous one, calls [func] exactly once, with the arguments of the
    last call, once [wait] has passed after it; no expiry can come
    anywhere inside the burst. *)
Theorem debounce_burst {A} wait t0 (c : Z * A) cs T :
  0 <= wait → burst wait (c :: cs) → t0 <= c.1 → (List.last cs c).1 + wait <= T →
  (∃ st, deb_run wait (deb_init t0) (calls (c :: cs) ++ [DFire T]) = Some (st, [(List.last cs c).2])) ∧
  ∀ c1 c2 t, c :: cs = c1 ++ c2 → c1 ≠ [] → c2 ≠ [] →
    deb_run wait (deb_init t0) (calls c1 ++ DFire t :: calls c2) = None.
Proof.
  intros Hw Hb Ht0 HT. split.
  - rewrite deb_run_app, deb_run_calls by done. cbn. unfold deb_step. cbn.
    destruct (Z.ltb_spec T (List.last cs c).1); [lia|].
    destruct (Z.leb_spec ((List.last cs c).1 + Z.max 0 wait) T); [|lia].
    by eexists.
  - intros c1 [|c' c2] t Hsplit Hc1 Hc2; [done|]. destruct c1 as [|ch c1]; [done|].
    rewrite Hsplit in Hb. destruct (burst_split wait (ch :: c1) c' c2) as [Hb1 Hbound]; [done|done|].
    assert (t0 <= ch.1) by (injection Hsplit as -> _; done).
    rewrite deb_run_app, deb_run_calls by done. cbn [mbind option_bind].
    cbn [deb_run]. unfold deb_step at 1. cbn -[calls].
    rewrite last_cons_default in Hbound.
    destruct (Z.ltb_spec t (List.last c1 ch).1); [done|].
    destruct (Z.leb_spec ((List.last c1 ch).1 + Z.max 0 wait) t); [|done]. cbn -[calls].
    rewrite deb_run_calls_late by (cbn; lia). done.
Qed.

Lemma debounce_burst_witness :
  ((∃ st, deb_run 300 (deb_init 0) (calls ((0, 1%nat) :: [(100, 2%nat); (250, 3%nat)])
             ++ [DFire 550]) = Some (st, [(List.last [(100, 2%nat); (250, 3%nat)] (0, 1%nat)).2])) ∧
   ∀ c1 c2 t, (0, 1%nat) :: [(100, 2%nat); (250, 3%nat)] = c1 ++ c2 → c1 ≠ [] → c2 ≠ [] →
     deb_run 300 (deb_init 0) (calls c1 ++ DFire t :: calls c2) = None).
Proof. apply debounce_burst; cbn; lia. Defined.
