(* ===== verification/Formatters.v ===== *)
(** * Formatting helpers: [src/src/utils/formatters.js]

    The table, the highlight cards and the detail modal print coin fields
    through [formatCurrency], [formatPercentage] and [formatMarketCap].
    The three rest on two number-to-string conversions of the platform:
    - [Number.prototype.toFixed] (ECMA-262 21.1.3.3): [toFixed] below,
      step by step, on the exact rational the model keeps for a finite
      number (see [JsValue.num]); its step 10, [ToString] of a value
      [>= 10^21], prints the shortest round-tripping binary64 digits, which
      an exact rational does not determine: [toFixed] returns [None] there
      and every formatter passes that [None] on (no market value comes
      near [10^21]);
    - [Intl.NumberFormat('en-US', {style: 'currency', currency: 'USD'})]:
      [intl_usd], the en-US pattern ([-$1,234.5]): the value rounded half
      away from zero to [maximumFractionDigits], trailing zeros dropped
      down to [minimumFractionDigits], thousands grouped by [,], the minus
      sign taken from the value before rounding.
    [formatNumber] is in [NumberFormat], [formatDate] and [formatTimeAgo]
    in [Dates]. *)

From Stdlib Require Import QArith Qround Qabs Ascii.
From S2P Require Import Prelude Config JsValue.
From Equations Require Import Equations.
#[local] Set Warnings "-clear-no-such-hyp".
Local Open Scope string_scope.

(** ** [Number.prototype.toFixed] *)

Fixpoint zeros (k : nat) : string :=
  match k with O => "" | S k' => String "0" (zeros k') end.

(** Step 11: the integer [n] closest to [x * 10^f], the larger on a tie. *)
Definition round_scaled (x : Q) (f : nat) : Z :=
  Qfloor (x * inject_Z (10 ^ Z.of_nat f) + (1 # 2)).

(** Steps 11.b-11.d: the digits of [n >= 0] with a point before the last
    [f], padded with zeros on the left to at least one integer digit. *)
Definition fixed_digits (n : Z) (f : nat) : string :=
  let m := Z_to_string n in
  match f with
  | O => m
  | S _ =>
      let k := String.length m in
      let m' := if (k <=? f)%nat then zeros (f + 1 - k) ++ m else m in
      let k' := String.length m' in
      substring 0 (k' - f) m' ++ "." ++ substring (k' - f) f m'
  end.

Definition Qlt0 (q : Q) : bool := negb (Qle_bool 0 q).

Definition toFixed (x : num) (f : nat) : option string :=
  match x with
  | NNaN => Some "NaN"
  | NPosInf => Some "Infinity"
  | NNegInf => Some "-Infinity"
  | NFin q =>
      let s := if Qlt0 q then "-" else "" in
      let a := Qabs q in
      if Qle_bool (inject_Z (10 ^ 21)) a then None
      else Some (s ++ fixed_digits (round_scaled a f) f)
  end.

(** ** [formatPercentage(value, decimals = 2)] *)

(** [value >= c] for a constant [c]: [ToNumber] then the comparison,
    false on [NaN]. *)
Definition num_ge (n : num) (c : Q) : bool :=
  match n with NFin q => Qle_bool c q | NPosInf => true | _ => false end.

(** Lines 37-39 on a number: [toFixed], then the sign [+] when
    [value >= 0]. *)
Definition percentage_of_number (x : num) (decimals : nat) : option string :=
  formatted ← toFixed x decimals;
  let sign := if num_ge x 0 then "+" else "" in
  Some (sign ++ formatted ++ "%").

(** [value.toFixed] exists on numbers only: on a string, a boolean, an
    array or an object the call throws a [TypeError]. *)
Definition formatPercentage (value : jsval) (decimals : nat) : option (result js_error string) :=
  match value with
  | None | Some JNull => Some (Ok "N/A")
  | Some (JNum q) => Ok <$> percentage_of_number (NFin q) decimals
  | Some _ => Some (Err (type_error "value.toFixed is not a function"))
  end.

(** ** [Intl.NumberFormat] with the en-US dollar pattern *)

Definition pad3 (n : Z) : string :=
  let s := Z_to_string n in zeros (3 - String.length s) ++ s.

(** The integer [n >= 0] with its digits grouped by three. *)
Fixpoint group_digits (fuel : nat) (n : Z) : string :=
  match fuel with
  | O => Z_to_string n
  | S f =>
      if (n <? 1000)%Z then Z_to_string n
      else group_digits f (n / 1000) ++ "," ++ pad3 (n mod 1000)
  end.

(** One group per bit is enough fuel, as for [Z_to_string]. *)
Definition grouped (n : Z) : string := group_digits (S (Z.to_nat (Z.log2 n))) n.

(** The same loop without fuel, by well-founded recursion on [n]: the
    grouping [Intl.NumberFormat] performs, one group of three digits per
    division by [1000]. *)
Equations? group_wf (n : Z) : string by wf (Z.to_nat n) lt :=
  group_wf n with Z_lt_le_dec n 1000 => {
    | left _ => Z_to_string n ;
    | right H => group_wf (n / 1000) ++ "," ++ pad3 (n mod 1000) }.
Proof. apply Z2Nat.inj_lt; [apply Z.div_pos; lia|lia|]. apply Z.div_lt; lia. Qed.

(** Drop at most [k] leading ['0'] characters. *)
Fixpoint drop_zeros (k : nat) (s : string) : string :=
  match k, s with
  | S k', String c s' => if Ascii.eqb c "0" then drop_zeros k' s' else s
  | _, _ => s
  end.

(** The [maxFD] fraction digits of [frac], trailing zeros dropped down to
    [minFD] digits. *)
Definition frac_digits (minFD maxFD : nat) (frac : Z) : string :=
  let s := Z_to_string frac in
  let full := match maxFD with O => "" | S _ => zeros (maxFD - String.length s) ++ s end in
  rev_string (drop_zeros (maxFD - minFD) (rev_string full)).

(** The en-US patterns of [Intl.NumberFormat]: the minus sign, then the
    currency symbol [prefix] (empty for the decimal style), then the
    grouped integer part and the fraction. *)
Definition intl_format (prefix : string) (x : num) (minFD maxFD : nat) : string :=
  match x with
  | NNaN => prefix ++ "NaN"
  | NPosInf => prefix ++ "∞"
  | NNegInf => "-" ++ prefix ++ "∞"
  | NFin q =>
      let sign := if Qlt0 q then "-" else "" in
      let n := round_scaled (Qabs q) maxFD in
      let p := (10 ^ Z.of_nat maxFD)%Z in
      let fd := frac_digits minFD maxFD (n mod p) in
      sign ++ prefix ++ grouped (n / p) ++ (if String.eqb fd "" then "" else "." ++ fd)
  end.

Definition intl_usd (x : num) (minFD maxFD : nat) : string := intl_format "$" x minFD maxFD.

(** [formatCurrency(value, 'USD', minimumFractionDigits)]: the only
    currency the components pass.  [Intl.NumberFormat.prototype.format]
    converts its argument with [ToIntlMathematicalValue], which on JSON
    values agrees with [ToNumber] (a string is read as an exact decimal,
    as [JsValue.string_to_number] reads it); with a valid currency and
    fraction digits it never throws, so the [catch] is unreachable. *)
Definition formatCurrency (value : jsval) (minimumFractionDigits : nat) : string :=
  match value with
  | None | Some JNull => "N/A"
  | Some _ =>
      intl_usd (js_to_number value) minimumFractionDigits
        (if (minimumFractionDigits =? 0)%nat then 0 else 8)%nat
  end.

(** ** [formatMarketCap(value)] *)

(** [value / c] for a constant [c > 0]. *)
Definition num_div (n : num) (c : Q) : num :=
  match n with NFin q => NFin (q / c) | m => m end.

(** One tier: [$<value / c, 2 decimals><suffix>]. *)
Definition tier (n : num) (c : Q) (suffix : string) : option string :=
  t ← toFixed (num_div n c) 2; Some ("$" ++ t ++ suffix).

Definition formatMarketCap (value : jsval) : option string :=
  match value with
  | None | Some JNull => Some "N/A"
  | Some _ =>
      let n := js_to_number value in
      if num_ge n (inject_Z (10 ^ 12)) then tier n (inject_Z (10 ^ 12)) "T"
      else if num_ge n (inject_Z (10 ^ 9)) then tier n (inject_Z (10 ^ 9)) "B"
      else if num_ge n (inject_Z (10 ^ 6)) then tier n (inject_Z (10 ^ 6)) "M"
      else if num_ge n (inject_Z (10 ^ 3)) then tier n (inject_Z (10 ^ 3)) "K"
      else Some (formatCurrency value 0)
  end.

(** The suffix of the tier of unit [10^(3k)]. *)
Definition tier_suffix (k : Z) : string :=
  match k with 1%Z => "K" | 2%Z => "M" | 3%Z => "B" | _ => "T" end.

(** ** Lemmas: decimal numerals *)

From Stdlib Require Import Lqa.

(** A string of decimal digits, most significant first. *)
Definition dchar (d : nat) : ascii := ascii_of_nat (48 + d).

Fixpoint dstr (ds : list nat) : string :=
  match ds with [] => "" | d :: ds' => String (dchar d) (dstr ds') end.

Definition is_digits (ds : list nat) : Prop := Forall (λ d, d < 10)%nat ds.

Lemma digit_val_dchar d : (d < 10)%nat → digit_val 10 (dchar d) = Some d.
Proof. intros Hd. do 10 (destruct d as [|d]; [reflexivity|]). lia. Qed.

Lemma dstr_app a b : dstr (a ++ b) = dstr a ++ dstr b.
Proof. induction a as [|d a IH]; [done|]. cbn [app dstr]. by rewrite IH, string_app_cons. Qed.

Lemma dstr_length ds : String.length (dstr ds) = List.length ds.
Proof. induction ds; cbn; auto. Qed.

Lemma substring_dstr n m ds : substring n m (dstr ds) = dstr (take m (drop n ds)).
Proof.
  revert n m. induction ds as [|d ds IH]; intros [|n] [|m]; cbn; rewrite ?IH; auto.
Qed.

Lemma zeros_dstr k : zeros k = dstr (repeat 0%nat k).
Proof. induction k as [|k IH]; cbn; [done|]. by rewrite IH. Qed.

Lemma span_digits_dstr ds t :
  is_digits ds → (∀ c t', t = String c t' → digit_val 10 c = None) →
  span_digits 10 (dstr ds ++ t) = (ds, t).
Proof.
  intros Hds Ht. induction Hds as [|d ds Hd _ IH]; cbn [dstr].
  - rewrite string_app_nil. destruct t as [|c t']; [done|].
    cbn [span_digits]. by rewrite (Ht c t').
  - rewrite string_app_cons. cbn [span_digits]. by rewrite digit_val_dchar, IH.
Qed.

Lemma string_app_nil_r (s : string) : s ++ "" = s.
Proof. induction s as [|c s IH]; [done|]. by rewrite string_app_cons, IH. Qed.

Lemma span_digits_dstr_nil ds : is_digits ds → span_digits 10 (dstr ds) = (ds, "").
Proof.
  intros Hds. rewrite <- (string_app_nil_r (dstr ds)).
  apply span_digits_dstr; [done|]. discriminate.
Qed.

Lemma digits_value_acc ds acc :
  fold_left (λ acc d, acc * Z.of_nat 10 + Z.of_nat d)%Z ds acc
  = (acc * 10 ^ Z.of_nat (List.length ds) + digits_value 10 ds)%Z.
Proof.
  unfold digits_value. revert acc. induction ds as [|d ds IH]; intros acc.
  - cbn [fold_left List.length Z.of_nat]. by rewrite Z.pow_0_r, Z.mul_1_r, Z.add_0_r.
  - cbn [fold_left List.length]. rewrite (IH (_ + _)%Z), (IH (0 * _ + _)%Z).
    change (Z.of_nat 10) with 10%Z.
    rewrite Nat2Z.inj_succ, Z.pow_succ_r by apply Nat2Z.is_nonneg. ring.
Qed.

Lemma digits_value_app a b :
  digits_value 10 (a ++ b) = (digits_value 10 a * 10 ^ Z.of_nat (List.length b) + digits_value 10 b)%Z.
Proof. unfold digits_value at 1. by rewrite fold_left_app, digits_value_acc. Qed.

Lemma digits_value_zeros k ds : digits_value 10 (repeat 0%nat k ++ ds) = digits_value 10 ds.
Proof.
  rewrite digits_value_app.
  assert (digits_value 10 (repeat 0%nat k) = 0%Z) as ->; [|lia].
  unfold digits_value. induction k as [|k IH]; [done|]. by cbn [repeat fold_left].
Qed.

(** [pos_digits] with enough fuel prints the digits of [n]. *)
Lemma pos_digits_S f n acc :
  pos_digits (S f) n acc =
  if (n <? 10)%Z then String (digit_char (n mod 10)) acc
  else pos_digits f (n / 10) (String (digit_char (n mod 10)) acc).
Proof. reflexivity. Qed.

(** [pos_digits] with enough fuel prints the digits of [n]. *)
Lemma pos_digits_spec fuel n acc :
  (0 <= n < 2 ^ Z.of_nat (S fuel))%Z →
  ∃ ds, pos_digits (S fuel) n (dstr acc) = dstr (ds ++ acc) ∧ ds ≠ [] ∧
        is_digits ds ∧ digits_value 10 ds = n.
Proof.
  revert n acc. induction fuel as [|f IH]; intros n acc [Hn0 Hn];
    rewrite pos_digits_S; destruct (Z.ltb_spec n 10);
    pose proof (Z.mod_pos_bound n 10 ltac:(lia)) as Hm.
  1,3: exists [Z.to_nat n]; split_and!;
         [unfold digit_char; by rewrite Z.mod_small by lia|done|constructor; [lia|constructor]
         |unfold digits_value; cbn; lia].
  - change (2 ^ Z.of_nat 1)%Z with 2%Z in Hn. lia.
  - destruct (IH (n / 10)%Z (Z.to_nat (n mod 10) :: acc)) as (ds & Heq & Hne & Hd & Hv).
    { split; [apply Z.div_pos; lia|]. apply Z.div_lt_upper_bound; [lia|].
      rewrite Nat2Z.inj_succ, Z.pow_succ_r in Hn by apply Nat2Z.is_nonneg.
      pose proof (Z.pow_pos_nonneg 2 (Z.of_nat (S f)) ltac:(lia) ltac:(lia)).
      revert Hn H0. generalize (2 ^ Z.of_nat (S f))%Z. intros. lia. }
    exists (ds ++ [Z.to_nat (n mod 10)])%list. rewrite <- app_assoc. split_and!.
    + exact Heq.
    + by destruct ds.
    + apply Forall_app; split; [done|]. constructor; [lia|constructor].
    + rewrite digits_value_app, Hv.
      assert (digits_value 10 [Z.to_nat (n mod 10)] = n mod 10)%Z as -> by (unfold digits_value; cbn; lia).
      cbn [List.length Z.of_nat]. rewrite Z.pow_1_r.
      pose proof (Z.div_mod n 10). lia.
Qed.

Lemma Z_to_string_spec n :
  (0 <= n)%Z → ∃ ds, Z_to_string n = dstr ds ∧ ds ≠ [] ∧ is_digits ds ∧ digits_value 10 ds = n.
Proof.
  intros Hn. unfold Z_to_string. destruct (Z.ltb_spec n 0); [lia|].
  destruct (pos_digits_spec (Z.to_nat (Z.log2 n)) n []) as (ds & Heq & ?).
  - split; [done|]. rewrite Nat2Z.inj_succ, Z2Nat.id by apply Z.log2_nonneg.
    destruct (Z.eq_dec n 0%Z) as [->|]; [done|]. apply Z.log2_spec. lia.
  - exists ds. rewrite app_nil_r in Heq. by split.
Qed.

(** *** Numeral strings read back by [StringToNumber] *)

Definition numeral_char (c : ascii) : bool :=
  Ascii.eqb c "." || (Nat.leb 48 (nat_of_ascii c) && Nat.leb (nat_of_ascii c) 57).

Fixpoint all_chars (p : ascii → bool) (s : string) : bool :=
  match s with "" => true | String c s' => p c && all_chars p s' end.

Lemma all_chars_app p s t : all_chars p (s ++ t) = all_chars p s && all_chars p t.
Proof.
  induction s as [|c s IH]; [done|]. rewrite string_app_cons. cbn. by rewrite IH, andb_assoc.
Qed.

Lemma string_app_assoc (s t u : string) : s ++ (t ++ u) = (s ++ t) ++ u.
Proof. induction s as [|c s IH]; [done|]. by rewrite !string_app_cons, IH. Qed.

Lemma rev_string_app s t : rev_string (s ++ t) = rev_string t ++ rev_string s.
Proof.
  induction s as [|c s IH]; cbn [rev_string].
  - by rewrite string_app_nil, string_app_nil_r.
  - rewrite string_app_cons. cbn [rev_string]. by rewrite IH, string_app_assoc.
Qed.

Lemma rev_string_involutive s : rev_string (rev_string s) = s.
Proof.
  induction s as [|c s IH]; [done|]. cbn [rev_string].
  by rewrite rev_string_app, IH.
Qed.

Lemma all_chars_rev p s : all_chars p (rev_string s) = all_chars p s.
Proof.
  induction s as [|c s IH]; [done|]. cbn [rev_string]. rewrite all_chars_app, IH. cbn.
  by rewrite andb_true_r, andb_comm.
Qed.

Lemma all_chars_impl (p q : ascii → bool) s :
  (∀ c, p c = true → q c = true) → all_chars p s = true → all_chars q s = true.
Proof.
  intros Hpq. induction s as [|c s IH]; [done|]. cbn. rewrite !andb_true_iff. naive_solver.
Qed.

Definition not_space (c : ascii) : bool := negb (is_js_space c).

(** [trim] leaves a string without white space unchanged. *)
Lemma trim_id s : all_chars not_space s = true → trim s = s.
Proof.
  assert (∀ t, all_chars not_space t = true → trim_start t = t) as Hts.
  { intros [|c t]; [done|]. cbn. unfold not_space. by destruct (is_js_space c). }
  intros Hs. unfold trim. rewrite (Hts s) by done.
  rewrite (Hts (rev_string s)) by (by rewrite all_chars_rev). apply rev_string_involutive.
Qed.

Lemma numeral_char_cases c :
  numeral_char c = true → c = "."%char ∨ ∃ d, (d < 10)%nat ∧ c = dchar d.
Proof.
  unfold numeral_char. rewrite orb_true_iff, andb_true_iff, !Nat.leb_le.
  intros [Hc|Hc]; [left; by apply Ascii.eqb_eq|right].
  exists (nat_of_ascii c - 48)%nat. split; [lia|]. unfold dchar.
  rewrite <- (ascii_nat_embedding c) at 1. f_equal. lia.
Qed.

Lemma numeral_char_facts c :
  numeral_char c = true →
  not_space c = true ∧ radix_of c = None ∧ Ascii.eqb c "+" = false ∧ Ascii.eqb c "-" = false.
Proof.
  intros [->|(d & Hd & ->)]%numeral_char_cases; [done|].
  do 10 (destruct d as [|d]; [done|]). lia.
Qed.

Lemma dstr_numeral ds : is_digits ds → all_chars numeral_char (dstr ds) = true.
Proof.
  induction 1 as [|d ds Hd _ IH]; [done|]. cbn. rewrite IH, andb_true_r.
  do 10 (destruct d as [|d]; [done|]). lia.
Qed.

Lemma numeral_not_space s : all_chars numeral_char s = true → all_chars not_space s = true.
Proof. apply all_chars_impl. intros c Hc. apply (numeral_char_facts c Hc). Qed.

Lemma unsigned_or_infinity_numeral u v :
  all_chars numeral_char u = true → parse_unsigned_decimal u = Some v →
  unsigned_or_infinity u = NFin v.
Proof.
  intros Hu Hv. unfold unsigned_or_infinity. rewrite Hv.
  destruct (String.eqb_spec u "Infinity") as [->|]; [discriminate|done].
Qed.

(** A numeral [ddd.ddd] and its negation [-ddd.ddd] read back as the
    value [parse_unsigned_decimal] gives them. *)
Lemma string_to_number_numeral u v :
  all_chars numeral_char u = true → u ≠ "" → parse_unsigned_decimal u = Some v →
  string_to_number u = NFin v ∧ string_to_number ("-" ++ u) = NFin (- v) ∧
  string_to_number ("+" ++ u) = NFin v.
Proof.
  intros Hu Hne Hv. pose proof (unsigned_or_infinity_numeral u v Hu Hv) as Hinf.
  destruct u as [|c0 u']; [done|].
  pose proof Hu as Hu'. cbn in Hu'. apply andb_true_iff in Hu' as [Hc0 Hu'].
  destruct (numeral_char_facts c0 Hc0) as (_ & _ & Hplus & Hminus).
  unfold string_to_number. rewrite !trim_id.
  2,3: rewrite string_app_cons, string_app_nil; apply andb_true_iff;
       split; [reflexivity|exact (numeral_not_space _ Hu)].
  2: { by apply numeral_not_space. }
  split_and!.
  - assert (parse_decimal (String c0 u') = NFin v) as Hpd.
    { unfold parse_decimal. by rewrite Hplus, Hminus. }
    destruct u' as [|c u'']; [done|].
    cbn in Hu'. apply andb_true_iff in Hu' as [Hc _].
    destruct (numeral_char_facts c Hc) as (_ & Hr & _).
    by destruct (Ascii.eqb c0 "0"); rewrite ?Hr.
  - rewrite string_app_cons, string_app_nil. cbn. by rewrite Hinf.
  - rewrite string_app_cons, string_app_nil. cbn. by rewrite Hinf.
Qed.

(** [fixed_digits n f] is a numeral whose value is [n / 10^f]. *)
Lemma fixed_digits_spec n f :
  (0 <= n)%Z →
  all_chars numeral_char (fixed_digits n f) = true ∧ fixed_digits n f ≠ "" ∧
  parse_unsigned_decimal (fixed_digits n f) = Some (decimal_value n (- Z.of_nat f)).
Proof.
  intros Hn. destruct (Z_to_string_spec n Hn) as (ds & Hs & Hne & Hd & Hv).
  unfold fixed_digits. rewrite Hs. destruct f as [|f0].
  { split_and!; [by apply dstr_numeral|by destruct ds|].
    unfold parse_unsigned_decimal. rewrite span_digits_dstr_nil by done.
    destruct ds as [|d ds]; [done|]. by rewrite Hv. }
  set (f := S f0). rewrite dstr_length.
  set (ds' := if (List.length ds <=? f)%nat then (repeat 0%nat (f + 1 - List.length ds) ++ ds)%list else ds).
  assert ((if (List.length ds <=? f)%nat then zeros (f + 1 - List.length ds) ++ dstr ds else dstr ds)
          = dstr ds') as -> by (subst ds'; destruct (_ <=? _)%nat; by rewrite ?zeros_dstr, ?dstr_app).
  assert (f + 1 <= List.length ds')%nat as Hlen.
  { subst ds'. destruct (Nat.leb_spec (List.length ds) f); rewrite ?length_app, ?repeat_length; lia. }
  assert (is_digits ds' ∧ digits_value 10 ds' = n) as [Hd' Hv'].
  { subst ds'. destruct (_ <=? _)%nat; [|done]. rewrite digits_value_zeros. split; [|done].
    apply Forall_app; split; [|done]. generalize (f + 1 - List.length ds)%nat.
    induction n0; constructor; [lia|done]. }
  rewrite dstr_length, !substring_dstr, drop_0, (take_ge (drop _ _)) by (rewrite length_drop; lia).
  set (a := take (List.length ds' - f) ds'). set (b := drop (List.length ds' - f) ds').
  assert (a ++ b = ds')%list as Hab by apply take_drop.
  assert (List.length b = f) as Hb by (subst b; rewrite length_drop; lia).
  assert (a ≠ []) as Ha by (intros Ha; apply (f_equal List.length) in Ha; subst a; rewrite length_take in Ha; cbn in Ha; lia).
  split_and!.
  - rewrite all_chars_app, string_app_cons, string_app_nil. cbn.
    rewrite !dstr_numeral; [done| |]; subst a b; [apply Forall_drop|apply Forall_take]; done.
  - rewrite string_app_cons, string_app_nil. by destruct (dstr a).
  - unfold parse_unsigned_decimal. rewrite string_app_cons, string_app_nil.
    rewrite span_digits_dstr; [|subst a; by apply Forall_take|intros ? ? [= <- _]; done].
    cbn [Ascii.eqb]. rewrite span_digits_dstr_nil by (subst b; by apply Forall_drop).
    destruct a as [|x a']; [done|]. cbn -[decimal_value digits_value].
    change (x :: a' ++ b)%list with ((x :: a') ++ b)%list.
    rewrite Hab, Hv', Hb. f_equal.
Qed.

(** *** Rounding *)

Lemma decimal_value_neg n f :
  decimal_value n (- Z.of_nat f) == inject_Z n / inject_Z (10 ^ Z.of_nat f).
Proof.
  unfold decimal_value. destruct f as [|f].
  - change (- Z.of_nat 0)%Z with 0%Z. change (Z.of_nat 0) with 0%Z.
    change (10 ^ 0)%Z with 1%Z. rewrite Z.leb_refl, Z.mul_1_r. field.
  - destruct (Z.leb_spec 0 (- Z.of_nat (S f))); [lia|].
    rewrite Qmake_Qdiv, Z.opp_involutive, Z2Pos.id by (apply Z.pow_pos_nonneg; lia). reflexivity.
Qed.

Local Open Scope Q_scope.

Lemma pow10_pos f : 0 < inject_Z (10 ^ Z.of_nat f).
Proof.
  change 0 with (inject_Z 0). rewrite <- Zlt_Qlt. apply Z.pow_pos_nonneg; lia.
Qed.

(** [round_scaled x f / 10^f] is within half a unit of the last digit. *)
Lemma round_scaled_bound x f :
  Qabs (inject_Z (round_scaled x f) / inject_Z (10 ^ Z.of_nat f) - x)
  <= (1 # 2) / inject_Z (10 ^ Z.of_nat f).
Proof.
  pose proof (pow10_pos f) as Hp. revert Hp.
  unfold round_scaled. generalize (inject_Z (10 ^ Z.of_nat f)). intros p Hp.
  set (y := x * p + (1 # 2)).
  pose proof (Qfloor_le y) as H1. pose proof (Qlt_floor y) as H2.
  rewrite inject_Z_plus in H2. revert H1 H2. generalize (inject_Z (Qfloor y)). intros n H1 H2.
  assert (n / p - x == (n - x * p) * / p) as -> by (field; lra).
  rewrite Qabs_Qmult, (Qabs_pos (/ p)) by (apply Qinv_le_0_compat; lra).
  unfold Qdiv. apply Qmult_le_compat_r; [|apply Qinv_le_0_compat; lra].
  apply Qabs_Qle_condition. subst y. change (inject_Z 1) with 1 in H2. lra.
Qed.

Lemma round_scaled_nonneg x f : 0 <= x → (0 <= round_scaled x f)%Z.
Proof.
  intros Hx. unfold round_scaled. change 0%Z with (Qfloor 0). apply Qfloor_resp_le.
  pose proof (pow10_pos f). assert (0 <= x * inject_Z (10 ^ Z.of_nat f)) by (apply Qmult_le_0_compat; lra).
  lra.
Qed.

Lemma Qlt0_spec q : Qlt0 q = true ↔ q < 0.
Proof.
  unfold Qlt0. rewrite negb_true_iff. split.
  - intros H. apply Qnot_le_lt. intros H'. apply Qle_bool_iff in H'. congruence.
  - intros H. destruct (Qle_bool 0 q) eqn:E; [|done]. apply Qle_bool_iff in E. lra.
Qed.

(** [toFixed] below [10^21] prints a numeral, signed when the value is
    negative, that [StringToNumber] reads back as a magnitude within half
    a unit of its last place from [|q|]. *)
Lemma toFixed_roundtrip q f :
  ~ (inject_Z (10 ^ 21) <= Qabs q) →
  ∃ u m, toFixed (NFin q) f = Some ((if Qlt0 q then "-" else "") ++ u) ∧
    string_to_number u = NFin m ∧ string_to_number ("-" ++ u) = NFin (- m) ∧
    string_to_number ("+" ++ u) = NFin m ∧ 0 <= m ∧
    Qabs (m - Qabs q) <= (1 # 2) / inject_Z (10 ^ Z.of_nat f).
Proof.
  intros Hq. unfold toFixed.
  destruct (Qle_bool (inject_Z (10 ^ 21)) (Qabs q)) eqn:E; [by apply Qle_bool_iff in E|].
  assert (0 <= Qabs q) as Ha by apply Qabs_nonneg.
  pose proof (round_scaled_nonneg _ f Ha) as Hn.
  destruct (fixed_digits_spec _ f Hn) as (Hc & Hne & Hp).
  destruct (string_to_number_numeral _ _ Hc Hne Hp) as (Hpos & Hneg & Hplus).
  eexists _, _. split_and!; [reflexivity|exact Hpos|exact Hneg|exact Hplus| |].
  - rewrite decimal_value_neg. pose proof (pow10_pos f).
    apply Qle_shift_div_l; [done|]. rewrite Qmult_0_l. change 0 with (inject_Z 0).
    by rewrite <- Zle_Qle.
  - rewrite decimal_value_neg. apply round_scaled_bound.
Qed.

(** The bound on the magnitude is a bound on the signed value. *)
Lemma signed_bound m q b :
  Qabs (m - Qabs q) <= b →
  Qabs ((if Qlt0 q then - m else m) - q) <= b.
Proof.
  rewrite !Qabs_Qle_condition. destruct (Qlt0 q) eqn:Hs.
  - apply Qlt0_spec in Hs. assert (Qabs q == - q) by (apply Qabs_neg; lra). lra.
  - assert (0 <= q) by (destruct (Qlt_le_dec q 0) as [Hlt%Qlt0_spec|]; congruence).
    assert (Qabs q == q) by (apply Qabs_pos; lra). lra.
Qed.

Lemma Qfloor_eq z y : inject_Z z <= y → y < inject_Z (z + 1) → Qfloor y = z.
Proof.
  intros H1 H2.
  assert (z < Qfloor y + 1)%Z.
  { rewrite Zlt_Qlt. apply Qle_lt_trans with y; [done|apply Qlt_floor]. }
  assert (Qfloor y < z + 1)%Z.
  { rewrite Zlt_Qlt. apply Qle_lt_trans with y; [apply Qfloor_le|done]. }
  lia.
Qed.

(** One tier of [formatMarketCap] on a value below [10^21] times the
    tier's unit. *)
Lemma tier_spec x c suffix :
  0 < c → 0 <= x → x / c < inject_Z (10 ^ 21) →
  ∃ t r, tier (NFin x) c suffix = Some ("$" ++ t ++ suffix) ∧ string_to_number t = NFin r ∧
         Qabs (r - x / c) <= 1 # 200.
Proof.
  intros Hc Hx Hlt.
  assert (0 <= x / c) as Hxc by (apply Qle_shift_div_l; [done|]; rewrite Qmult_0_l; done).
  destruct (toFixed_roundtrip (x / c) 2) as (u & m & Hf & Hu & _ & _ & _ & Hb).
  { rewrite Qabs_pos by done. lra. }
  assert (Qlt0 (x / c) = false) as Hs by (destruct (Qlt0 _) eqn:E; [apply Qlt0_spec in E; lra|done]).
  exists u, m. unfold tier. cbn [num_div]. rewrite Hf, Hs. split_and!; [done|done|].
  change ((1 # 2) / inject_Z (10 ^ Z.of_nat 2)) with (1 # 200) in Hb.
  assert (Qabs (x / c) == x / c) by (by apply Qabs_pos).
  rewrite Qabs_Qle_condition in *. lra.
Qed.

Lemma Qle_bool_false a b : Qle_bool a b = false ↔ b < a.
Proof.
  split.
  - intros H. apply Qnot_le_lt. intros H'. apply Qle_bool_iff in H'. congruence.
  - intros H. destruct (Qle_bool a b) eqn:E; [|done]. apply Qle_bool_iff in E. lra.
Qed.

(** Replace [inject_Z (10 ^ k)] by its value, so that [lra] sees a
    constant. *)
Ltac pow10_consts :=
  repeat match goal with
  | |- context [inject_Z (10 ^ ?k)] =>
      let v := eval vm_compute in (inject_Z (10 ^ k)) in change (inject_Z (10 ^ k)) with v
  | H : context [inject_Z (10 ^ ?k)] |- _ =>
      let v := eval vm_compute in (inject_Z (10 ^ k)) in change (inject_Z (10 ^ k)) with v in H
  end.

Lemma div_lt_const x c b : 0 < c → x < b * c → x / c < b.
Proof. intros. by apply Qlt_shift_div_r. Qed.

(** C32 (functional). [formatMarketCap] prints a value of at least a thousand (and
    below [10^24]) in the largest tier [10^(3k)] (K, M, B, T) not above it
    (the value is below the next tier, save for T), as [$] followed by a
    numeral that reads back within [0.005] of [value / 10^(3k)] and the
    tier's suffix. *)
Theorem formatMarketCap_tiers q :
  1000 <= q → q < inject_Z (10 ^ 24) →
  ∃ k t r, formatMarketCap (Some (JNum q)) = Some ("$" ++ t ++ tier_suffix k) ∧
    (1 <= k <= 4)%Z ∧ inject_Z (10 ^ (3 * k)) <= q ∧
    ((k < 4)%Z → q < inject_Z (10 ^ (3 * (k + 1)))) ∧
    string_to_number t = NFin r ∧ Qabs (r - q / inject_Z (10 ^ (3 * k))) <= 1 # 200.
Proof.
  intros H1 H2. unfold formatMarketCap. change (js_to_number (Some (JNum q))) with (NFin q).
  cbn [num_ge].
  destruct (Qle_bool (inject_Z (10 ^ 12)) q) eqn:E4;
    [|destruct (Qle_bool (inject_Z (10 ^ 9)) q) eqn:E3;
      [|destruct (Qle_bool (inject_Z (10 ^ 6)) q) eqn:E2;
        [|destruct (Qle_bool (inject_Z (10 ^ 3)) q) eqn:E1]]].
  all: rewrite ?Qle_bool_iff, ?Qle_bool_false in *.
  5: { pow10_consts. lra. }
  1: exists 4%Z. 2: exists 3%Z. 3: exists 2%Z. 4: exists 1%Z.
  all: cbn [Z.mul Z.add Pos.mul Pos.add]; match goal with
       | |- context [tier (NFin ?x) ?c ?sfx] =>
           destruct (tier_spec x c sfx) as (t & r & Ht & Hr & Hb);
           [pow10_consts; lra|pow10_consts; lra|apply div_lt_const; pow10_consts; lra|]
       end.
  all: exists t, r; split_and!; try done; try lia; intros; pow10_consts; lra.
Qed.

(** C31 (roundtrip). [formatPercentage] of a number below [10^21] in magnitude is a
    signed numeral followed by [%]: the sign is [+] exactly when the value
    is [>= 0], [-] otherwise, and the numeral reads back within half a
    unit of its last decimal place from the value. *)
Theorem formatPercentage_roundtrip q d :
  ~ (inject_Z (10 ^ 21) <= Qabs q) →
  ∃ t u r, formatPercentage (Some (JNum q)) d = Some (Ok (t ++ "%")) ∧
    t = (if Qle_bool 0 q then "+" else "-") ++ u ∧
    string_to_number t = NFin r ∧ Qabs (r - q) <= (1 # 2) / inject_Z (10 ^ Z.of_nat d).
Proof.
  intros Hq. destruct (toFixed_roundtrip q d Hq) as (u & m & Hf & Hu & Hneg & Hplus & _ & Hb).
  pose proof (signed_bound _ _ _ Hb) as Hb'.
  unfold formatPercentage, percentage_of_number. rewrite Hf. cbn [num_ge].
  unfold Qlt0 in *. destruct (Qle_bool 0 q); cbn [negb] in *.
  - exists ("+" ++ u), u, m. split_and!; try done.
  - exists ("-" ++ u), u, (- m). split_and!; try done.
Qed.

Lemma formatPercentage_roundtrip_witness :
  ∃ t u r, formatPercentage (Some (JNum (-12345 # 1000))) 2 = Some (Ok (t ++ "%")) ∧
    t = (if Qle_bool 0 (-12345 # 1000) then "+" else "-") ++ u ∧
    string_to_number t = NFin r ∧
    Qabs (r - (-12345 # 1000)) <= (1 # 2) / inject_Z (10 ^ Z.of_nat 2).
Proof.
  apply formatPercentage_roundtrip. intros H. apply Qle_bool_iff in H. vm_compute in H. discriminate.
Defined.

Lemma formatMarketCap_tiers_witness :
  ∃ k t r, formatMarketCap (Some (JNum 2500000000)) = Some ("$" ++ t ++ tier_suffix k) ∧
    (1 <= k <= 4)%Z ∧ inject_Z (10 ^ (3 * k)) <= 2500000000 ∧
    ((k < 4)%Z → 2500000000 < inject_Z (10 ^ (3 * (k + 1)))) ∧
    string_to_number t = NFin r ∧ Qabs (r - 2500000000 / inject_Z (10 ^ (3 * k))) <= 1 # 200.
Proof. apply formatMarketCap_tiers; pow10_consts; lra. Defined.

(** C33 (bounds). The tier is chosen before rounding: a value from [999999.995]
    up to a million is printed [$1000.00K], not [$1.00M]. *)
Theorem formatMarketCap_rounds_past_tier q :
  999999995 # 1000 <= q → q < 1000000 → formatMarketCap (Some (JNum q)) = Some "$1000.00K".
Proof.
  intros H1 H2. unfold formatMarketCap. change (js_to_number (Some (JNum q))) with (NFin q).
  cbn [num_ge].
  rewrite !(proj2 (Qle_bool_false _ _)) by (pow10_consts; lra).
  assert (Qle_bool (inject_Z (10 ^ 3)) q = true) as -> by (apply Qle_bool_iff; pow10_consts; lra).
  unfold tier, toFixed. cbn [num_div].
  assert (q / inject_Z (10 ^ 3) == q * (1 # 1000)) as Hd by reflexivity.
  assert (Qabs (q / inject_Z (10 ^ 3)) == q * (1 # 1000)) as Ha by (rewrite Hd; apply Qabs_pos; lra).
  rewrite (proj2 (Qle_bool_false _ _)) by (rewrite Ha; pow10_consts; lra).
  assert (Qlt0 (q / inject_Z (10 ^ 3)) = false) as -> by (apply negb_false_iff, Qle_bool_iff; rewrite Hd; lra).
  assert (round_scaled (Qabs (q / inject_Z (10 ^ 3))) 2 = 100000%Z) as ->.
  { unfold round_scaled. apply Qfloor_eq; [|change (100000 + 1)%Z with 100001%Z];
    rewrite Ha; pow10_consts; unfold inject_Z; lra. }
  reflexivity.
Qed.

Lemma formatMarketCap_rounds_past_tier_witness :
  formatMarketCap (Some (JNum (999999996 # 1000))) = Some "$1000.00K".
Proof. apply formatMarketCap_rounds_past_tier; lra. Defined.

(** ** The fuel of the digit grouping *)

(** A division by [1000] drops at least one bit. *)
Lemma log2_div1000 n : (1000 <= n)%Z → (Z.log2 (n / 1000) + 1 <= Z.log2 n)%Z.
Proof.
  intros Hn. assert (1 <= n / 1000)%Z as Hm by (apply Z.div_le_lower_bound; lia).
  assert (1000 * (n / 1000) <= n)%Z as Hle by (apply Z.mul_div_le; lia).
  destruct (Z.log2_spec (n / 1000)) as [Hp _]; [lia|].
  apply Z.log2_le_pow2; [lia|]. rewrite Z.pow_add_r, Z.pow_1_r by (try apply Z.log2_nonneg; lia).
  revert Hp Hle Hm. generalize (2 ^ Z.log2 (n / 1000))%Z (n / 1000)%Z. intros. lia.
Qed.

(** Any fuel above [log2 n] runs the loop to its end. *)
Lemma group_digits_enough fuel n :
  (Z.to_nat (Z.log2 n) < fuel)%nat → group_digits fuel n = group_wf n.
Proof.
  revert fuel. funelim (group_wf n); intros [|f] Hf; try lia; cbn [group_digits].
  - destruct (Z.ltb_spec n 1000); [done|lia].
  - destruct (Z.ltb_spec n 1000); [lia|]. f_equal.
    match goal with IH : ∀ _, _ → group_digits _ _ = _ |- _ => apply IH end.
    pose proof (log2_div1000 n ltac:(lia)). pose proof (Z.log2_nonneg (n / 1000)). lia.
Qed.

(** The fuel [grouped] gives the grouping loop, one
    step per bit of [n], is never exhausted: for every integer [n] the
    fuelled loop returns what the loop without fuel, defined by
    well-founded recursion, returns. *)
Theorem grouped_terminates n : grouped n = group_wf n.
Proof. apply group_digits_enough. lia. Qed.
