(* ===== verification/ParseInt.v ===== *)
(** * [parseInt] and the two counts of the configuration: [src/src/constants/api.js], lines 4-5

    [COINS_PER_PAGE: parseInt(process.env.REACT_APP_COINS_PER_PAGE || '50', 10)]
    and [HIGHLIGHTS_COUNT] likewise with ['10'].  [parseInt] is
    ECMA-262 19.2.5: leading white space is skipped, one sign is read,
    the radix is [ToInt32(radix)] (0 means 10, or 16 after a [0x]
    prefix), and the longest prefix of digits of the radix is read; no
    digit gives [NaN], and what follows the digits is ignored.  The value
    is exact up to [2^53]; beyond, the binary64 rounding of step 10 is not
    modelled and the result is [None].  [-0] (a [-] followed by zeros) is
    the number 0 of [JsValue.num], which has no signed zero. *)

From Stdlib Require Import QArith Ascii.
From S2P Require Import Prelude Config JsValue Formatters.
#[local] Set Warnings "-clear-no-such-hyp".
Local Open Scope string_scope.

(** ** [parseInt(string, radix)] *)

(** [ToInt32] on an integer. *)
Definition to_int32 (z : Z) : Z :=
  let m := (z mod 2 ^ 32)%Z in if (2 ^ 31 <=? m)%Z then (m - 2 ^ 32)%Z else m.

(** Steps 3-5: the sign, read off the front. *)
Definition take_sign (s : string) : Z * string :=
  match s with
  | String c r =>
      if Ascii.eqb c "-" then ((-1)%Z, r)
      else if Ascii.eqb c "+" then (1%Z, r)
      else (1%Z, s)
  | EmptyString => (1%Z, s)
  end.

(** Step 10: a hexadecimal prefix. *)
Definition strip_hex_prefix (s : string) : option string :=
  match s with
  | String "0" (String c r) => if Ascii.eqb c "x" || Ascii.eqb c "X" then Some r else None
  | _ => None
  end.

Definition parseInt (input : string) (radix : Z) : option num :=
  let '(sign, s) := take_sign (trim_start input) in
  let R := to_int32 radix in
  if negb (R =? 0)%Z && ((R <? 2)%Z || (36 <? R)%Z) then Some NNaN
  else
    let '(R', s') :=
      if (R =? 0)%Z || (R =? 16)%Z then
        match strip_hex_prefix s with Some r => (16%Z, r) | None => (if (R =? 0)%Z then 10%Z else R, s) end
      else (R, s) in
    match span_digits (Z.to_nat R') s' with
    | ([], _) => Some NNaN
    | (ds, _) =>
        let m := digits_value (Z.to_nat R') ds in
        if (m <=? 2 ^ 53)%Z then Some (NFin (inject_Z (sign * m))) else None
    end.

(** ** The two counts *)

Definition COINS_PER_PAGE (e : env) : option num :=
  parseInt (or_default (REACT_APP_COINS_PER_PAGE e) "50") 10.

Definition HIGHLIGHTS_COUNT (e : env) : option num :=
  parseInt (or_default (REACT_APP_HIGHLIGHTS_COUNT e) "10") 10.

(** ** Lemmas *)

(** [s] does not start with a decimal digit. *)
Definition no_digit_start (s : string) : bool :=
  match s with String c _ => match digit_val 10 c with Some _ => false | None => true end | "" => true end.

Lemma trim_start_spaces ws r : all_chars is_js_space ws = true → trim_start (ws ++ r) = trim_start r.
Proof.
  induction ws as [|c ws IH]; [done|]. rewrite string_app_cons. cbn. rewrite andb_true_iff.
  intros [-> Hws]. by apply IH.
Qed.

Lemma dchar_not_space d : (d < 10)%nat → is_js_space (dchar d) = false.
Proof. intros Hd. do 10 (destruct d as [|d]; [reflexivity|]). lia. Qed.

Lemma dchar_not_sign d : (d < 10)%nat → Ascii.eqb (dchar d) "-" = false ∧ Ascii.eqb (dchar d) "+" = false.
Proof. intros Hd. do 10 (destruct d as [|d]; [split; reflexivity|]). lia. Qed.

Lemma no_digit_start_span ds t :
  is_digits ds → no_digit_start t = true → span_digits 10 (dstr ds ++ t) = (ds, t).
Proof.
  intros Hds Ht. apply span_digits_dstr; [done|]. intros c t' ->. cbn in Ht. by case_match.
Qed.

(** White space, a sign, then digits: the sign is read off. *)
Lemma take_sign_digits ws sign ds t :
  all_chars is_js_space ws = true → is_digits ds → ds ≠ [] → (sign = "" ∨ sign = "+" ∨ sign = "-") →
  take_sign (trim_start (ws ++ sign ++ dstr ds ++ t)) =
    (if String.eqb sign "-" then (-1)%Z else 1%Z, dstr ds ++ t).
Proof.
  intros Hws Hds Hne Hs. rewrite trim_start_spaces by done.
  destruct ds as [|d ds]; [done|]. inversion Hds as [|? ? Hd _]; subst.
  destruct (dchar_not_sign d Hd) as [Hm Hp].
  destruct Hs as [Hs|[Hs|Hs]]; subst sign; cbn [dstr];
    rewrite ?string_app_nil, ?string_app_cons, ?string_app_nil; cbn [trim_start];
    [rewrite (dchar_not_space d Hd); cbn [take_sign]; by rewrite Hm, Hp|reflexivity|reflexivity].
Qed.

Lemma Z_to_string_neg n : (n < 0)%Z → Z_to_string n = "-" ++ Z_to_string (- n).
Proof.
  intros Hn. unfold Z_to_string. destruct (Z.ltb_spec n 0); [|lia].
  destruct (Z.ltb_spec (- n) 0); [lia|done].
Qed.

(** ** Properties *)

(** With radix 10, [parseInt] skips leading white
    space, reads one sign, and returns the value of the longest prefix of
    decimal digits, ignoring whatever follows it ([parseInt('1e3', 10)] is
    1, [parseInt('12.5', 10)] is 12). *)
Theorem parseInt_decimal ws sign ds t :
  all_chars is_js_space ws = true → (sign = "" ∨ sign = "+" ∨ sign = "-") →
  is_digits ds → ds ≠ [] → no_digit_start t = true → (digits_value 10 ds <= 2 ^ 53)%Z →
  parseInt (ws ++ sign ++ dstr ds ++ t) 10 =
    Some (NFin (inject_Z ((if String.eqb sign "-" then -1 else 1) * digits_value 10 ds))).
Proof.
  intros Hws Hs Hds Hne Ht Hb. unfold parseInt. rewrite (take_sign_digits ws sign ds t) by done.
  replace (to_int32 10) with 10%Z by reflexivity. cbn -[span_digits digits_value Z.pow].
  rewrite no_digit_start_span by done.
  change (Z.to_nat 10) with 10%nat. destruct ds as [|d ds]; [done|]. by apply Z.leb_le in Hb as ->.
Qed.

Lemma parseInt_decimal_witness :
  parseInt " -12.5e3" 10 = Some (NFin (inject_Z (-12))) ∧ parseInt "1e3" 10 = Some (NFin 1).
Proof.
  split.
  - exact (parseInt_decimal " " "-" [1; 2]%nat ".5e3" eq_refl (or_intror (or_intror eq_refl))
             ltac:(repeat constructor) ltac:(discriminate) eq_refl ltac:(vm_compute; discriminate)).
  - exact (parseInt_decimal "" "" [1]%nat "e3" eq_refl (or_introl eq_refl)
             ltac:(repeat constructor) ltac:(discriminate) eq_refl ltac:(vm_compute; discriminate)).
Defined.

(** C23 (roundtrip). A count written back as its decimal numeral
    ([String(n)]) is read back by the configuration unchanged, for every
    integer up to [2^53] in magnitude. *)
Theorem COINS_PER_PAGE_roundtrip e n :
  REACT_APP_COINS_PER_PAGE e = Some (Z_to_string n) → (Z.abs n <= 2 ^ 53)%Z →
  COINS_PER_PAGE e = Some (NFin (inject_Z n)).
Proof.
  intros He Hn. unfold COINS_PER_PAGE. rewrite He.
  destruct (Z.ltb_spec n 0) as [Hneg|Hpos].
  - rewrite (Z_to_string_neg n Hneg).
    destruct (Z_to_string_spec (- n)) as (ds & Hds & Hne & Hdig & Hval); [lia|]. rewrite Hds. cbn [or_default].
    replace (String.eqb ("-" ++ dstr ds) "") with false by (by rewrite string_app_cons).
    rewrite <- (string_app_nil ("-" ++ dstr ds)), <- (string_app_nil_r (dstr ds)).
    rewrite (parseInt_decimal "" "-" ds ""); [|done|by right; right|done|done|done|lia].
    do 3 f_equal. cbn. lia.
  - destruct (Z_to_string_spec n) as (ds & Hds & Hne & Hdig & Hval); [lia|]. rewrite Hds. cbn [or_default].
    replace (String.eqb (dstr ds) "") with false by (destruct ds; [done|reflexivity]).
    rewrite <- (string_app_nil (dstr ds)), <- (string_app_nil_r (dstr ds)), <- (string_app_nil (dstr ds ++ "")).
    rewrite (parseInt_decimal "" "" ds ""); [|done|by left|done|done|done|lia].
    do 3 f_equal. cbn. lia.
Qed.

Lemma COINS_PER_PAGE_roundtrip_witness :
  COINS_PER_PAGE (mk_env None None (Some "-9007199254740992") None) = Some (NFin (inject_Z (-9007199254740992))).
Proof.
  apply COINS_PER_PAGE_roundtrip; [reflexivity|lia].
Defined.
