(* ===== verification/NumberFormat.v ===== *)
(** * [formatNumber]: [src/src/utils/formatters.js], lines 18-31

    [formatNumber(value, options = {})] builds
    [new Intl.NumberFormat('en-US', {...defaultOptions, ...options})] with
    [defaultOptions = {minimumFractionDigits: 0, maximumFractionDigits: 0}]
    and formats [value]; if that throws, it returns [value.toString()].
    No component calls it; the model takes [options] as the fields of a
    plain object, each a JS value ([None] is a property set to
    [undefined]).

    The constructor reads the fraction digits as ECMA-402 (2023)
    [SetNumberFormatDigitOptions] does: each through
    [DefaultNumberOption(v, 0, 100, undefined)] (a [RangeError] if not a
    number in [0..100]), then the missing one from the defaults 0 and 3
    of the decimal style, and a [RangeError] when the minimum exceeds the
    maximum.  Options the constructor reads other than these two (style,
    notation, significant digits, rounding, grouping, ...) are outside the
    model ([None]).  [format] prints with the en-US decimal pattern
    ([Formatters.intl_format] without a currency symbol).

    [value.toString()] on a number is [Number::toString], the shortest
    decimal that rounds to the same binary64 value: it is the exact
    decimal of the value for integers up to [2^53], and for decimals of at
    most 15 significant digits and 6 places, which every 15-digit decimal
    reads back to; other numbers, and arrays (whose [toString] joins the
    elements), are outside the model. *)

From Stdlib Require Import QArith Qround Ascii.
From S2P Require Import Prelude Config JsValue Formatters.
#[local] Set Warnings "-clear-no-such-hyp".
Local Open Scope string_scope.

(** ** [Number::toString] on the numbers the model prints *)

(** [q * 10^f] when it is an integer. *)
Definition scaled_int (q : Q) (f : nat) : option Z :=
  let r := Qred (q * inject_Z (10 ^ Z.of_nat f)) in
  if (Qden r =? 1)%positive then Some (Qnum r) else None.

(** The fewest decimal places [f <= fuel] that make [q] an integer. *)
Fixpoint decimal_places (q : Q) (f fuel : nat) : option (nat * Z) :=
  match scaled_int q f with
  | Some k => Some (f, k)
  | None => match fuel with O => None | S fu => decimal_places q (S f) fu end
  end.

Definition number_to_string (q : Q) : option string :=
  match decimal_places q 0 6 with
  | Some (O, k) => if (Z.abs k <=? 2 ^ 53)%Z then Some (Z_to_string k) else None
  | Some (f, k) =>
      if (Z.abs k <? 10 ^ 15)%Z then Some ((if (k <? 0)%Z then "-" else "") ++ fixed_digits (Z.abs k) f)
      else None
  | None => None
  end.

(** [value.toString()] on a JSON value other than [null]. *)
Definition value_to_string (j : json) : option string :=
  match j with
  | JNum q => number_to_string q
  | JStr s => Some s
  | JBool b => Some (if b then "true" else "false")
  | JObj _ => Some "[object Object]"
  | JArr _ => None
  | JNull => Some "null"
  end.

(** ** The constructor's digit options *)

Definition range_error : js_error := mk_error "RangeError" (JStr "maximumFractionDigits value is out of range.") None None.

(** [DefaultNumberOption(value, minimum, maximum, undefined)]. *)
Definition default_number_option (v : jsval) (lo hi : Z) : result js_error (option Z) :=
  match v with
  | None => Ok None
  | Some j =>
      match to_number_json j with
      | NFin q =>
          if negb (Qle_bool (inject_Z lo) q) || negb (Qle_bool q (inject_Z hi)) then Err range_error
          else Ok (Some (Qfloor q))
      | _ => Err range_error
      end
  end.

(** The fraction digits of a decimal-style format (defaults 0 and 3). *)
Definition fraction_digits (mn mx : jsval) : result js_error (Z * Z) :=
  mnfd ← default_number_option mn 0 100;
  mxfd ← default_number_option mx 0 100;
  match mnfd, mxfd with
  | None, None => Ok (0%Z, 3%Z)
  | None, Some x => Ok (Z.min 0 x, x)
  | Some n, None => Ok (n, Z.max 3 n)
  | Some n, Some x => if (x <? n)%Z then Err range_error else Ok (n, x)
  end.

(** The other options the constructor reads. *)
Definition intl_other_options : list string :=
  ["localeMatcher"; "numberingSystem"; "style"; "currency"; "currencyDisplay"; "currencySign";
   "unit"; "unitDisplay"; "notation"; "minimumIntegerDigits"; "minimumSignificantDigits";
   "maximumSignificantDigits"; "roundingIncrement"; "roundingMode"; "roundingPriority";
   "trailingZeroDisplay"; "compactDisplay"; "useGrouping"; "signDisplay"].

(** A property of [{...defaultOptions, ...options}]: the caller's value
    if it has the property, else the default. *)
Fixpoint spread_get (k : string) (options : list (string * jsval)) (dflt : jsval) : jsval :=
  match options with
  | [] => dflt
  | (k', v) :: o => if String.eqb k' k then v else spread_get k o dflt
  end.

(** ** [formatNumber(value, options)] *)

Definition formatNumber (value : jsval) (options : list (string * jsval)) : option string :=
  match value with
  | None | Some JNull => Some "N/A"
  | Some j =>
      if existsb (λ kv, existsb (String.eqb kv.1) intl_other_options) options then None
      else
        let mn := spread_get "minimumFractionDigits" options (Some (JNum 0)) in
        let mx := spread_get "maximumFractionDigits" options (Some (JNum 0)) in
        match fraction_digits mn mx with
        | Ok (n, x) => Some (intl_format "" (to_number_json j) (Z.to_nat n) (Z.to_nat x))
        | Err _ => value_to_string j
        end
  end.

(** ** Lemmas *)

Lemma default_number_option_int (m lo hi : Z) :
  (lo <= m <= hi)%Z → default_number_option (Some (JNum (inject_Z m))) lo hi = Ok (Some m).
Proof.
  intros Hm. unfold default_number_option; cbn [to_number_json]. replace (Qle_bool (inject_Z lo) (inject_Z m)) with true
    by (symmetry; apply Qle_bool_iff; rewrite <- Zle_Qle; lia).
  replace (Qle_bool (inject_Z m) (inject_Z hi)) with true
    by (symmetry; apply Qle_bool_iff; rewrite <- Zle_Qle; lia).
  cbn [negb orb]. by rewrite Qfloor_Z.
Qed.

(** ** Properties *)

(** C24 (error). Asking [formatNumber] for a minimum of fraction digits
    without a maximum always throws in the constructor: the spread keeps
    [maximumFractionDigits: 0] from [defaultOptions], below the minimum,
    so the [catch] returns [value.toString()], unrounded and ungrouped
    ([formatNumber(1234.5, {minimumFractionDigits: 2})] is ["1234.5"],
    not ["1,234.50"]). *)
Theorem formatNumber_min_only_fallback q m :
  (1 <= m <= 100)%Z →
  formatNumber (Some (JNum q)) [("minimumFractionDigits", Some (JNum (inject_Z m)))] = number_to_string q.
Proof.
  intros Hm. unfold formatNumber. cbn [existsb intl_other_options]. cbn -[fraction_digits].
  unfold fraction_digits. rewrite default_number_option_int by lia.
  rewrite (default_number_option_int 0) by lia. cbn -[Z.ltb].
  by replace (0 <? m)%Z with true by (symmetry; apply Z.ltb_lt; lia).
Qed.

Lemma formatNumber_min_only_fallback_witness :
  formatNumber (Some (JNum (12345 # 10))) [("minimumFractionDigits", Some (JNum (inject_Z 2)))] = Some "1234.5" ∧
  formatNumber (Some (JNum (12345 # 10))) [("minimumFractionDigits", Some (JNum 2)); ("maximumFractionDigits", Some (JNum 2))] = Some "1,234.50".
Proof.
  split; [|reflexivity].
  rewrite (formatNumber_min_only_fallback (12345 # 10) 2); [reflexivity|lia].
Defined.
