(* ===== verification/Dates.v ===== *)
(** * [formatDate] and [formatTimeAgo]: [src/src/utils/formatters.js], lines 60-101

    Both start with [if (!dateString) return 'N/A'] and build
    [new Date(dateString)] inside a [try].  The constructor (ECMA-262
    21.4.2.1) takes a string through [Date.parse], whose result beyond the
    ISO format is implementation-defined, and anything else through
    [ToNumber]; the time value is then [TimeClip]ped: [NaN] when not
    finite or beyond [8.64e15] ms, else truncated to an integer.  The
    Section [Dates] takes [Date.parse] as the parameter [date_parse]
    ([None] is [NaN]) and, for [formatDate], the printing of a valid time
    by [Intl.DateTimeFormat('en-US', {...})] as [intl_date] (it depends on
    the locale data and the time zone).  An array (whose [toString] joins
    its elements) is outside the model.

    [formatDate] reaches its [catch]: [Intl.DateTimeFormat.prototype.format]
    throws a [RangeError] on an invalid date.  [formatTimeAgo] never does:
    [now - date] is [NaN] for an invalid date, every [Math.floor] of it is
    [NaN], every comparison with 0 is false, and the result is
    ['Just now'].

    [formatTimeAgo] divides in binary64: [Math.floor(diff / 60000)] equals
    the integer quotient as long as the exact quotient is below [2^37]
    (the rounding error stays under the distance [1/60000] to the next
    integer), which holds for [|diff| <= 8 * 10^15] ms (about 250,000
    years); beyond, the model returns [None].  The clock [new Date()] is
    the argument [now]. *)

From Stdlib Require Import QArith Qround Qabs Ascii.
From S2P Require Import Prelude Config JsValue Formatters.
#[local] Set Warnings "-clear-no-such-hyp".
Local Open Scope string_scope.

(** ** [TimeClip] *)

Definition max_time : Z := 8640000000000000.

(** [TimeClip(time)] on a number: [None] is [NaN]. *)
Definition time_clip (n : num) : option Z :=
  match n with
  | NFin q =>
      let t := if Qle_bool 0 q then Qfloor q else (- Qfloor (- q))%Z in
      if Qle_bool (Qabs q) (inject_Z max_time) then Some t else None
  | _ => None
  end.

Section Dates.

Variable date_parse : string → option Z.
Variable intl_date : Z → string.

(** [new Date(value)] on a JSON value: the time value ([None] is an
    invalid date), or [None] outside the model. *)
Definition new_date (j : json) : option (option Z) :=
  match j with
  | JStr s => Some (date_parse s ≫= λ t, time_clip (NFin (inject_Z t)))
  | JObj _ => Some (date_parse "[object Object]" ≫= λ t, time_clip (NFin (inject_Z t)))
  | JArr _ => None
  | _ => Some (time_clip (to_number_json j))
  end.

(** [try { body } catch (error) { return 'Invalid Date'; }]: the text
    the body returns, or the handler's when the body throws. *)
Definition try_catch (body : option (result js_error string)) : option string :=
  r ← body; Some (match r with Ok x => x | Err _ => "Invalid Date" end).

(** ** [formatDate(dateString)], lines 60-75 *)



(** ** [formatTimeAgo(dateString)], lines 78-101 *)

(** [`${n} unit${n > 1 ? 's' : ''} ago`] *)
Definition count_text (n : Z) (unit : string) : string :=
  Z_to_string n ++ " " ++ unit ++ (if (1 <? n)%Z then "s" else "") ++ " ago".

Definition diff_bound : Z := 8000000000000000.

(** The three floors and the tests of lines 85-97 on [diff = now - date]. *)
Definition time_ago_of_diff (diffInMs : Z) : option string :=
  if (diff_bound <? Z.abs diffInMs)%Z then None
  else
    let diffInMinutes := (diffInMs / (1000 * 60))%Z in
    let diffInHours := (diffInMinutes / 60)%Z in
    let diffInDays := (diffInHours / 24)%Z in
    if (0 <? diffInDays)%Z then Some (count_text diffInDays "day")
    else if (0 <? diffInHours)%Z then Some (count_text diffInHours "hour")
    else if (0 <? diffInMinutes)%Z then Some (count_text diffInMinutes "minute")
    else Some "Just now".

(** No step of the body throws on a JSON value: [new Date], the
    subtraction, [Math.floor] and the comparisons are total. *)
Definition formatTimeAgo (now : Z) (dateString : jsval) : option string :=
  match dateString with
  | Some j =>
      if negb (truthy dateString) then Some "N/A"
      else
        try_catch (
          d ← new_date j;
          match d with
          | Some t => x ← time_ago_of_diff (now - t); Some (Ok x)
          | None => Some (Ok "Just now")   (* [NaN]: no comparison holds *)
          end)
  | None => Some "N/A"
  end.

End Dates.

(** ** A reference for [formatTimeAgo]: one division by the unit

    What the comment of line 77 promises (["2 hours ago"]) for a date at
    least a minute in the past: the count of the largest unit that fits. *)

Definition time_ago_ref (d : Z) : string :=
  if (86400000 <=? d)%Z then count_text (d / 86400000) "day"
  else if (3600000 <=? d)%Z then count_text (d / 3600000) "hour"
  else count_text (d / 60000) "minute".

(** ** Lemmas *)

(** [Math.floor(d / u) > 0] exactly when [d >= u]. *)
Lemma div_pos_iff d u : (0 < u)%Z → (0 <? d / u)%Z = (u <=? d)%Z.
Proof.
  intros Hu. destruct (Z.leb_spec u d) as [H|H].
  - apply Z.ltb_lt, Z.div_str_pos; lia.
  - apply Z.ltb_ge. assert (d / u < 1)%Z by (apply Z.div_lt_upper_bound; lia). lia.
Qed.

Lemma minutes_hours d : (d / (1000 * 60) / 60 = d / 3600000)%Z.
Proof. rewrite Z.div_div; [done|lia|lia]. Qed.

Lemma hours_days d : (d / (1000 * 60) / 60 / 24 = d / 86400000)%Z.
Proof. rewrite minutes_hours, Z.div_div; [done|lia|lia]. Qed.

Lemma time_clip_int t : (Z.abs t <= max_time)%Z → time_clip (NFin (inject_Z t)) = Some t.
Proof.
  intros Ht. unfold time_clip.
  replace (Qle_bool (Qabs (inject_Z t)) (inject_Z max_time)) with true.
  - destruct (Qle_bool 0 (inject_Z t)) eqn:E; [by rewrite Qfloor_Z|].
    replace (- inject_Z t)%Q with (inject_Z (- t)) by (unfold inject_Z, Qopp; done).
    by rewrite Qfloor_Z, Z.opp_involutive.
  - symmetry. apply Qle_bool_iff. change (Qabs (inject_Z t)) with (inject_Z (Z.abs t)). by rewrite <- Zle_Qle.
Qed.

(** A time value parsed from a non-empty string. *)
Lemma new_date_parsed date_parse s t :
  date_parse s = Some t → (Z.abs t <= max_time)%Z → new_date date_parse (JStr s) = Some (Some t).
Proof. intros Hp Ht. cbn [new_date]. rewrite Hp. cbn [mbind option_bind]. by rewrite time_clip_int. Qed.

Lemma count_text_not_invalid n unit : (0 < n)%Z → count_text n unit ≠ "Invalid Date".
Proof.
  intros Hn. unfold count_text. destruct (Z_to_string_spec n) as (ds & -> & Hne & Hdig & _); [lia|].
  destruct ds as [|d ds]; [done|]. inversion Hdig as [|? ? Hd _]; subst.
  cbn [dstr]. rewrite string_app_cons. intros [= Hc _].
  do 10 (destruct d as [|d]; [discriminate|]). lia.
Qed.

Lemma time_ago_of_diff_ref d : (60000 <= d <= diff_bound)%Z → time_ago_of_diff d = Some (time_ago_ref d).
Proof.
  intros Hd. unfold time_ago_of_diff, time_ago_ref.
  replace (diff_bound <? Z.abs d)%Z with false by (symmetry; apply Z.ltb_ge; lia).
  cbv zeta. rewrite hours_days, minutes_hours. replace (1000 * 60)%Z with 60000%Z by reflexivity.
  rewrite !div_pos_iff by lia. replace (60000 <=? d)%Z with true by (symmetry; apply Z.leb_le; lia).
  destruct (86400000 <=? d)%Z; [done|]. by destruct (3600000 <=? d)%Z.
Qed.

(** Under a minute, or in the future: no floor is positive. *)
Lemma time_ago_of_diff_recent d : (- diff_bound <= d < 60000)%Z → time_ago_of_diff d = Some "Just now".
Proof.
  intros Hd. unfold time_ago_of_diff. unfold diff_bound in *.
  replace (8000000000000000 <? Z.abs d)%Z with false by (symmetry; apply Z.ltb_ge; lia).
  cbv zeta. rewrite hours_days, minutes_hours. replace (1000 * 60)%Z with 60000%Z by reflexivity.
  rewrite !div_pos_iff by lia.
  replace (86400000 <=? d)%Z with false by (symmetry; apply Z.leb_gt; lia).
  replace (3600000 <=? d)%Z with false by (symmetry; apply Z.leb_gt; lia).
  by replace (60000 <=? d)%Z with false by (symmetry; apply Z.leb_gt; lia).
Qed.

Lemma truthy_nonempty_string s : s ≠ "" → truthy (Some (JStr s)) = true.
Proof. by destruct s. Qed.

(** A date string that parses: the body computes [time_ago_of_diff]. *)
Lemma formatTimeAgo_parsed date_parse now s t :
  s ≠ "" → date_parse s = Some t → (Z.abs t <= max_time)%Z →
  formatTimeAgo date_parse now (Some (JStr s)) = try_catch (x ← time_ago_of_diff (now - t); Some (Ok x)).
Proof.
  intros Hs Hp Ht. unfold formatTimeAgo. rewrite truthy_nonempty_string by done. cbn [negb].
  by rewrite (new_date_parsed _ _ _ Hp Ht).
Qed.

(** ** Properties *)

(** C18 (functional). For a date string that parses to a date at least a
    minute in the past, [formatTimeAgo]'s three nested floors and tests
    print what the comment of line 77 promises: the count of the largest
    unit (day, hour, minute) that fits in the elapsed time, obtained by
    one division ([time_ago_ref]). *)
Theorem formatTimeAgo_ref date_parse now s t :
  s ≠ "" → date_parse s = Some t → (Z.abs t <= max_time)%Z → (60000 <= now - t <= diff_bound)%Z →
  formatTimeAgo date_parse now (Some (JStr s)) = Some (time_ago_ref (now - t)).
Proof.
  intros Hs Hp Ht Hd. rewrite (formatTimeAgo_parsed _ _ _ t) by done. by rewrite time_ago_of_diff_ref.
Qed.

(** An ISO date, read as the time value it denotes. *)
Definition iso_sample (s : string) : option Z :=
  if String.eqb s "2024-01-01T00:00:00Z" then Some 1704067200000%Z else None.

Lemma formatTimeAgo_ref_witness :
  formatTimeAgo iso_sample 1704250800000 (Some (JStr "2024-01-01T00:00:00Z")) = Some "2 days ago" ∧
  formatTimeAgo iso_sample 1704067260000 (Some (JStr "2024-01-01T00:00:00Z")) = Some "1 minute ago".
Proof.
  split.
  - rewrite (formatTimeAgo_ref iso_sample _ _ 1704067200000); [reflexivity|discriminate|reflexivity|vm_compute; discriminate|vm_compute; split; discriminate].
  - rewrite (formatTimeAgo_ref iso_sample _ _ 1704067200000); [reflexivity|discriminate|reflexivity|vm_compute; discriminate|vm_compute; split; discriminate].
Defined.



(** C19 (functional). A date in the future, however far, reads
    ['Just now'], as does one less than a minute old: the comment of
    line 77 speaks of times ago, and the code has no branch for a
    negative difference, whose floors are all at most 0. *)
Theorem formatTimeAgo_future date_parse now s t :
  s ≠ "" → date_parse s = Some t → (Z.abs t <= max_time)%Z → (- diff_bound <= now - t < 60000)%Z →
  formatTimeAgo date_parse now (Some (JStr s)) = Some "Just now".
Proof. intros Hs Hp Ht Hd. rewrite (formatTimeAgo_parsed _ _ _ t) by done. by rewrite time_ago_of_diff_recent. Qed.

Lemma formatTimeAgo_future_witness :
  formatTimeAgo iso_sample 1672531200000 (Some (JStr "2024-01-01T00:00:00Z")) = Some "Just now".
Proof.
  apply (formatTimeAgo_future iso_sample _ _ 1704067200000);
    [discriminate|reflexivity|vm_compute; discriminate|vm_compute; split; [discriminate|reflexivity]].
Defined.
