(* ===== verification/HighlightsView.v ===== *)
(** * What the highlights section renders and its effects:
      [src/src/components/HighlightsSection/HighlightsSection.js], lines 50-148 and 191-265

    The section runs [fetchHighlights] ([Highlights]) from its mount
    effect (lines 191-193) and from the Try Again button of its error
    state (lines 195-197, 214-221); the button exists only while the error
    state is shown, that is after a run has completed, so two runs never
    overlap and a run is one step of the section's machine.

    The render is the skeleton while [loading], the error state, or the
    four [HighlightCard]s, each listing its coins as [CoinItem]s: a
    trending item shows its rank in the card, its thumbnail and market-cap
    rank; any other item its image, price and 24h change.  A click on an
    item hands the item's object to [onCoinClick] (lines 79-83, 199-203). *)

From Stdlib Require Import QArith Ascii.
From S2P Require Import Prelude Config JsMap Cache JsValue Adapters HttpClient Gateway Highlights Formatters.
#[local] Set Warnings "-clear-no-such-hyp".
Local Open Scope string_scope.
Local Open Scope medi_scope.

(** ** The objects a card lists *)

(** A highlight card lists the elements of its hook's array: coins for
    gainers, losers and volume, trending coins for the trending card. *)
Inductive item := ItemCoin (c : Coin) | ItemTrending (t : TrendingCoin).

(** The elements of a hook's value; a detail payload never reaches a
    highlight hook ([Gateway.gw_inv] keeps it under its own keys). *)
Definition items_of (v : cached) : list item :=
  match v with
  | CCoins l => ItemCoin <$> l
  | CTrending l => ItemTrending <$> l
  | CRaw _ => []
  end.

Definition item_id (x : item) : jsval := match x with ItemCoin c => id c | ItemTrending t => t_id t end.

(** ** [CoinItem], lines 78-148 *)

Inductive item_view :=
  | TrendingItemView (rank : nat) (img : jsval) (name symbol : jsval) (marketCapRank : jsval)
  | CoinItemView (img name symbol : jsval) (price : string) (change_up : bool) (change : string).

(** [type === 'trending'] selects the layout: a trending card reads the
    trending fields, any other card the coin fields; an object lacking a
    field reads [undefined]. *)
Definition CoinItem (x : item) (type : string) (rank : nat) : option (result js_error item_view) :=
  if String.eqb type "trending" then
    match x with
    | ItemTrending t =>
        Some (Ok (TrendingItemView rank (js_or (t_thumb t) (js_or (t_small t) (t_large t)))
                    (t_name t) (t_symbol t) (js_or (t_marketCapRank t) (Some (JStr "N/A")))))
    | ItemCoin c =>
        Some (Ok (TrendingItemView rank None (name c) (symbol c)
                    (js_or (marketCapRank c) (Some (JStr "N/A")))))
    end
  else
    match x with
    | ItemCoin c =>
        let price := formatCurrency (currentPrice c) 2 in
        let up := num_ge (js_to_number (priceChangePercentage24h c)) 0 in
        change ←? formatPercentage (priceChangePercentage24h c) 2;
        Some (Ok (CoinItemView (image c) (name c) (symbol c) price up change))
    | ItemTrending t =>
        change ←? formatPercentage None 2;
        Some (Ok (CoinItemView None (t_name t) (t_symbol t) (formatCurrency None 2) false change))
    end.

(** ** [HighlightCard], lines 50-76 *)

Inductive card_view :=
  | CardEmpty (title : string)
  | CardItems (title : string) (items : list (jsval * item_view)).

(** The items with their keys, [coin.id || `${type}-${index}`], and
    ranks [index + 1]. *)
Fixpoint card_items (type : string) (i : nat) (xs : list item) : option (result js_error (list (jsval * item_view))) :=
  match xs with
  | [] => Some (Ok [])
  | x :: xs' =>
      v ←? CoinItem x type (S i);
      vs ←? card_items type (S i) xs';
      Some (Ok ((js_or (item_id x) (Some (JStr (type ++ "-" ++ Z_to_string (Z.of_nat i)))), v) :: vs))
  end.

Definition HighlightCard (title : string) (coins : cached) (type : string) : option (result js_error card_view) :=
  match items_of coins with
  | [] => Some (Ok (CardEmpty title))
  | xs => vs ←? card_items type 0 xs; Some (Ok (CardItems title vs))
  end.

(** ** The section, lines 205-265 *)

Inductive highlights_view :=
  | HSkeleton
  | HError
  | HCards (gainers losers volume trend : card_view).

Definition render_highlights (s : hl_state) : option (result js_error highlights_view) :=
  if loading s then Some (Ok HSkeleton)
  else match error s with
  | Some _ => Some (Ok HError)
  | None =>
      g ←? HighlightCard "Top Gainers (24h)" (topGainers s) "gainers";
      l ←? HighlightCard "Top Losers (24h)" (topLosers s) "losers";
      v ←? HighlightCard "Highest Volume" (highestVolume s) "volume";
      t ←? HighlightCard "Trending" (trending s) "trending";
      Some (Ok (HCards g l v t))
  end.

(** ** The effects: the mount and the retry button *)

Record hl_world := mk_hl_world { hs : hl_state; hgw : gw_state; hl_mounted : bool }.

Definition hl_world_initial : hl_world := mk_hl_world hl_initial [] false.

Inductive hl_event :=
  | HMount (now : Z) (sch : schedule)   (* useEffect(() => fetchHighlights(), []) *)
  | HRetry (now : Z) (sch : schedule).  (* the Try Again button: handleRetry *)

(** A run of [fetchHighlights] whose four calls settle as [sch] says;
    [None] when [sch] does not settle each call once. *)
Definition hl_run_fetch (cfg : api_config) (now : Z) (sch : schedule) (w : hl_world) (m : bool)
    : option hl_world :=
  match fetchHighlights cfg now sch (hs w) (hgw w) with
  | (Some s', st') => Some (mk_hl_world s' st' m)
  | (None, _) => None
  end.

Definition hl_step (cfg : api_config) (w : hl_world) (e : hl_event) : option hl_world :=
  match e with
  | HMount now sch => if hl_mounted w then None else hl_run_fetch cfg now sch w true
  | HRetry now sch =>
      (* the button is rendered only in the error state *)
      match render_highlights (hs w) with
      | Some (Ok HError) => hl_run_fetch cfg now sch w (hl_mounted w)
      | _ => None
      end
  end.

Inductive hl_reachable (cfg : api_config) : hl_world → Prop :=
  | hl_init : hl_reachable cfg hl_world_initial
  | hl_next w e w' : hl_reachable cfg w → hl_step cfg w e = Some w' → hl_reachable cfg w'.

(** ** Lemmas *)

(** Outside the Trending card, an item whose 24h change is a string
    throws in [formatPercentage]. *)
Lemma CoinItem_string_change c type rank x :
  String.eqb type "trending" = false → priceChangePercentage24h c = Some (JStr x) →
  CoinItem (ItemCoin c) type rank = Some (Err (type_error "value.toFixed is not a function")).
Proof. intros Ht Hx. unfold CoinItem. by rewrite Ht, Hx. Qed.

Lemma card_items_not_ok type i xs c vs :
  (∀ r, CoinItem (ItemCoin c) type r = Some (Err (type_error "value.toFixed is not a function"))) →
  ItemCoin c ∈ xs → card_items type i xs ≠ Some (Ok vs).
Proof.
  intros Hc. revert i vs. induction xs as [|x xs IH]; intros i vs Hin; [by apply elem_of_nil in Hin|].
  cbn. apply elem_of_cons in Hin as [<-|Hin].
  - by rewrite Hc.
  - destruct (CoinItem x type (S i)) as [[v|e]|]; cbn; try discriminate.
    destruct (card_items type (S i) xs) as [[vs'|e]|] eqn:E; cbn; try discriminate.
    by apply IH in E.
Qed.

Lemma HighlightCard_not_ok title l type c x v :
  String.eqb type "trending" = false → c ∈ l → priceChangePercentage24h c = Some (JStr x) →
  HighlightCard title (CCoins l) type ≠ Some (Ok v).
Proof.
  intros Ht Hin Hx. unfold HighlightCard. cbn [items_of].
  assert (ItemCoin c ∈ ItemCoin <$> l) as Hin' by (apply list_elem_of_fmap; eauto).
  destruct (ItemCoin <$> l) as [|y ys] eqn:E; [by apply elem_of_nil in Hin'|].
  destruct (card_items type 0 (y :: ys)) as [[vs|e]|] eqn:Hc; cbn; try discriminate.
  exfalso. refine (card_items_not_ok type 0 _ c vs _ Hin' Hc).
  intros r. by apply (CoinItem_string_change _ _ _ x).
Qed.

(** The section's invariant: the service's cache keeps its invariant,
    and the hooks show no error or the aggregate error with no data. *)
Definition hl_inv (w : hl_world) : Prop :=
  gw_inv (hgw w) ∧ (error (hs w) = None ∨ hs w = hl_all_failed).

Lemma hl_step_inv cfg w e w' : hl_inv w → hl_step cfg w e = Some w' → hl_inv w'.
Proof.
  intros [Hinv _].
  assert (Hf : ∀ now sch m, hl_run_fetch cfg now sch w m = Some w' → hl_inv w').
  { intros now sch m. unfold hl_run_fetch.
    destruct (fetchHighlights cfg now sch (hs w) (hgw w)) as [[s'|] st'] eqn:Hfh; [|done].
    intros [= <-]. exact (fetchHighlights_ok cfg now sch (hs w) (hgw w) s' st' Hinv Hfh). }
  destruct e as [now sch|now sch]; cbn [hl_step].
  - destruct (hl_mounted w); [done|apply Hf].
  - destruct (render_highlights (hs w)) as [[[]|]|]; try done. apply Hf.
Qed.

Lemma hl_reachable_inv cfg w : hl_reachable cfg w → hl_inv w.
Proof.
  induction 1 as [|w e w' _ IH Hs]; [|by eapply hl_step_inv].
  split; [split; [apply Map_nil_wf|done]|by left].
Qed.

(** ** Properties *)

(** C14 (error). The gainers, losers and volume cards print each coin's
    24h change with [formatPercentage], which calls [value.toFixed]: once
    the section has loaded, one coin of these hooks whose change the
    adapter copied as a string makes the render of the whole section
    throw a [TypeError].  The gainers filter lets such a coin in, since
    [value > 0] converts a numeric string. *)
Theorem highlights_render_type_error s l c x :
  loading s = false → error s = None →
  (topGainers s = CCoins l ∨ topLosers s = CCoins l ∨ highestVolume s = CCoins l) →
  c ∈ l → priceChangePercentage24h c = Some (JStr x) →
  ∀ v, render_highlights s ≠ Some (Ok v).
Proof.
  intros Hl He Hcard Hin Hx v. unfold render_highlights. rewrite Hl, He.
  destruct (HighlightCard _ (topGainers s) _) as [[g|e]|] eqn:Hg; cbn; try discriminate.
  destruct (HighlightCard _ (topLosers s) _) as [[lo|e]|] eqn:Hlo; cbn; try discriminate.
  destruct (HighlightCard _ (highestVolume s) _) as [[vo|e]|] eqn:Hv; cbn; try discriminate.
  intros _. destruct Hcard as [H|[H|H]]; rewrite H in *;
    [eapply HighlightCard_not_ok in Hg|eapply HighlightCard_not_ok in Hlo|eapply HighlightCard_not_ok in Hv];
    eauto.
Qed.

(** A listing whose only coin has its 24h change as a numeric string. *)
Definition string_change_listing : json :=
  JArr [JObj [("id", JStr "bitcoin"); ("symbol", JStr "btc"); ("name", JStr "Bitcoin");
              ("current_price", JNum 50000); ("price_change_percentage_24h", JStr "1.5")]].

Definition string_change_schedule : schedule :=
  let ev := mk_net_event 120 (NetResponse 200 "OK" (BodyJson string_change_listing)) in
  [(0%nat, (ev, 120%Z)); (1%nat, (ev, 130%Z)); (2%nat, (ev, 140%Z)); (3%nat, (trending_fails, 50%Z))].

Lemma highlights_render_type_error_witness :
  ∃ w, hl_step (API_CONFIG empty_env) hl_world_initial (HMount 0 string_change_schedule) = Some w ∧
       render_highlights (hs w) = Some (Err (type_error "value.toFixed is not a function")) ∧
       ∀ v, render_highlights (hs w) ≠ Some (Ok v).
Proof.
  destruct (hl_step (API_CONFIG empty_env) hl_world_initial (HMount 0 string_change_schedule))
    as [w|] eqn:E; [|vm_compute in E; discriminate].
  exists w. pose proof E as E'. vm_compute in E'. injection E' as Ew. subst w.
  split; [reflexivity|]. split; [vm_compute; reflexivity|].
  eapply (highlights_render_type_error _ _ _ "1.5");
    [reflexivity|reflexivity|left; reflexivity|constructor|reflexivity].
Defined.

(** C22 (invariant). The section shows its error state only after all
    four requests were rejected, and then holds no data: in every
    reachable state an error is the aggregate error, with the four lists
    empty.  The [slice(0, 5)] of the trending value never throws, since
    the service's cache keeps only trending lists under its trending key
    and the adapter returns a list, so no [TypeError] of line 36 reaches
    [setError] and no partial data is shown beside an error. *)
Theorem highlights_error_all_failed cfg w e :
  hl_reachable cfg w → error (hs w) = Some e → hs w = hl_all_failed.
Proof.
  intros Hw He. destruct (hl_reachable_inv cfg w Hw) as [_ [Hn|Ha]]; [congruence|exact Ha].
Qed.

Lemma highlights_error_all_failed_witness :
  ∃ w, hl_step (API_CONFIG empty_env) hl_world_initial (HMount 0 failing_schedule) = Some w ∧
       error (hs w) = Some all_failed_error ∧ hs w = hl_all_failed.
Proof.
  destruct (hl_step (API_CONFIG empty_env) hl_world_initial (HMount 0 failing_schedule))
    as [w|] eqn:E; [|vm_compute in E; discriminate].
  exists w. assert (He : error (hs w) = Some all_failed_error)
    by (pose proof E as E'; vm_compute in E'; injection E' as <-; reflexivity).
  split_and!; [reflexivity|exact He|].
  apply (highlights_error_all_failed (API_CONFIG empty_env) w all_failed_error); [|exact He].
  by eapply hl_next; [constructor|].
Defined.
