(* ===== verification/CoinTable.v ===== *)
(** * The coin table: [src/src/components/CoinTable/CoinTable.js]

    [CoinTable] keeps the listing in eight [useState] hooks and loads it
    through [fetchCoins(page, order)] (lines 109-133), a call of the
    gateway's [getCoinsMarkets] over the module-level service instance.
    The search box runs [searchCoins] over the loaded coins through a
    debounced function that [useMemo] rebuilds whenever [coins] changes
    (lines 135-145), called by the effect of lines 151-153; the effect of
    lines 155-159 copies [coins] into [filteredCoins] while the query is
    blank.

    The component is modelled as a machine over [tb_world]:
    - the hooks ([table]) and the service's cache ([gw_state], as in
      [Gateway]);
    - the loads in flight, each one stopped at its [await]
      ([Gateway.started]);
    - the debounced functions [useMemo] made: the current one
      ([debouncedSearch]) and the older ones, whose timers still run
      (a [Debounce.deb_state] each, with the [coins] its closure saw);
    - object identity, which decides whether React re-runs the memo and the
      effects: [coins] is an array, [setCoins] of the same array is a no-op
      for React, and a cache hit returns the very array the cache holds.
      Arrays are numbered in [heap] as they are allocated (the initial
      [[]] and every adapted listing); [obj_of] records which array the
      cache holds under each key;
    - the clock: events come in time order ([clock] is the time of the
      last one).
    Events are the user's actions, the mount, the completion of one load
    with its network outcome, and the expiry of a search timer.  A user
    action is possible only on what is rendered (lines 188-273): while
    [loading] the component shows only the spinner, on an error only the
    error state; the select and the search box need the listing shown, the
    pagination buttons also a blank query and an enabled button.  The state
    updates a completion makes after its [await] are batched into one
    render (React 18), after which the effects run in the order they are
    declared.  Timers with the same delay fire in the order they were set
    (HTML timer ordering), so an expiry fires the armed timer with the
    earliest deadline, the oldest on a tie.  [window.scrollTo] and the
    markup are not part of the machine ([CoinTableView] renders the rows
    and the pagination). *)

From S2P Require Import Prelude Config JsMap Cache JsValue Adapters Search HttpClient Gateway Debounce.
From Stdlib Require Import QArith Ascii.
#[local] Set Warnings "-clear-no-such-hyp".
Local Open Scope string_scope.

(** The component's hooks. *)
Record table := mk_table {
  coins : cached;
  filteredCoins : cached;
  loading : bool;
  error : option (string * json);
  searchQuery : string;
  sortOrder : string;
  currentPage : Z;
  totalPages : Z;
}.

Definition table_initial : table :=
  mk_table (CCoins []) (CCoins []) true None "" "market_cap_desc" 1 1.

Definition coinsPerPage : Z := 50.

(** A load in flight: its arguments, how its [getCoinsMarkets] started
    and, for a cache hit, the array it will resolve with. *)
Record fetch := mk_fetch { f_page : Z; f_order : string; f_start : started; f_obj : option nat }.

(** The delay of [debounce(..., 300)]. *)
Definition search_wait : Z := 300.

(** A debounced function made by the memo: the [coins] of its closure and
    its timer. *)
Record search_inst := mk_search { si_coins : cached; si_timer : deb_state (A:=string) }.

Record tb_world := mk_world {
  tb : table;
  gw : gw_state;
  inflight : list (option fetch);
  clock : Z;
  mounted : bool;
  heap : list cached;
  coins_obj : nat;
  obj_of : jsmap string nat;
  old_searches : list search_inst;
  debouncedSearch : search_inst;
}.

(** The first render: [coins] is the array [0], the memo has made its
    first debounced function over it. *)
Definition world_initial : tb_world :=
  mk_world table_initial [] [] 0 false [CCoins []] 0 [] [] (mk_search (CCoins []) (deb_init 0)).

(** Record updates. *)
Definition set_tb (s : table) (w : tb_world) : tb_world :=
  mk_world s (gw w) (inflight w) (clock w) (mounted w) (heap w) (coins_obj w) (obj_of w)
    (old_searches w) (debouncedSearch w).

Definition set_filteredCoins (v : cached) (s : table) : table :=
  mk_table (coins s) v (loading s) (error s) (searchQuery s) (sortOrder s) (currentPage s) (totalPages s).

Definition set_searchQuery (q : string) (s : table) : table :=
  mk_table (coins s) (filteredCoins s) (loading s) (error s) q (sortOrder s) (currentPage s) (totalPages s).

Definition set_sortOrder (o : string) (s : table) : table :=
  mk_table (coins s) (filteredCoins s) (loading s) (error s) (searchQuery s) o
    (currentPage s) (totalPages s).

Definition set_loading_started (s : table) : table :=
  mk_table (coins s) (filteredCoins s) true None (searchQuery s) (sortOrder s)
    (currentPage s) (totalPages s).

Definition is_blank (q : string) : bool := String.eqb (trim q) "".

(** ** Loading a page *)

(** [getCoinsMarkets({ order, per_page: coinsPerPage, page })] *)
Definition fetch_op (page : Z) (order : string) : gw_op :=
  GetCoinsMarkets [("order", PStr order); ("per_page", PNum coinsPerPage); ("page", PNum page)].

(** [fetchCoins(page, order)] up to its [await]: [setLoading(true)],
    [setError(null)], and the synchronous part of [getCoinsMarkets]; a hit
    resolves with the array the cache holds. *)
Definition fetchCoins (now : Z) (page : Z) (order : string) (w : tb_world) : tb_world :=
  let '(s, st') := begin_op now (fetch_op page order) (gw w) in
  let o := match s with
           | Hit _ => Map_get (p_key (op_pending (fetch_op page order))) (obj_of w)
           | Miss _ => None
           end in
  mk_world (set_loading_started (tb w)) st' (inflight w ++ [Some (mk_fetch page order s o)])%list
    (clock w) (mounted w) (heap w) (coins_obj w) (obj_of w) (old_searches w) (debouncedSearch w).

(** [handleSortChange]: [setSortOrder(newOrder); fetchCoins(1, newOrder)];
    then the re-render runs the effect on [[sortOrder]], which calls
    [fetchCoins(1, sortOrder)] again when the order changed. *)
Definition handleSortChange (now : Z) (newOrder : string) (w : tb_world) : tb_world :=
  let changed := negb (String.eqb newOrder (sortOrder (tb w))) in
  let w1 := set_tb (set_sortOrder newOrder (tb w)) w in
  let w2 := fetchCoins now 1 newOrder w1 in
  if changed then fetchCoins now 1 newOrder w2 else w2.

(** [handlePageChange(page)]: guarded by the range and [!loading]. *)
Definition handlePageChange (now : Z) (page : Z) (w : tb_world) : tb_world :=
  if (1 <=? page)%Z && (page <=? totalPages (tb w))%Z && negb (loading (tb w))
  then fetchCoins now page (sortOrder (tb w)) w
  else w.

(** [handleRetry] *)
Definition handleRetry (now : Z) (w : tb_world) : tb_world :=
  fetchCoins now (currentPage (tb w)) (sortOrder (tb w)) w.

Definition fetch_failed_message : string := "Unable to fetch cryptocurrency data. Please try again.".

(** The rest of [fetchCoins] once [getCoinsMarkets] settles: on success
    [setCoins], [setCurrentPage(page)] and [setTotalPages(200)]; on
    failure [setError({title, message: err.message || ...})]; in both
    cases [setLoading(false)]. *)
Definition settle_table (page : Z) (r : result js_error cached) (s : table) : table :=
  match r with
  | Ok v => mk_table v (filteredCoins s) false (error s) (searchQuery s) (sortOrder s) page 200
  | Err e =>
      let msg := if tostring_nonempty (err_message e) then err_message e else JStr fetch_failed_message in
      mk_table (coins s) (filteredCoins s) false (Some ("Failed to Load Coins", msg))
        (searchQuery s) (sortOrder s) (currentPage s) (totalPages s)
  end.

(** What the [await] of a load gives back: the cached value of a hit, or
    the completion of its request. *)
Definition fetch_result (cfg : api_config) (f : fetch) (ev : net_event) (t : Z) (st : gw_state)
    : result js_error cached * gw_state :=
  match f_start f with
  | Hit v => (Ok v, st)
  | Miss p => finish_op cfg p ev t st
  end.

(** ** The search box *)

(** A call of a debounced function at [now]. *)
Definition call_search (now : Z) (q : string) (si : search_inst) : option search_inst :=
  '(st', _) ← deb_step search_wait (si_timer si) (DCall now q);
  Some (mk_search (si_coins si) st').

(** The body of the debounced function, [async (query) => ...]: a blank
    query sets [filteredCoins] to the closure's [coins]; otherwise the
    result of [searchCoins(query, coins)], which runs before any other
    task (its [await] is on an already settled promise); a search that
    throws rejects the callback's promise and sets nothing.  [coins] is
    always a coin list ([tb_typed]). *)
Definition search_callback (query : string) (c : cached) : option cached :=
  if is_blank query then Some c
  else match c with
       | CCoins l => match searchCoins query l with Ok r => Some (CCoins r) | Err _ => None end
       | _ => None
       end.

(** The memo and the effects after a render in which [coins] became
    another array: the memo makes a new debounced function over it, the
    effect of lines 151-153 calls it with [searchQuery], the effect of
    lines 155-159 copies [coins] when the query is blank. *)
Definition coins_changed (now : Z) (w : tb_world) : option tb_world :=
  si ← call_search now (searchQuery (tb w)) (mk_search (coins (tb w)) (deb_init now));
  let s := tb w in
  Some (mk_world (if is_blank (searchQuery s) then set_filteredCoins (coins s) s else s)
          (gw w) (inflight w) (clock w) (mounted w) (heap w) (coins_obj w) (obj_of w)
          (old_searches w ++ [debouncedSearch w])%list si).

(** [handleSearchChange]: [setSearchQuery(value)]; the re-render runs the
    effect of lines 151-153 (the query changed) and the one of lines
    155-159. *)
Definition handleSearchChange (now : Z) (q : string) (w : tb_world) : option tb_world :=
  si ← call_search now q (debouncedSearch w);
  let s := set_searchQuery q (tb w) in
  Some (mk_world (if is_blank q then set_filteredCoins (coins s) s else s)
          (gw w) (inflight w) (clock w) (mounted w) (heap w) (coins_obj w) (obj_of w)
          (old_searches w) si).

(** The completion of the load [i], settled by [ev] at [t].  A success
    gives [setCoins] an array: the one of the hit, or the new array the
    adapter made, which the cache now holds. *)
Definition complete_fetch (cfg : api_config) (i : nat) (ev : net_event) (t : Z) (w : tb_world)
    : option tb_world :=
  match inflight w !! i with
  | Some (Some f) =>
      let '(r, st') := fetch_result cfg f ev t (gw w) in
      let fl := <[i := None]> (inflight w) in
      let s := settle_table (f_page f) r (tb w) in
      match r with
      | Err _ =>
          Some (mk_world s st' fl (clock w) (mounted w) (heap w) (coins_obj w) (obj_of w)
                  (old_searches w) (debouncedSearch w))
      | Ok v =>
          let '(o, hp, oo) :=
            match f_obj f with
            | Some o => (o, heap w, obj_of w)
            | None => (List.length (heap w), (heap w ++ [v])%list,
                       Map_set (p_key (op_pending (fetch_op (f_page f) (f_order f))))
                         (List.length (heap w)) (obj_of w))
            end in
          let w1 := mk_world s st' fl (clock w) (mounted w) hp o oo (old_searches w) (debouncedSearch w) in
          if (o =? coins_obj w)%nat then Some w1 else coins_changed t w1
      end
  | _ => None
  end.

(** The expiry of a search timer: the armed timer with the earliest
    deadline, the oldest function on a tie. *)
Definition armed_deadline (si : search_inst) : option Z :=
  match db_timer (si_timer si) with Some (d, _) => Some d | None => None end.

Fixpoint next_timer_from (i : nat) (l : list search_inst) : option (nat * Z) :=
  match l with
  | [] => None
  | si :: l' =>
      let rest := next_timer_from (S i) l' in
      match armed_deadline si, rest with
      | Some d, Some (j, d') => if (d <=? d')%Z then Some (i, d) else Some (j, d')
      | Some d, None => Some (i, d)
      | None, r => r
      end
  end.

Definition searches (w : tb_world) : list search_inst := (old_searches w ++ [debouncedSearch w])%list.

Definition set_searches (l : list search_inst) (w : tb_world) : tb_world :=
  match l with
  | [] => w
  | _ => mk_world (tb w) (gw w) (inflight w) (clock w) (mounted w) (heap w) (coins_obj w) (obj_of w)
           (removelast l) (List.last l (debouncedSearch w))
  end.

Definition fire_search (t : Z) (w : tb_world) : option tb_world :=
  '(i, _) ← next_timer_from 0 (searches w);
  si ← searches w !! i;
  '(st', out) ← deb_step search_wait (si_timer si) (DFire t);
  let w1 := set_searches (<[i := mk_search (si_coins si) st']> (searches w)) w in
  match out with
  | Some q =>
      match search_callback q (si_coins si) with
      | Some v => Some (set_tb (set_filteredCoins v (tb w1)) w1)
      | None => Some w1
      end
  | None => Some w1
  end.

(** ** Rendering conditions and events *)

(** Lines 188-202: the spinner while loading, else the error state, else
    the listing with its controls. *)
Definition has_error (s : table) : bool := match error s with Some _ => true | None => false end.

Definition content_shown (s : table) : bool := negb (loading s) && negb (has_error s).

(** Lines 232 and 262: the pagination is shown under a blank query. *)
Definition pagination_shown (s : table) : bool := content_shown s && is_blank (searchQuery s).

(** The [disabled] attributes of lines 79 and 89. *)
Definition prev_disabled (s : table) : bool := (currentPage s <=? 1)%Z || loading s.
Definition next_disabled (s : table) : bool := (totalPages s <=? currentPage s)%Z || loading s.

(** The options of the select, lines 220-227. *)
Definition sort_options : list string :=
  ["market_cap_desc"; "market_cap_asc"; "price_desc"; "price_asc";
   "percent_change_24h_desc"; "percent_change_24h_asc"; "volume_desc"; "volume_asc"].

Inductive tb_event :=
  | Mount (now : Z)
  | SortChange (now : Z) (newOrder : string)
  | ClickPrev (now : Z)
  | ClickNext (now : Z)
  | Retry (now : Z)
  | SearchChange (now : Z) (q : string)
  | Complete (i : nat) (ev : net_event) (t : Z)
  | Tick (t : Z).

Definition tb_event_time (e : tb_event) : Z :=
  match e with
  | Mount t | SortChange t _ | ClickPrev t | ClickNext t | Retry t | SearchChange t _
  | Complete _ _ t | Tick t => t
  end.

(** The mount: the effects of lines 147-159 in order. *)
Definition mount (now : Z) (w : tb_world) : option tb_world :=
  let w1 := fetchCoins now 1 (sortOrder (tb w)) w in
  si ← call_search now (searchQuery (tb w1)) (debouncedSearch w1);
  let s := tb w1 in
  Some (mk_world (if is_blank (searchQuery s) then set_filteredCoins (coins s) s else s)
          (gw w1) (inflight w1) (clock w1) true (heap w1) (coins_obj w1) (obj_of w1)
          (old_searches w1) si).

(** One event, before the clock moves to its time; [None] when it cannot
    happen. *)
Definition tb_handle (cfg : api_config) (w : tb_world) (e : tb_event) : option tb_world :=
  let s := tb w in
  match e with
  | Mount now => if mounted w then None else mount now w
  | SortChange now o =>
      if content_shown s && existsb (String.eqb o) sort_options && negb (String.eqb o (sortOrder s))
      then Some (handleSortChange now o w) else None
  | ClickPrev now =>
      if pagination_shown s && negb (prev_disabled s)
      then Some (handlePageChange now (currentPage s - 1) w) else None
  | ClickNext now =>
      if pagination_shown s && negb (next_disabled s)
      then Some (handlePageChange now (currentPage s + 1) w) else None
  | Retry now =>
      if negb (loading s) && has_error s then Some (handleRetry now w) else None
  | SearchChange now q =>
      if content_shown s && negb (String.eqb q (searchQuery s)) then handleSearchChange now q w else None
  | Complete i ev t => complete_fetch cfg i ev t w
  | Tick t => fire_search t w
  end.

Definition set_clock (t : Z) (w : tb_world) : tb_world :=
  mk_world (tb w) (gw w) (inflight w) t (mounted w) (heap w) (coins_obj w) (obj_of w)
    (old_searches w) (debouncedSearch w).

Definition tb_step (cfg : api_config) (w : tb_world) (e : tb_event) : option tb_world :=
  if (tb_event_time e <? clock w)%Z then None
  else w' ← tb_handle cfg w e; Some (set_clock (tb_event_time e) w').

Fixpoint tb_run (cfg : api_config) (w : tb_world) (es : list tb_event) : option tb_world :=
  match es with
  | [] => Some w
  | e :: es' => w' ← tb_step cfg w e; tb_run cfg w' es'
  end.

(** The worlds reachable from the first render. *)
Inductive tb_reachable (cfg : api_config) : tb_world → Prop :=
  | tb_init : tb_reachable cfg world_initial
  | tb_next w e w' : tb_reachable cfg w → tb_step cfg w e = Some w' → tb_reachable cfg w'.

(** ** Lemmas *)

Lemma begin_op_absent now op st :
  Map_get (p_key (op_pending op)) st = None → begin_op now op st = (Miss (op_pending op), st).
Proof. intros H. unfold begin_op, get. by rewrite H. Qed.

(** What an operation leaves alone: the page hooks and the loads. *)
Definition same_loads (w w' : tb_world) : Prop :=
  currentPage (tb w') = currentPage (tb w) ∧ totalPages (tb w') = totalPages (tb w) ∧
  inflight w' = inflight w.

Lemma coins_changed_loads t w w' : coins_changed t w = Some w' → same_loads w w'.
Proof.
  unfold coins_changed. destruct (call_search _ _ _); [|done]. intros [= <-].
  by destruct (is_blank _).
Qed.

Lemma handleSearchChange_loads now q w w' : handleSearchChange now q w = Some w' → same_loads w w'.
Proof.
  unfold handleSearchChange. destruct (call_search _ _ _); [|done]. intros [= <-].
  by destruct (is_blank _).
Qed.

Lemma set_searches_loads l w : same_loads w (set_searches l w).
Proof. by destruct l. Qed.

Lemma fire_search_loads t w w' : fire_search t w = Some w' → same_loads w w'.
Proof.
  unfold fire_search. destruct (next_timer_from _ _) as [[i d]|]; [|done]. cbn.
  destruct (searches w !! i) as [si|]; [|done]. cbn.
  destruct (deb_step search_wait (si_timer si) (DFire t)) as [[st' [q|]]|]; cbn;
    [|intros [= <-]; apply set_searches_loads|done].
  destruct (search_callback _ _); intros [= <-]; apply set_searches_loads.
Qed.

(** The range of the pages the table shows and loads. *)
Definition pages_ok (w : tb_world) : Prop :=
  (1 <= currentPage (tb w) <= totalPages (tb w) ∧ totalPages (tb w) <= 200)%Z ∧
  ∀ i f, inflight w !! i = Some (Some f) → (1 <= f_page f <= 200)%Z.

Lemma pages_ok_same w w' : same_loads w w' → pages_ok w → pages_ok w'.
Proof. intros (H1 & H2 & H3) [Hc Hf]. unfold pages_ok. rewrite H1, H2, H3. by split. Qed.

Lemma fetchCoins_tb now page order w :
  tb (fetchCoins now page order w) = set_loading_started (tb w).
Proof. unfold fetchCoins. by destruct (begin_op _ _ _). Qed.

Lemma fetchCoins_inflight now page order w :
  ∃ s o, inflight (fetchCoins now page order w) = (inflight w ++ [Some (mk_fetch page order s o)])%list.
Proof. unfold fetchCoins. destruct (begin_op _ _ _) as [s st']. by eexists _, _. Qed.

Lemma fetchCoins_pages now page order w :
  (1 <= page <= 200)%Z → pages_ok w → pages_ok (fetchCoins now page order w).
Proof.
  intros Hp [Hc Hf]. split; [by rewrite fetchCoins_tb|].
  destruct (fetchCoins_inflight now page order w) as (s & o & ->).
  intros i f [Hi|[_ Hi]]%lookup_app_Some; [by eapply Hf|].
  apply list_lookup_singleton_Some in Hi as [_ [= <-]]. done.
Qed.

Lemma handleSortChange_pages now o w : pages_ok w → pages_ok (handleSortChange now o w).
Proof.
  intros Hw. unfold handleSortChange.
  assert (pages_ok (set_tb (set_sortOrder o (tb w)) w)) as H1 by apply Hw.
  pose proof (fetchCoins_pages now 1 o _ ltac:(lia) H1) as H2.
  destruct (negb _); [|exact H2]. apply fetchCoins_pages; [lia|exact H2].
Qed.

Lemma handlePageChange_pages now p w : pages_ok w → pages_ok (handlePageChange now p w).
Proof.
  intros Hw. unfold handlePageChange.
  destruct (Z.leb_spec 1 p); [|exact Hw]. destruct (Z.leb_spec p (totalPages (tb w))); [|exact Hw].
  destruct (loading (tb w)); [exact Hw|]. apply fetchCoins_pages; [|exact Hw].
  destruct Hw as [? _]. lia.
Qed.

Lemma complete_fetch_pages cfg i ev t w w' :
  pages_ok w → complete_fetch cfg i ev t w = Some w' → pages_ok w'.
Proof.
  intros [Hc Hf]. unfold complete_fetch. destruct (inflight w !! i) as [[f|]|] eqn:Hi; try discriminate.
  destruct (fetch_result _ _ _ _ _) as [r st']. pose proof (Hf i f Hi) as Hpf.
  assert (∀ j f', <[i:=None]> (inflight w) !! j = Some (Some f') → (1 <= f_page f' <= 200)%Z) as Hf'.
  { intros j f' Hj. apply list_lookup_insert_Some in Hj as [(_ & Hx & _)|[_ Hj]]; [discriminate|].
    by eapply Hf. }
  destruct r as [v|e].
  - destruct (f_obj f) as [o|]; cbn -[coins_changed];
      [destruct (o =? coins_obj w)%nat|destruct (List.length (heap w) =? coins_obj w)%nat];
      (intros [= <-] || (intros Hw%coins_changed_loads; eapply pages_ok_same; [exact Hw|]));
      (split; [cbn; lia|exact Hf']).
  - intros [= <-]. split; [cbn; lia|exact Hf'].
Qed.

Lemma mount_pages now w w' : pages_ok w → mount now w = Some w' → pages_ok w'.
Proof.
  intros Hw. unfold mount. destruct (call_search _ _ _); [|done]. intros [= <-].
  pose proof (fetchCoins_pages now 1 (sortOrder (tb w)) w ltac:(lia) Hw) as [Hc Hf].
  by destruct (is_blank _).
Qed.

Lemma tb_step_pages cfg w e w' : pages_ok w → tb_step cfg w e = Some w' → pages_ok w'.
Proof.
  intros Hw. unfold tb_step. destruct (_ <? _)%Z; [done|].
  destruct (tb_handle cfg w e) as [w1|] eqn:Hh; [|done]. intros [= <-].
  apply (pages_ok_same w1); [done|]. revert Hh.
  destruct e as [now|now o|now|now|now|now q|i ev t|t]; cbn [tb_handle].
  - destruct (mounted w); [done|]. by apply mount_pages.
  - destruct (_ && _); [|done]. intros [= <-]. by apply handleSortChange_pages.
  - destruct (_ && _); [|done]. intros [= <-]. by apply handlePageChange_pages.
  - destruct (_ && _); [|done]. intros [= <-]. by apply handlePageChange_pages.
  - destruct (_ && _); [|done]. intros [= <-]. unfold handleRetry.
    apply fetchCoins_pages; [|exact Hw]. destruct Hw as [? _]. lia.
  - destruct (_ && _); [|done]. intros Hs. eapply pages_ok_same; [|exact Hw].
    by eapply handleSearchChange_loads.
  - by apply complete_fetch_pages.
  - intros Hs. eapply pages_ok_same; [|exact Hw]. by eapply fire_search_loads.
Qed.

(** ** The types of the hooks *)

Definition coins_typed (v : cached) : Prop := ∃ l, v = CCoins l.

(** A load that missed will be adapted by the coin adapter; a hit
    returns a coin list. *)
Definition fetch_typed (f : fetch) : Prop :=
  f_start f = Miss (op_pending (fetch_op (f_page f) (f_order f))) ∨
  ∃ v, f_start f = Hit v ∧ coins_typed v.

Definition tb_typed (w : tb_world) : Prop :=
  gw_inv (gw w) ∧ coins_typed (coins (tb w)) ∧ coins_typed (filteredCoins (tb w)) ∧
  Forall (λ si, coins_typed (si_coins si)) (searches w) ∧
  ∀ i f, inflight w !! i = Some (Some f) → fetch_typed f.

(** The listing keys hold coin lists only. *)
Lemma markets_kind ps v : kind_ok (markets_key ps) v → coins_typed v.
Proof.
  unfold markets_key. destruct v as [l|l|j]; cbn; [by exists l| |].
  - intros H. apply (f_equal (String.substring 0 1)) in H. vm_compute in H. discriminate.
  - intros [id H]. unfold details_key in H.
    apply (f_equal (String.substring 0 5)) in H. vm_compute in H. discriminate.
Qed.

(** The two outcomes of the synchronous part of a gateway call: a hit on
    the entry the cache holds, or a miss after which the cache has at most
    the entries it had. *)
Lemma begin_op_cases now op st :
  (∃ e, Map_get (p_key (op_pending op)) st = Some e ∧ begin_op now op st = (Hit (data e), st)) ∨
  ((begin_op now op st).1 = Miss (op_pending op) ∧
   ∀ k e, Map_get k (begin_op now op st).2 = Some e → Map_get k st = Some e).
Proof.
  unfold begin_op, get. destruct (Map_get (p_key (op_pending op)) st) as [e|] eqn:He; [|by right].
  destruct (isExpired now _ st); cbn.
  - right. split; [done|]. intros k e' Hk. unfold deleteKey in Hk.
    destruct (decide (p_key (op_pending op) = k)) as [<-|Hne].
    + by rewrite Map_get_delete_eq in Hk.
    + by rewrite Map_get_delete_ne in Hk.
  - destruct (cached_truthy (data e)); [left; by exists e|by right].
Qed.

Lemma finish_op_coins cfg page order ev t st v st' :
  finish_op cfg (op_pending (fetch_op page order)) ev t st = (Ok v, st') → coins_typed v.
Proof.
  unfold finish_op. destruct (classify cfg ev); [|by intros [= <- _]].
  cbn [op_pending fetch_op p_adapt]. destruct (adaptCoinsFromApi _) as [l|]; cbn; [|by intros [= <- _]].
  intros [= <- _]. by exists l.
Qed.

Lemma search_callback_typed q c v : coins_typed c → search_callback q c = Some v → coins_typed v.
Proof.
  intros [l ->]. unfold search_callback. destruct (is_blank q); [intros [= <-]; by exists l|].
  destruct (searchCoins q l) as [r|]; [intros [= <-]; by exists r|done].
Qed.

Lemma fetchCoins_typed now page order w : tb_typed w → tb_typed (fetchCoins now page order w).
Proof.
  intros (Hg & Hc & Hfc & Hs & Hf). unfold fetchCoins.
  pose proof (begin_op_state now (fetch_op page order) (gw w)) as Hst.
  destruct (begin_op_cases now (fetch_op page order) (gw w)) as [(e & He & Hb)|[Hb _]];
    destruct (begin_op now (fetch_op page order) (gw w)) as [s st'];
    cbn in Hb, Hst |- *; [injection Hb as -> ->|subst s];
    (split_and!; [try (rewrite Hst; by apply get_state_inv)|done|done|done|]);
    intros i f [Hi|[_ Hi]]%lookup_app_Some; try (by eapply Hf);
    apply list_lookup_singleton_Some in Hi as [_ [= <-]]; unfold fetch_typed; cbn; [right|by left].
  exists (data e). split; [done|]. destruct Hg as [_ Hk]. apply (markets_kind _ _ (Hk _ _ He)).
Qed.

Lemma handleSortChange_typed now o w : tb_typed w → tb_typed (handleSortChange now o w).
Proof.
  intros Hw. unfold handleSortChange.
  assert (tb_typed (set_tb (set_sortOrder o (tb w)) w)) as H1 by apply Hw.
  destruct (negb _); by repeat apply fetchCoins_typed.
Qed.

Lemma handlePageChange_typed now p w : tb_typed w → tb_typed (handlePageChange now p w).
Proof. intros Hw. unfold handlePageChange. destruct (_ && _); [by apply fetchCoins_typed|done]. Qed.

Lemma call_search_coins now q si si' : call_search now q si = Some si' → si_coins si' = si_coins si.
Proof. unfold call_search. destruct (deb_step _ _ _) as [[]|]; [by intros [= <-]|done]. Qed.

Lemma coins_changed_typed t w w' : tb_typed w → coins_changed t w = Some w' → tb_typed w'.
Proof.
  intros (Hg & Hc & Hfc & Hs & Hf). unfold coins_changed.
  destruct (call_search _ _ _) as [si|] eqn:Hsi; [|done]. intros [= <-].
  apply call_search_coins in Hsi. cbn in Hsi.
  split_and!; [done|by destruct (is_blank _)|by destruct (is_blank _)| |done].
  unfold searches. cbn. apply Forall_app. split; [done|]. constructor; [by rewrite Hsi|done].
Qed.

Lemma handleSearchChange_typed now q w w' : tb_typed w → handleSearchChange now q w = Some w' → tb_typed w'.
Proof.
  intros (Hg & Hc & Hfc & Hs & Hf). unfold handleSearchChange.
  destruct (call_search _ _ _) as [si|] eqn:Hsi; [|done]. intros [= <-].
  apply call_search_coins in Hsi.
  split_and!; [done|by destruct (is_blank _)|by destruct (is_blank _)| |done].
  unfold searches in *. cbn. rewrite Forall_app, Forall_singleton in Hs. destruct Hs as [Ho Hd].
  apply Forall_app. split; [done|]. constructor; [by rewrite Hsi|done].
Qed.

Lemma searches_set_searches l w : l ≠ [] → searches (set_searches l w) = l.
Proof.
  intros Hl. destruct l as [|x l]; [done|]. unfold searches. cbn [set_searches old_searches debouncedSearch].
  symmetry. apply app_removelast_last. done.
Qed.

Lemma fire_search_typed t w w' : tb_typed w → fire_search t w = Some w' → tb_typed w'.
Proof.
  intros (Hg & Hc & Hfc & Hs & Hf). unfold fire_search.
  destruct (next_timer_from _ _) as [[i d]|]; [|done]. cbn.
  destruct (searches w !! i) as [si|] eqn:Hi; [|done]. cbn.
  assert (coins_typed (si_coins si)) as Hsi by (exact (Forall_lookup_1 _ _ _ _ Hs Hi)).
  assert (∀ st', tb_typed (set_searches (<[i:=mk_search (si_coins si) st']> (searches w)) w)) as Hw1.
  { intros st'. assert (<[i:=mk_search (si_coins si) st']> (searches w) ≠ []) as Hne.
    { intros H%(f_equal List.length). rewrite length_insert in H. apply lookup_lt_Some in Hi.
      cbn in H. lia. }
    pose proof (searches_set_searches _ w Hne) as Hss.
    destruct (<[i:=mk_search (si_coins si) st']> (searches w)) as [|x l] eqn:Hl; [done|].
    split_and!; try done. rewrite Hss, <- Hl. by apply Forall_insert. }
  destruct (deb_step search_wait (si_timer si) (DFire t)) as [[st' [q|]]|]; cbn;
    [|intros [= <-]; apply Hw1|done].
  destruct (search_callback q (si_coins si)) as [v|] eqn:Hv; intros [= <-]; [|apply Hw1].
  destruct (Hw1 st') as (? & ? & ? & ? & ?). split_and!; cbn; try done.
  exact (search_callback_typed _ _ _ Hsi Hv).
Qed.

Lemma complete_fetch_typed cfg i ev t w w' :
  tb_typed w → complete_fetch cfg i ev t w = Some w' → tb_typed w'.
Proof.
  intros (Hg & Hc & Hfc & Hs & Hf). unfold complete_fetch.
  destruct (inflight w !! i) as [[f|]|] eqn:Hi; try discriminate.
  pose proof (Hf i f Hi) as Hft.
  assert (∀ j f', <[i:=None]> (inflight w) !! j = Some (Some f') → fetch_typed f') as Hf'.
  { intros j f' Hj. apply list_lookup_insert_Some in Hj as [(_ & Hx & _)|[_ Hj]]; [discriminate|].
    by eapply Hf. }
  destruct (fetch_result cfg f ev t (gw w)) as [r st'] eqn:Hfr.
  assert (gw_inv st' ∧ ∀ v, r = Ok v → coins_typed v) as [Hg' Hv].
  { unfold fetch_result in Hfr. destruct Hft as [Hm|(v & Hh & Hv)].
    - rewrite Hm in Hfr. split.
      + pose proof (finish_op_inv cfg (fetch_op (f_page f) (f_order f)) ev t (gw w) Hg) as H.
        by rewrite Hfr in H.
      + intros v ->. by eapply finish_op_coins.
    - rewrite Hh in Hfr. injection Hfr as <- <-. split; [done|]. by intros ? [= <-]. }
  destruct r as [v|e].
  - pose proof (Hv v eq_refl) as Hvt.
    destruct (f_obj f) as [o|]; cbn -[coins_changed];
      [destruct (o =? coins_obj w)%nat|destruct (List.length (heap w) =? coins_obj w)%nat];
      (intros [= <-] || (intros Hcc; eapply coins_changed_typed; [|exact Hcc]));
      (split_and!; cbn; done).
  - intros [= <-]. split_and!; cbn; done.
Qed.

Lemma mount_typed now w w' : tb_typed w → mount now w = Some w' → tb_typed w'.
Proof.
  intros Hw. unfold mount. pose proof (fetchCoins_typed now 1 (sortOrder (tb w)) w Hw) as Hw1.
  set (w1 := fetchCoins now 1 (sortOrder (tb w)) w) in *.
  destruct (call_search _ _ _) as [si|] eqn:Hsi; [|done]. intros [= <-].
  apply call_search_coins in Hsi. destruct Hw1 as (Hg & Hc & Hfc & Hs & Hf).
  split_and!; [done|by destruct (is_blank _)|by destruct (is_blank _)| |done].
  unfold searches in *. cbn. rewrite Forall_app, Forall_singleton in Hs. destruct Hs as [Ho Hd].
  apply Forall_app. split; [done|]. constructor; [by rewrite Hsi|done].
Qed.

Lemma tb_step_typed cfg w e w' : tb_typed w → tb_step cfg w e = Some w' → tb_typed w'.
Proof.
  intros Hw. unfold tb_step. destruct (_ <? _)%Z; [done|].
  destruct (tb_handle cfg w e) as [w1|] eqn:Hh; [|done]. intros [= <-].
  assert (tb_typed w1) as (? & ? & ? & ? & ?). 2: { split_and!; assumption. }
  revert Hh.
  destruct e as [now|now o|now|now|now|now q|i ev t|t]; cbn [tb_handle].
  - destruct (mounted w); [done|]. by apply mount_typed.
  - destruct (_ && _); [|done]. intros [= <-]. by apply handleSortChange_typed.
  - destruct (_ && _); [|done]. intros [= <-]. by apply handlePageChange_typed.
  - destruct (_ && _); [|done]. intros [= <-]. by apply handlePageChange_typed.
  - destruct (_ && _); [|done]. intros [= <-]. unfold handleRetry. by apply fetchCoins_typed.
  - destruct (_ && _); [|done]. by apply handleSearchChange_typed.
  - by apply complete_fetch_typed.
  - by apply fire_search_typed.
Qed.

(** ** The search box's invariant *)

(** The arrays: [coins] is the array [coins_obj]; the cache holds under
    each key the array [obj_of] names; a load that hit resolves with the
    array it recorded, a load that missed will make a new one. *)
Definition ident_inv (w : tb_world) : Prop :=
  heap w !! coins_obj w = Some (coins (tb w)) ∧
  (∀ k e, Map_get k (gw w) = Some e → ∃ o, Map_get k (obj_of w) = Some o ∧ heap w !! o = Some (data e)) ∧
  (∀ i f, inflight w !! i = Some (Some f) →
     (∃ o v, f_obj f = Some o ∧ f_start f = Hit v ∧ heap w !! o = Some v) ∨
     (f_obj f = None ∧ f_start f = Miss (op_pending (fetch_op (f_page f) (f_order f))))).

(** The timers: every deadline is at most [search_wait] after [c], and an
    older function is armed only if the current one is, no later. *)
Definition timers_inv (c : Z) (w : tb_world) : Prop :=
  (∀ si d, si ∈ searches w → armed_deadline si = Some d → (d <= c + search_wait)%Z) ∧
  (∀ si d, si ∈ old_searches w → armed_deadline si = Some d →
     ∃ dc, armed_deadline (debouncedSearch w) = Some dc ∧ (d <= dc)%Z).

(** The current function: it closes over [coins]; armed, it will search
    for [searchQuery]; disarmed, [filteredCoins] is its last result. *)
Definition current_inv (w : tb_world) : Prop :=
  si_coins (debouncedSearch w) = coins (tb w) ∧
  (∀ d a, db_timer (si_timer (debouncedSearch w)) = Some (d, a) → a = searchQuery (tb w)) ∧
  (db_timer (si_timer (debouncedSearch w)) = None →
     ∀ v, search_callback (searchQuery (tb w)) (coins (tb w)) = Some v → filteredCoins (tb w) = v).

Definition search_inv_at (c : Z) (w : tb_world) : Prop := ident_inv w ∧ timers_inv c w ∧ current_inv w.

Lemma timers_inv_mono c c' w : (c <= c')%Z → timers_inv c w → timers_inv c' w.
Proof. intros Hc [H1 H2]. split; [|done]. intros si d Hsi Hd. specialize (H1 si d Hsi Hd). lia. Qed.

Lemma call_search_armed now q si si' :
  call_search now q si = Some si' →
  si_coins si' = si_coins si ∧ db_timer (si_timer si') = Some ((now + search_wait)%Z, q).
Proof.
  unfold call_search, deb_step. cbn [event_time]. destruct (now <? db_clock (si_timer si))%Z; [done|].
  intros [= <-]. done.
Qed.

Lemma armed_deadline_timer si d a : db_timer (si_timer si) = Some (d, a) → armed_deadline si = Some d.
Proof. unfold armed_deadline. by intros ->. Qed.

(** The timer [next_timer_from] picks: armed, no later than any other,
    and earlier than every armed timer before it. *)
Lemma next_timer_from_spec k l i d :
  next_timer_from k l = Some (i, d) →
  (k <= i)%nat ∧ (∃ si, l !! (i - k)%nat = Some si ∧ armed_deadline si = Some d) ∧
  ∀ j sj dj, l !! j = Some sj → armed_deadline sj = Some dj →
    (d <= dj)%Z ∧ ((j < i - k)%nat → (d < dj)%Z).
Proof.
  revert k i d. induction l as [|si l IH]; intros k i d; [done|]. cbn [next_timer_from].
  destruct (next_timer_from (S k) l) as [[j' d']|] eqn:Hr.
  - destruct (IH (S k) _ _ Hr) as (Hk & (sj & Hsj & Hdj) & Hmin).
    destruct (armed_deadline si) as [d0|] eqn:Hd0; [destruct (Z.leb_spec d0 d')|];
      intros [= <- <-]; (split_and!; [lia| |]).
    + exists si. by rewrite Nat.sub_diag.
    + intros [|j] sj' dj' Hj Hdj'; cbn in Hj.
      * injection Hj as <-. rewrite Hd0 in Hdj'. injection Hdj' as <-. lia.
      * destruct (Hmin j sj' dj' Hj Hdj'). lia.
    + exists sj. by replace (j' - k)%nat with (S (j' - S k)) by lia.
    + intros [|j] sj' dj' Hj Hdj'; cbn in Hj.
      * injection Hj as <-. rewrite Hd0 in Hdj'. injection Hdj' as <-. lia.
      * destruct (Hmin j sj' dj' Hj Hdj') as [? Hlt]. split; [lia|intros ?; apply Hlt; lia].
    + exists sj. by replace (j' - k)%nat with (S (j' - S k)) by lia.
    + intros [|j] sj' dj' Hj Hdj'; cbn in Hj; [injection Hj as <-; congruence|].
      destruct (Hmin j sj' dj' Hj Hdj') as [? Hlt]. split; [lia|intros ?; apply Hlt; lia].
  - destruct (armed_deadline si) as [d0|] eqn:Hd0; [|done].
    intros [= <- <-]. rewrite Nat.sub_diag. split_and!; [lia|by exists si|].
    intros [|j] sj' dj' Hj Hdj'; cbn in Hj.
    + injection Hj as <-. rewrite Hd0 in Hdj'. injection Hdj' as <-. lia.
    + exfalso. clear IH. revert k j Hr Hj. induction l as [|s l IH]; intros k j Hr Hj; [done|].
      cbn in Hr. destruct j as [|j]; cbn in Hj.
      * injection Hj as ->. rewrite Hdj' in Hr.
        repeat case_match; discriminate.
      * destruct (armed_deadline s).
        -- repeat case_match; discriminate.
        -- by eapply IH.
Qed.

Lemma next_timer_from_None k l : next_timer_from k l = None → ∀ si, si ∈ l → armed_deadline si = None.
Proof.
  revert k. induction l as [|s l IH]; intros k Hn si Hsi; [by apply elem_of_nil in Hsi|].
  cbn in Hn. destruct (armed_deadline s) eqn:Hs.
  { repeat case_match; discriminate. }
  apply elem_of_cons in Hsi as [->|Hsi]; [done|]. by eapply IH.
Qed.

Lemma set_searches_snoc old x w :
  set_searches (old ++ [x])%list w =
    mk_world (tb w) (gw w) (inflight w) (clock w) (mounted w) (heap w) (coins_obj w) (obj_of w) old x.
Proof.
  destruct (old ++ [x])%list as [|y l] eqn:E; [by destruct old|]. cbn [set_searches].
  by rewrite <- E, removelast_last, last_last.
Qed.

Lemma fetchCoins_search c now page order w :
  search_inv_at c w → search_inv_at c (fetchCoins now page order w).
Proof.
  unfold search_inv_at, ident_inv. intros ((H1 & H2 & H3) & Ht & Hc). unfold fetchCoins.
  destruct (begin_op_cases now (fetch_op page order) (gw w)) as [(e & He & Hb)|[Hb Hsub]];
    destruct (begin_op now (fetch_op page order) (gw w)) as [s st'] eqn:Hbo;
    cbn [fst snd] in Hb; cbn -[op_pending].
  - injection Hb as -> ->. destruct (H2 _ _ He) as (o & Ho & Hho). rewrite Ho.
    split_and!; try done.
    intros i f [Hi|[_ Hi]]%lookup_app_Some; [by apply H3 in Hi|].
    apply list_lookup_singleton_Some in Hi as [_ [= <-]]. left. by exists o, (data e).
  - subst s. split_and!; try done.
    + intros k e' Hk. apply H2, Hsub. exact Hk.
    + intros i f [Hi|[_ Hi]]%lookup_app_Some; [by apply H3 in Hi|].
      apply list_lookup_singleton_Some in Hi as [_ [= <-]]. by right.
Qed.

Lemma handleSortChange_search c now o w :
  search_inv_at c w → search_inv_at c (handleSortChange now o w).
Proof.
  intros Hw. unfold handleSortChange.
  assert (search_inv_at c (set_tb (set_sortOrder o (tb w)) w)) as H1 by apply Hw.
  destruct (negb _); by repeat apply fetchCoins_search.
Qed.

Lemma handlePageChange_search c now p w :
  search_inv_at c w → search_inv_at c (handlePageChange now p w).
Proof. intros Hw. unfold handlePageChange. destruct (_ && _); [by apply fetchCoins_search|done]. Qed.

(** A deadline set at [now] bounds every deadline set before. *)
Lemma timers_rearm c now w :
  timers_inv c w → (c <= now)%Z →
  ∀ si d, si ∈ searches w → armed_deadline si = Some d → (d <= now + search_wait)%Z.
Proof. intros [H1 _] Hc si d Hsi Hd. specialize (H1 si d Hsi Hd). lia. Qed.

Lemma coins_changed_search c t w w' :
  ident_inv w → timers_inv c w → (c <= t)%Z → coins_changed t w = Some w' → search_inv_at t w'.
Proof.
  intros Hi Ht Hct. pose proof (timers_rearm c t w Ht Hct) as Hr. unfold coins_changed.
  destruct (call_search _ _ _) as [si|] eqn:Hsi; [|done]. intros [= <-].
  apply call_search_armed in Hsi as [Hsc Hst]. cbn in Hsc.
  assert (armed_deadline si = Some (t + search_wait)%Z) as Hd by (by eapply armed_deadline_timer).
  unfold search_inv_at, timers_inv, current_inv. split_and!.
  - by destruct (is_blank _).
  - unfold searches. cbn. intros si' d [Hs'|Hs']%elem_of_app Hd'.
    + apply (Hr si' d); [|done]. exact Hs'.
    + apply list_elem_of_singleton in Hs' as ->. rewrite Hd in Hd'. injection Hd' as <-. lia.
  - cbn. intros si' d Hs' Hd'. exists (t + search_wait)%Z. split; [done|].
    by apply (Hr si' d).
  - cbn. by destruct (is_blank _).
  - cbn. rewrite Hst. intros d a [= _ <-]. by destruct (is_blank _).
  - cbn. by rewrite Hst.
Qed.

(** Re-arming the current function with the new query. *)
Lemma rearm_inv c now q w si m :
  search_inv_at c w → (c <= now)%Z → call_search now q (debouncedSearch w) = Some si →
  search_inv_at now
    (mk_world (let s := set_searchQuery q (tb w) in if is_blank q then set_filteredCoins (coins s) s else s)
       (gw w) (inflight w) (clock w) m (heap w) (coins_obj w) (obj_of w) (old_searches w) si).
Proof.
  intros (Hi & Ht & Hc1 & _) Hcn Hsi. pose proof (timers_rearm c now w Ht Hcn) as Hr.
  apply call_search_armed in Hsi as [Hsc Hst].
  assert (armed_deadline si = Some (now + search_wait)%Z) as Hd by (by eapply armed_deadline_timer).
  unfold search_inv_at, timers_inv, current_inv. split_and!.
  - by destruct (is_blank _).
  - unfold searches. cbn. intros si' d [Hs'|Hs']%elem_of_app Hd'.
    + apply (Hr si' d); [|done]. unfold searches. apply elem_of_app. by left.
    + apply list_elem_of_singleton in Hs' as ->. rewrite Hd in Hd'. injection Hd' as <-. lia.
  - cbn. intros si' d Hs' Hd'. exists (now + search_wait)%Z. split; [done|].
    apply (Hr si' d); [|done]. unfold searches. apply elem_of_app. by left.
  - cbn. rewrite Hsc, Hc1. by destruct (is_blank _).
  - cbn. rewrite Hst. intros d a [= _ <-]. by destruct (is_blank _).
  - cbn. by rewrite Hst.
Qed.

Lemma handleSearchChange_search c now q w w' :
  search_inv_at c w → (c <= now)%Z → handleSearchChange now q w = Some w' → search_inv_at now w'.
Proof.
  intros Hw Hcn. unfold handleSearchChange. destruct (call_search _ _ _) as [si|] eqn:Hsi; [|done].
  intros [= <-]. by apply rearm_inv with c.
Qed.

Lemma mount_search c now w w' :
  search_inv_at c w → (c <= now)%Z → mount now w = Some w' → search_inv_at now w'.
Proof.
  intros Hw Hcn. pose proof (fetchCoins_search c now 1 (sortOrder (tb w)) w Hw) as Hw1.
  unfold mount. set (w1 := fetchCoins now 1 (sortOrder (tb w)) w) in *.
  destruct (call_search _ _ _) as [si|] eqn:Hsi; [|done]. intros [= <-].
  pose proof (rearm_inv c now _ w1 si true Hw1 Hcn Hsi) as H. by destruct (tb w1).
Qed.

Lemma finish_op_state cfg p ev t st r st' :
  finish_op cfg p ev t st = (r, st') →
  (∃ v, r = Ok v ∧ st' = set t (p_key p) v (p_ttl p) st) ∨ ((∃ e, r = Err e) ∧ st' = st).
Proof.
  unfold finish_op. destruct (classify cfg ev) as [j|e]; [|intros [= <- <-]; right; eauto].
  destruct (p_adapt p j) as [v|e]; intros [= <- <-]; [left|right]; eauto.
Qed.

Lemma heap_snoc_lookup (hp : list cached) v o x : hp !! o = Some x → (hp ++ [v])%list !! o = Some x.
Proof. apply lookup_app_l_Some. Qed.

(** A completion that keeps the array shown, or that fails. *)
Lemma complete_fetch_search c i ev t w w' cfg :
  search_inv_at c w → (c <= t)%Z → complete_fetch cfg i ev t w = Some w' → search_inv_at t w'.
Proof.
  intros Hw Hct. pose proof Hw as ((H1 & H2 & H3) & Ht & Hc1 & Hc2 & Hc3).
  pose proof (timers_inv_mono c t w Hct Ht) as Ht'.
  unfold complete_fetch. destruct (inflight w !! i) as [[f|]|] eqn:Hi; try discriminate.
  assert (∀ j f', <[i:=None]> (inflight w) !! j = Some (Some f') → inflight w !! j = Some (Some f'))
    as Hfl by (intros j f' [(_ & Hx & _)|[_ Hj]]%list_lookup_insert_Some; [discriminate|exact Hj]).
  destruct (H3 i f Hi) as [(o & v0 & Ho & Hh & Hho)|[Ho Hm]]; unfold fetch_result.
  - rewrite Hh. cbn -[coins_changed]. rewrite Ho.
    assert (ident_inv (mk_world (settle_table (f_page f) (Ok v0) (tb w)) (gw w) (<[i:=None]> (inflight w))
              (clock w) (mounted w) (heap w) o (obj_of w) (old_searches w) (debouncedSearch w))) as Hid.
    { split_and!; [exact Hho|exact H2|intros j f' Hj; exact (H3 j f' (Hfl j f' Hj))]. }
    destruct (Nat.eqb_spec o (coins_obj w)) as [->|Hne].
    + intros [= <-]. rewrite H1 in Hho. injection Hho as Hv0.
      unfold search_inv_at, current_inv.
      split_and!; [exact Hid|exact Ht'|cbn; by rewrite Hc1|exact Hc2|cbn; by rewrite <- Hv0].
    + intros Hcc. exact (coins_changed_search c t _ _ Hid Ht Hct Hcc).
  - rewrite Hm. destruct (finish_op cfg _ ev t (gw w)) as [r st'] eqn:Hfo.
    destruct (finish_op_state _ _ _ _ _ _ _ Hfo) as [(v & -> & ->)|([e ->] & ->)].
    + cbn -[coins_changed]. rewrite Ho.
      assert (coins_obj w < List.length (heap w))%nat as Hlt by (by apply lookup_lt_Some in H1).
      destruct (Nat.eqb_spec (List.length (heap w)) (coins_obj w)) as [?|_]; [lia|].
      apply (coins_changed_search c t); [|exact Ht|exact Hct]. split_and!.
      * cbn. by rewrite lookup_app_r, Nat.sub_diag by lia.
      * cbn. intros k e. unfold set. cbn [p_key p_ttl].
        destruct (decide (p_key (op_pending (fetch_op (f_page f) (f_order f))) = k)) as [<-|Hk].
        -- rewrite Map_get_set_eq, Map_get_set_eq. intros [= <-]. exists (List.length (heap w)).
           split; [done|]. by rewrite lookup_app_r, Nat.sub_diag by lia.
        -- rewrite !Map_get_set_ne by done. intros (o & Ho' & Hho)%H2. exists o.
           split; [done|]. by apply heap_snoc_lookup.
      * cbn. intros j f' Hj.
        destruct (H3 j f' (Hfl j f' Hj)) as [(o & v' & Ho' & Hh' & Hho')|Hm']; [|by right].
        left. exists o, v'. split_and!; [done|done|by apply heap_snoc_lookup].
    + intros [= <-]. unfold search_inv_at, ident_inv. split_and!; try done.
      intros j f' Hj. exact (H3 j f' (Hfl j f' Hj)).
Qed.

Lemma deb_step_fire (st : deb_state (A:=string)) t st' out :
  deb_step search_wait st (DFire t) = Some (st', out) →
  ∃ d a, db_timer st = Some (d, a) ∧ (d <= t)%Z ∧ st' = mk_deb None t ∧ out = Some a.
Proof.
  unfold deb_step. cbn [event_time]. destruct (t <? db_clock st)%Z; [done|].
  destruct (db_timer st) as [[d a]|]; [|done]. destruct (Z.leb_spec d t); [|done].
  intros [= <- <-]. by exists d, a.
Qed.

Lemma elem_of_insert_inv {A} (l : list A) i x y : y ∈ <[i:=x]> l → y = x ∨ y ∈ l.
Proof.
  intros (j & Hj)%list_elem_of_lookup_1.
  apply list_lookup_insert_Some in Hj as [(_ & -> & _)|[_ Hj]]; [by left|].
  right. by eapply list_elem_of_lookup_2.
Qed.

(** While the current function is armed, [filteredCoins] is free. *)
Lemma search_inv_filtered c w v :
  search_inv_at c w → db_timer (si_timer (debouncedSearch w)) ≠ None →
  search_inv_at c (set_tb (set_filteredCoins v (tb w)) w).
Proof.
  intros (Hi & Ht & Hc1 & Hc2 & _) Harm. unfold search_inv_at, current_inv.
  split_and!; [exact Hi|exact Ht|exact Hc1|exact Hc2|by intros ?].
Qed.

(** The expiry of an older function's timer. *)
Lemma fire_old_inv c t w i si st' :
  search_inv_at c w → (c <= t)%Z → (i < List.length (old_searches w))%nat →
  old_searches w !! i = Some si → armed_deadline (mk_search (si_coins si) st') = None →
  armed_deadline si ≠ None →
  search_inv_at t (set_searches (<[i := mk_search (si_coins si) st']> (searches w)) w).
Proof.
  intros (Hi & [Ht1 Ht2] & Hc) Hct Hlt Hsi Hx Harm. unfold searches.
  rewrite insert_app_l, set_searches_snoc by done.
  unfold search_inv_at, timers_inv. split_and!; [exact Hi| | |exact Hc].
  - unfold searches. cbn. intros y d [[->|Hy]%elem_of_insert_inv|Hy]%elem_of_app Hd; [congruence| |].
    + specialize (Ht1 y d). unfold searches in Ht1. cut (d <= c + search_wait)%Z; [lia|].
      apply Ht1; [apply elem_of_app; by left|done].
    + specialize (Ht1 y d). unfold searches in Ht1. cut (d <= c + search_wait)%Z; [lia|].
      apply Ht1; [apply elem_of_app; by right|done].
  - cbn. intros y d [->|Hy]%elem_of_insert_inv Hd; [congruence|]. by apply (Ht2 y d).
Qed.

(** The expiry of the current function's timer, all older ones being
    disarmed: [filteredCoins] becomes the result of the search for the
    current query in the current [coins]. *)
Lemma fire_cur_inv c t w d a st' :
  search_inv_at c w → (c <= t)%Z → (∀ y, y ∈ old_searches w → armed_deadline y = None) →
  db_timer (si_timer (debouncedSearch w)) = Some (d, a) → db_timer st' = None →
  let si := debouncedSearch w in
  let w1 := set_searches (<[List.length (old_searches w) := mk_search (si_coins si) st']> (searches w)) w in
  search_inv_at t
    (match search_callback a (si_coins si) with
     | Some v => set_tb (set_filteredCoins v (tb w1)) w1
     | None => w1
     end).
Proof.
  intros (Hi & Ht & Hc1 & Hc2 & _) Hct Hold Hta Hst' si w1.
  pose proof (Hc2 _ _ Hta) as ->. unfold w1, si, searches.
  rewrite insert_app_r_alt, Nat.sub_diag by lia. cbn [insert list_insert]. rewrite set_searches_snoc, Hc1.
  assert (∀ y d', y ∈ (old_searches w ++ [mk_search (coins (tb w)) st'])%list →
            armed_deadline y = Some d' → False) as Hnone.
  { intros y d' [Hy|Hy]%elem_of_app Hd'.
    - by rewrite Hold in Hd'.
    - apply list_elem_of_singleton in Hy as ->. unfold armed_deadline in Hd'. cbn in Hd'.
      by rewrite Hst' in Hd'. }
  destruct (search_callback (searchQuery (tb w)) (coins (tb w))) as [v|] eqn:Hv;
    unfold search_inv_at, timers_inv, current_inv; cbn; (split_and!; [exact Hi| | | |by rewrite Hst'|]);
    try (intros y d' Hy Hd'; exfalso; by apply (Hnone y d'); [try (apply elem_of_app; by left)|]);
    try done; intros _ v' Hv'; congruence.
Qed.

Lemma fire_search_search c t w w' :
  search_inv_at c w → (c <= t)%Z → fire_search t w = Some w' → search_inv_at t w'.
Proof.
  intros Hw Hct. pose proof Hw as (Hi & [Ht1 Ht2] & Hc). unfold fire_search.
  destruct (next_timer_from 0 (searches w)) as [[i d]|] eqn:Hn; [|done]. cbn.
  destruct (searches w !! i) as [si|] eqn:Hsi; [|done]. cbn.
  destruct (next_timer_from_spec _ _ _ _ Hn) as (_ & (si0 & Hsi0 & Hd) & Hmin).
  rewrite Nat.sub_0_r in Hsi0, Hmin. rewrite Hsi in Hsi0. injection Hsi0 as <-.
  destruct (deb_step search_wait (si_timer si) (DFire t)) as [[st' out]|] eqn:Hds; [|done]. cbn.
  destruct (deb_step_fire _ _ _ _ Hds) as (d' & a & Hta & _ & -> & ->).
  assert (d' = d) as -> by (unfold armed_deadline in Hd; rewrite Hta in Hd; congruence).
  unfold searches in Hsi. destruct (decide (i < List.length (old_searches w))%nat) as [Hlt|Hge].
  - rewrite lookup_app_l in Hsi by done.
    assert (search_inv_at t (set_searches (<[i:=mk_search (si_coins si) (mk_deb None t)]> (searches w)) w))
      as Hw1 by (apply (fire_old_inv c); try done; congruence).
    destruct (Ht2 si d) as (dc & Hdc & _); [by eapply list_elem_of_lookup_2|done|].
    destruct (search_callback a (si_coins si)); intros [= <-]; [|exact Hw1].
    apply search_inv_filtered; [exact Hw1|]. unfold searches.
    rewrite insert_app_l, set_searches_snoc by done. cbn. unfold armed_deadline in Hdc.
    intros Hnn. rewrite Hnn in Hdc. discriminate.
  - assert (i = List.length (old_searches w)) as ->.
    { apply lookup_lt_Some in Hsi. rewrite length_app in Hsi. cbn in Hsi. lia. }
    rewrite lookup_app_r, Nat.sub_diag in Hsi by lia. injection Hsi as <-.
    assert (∀ y, y ∈ old_searches w → armed_deadline y = None) as Hold.
    { intros y Hy. destruct (armed_deadline y) as [dy|] eqn:Hdy; [exfalso|done].
      apply list_elem_of_lookup_1 in Hy as [j Hj].
      destruct (Hmin j y dy) as [_ Hlt]; [by apply lookup_app_l_Some|done|].
      destruct (Ht2 y dy) as (dc & Hdc & Hle); [by eapply list_elem_of_lookup_2|done|].
      rewrite Hd in Hdc. injection Hdc as <-. apply lookup_lt_Some in Hj. specialize (Hlt Hj). lia. }
    pose proof (fire_cur_inv c t w d a (mk_deb None t) Hw Hct Hold Hta eq_refl) as H. cbn zeta in H.
    destruct (search_callback a (si_coins (debouncedSearch w))); by intros [= <-].
Qed.

Lemma search_inv_mono c c' w : (c <= c')%Z → search_inv_at c w → search_inv_at c' w.
Proof. intros Hc (Hi & Ht & Hcur). split_and!; [exact Hi|by apply (timers_inv_mono c)|exact Hcur]. Qed.

Lemma tb_step_search cfg w e w' :
  search_inv_at (clock w) w → tb_step cfg w e = Some w' → search_inv_at (clock w') w'.
Proof.
  intros Hw. unfold tb_step. destruct (Z.ltb_spec (tb_event_time e) (clock w)) as [_|Hc]; [done|].
  destruct (tb_handle cfg w e) as [w1|] eqn:Hh; [|done]. intros [= <-].
  enough (search_inv_at (tb_event_time e) w1) as H by (by destruct w1).
  revert Hh. destruct e as [now|now o|now|now|now|now q|i ev t|t]; cbn [tb_handle]; cbn in Hc.
  - destruct (mounted w); [done|]. by apply mount_search with (clock w).
  - destruct (_ && _); [|done]. intros [= <-].
    apply (search_inv_mono (clock w)); [done|by apply handleSortChange_search].
  - destruct (_ && _); [|done]. intros [= <-].
    apply (search_inv_mono (clock w)); [done|by apply handlePageChange_search].
  - destruct (_ && _); [|done]. intros [= <-].
    apply (search_inv_mono (clock w)); [done|by apply handlePageChange_search].
  - destruct (_ && _); [|done]. intros [= <-]. unfold handleRetry.
    apply (search_inv_mono (clock w)); [done|by apply fetchCoins_search].
  - destruct (_ && _); [|done]. by apply handleSearchChange_search with (clock w).
  - by apply complete_fetch_search with (clock w).
  - by apply fire_search_search with (clock w).
Qed.

Lemma search_inv_initial : search_inv_at 0 world_initial.
Proof.
  unfold search_inv_at, ident_inv, timers_inv, current_inv. cbn.
  split_and!; try done.
  - intros si d [->|Hs]%elem_of_cons; [done|by apply elem_of_nil in Hs].
  - intros si d Hs. by apply elem_of_nil in Hs.
  - intros _ v [= <-]. done.
Qed.

Lemma blank_searchCoins q l : is_blank q = true → searchCoins q l = Ok l.
Proof. unfold searchCoins, is_blank. intros ->. by rewrite orb_true_r. Qed.

Lemma fetchCoins_miss now page order w :
  Map_get (p_key (op_pending (fetch_op page order))) (gw w) = None →
  fetchCoins now page order w =
    mk_world (set_loading_started (tb w)) (gw w)
      (inflight w ++ [Some (mk_fetch page order (Miss (op_pending (fetch_op page order))) None)])
      (clock w) (mounted w) (heap w) (coins_obj w) (obj_of w) (old_searches w) (debouncedSearch w).
Proof. intros H. unfold fetchCoins. by rewrite begin_op_absent. Qed.

Lemma complete_fetch_new cfg i page order ev j cs t w :
  inflight w !! i = Some (Some (mk_fetch page order (Miss (op_pending (fetch_op page order))) None)) →
  classify cfg ev = Ok j → adaptCoinsFromApi (Some j) = Ok cs →
  (List.length (heap w) =? coins_obj w)%nat = false →
  complete_fetch cfg i ev t w =
    coins_changed t (mk_world (settle_table page (Ok (CCoins cs)) (tb w))
      (set t (p_key (op_pending (fetch_op page order))) (CCoins cs) None (gw w))
      (<[i := None]> (inflight w)) (clock w) (mounted w) (heap w ++ [CCoins cs])%list
      (List.length (heap w)) (Map_set (p_key (op_pending (fetch_op page order))) (List.length (heap w)) (obj_of w))
      (old_searches w) (debouncedSearch w)).
Proof.
  intros Hi Hc Ha Hn. unfold complete_fetch. rewrite Hi. cbn [fetch_result f_start f_obj f_page f_order].
  unfold finish_op. rewrite Hc. cbn [op_pending fetch_op p_adapt]. rewrite Ha. cbn -[coins_changed set].
  by rewrite Hn.
Qed.

(** Evaluation of a trace whose adapted listings are unknown. *)
Ltac tb_simpl := cbn -[fetchCoins complete_fetch adaptCoinsFromApi set].

Lemma reachable_pages cfg w : tb_reachable cfg w → pages_ok w.
Proof.
  induction 1 as [|w e w' _ IH Hs].
  - split; [cbn; lia|]. intros i f Hi. cbn in Hi. by destruct i.
  - by eapply tb_step_pages.
Qed.

Lemma tb_run_reachable cfg w es w' : tb_reachable cfg w → tb_run cfg w es = Some w' → tb_reachable cfg w'.
Proof.
  revert w. induction es as [|e es IH]; intros w Hw; cbn; [by intros [= <-]|].
  destruct (tb_step cfg w e) as [w1|] eqn:Hs; [|done]. cbn. apply IH. by eapply tb_next.
Qed.

(** *** The closures of the debounced functions

    The memo never rebuilds a function it has made, and a call or an
    expiry keeps the array a function closes over: the closed-over arrays
    of the functions made so far only grow, at the end. *)

Definition search_coins (w : tb_world) : list cached := si_coins <$> searches w.

Lemma fetchCoins_search_coins now page order w :
  search_coins (fetchCoins now page order w) = search_coins w.
Proof. unfold fetchCoins. by destruct (begin_op _ _ _). Qed.

Lemma handleSortChange_search_coins now o w : search_coins (handleSortChange now o w) = search_coins w.
Proof. unfold handleSortChange. destruct (negb _); by rewrite ?fetchCoins_search_coins. Qed.

Lemma handlePageChange_search_coins now p w : search_coins (handlePageChange now p w) = search_coins w.
Proof. unfold handlePageChange. destruct (_ && _); [apply fetchCoins_search_coins|done]. Qed.

(** A call of the current function, with the hooks [s] and its old
    functions as they are. *)
Lemma call_current_search_coins now q w si s g fl c m hp o oo :
  call_search now q (debouncedSearch w) = Some si →
  search_coins (mk_world s g fl c m hp o oo (old_searches w) si) = search_coins w.
Proof.
  intros Hsi. unfold search_coins, searches. cbn. rewrite !fmap_app. cbn.
  by rewrite (call_search_coins _ _ _ _ Hsi).
Qed.

Lemma coins_changed_search_coins t w w' :
  coins_changed t w = Some w' → search_coins w `prefix_of` search_coins w'.
Proof.
  unfold coins_changed. destruct (call_search _ _ _); [|done]. intros [= <-].
  unfold search_coins, searches. cbn. rewrite !fmap_app. by eexists.
Qed.

Lemma complete_fetch_search_coins cfg i ev t w w' :
  complete_fetch cfg i ev t w = Some w' → search_coins w `prefix_of` search_coins w'.
Proof.
  unfold complete_fetch. destruct (inflight w !! i) as [[f|]|]; [|done|done].
  destruct (fetch_result _ _ _ _ _) as [[v|e] st']; [|by intros [= <-]].
  destruct (f_obj f); cbv beta iota; (case_match; [by intros [= <-]|apply coins_changed_search_coins]).
Qed.

Lemma fire_search_search_coins t w w' : fire_search t w = Some w' → search_coins w' = search_coins w.
Proof.
  unfold fire_search. destruct (next_timer_from _ _) as [[i d]|]; [|done]. cbn.
  destruct (searches w !! i) as [si|] eqn:Hi; [|done]. cbn.
  assert (∀ st', search_coins (set_searches (<[i:=mk_search (si_coins si) st']> (searches w)) w) = search_coins w)
    as Hw1.
  { intros st'. unfold search_coins at 1. rewrite searches_set_searches.
    - rewrite list_fmap_insert. cbn. by rewrite list_insert_id by (by rewrite list_lookup_fmap, Hi).
    - destruct (searches w) as [|x l]; [done|]. by destruct i. }
  destruct (deb_step _ _ _) as [[st' [q|]]|]; cbn; [|intros [= <-]; apply Hw1|done].
  destruct (search_callback _ _); intros [= <-]; [|apply Hw1]. by rewrite <- (Hw1 st').
Qed.

Lemma tb_step_search_coins cfg w e w' :
  tb_step cfg w e = Some w' → search_coins w `prefix_of` search_coins w'.
Proof.
  unfold tb_step. destruct (_ <? _)%Z; [done|].
  destruct (tb_handle cfg w e) as [w1|] eqn:Hh; [|done]. intros [= <-].
  enough (search_coins w `prefix_of` search_coins w1) as H by (by destruct w1).
  revert Hh. destruct e as [now|now o|now|now|now|now q|i ev t|t]; cbn [tb_handle].
  - destruct (mounted w); [done|]. unfold mount.
    destruct (call_search _ _ _) as [si|] eqn:Hsi; [|done]. intros [= <-].
    rewrite (call_current_search_coins _ _ _ _ _ _ _ _ _ _ _ _ Hsi). by rewrite fetchCoins_search_coins.
  - destruct (_ && _); [|done]. intros [= <-]. by rewrite handleSortChange_search_coins.
  - destruct (_ && _); [|done]. intros [= <-]. by rewrite handlePageChange_search_coins.
  - destruct (_ && _); [|done]. intros [= <-]. by rewrite handlePageChange_search_coins.
  - destruct (_ && _); [|done]. intros [= <-]. unfold handleRetry. by rewrite fetchCoins_search_coins.
  - destruct (_ && _); [|done]. unfold handleSearchChange.
    destruct (call_search _ _ _) as [si|] eqn:Hsi; [|done]. intros [= <-].
    by rewrite (call_current_search_coins _ _ _ _ _ _ _ _ _ _ _ _ Hsi).
  - apply complete_fetch_search_coins.
  - intros Hf. by rewrite (fire_search_search_coins _ _ _ Hf).
Qed.

(** The first function, made at the first render, closes over the
    initial empty array for ever. *)
Lemma reachable_first_search cfg w : tb_reachable cfg w → search_coins w !! 0%nat = Some (CCoins []).
Proof.
  induction 1 as [|w e w' _ IH Hs]; [done|].
  eapply prefix_lookup_Some; [exact IH|]. by eapply tb_step_search_coins.
Qed.

Lemma search_callback_nil q : search_callback q (CCoins []) = Some (CCoins []).
Proof. unfold search_callback, searchCoins. destruct (is_blank q); [done|]. by destruct (_ || _). Qed.

(** The tick that fires the first function's timer. *)
Lemma fire_first_search t w d w' :
  search_coins w !! 0%nat = Some (CCoins []) → next_timer_from 0 (searches w) = Some (0%nat, d) →
  fire_search t w = Some w' → filteredCoins (tb w') = CCoins [].
Proof.
  intros H0 Hn. unfold fire_search. rewrite Hn. cbn.
  unfold search_coins in H0. rewrite list_lookup_fmap in H0.
  destruct (searches w !! 0%nat) as [si|]; [|done]. cbn in H0 |- *. injection H0 as Hsi.
  destruct (deb_step _ _ _) as [[st' out]|] eqn:Hd; [|done]. cbn.
  apply deb_step_fire in Hd as (d' & a & _ & _ & _ & ->). rewrite Hsi, search_callback_nil.
  by intros [= <-].
Qed.

(** *** What a completed load sets *)

Lemma coins_changed_tb t w w' :
  coins_changed t w = Some w' →
  coins (tb w') = coins (tb w) ∧ sortOrder (tb w') = sortOrder (tb w) ∧ loading (tb w') = loading (tb w).
Proof.
  unfold coins_changed. destruct (call_search _ _ _); [|done]. intros [= <-]. by destruct (is_blank _).
Qed.

(** A load that succeeds sets the listing, the page and [loading] from
    its own result alone. *)
Lemma complete_fetch_ok cfg w i f ev t v st' w' :
  inflight w !! i = Some (Some f) → fetch_result cfg f ev t (gw w) = (Ok v, st') →
  complete_fetch cfg i ev t w = Some w' →
  coins (tb w') = v ∧ currentPage (tb w') = f_page f ∧ sortOrder (tb w') = sortOrder (tb w) ∧
  loading (tb w') = false ∧ inflight w' = <[i:=None]> (inflight w).
Proof.
  intros Hi Hr. unfold complete_fetch. rewrite Hi, Hr.
  destruct (f_obj f); cbv beta iota; (case_match; [by intros [= <-]|]); intros Hc;
    destruct (coins_changed_tb _ _ _ Hc) as (-> & -> & ->);
    by destruct (coins_changed_loads _ _ _ Hc) as (-> & _ & ->).
Qed.

(** ** Properties *)

(** C36 (invariant). In every state of the table reachable from its first
    render, the page shown is between 1 and the page count, the page count
    is at most 200, and every load in flight asks for a page between 1 and
    200: the guard of [handlePageChange] and the constant
    [setTotalPages(200)] keep pagination in range. *)
Theorem table_pages_invariant cfg w : tb_reachable cfg w → pages_ok w.
Proof. apply reachable_pages. Qed.

Lemma table_pages_invariant_witness :
  ∃ w, tb_run (API_CONFIG empty_env) world_initial [Mount 0] = Some w ∧
       tb_reachable (API_CONFIG empty_env) w ∧ pages_ok w.
Proof.
  destruct (tb_run (API_CONFIG empty_env) world_initial [Mount 0]) as [w|] eqn:E;
    [|vm_compute in E; discriminate].
  assert (tb_reachable (API_CONFIG empty_env) w) as Hr by (eapply tb_run_reachable; [constructor|exact E]).
  exists w. split_and!; [reflexivity|exact Hr|exact (table_pages_invariant _ _ Hr)].
Defined.

(** C27 (type). In every reachable state the service's cache keeps each
    key family to its kind of value, and the [coins] and [filteredCoins]
    hooks hold coin lists: the table never shows the trending list or a
    detail payload, whatever the order of loads, searches and timers. *)
Theorem table_typed cfg w :
  tb_reachable cfg w →
  gw_inv (gw w) ∧ (∃ l, coins (tb w) = CCoins l) ∧ (∃ l, filteredCoins (tb w) = CCoins l).
Proof.
  intros Hr. enough (tb_typed w) as (? & ? & ? & _) by done.
  induction Hr as [|w e w' _ IH Hs]; [|by eapply tb_step_typed].
  split_and!; try (eexists; reflexivity).
  - split; [apply Map_nil_wf|done].
  - repeat constructor. by eexists.
  - intros i f Hi. by destruct i.
Qed.

(** C30 (functional). Once no search timer is armed, the table lists
    exactly what [searchCoins] returns for the current query over the
    current page of coins: the debounced search settles on the latest
    query and the latest listing, whatever the interleaving of typing,
    loads and timers that led there. *)
Theorem search_settles cfg w l r :
  tb_reachable cfg w → next_timer_from 0 (searches w) = None →
  coins (tb w) = CCoins l → searchCoins (searchQuery (tb w)) l = Ok r →
  filteredCoins (tb w) = CCoins r.
Proof.
  intros Hr Hq Hl Hs.
  assert (search_inv_at (clock w) w) as (_ & _ & _ & _ & Hc3).
  { clear Hq Hl Hs. induction Hr as [|w e w' _ IH Hst]; [exact search_inv_initial|by eapply tb_step_search]. }
  apply Hc3.
  - pose proof (next_timer_from_None 0 _ Hq (debouncedSearch w)) as H.
    unfold armed_deadline in H. destruct (db_timer _) as [[]|]; [|done].
    exfalso. discriminate H. unfold searches. apply elem_of_app. right. by constructor.
  - rewrite Hl. unfold search_callback. destruct (is_blank (searchQuery (tb w))) eqn:Hb.
    + rewrite blank_searchCoins in Hs by done. by injection Hs as ->.
    + by rewrite Hs.
Qed.

(** C37 (functional). Changing the sort order to a new value whose first
    page is not cached starts two loads of that same page: one from
    [handleSortChange], one from the effect on [[sortOrder]].  Both miss
    the cache, since the first has not completed, so the same request is
    sent twice. *)
Theorem sort_change_double_request now o w :
  o ≠ sortOrder (tb w) →
  Map_get (p_key (op_pending (fetch_op 1 o))) (gw w) = None →
  inflight (handleSortChange now o w) =
    (inflight w ++ [Some (mk_fetch 1 o (Miss (op_pending (fetch_op 1 o))) None);
                    Some (mk_fetch 1 o (Miss (op_pending (fetch_op 1 o))) None)])%list.
Proof.
  intros Ho Hget. unfold handleSortChange.
  destruct (String.eqb_spec o (sortOrder (tb w))) as [|_]; [done|]. cbn [negb].
  unfold fetchCoins at 2. cbn [gw set_tb]. rewrite begin_op_absent by done.
  unfold fetchCoins. cbn [gw inflight]. rewrite begin_op_absent by done.
  cbn [inflight]. by rewrite <- app_assoc.
Qed.

Lemma sort_change_double_request_witness :
  "volume_desc" ≠ sortOrder (tb world_initial) ∧
  Map_get (p_key (op_pending (fetch_op 1 "volume_desc"))) (gw world_initial) = None ∧
  inflight (handleSortChange 0 "volume_desc" world_initial) =
    (inflight world_initial ++
       [Some (mk_fetch 1 "volume_desc" (Miss (op_pending (fetch_op 1 "volume_desc"))) None);
        Some (mk_fetch 1 "volume_desc" (Miss (op_pending (fetch_op 1 "volume_desc"))) None)])%list.
Proof.
  assert ("volume_desc" ≠ sortOrder (tb world_initial)) as H1 by discriminate.
  assert (Map_get (p_key (op_pending (fetch_op 1 "volume_desc"))) (gw world_initial) = None) as H2
    by reflexivity.
  split_and!; [exact H1|exact H2|]. exact (sort_change_double_request 0 _ _ H1 H2).
Defined.

(** A successful listing response of the entries [x]. *)
Definition ok_listing (x : list json) : net_event :=
  mk_net_event 100 (NetResponse 200 "OK" (BodyJson (JArr x))).

(** A listing of one coin whose id, name and symbol are [id]. *)
Definition listing_of (id : string) : list json :=
  [JObj [("id", JStr id); ("name", JStr id); ("symbol", JStr id)]].

(** The first page loads; the user picks the volume order, which starts
    two loads of its first page; the first one answers, so the listing is
    shown again and the user picks the price order (two more loads); the
    price loads answer, then, last, the second volume load. *)
Definition race_events : list tb_event :=
  [Mount 0; Complete 0 (ok_listing (listing_of "bitcoin")) 100; SortChange 200 "volume_desc";
   Complete 1 (ok_listing (listing_of "tether")) 300; SortChange 400 "price_desc";
   Complete 3 (ok_listing (listing_of "wrapped-bitcoin")) 500;
   Complete 4 (ok_listing (listing_of "wrapped-bitcoin")) 550;
   Complete 2 (ok_listing (listing_of "tether")) 900].

(** C38 (safety). The last load to complete wins, not the last one
    started: a successful load sets [coins] to its own listing and
    [currentPage] to its own page, whatever the sort order and the loads
    started since, and clears [loading] while other loads may still be in
    flight.  Nothing compares the load's order with [sortOrder]. *)
Theorem sort_race_stale_page cfg w i f ev t v st' w' :
  inflight w !! i = Some (Some f) → fetch_result cfg f ev t (gw w) = (Ok v, st') →
  complete_fetch cfg i ev t w = Some w' →
  coins (tb w') = v ∧ currentPage (tb w') = f_page f ∧ sortOrder (tb w') = sortOrder (tb w) ∧
  loading (tb w') = false ∧ inflight w' = <[i:=None]> (inflight w).
Proof. apply complete_fetch_ok. Qed.

(** In the race of [race_events], the second volume-ordered load answers
    last, under the price order: the table shows the volume listing. *)
Lemma sort_race_stale_page_witness :
  ∃ w f v st' w',
    tb_run (API_CONFIG empty_env) world_initial (take 7 race_events) = Some w ∧
    inflight w !! 2%nat = Some (Some f) ∧ f_order f = "volume_desc" ∧ sortOrder (tb w) = "price_desc" ∧
    fetch_result (API_CONFIG empty_env) f (ok_listing (listing_of "tether")) 900 (gw w) = (Ok v, st') ∧
    complete_fetch (API_CONFIG empty_env) 2 (ok_listing (listing_of "tether")) 900 w = Some w' ∧
    coins (tb w') = v ∧ sortOrder (tb w') = "price_desc" ∧ loading (tb w') = false.
Proof.
  set (cfg := API_CONFIG empty_env). set (ev := ok_listing (listing_of "tether")).
  destruct (tb_run cfg world_initial (take 7 race_events)) as [w|] eqn:E; [|vm_compute in E; discriminate].
  destruct (inflight w !! 2%nat) as [[f|]|] eqn:Hi;
    [|vm_compute in E; injection E as <-; vm_compute in Hi; discriminate ..].
  destruct (fetch_result cfg f ev 900 (gw w)) as [[v|e] st'] eqn:Hr;
    [|vm_compute in E; injection E as <-; vm_compute in Hi; injection Hi as <-; vm_compute in Hr; discriminate].
  destruct (complete_fetch cfg 2 ev 900 w) as [w'|] eqn:Hc;
    [|vm_compute in E; injection E as <-; vm_compute in Hc; discriminate].
  destruct (sort_race_stale_page cfg w 2 f ev 900 v st' w' Hi Hr Hc) as (Hco & _ & Ho & Hl & _).
  exists w, f, v, st', w'. rewrite Ho.
  vm_compute in E; injection E as <-; vm_compute in Hi; injection Hi as <-.
  split_and!; try assumption; reflexivity.
Defined.

(** The first page answers within [search_wait] of the mount; the timers
    of the first and of the second debounced function expire in turn. *)
Definition flash_events : list tb_event :=
  [Mount 0; Complete 0 (ok_listing (listing_of "bitcoin")) 100; Tick 300; Tick 400].

(** C17 (safety). The debounced function made at the first render closes
    over the initial empty [coins], and the memo never rebuilds it: in
    every reachable state, when the timer that expires is that function's,
    the table's [filteredCoins] becomes the empty array, whatever the query
    and whatever [coins] holds by then. *)
Theorem stale_search_empties_table cfg w d t w' :
  tb_reachable cfg w → next_timer_from 0 (searches w) = Some (0%nat, d) →
  tb_step cfg w (Tick t) = Some w' → filteredCoins (tb w') = CCoins [].
Proof.
  intros Hw Hn. unfold tb_step. destruct (_ <? _)%Z; [done|]. cbn [tb_handle].
  destruct (fire_search t w) as [w1|] eqn:Hf; [|done]. intros [= <-].
  exact (fire_first_search t w d w1 (reachable_first_search cfg w Hw) Hn Hf).
Qed.

(** The first page answers within [search_wait] of the mount: the mount's
    call of the first function expires at 300, after the listing is in. *)
Lemma stale_search_empties_table_witness :
  ∃ w w', tb_run (API_CONFIG empty_env) world_initial (take 2 flash_events) = Some w ∧
    next_timer_from 0 (searches w) = Some (0%nat, 300%Z) ∧
    tb_step (API_CONFIG empty_env) w (Tick 300) = Some w' ∧
    coins (tb w') ≠ CCoins [] ∧ filteredCoins (tb w') = CCoins [].
Proof.
  destruct (tb_run (API_CONFIG empty_env) world_initial (take 2 flash_events)) as [w|] eqn:E;
    vm_compute in E; [|discriminate]. injection E as <-.
  eexists _, _. split; [reflexivity|]. split; [vm_compute; reflexivity|].
  split; [vm_compute; reflexivity|]. split; [vm_compute; discriminate|].
  refine (stale_search_empties_table (API_CONFIG empty_env) _ 300 300 _ _ _ _).
  - apply (tb_run_reachable _ world_initial (take 2 flash_events)); [constructor|vm_compute; reflexivity].
  - vm_compute; reflexivity.
  - vm_compute; reflexivity.
Defined.

Lemma table_typed_witness :
  ∃ w, tb_run (API_CONFIG empty_env) world_initial flash_events = Some w ∧
    tb_reachable (API_CONFIG empty_env) w ∧
    gw_inv (gw w) ∧ (∃ l, coins (tb w) = CCoins l) ∧ (∃ l, filteredCoins (tb w) = CCoins l).
Proof.
  destruct (tb_run (API_CONFIG empty_env) world_initial flash_events) as [w|] eqn:E;
    [|vm_compute in E; discriminate].
  assert (tb_reachable (API_CONFIG empty_env) w) as Hr by (eapply tb_run_reachable; [constructor|exact E]).
  exists w. split_and!; [reflexivity|exact Hr|..]; apply (table_typed _ _ Hr).
Defined.

Lemma search_settles_witness :
  ∃ w l, tb_run (API_CONFIG empty_env) world_initial flash_events = Some w ∧
    tb_reachable (API_CONFIG empty_env) w ∧ next_timer_from 0 (searches w) = None ∧
    coins (tb w) = CCoins l ∧ searchCoins (searchQuery (tb w)) l = Ok l ∧
    filteredCoins (tb w) = CCoins l.
Proof.
  destruct (tb_run (API_CONFIG empty_env) world_initial flash_events) as [w|] eqn:E;
    [|vm_compute in E; discriminate].
  assert (tb_reachable (API_CONFIG empty_env) w) as Hr by (eapply tb_run_reachable; [constructor|exact E]).
  pose proof E as E'. vm_compute in E'. injection E' as <-.
  eexists _, _. split_and!; [reflexivity|exact Hr|reflexivity|reflexivity|reflexivity|].
  eapply (search_settles _ _ _ _ Hr); reflexivity.
Defined.

(** C25 (safety). The pagination's [disabled] attributes are at least as
    strict as the guard of [handlePageChange]: in every reachable state, a
    click on a shown and enabled Previous or Next button loads the page
    before or after the current one; the guard never drops such a click. *)
Theorem pagination_click_loads cfg w now :
  tb_reachable cfg w → pagination_shown (tb w) = true →
  (prev_disabled (tb w) = false →
     handlePageChange now (currentPage (tb w) - 1) w =
       fetchCoins now (currentPage (tb w) - 1) (sortOrder (tb w)) w) ∧
  (next_disabled (tb w) = false →
     handlePageChange now (currentPage (tb w) + 1) w =
       fetchCoins now (currentPage (tb w) + 1) (sortOrder (tb w)) w).
Proof.
  intros Hr Hp. destruct (reachable_pages _ _ Hr) as [[Hc Ht] _].
  unfold pagination_shown, content_shown in Hp. apply andb_true_iff in Hp as [[Hl _]%andb_true_iff _].
  apply negb_true_iff in Hl. unfold prev_disabled, next_disabled, handlePageChange. rewrite Hl, !orb_false_r.
  split; intros Hd; [apply Z.leb_gt in Hd|apply Z.leb_gt in Hd];
    (replace ((1 <=? _) && (_ <=? _))%Z with true; [done|]); symmetry; apply andb_true_iff;
    split; apply Z.leb_le; lia.
Qed.

Lemma pagination_click_loads_witness :
  ∃ w, tb_run (API_CONFIG empty_env) world_initial (take 2 flash_events) = Some w ∧
    tb_reachable (API_CONFIG empty_env) w ∧ pagination_shown (tb w) = true ∧
    next_disabled (tb w) = false ∧
    handlePageChange 500 (currentPage (tb w) + 1) w =
      fetchCoins 500 (currentPage (tb w) + 1) (sortOrder (tb w)) w.
Proof.
  destruct (tb_run (API_CONFIG empty_env) world_initial (take 2 flash_events)) as [w|] eqn:E;
    [|vm_compute in E; discriminate].
  assert (tb_reachable (API_CONFIG empty_env) w) as Hr by (eapply tb_run_reachable; [constructor|exact E]).
  pose proof E as E'. vm_compute in E'. injection E' as <-.
  eexists. split_and!; [reflexivity|exact Hr|reflexivity|reflexivity|].
  apply (pagination_click_loads _ _ 500 Hr); reflexivity.
Defined.
