(* ===== verification/CoinTableView.v ===== *)
(** * What the coin table renders: [src/src/components/CoinTable/CoinTable.js], lines 34-95 and 188-273

    The render of [CoinTable] is a function of its hooks: the spinner
    while [loading], the error state, or the controls and the listing,
    with the empty state for a search that found nothing and the
    pagination under a blank query.  Each listed coin is a [CoinRow],
    whose cells are printed by the formatters; a cell that throws makes
    the whole render throw (there is no error boundary).  The views keep
    the values the markup shows and the attributes computed from the
    data; class names and static text are left out.  A value React
    renders as a child ([coin.name], the rank) is kept as the JS value. *)

From Stdlib Require Import QArith Ascii.
From S2P Require Import Prelude Config JsMap Cache JsValue Adapters Search HttpClient Gateway Debounce Formatters CoinTable.
#[local] Set Warnings "-clear-no-such-hyp".
Local Open Scope string_scope.
Local Open Scope medi_scope.

(** ** [CoinRow], lines 34-73 *)

Record row_view := mk_row {
  row_key : jsval;           (* key={coin.id} *)
  row_rank : jsval;          (* coin.marketCapRank || 'N/A' *)
  row_image : jsval;
  row_name : jsval;
  row_symbol : jsval;
  row_price : string;        (* formatCurrency(coin.currentPrice) *)
  row_change_up : bool;      (* coin.priceChangePercentage24h >= 0: the green class *)
  row_change : string;       (* formatPercentage(coin.priceChangePercentage24h) *)
  row_market_cap : string;   (* formatMarketCap(coin.marketCap) *)
  row_volume : string;       (* formatMarketCap(coin.totalVolume) *)
}.

(** The cells in the order JSX evaluates them; [formatPercentage] may
    throw; [None] when a number is beyond what the formatters' model
    prints ([Formatters.toFixed]). *)
Definition CoinRow (coin : Coin) : option (result js_error row_view) :=
  let rank := js_or (marketCapRank coin) (Some (JStr "N/A")) in
  let price := formatCurrency (currentPrice coin) 2 in
  let up := num_ge (js_to_number (priceChangePercentage24h coin)) 0 in
  change ←? formatPercentage (priceChangePercentage24h coin) 2;
  mc ←? Ok <$> formatMarketCap (marketCap coin);
  vol ←? Ok <$> formatMarketCap (totalVolume coin);
  Some (Ok (mk_row (id coin) rank (image coin) (name coin) (symbol coin) price up change mc vol)).

(** [filteredCoins.map((coin) => <CoinRow .../>)]: the first row that
    throws stops the render. *)
Fixpoint render_rows (l : list Coin) : option (result js_error (list row_view)) :=
  match l with
  | [] => Some (Ok [])
  | c :: l' => v ←? CoinRow c; vs ←? render_rows l'; Some (Ok (v :: vs))
  end.

(** ** [Pagination], lines 75-95 *)

Record pagination_view := mk_pagination {
  pg_prev_disabled : bool;
  pg_current : Z;
  pg_total : Z;
  pg_next_disabled : bool;
}.

Definition Pagination (s : table) : pagination_view :=
  mk_pagination (prev_disabled s) (currentPage s) (totalPages s) (next_disabled s).

(** ** The render, lines 188-273 *)

Inductive table_view :=
  | TSpinner
  | TError (title : string) (message : json)
  | TEmpty (query : string) (order : string)
  | TListing (query : string) (order : string) (rows : list row_view) (pagination : option pagination_view).

(** [filteredCoins] is a coin list in every reachable state
    ([CoinTable.table_typed]); other values are outside the model. *)
Definition render_table (s : table) : option (result js_error table_view) :=
  if loading s then Some (Ok TSpinner)
  else match error s with
  | Some (title, message) => Some (Ok (TError title message))
  | None =>
      match filteredCoins s with
      | CCoins l =>
          if (List.length l =? 0)%nat && negb (is_blank (searchQuery s))
          then Some (Ok (TEmpty (searchQuery s) (sortOrder s)))
          else
            vs ←? render_rows l;
            Some (Ok (TListing (searchQuery s) (sortOrder s) vs
                        (if is_blank (searchQuery s) then Some (Pagination s) else None)))
      | _ => None
      end
  end.

(** ** Lemmas *)

Lemma render_rows_ok l vs c :
  render_rows l = Some (Ok vs) → c ∈ l → ∃ v, CoinRow c = Some (Ok v).
Proof.
  revert vs. induction l as [|c' l IH]; intros vs; cbn; [intros _ Hc; by apply elem_of_nil in Hc|].
  destruct (CoinRow c') as [[v|e]|] eqn:Hc'; cbn; try discriminate.
  destruct (render_rows l) as [[vs'|e]|] eqn:Hr; cbn; try discriminate.
  intros _ [->|Hin]%elem_of_cons; [by exists v|]. by eapply IH.
Qed.

Lemma render_rows_length l vs : render_rows l = Some (Ok vs) → List.length vs = List.length l.
Proof.
  revert vs. induction l as [|c l IH]; intros vs; cbn; [by intros [= <-]|].
  destruct (CoinRow c) as [[v|e]|]; cbn; try discriminate.
  destruct (render_rows l) as [[vs'|e]|] eqn:Hr; cbn; try discriminate.
  intros [= <-]. cbn. by rewrite (IH vs').
Qed.

(** ** Properties *)

(** C26 (error). The adapter copies [price_change_percentage_24h]
    verbatim, and [formatPercentage] calls [value.toFixed]: one listed
    coin whose 24h change is a string (or a boolean, an array, an object)
    makes the render of the whole table throw a [TypeError], so the table
    never shows. *)
Theorem table_render_type_error s l c x :
  loading s = false → error s = None → filteredCoins s = CCoins l → c ∈ l →
  priceChangePercentage24h c = Some (JStr x) →
  ∀ v, render_table s ≠ Some (Ok v).
Proof.
  intros Hl He Hf Hc Hx v. unfold render_table. rewrite Hl, He, Hf.
  assert (CoinRow c = Some (Err (type_error "value.toFixed is not a function"))) as Hrow.
  { unfold CoinRow. by rewrite Hx. }
  assert (List.length l ≠ 0)%nat as Hn by (destruct l; [by apply elem_of_nil in Hc|done]).
  apply Nat.eqb_neq in Hn. rewrite Hn. cbn [andb].
  destruct (render_rows l) as [[vs|e]|] eqn:Hr; cbn; [|discriminate|discriminate].
  destruct (render_rows_ok _ _ _ Hr Hc) as [r Hr']. congruence.
Qed.

(** A coin whose 24h change came through the adapter as a string. *)
Definition string_change_coin : Coin :=
  mk_coin (Some (JStr "bitcoin")) (Some (JStr "btc")) (Some (JStr "Bitcoin")) None
    (Some (JNum 50000)) None (Some (JNum 1)) None None None None None (Some (JStr "1.5"))
    None None None None None None None None None None None None.

Definition string_change_table : table :=
  mk_table (CCoins [string_change_coin]) (CCoins [string_change_coin]) false None ""
    "market_cap_desc" 1 200.

Lemma table_render_type_error_witness :
  render_table string_change_table = Some (Err (type_error "value.toFixed is not a function")) ∧
  ∀ v, render_table string_change_table ≠ Some (Ok v).
Proof.
  split; [reflexivity|].
  apply (table_render_type_error string_change_table [string_change_coin] string_change_coin "1.5");
    try reflexivity. by constructor.
Defined.
