(* ===== verification/CoinDetail.v ===== *)
(** * The coin detail modal: [src/src/components/CoinDetailModal/CoinDetailModal.js]

    The modal shows the fields of the coin it is given and loads the
    coin's detail payload through [fetchCoinDetails] (lines 33-48), a call
    of the gateway's [getCoinDetails] over the module-level service
    instance, started by the effect of lines 50-54 and by the retry
    button.  This file models:
    - the hooks [coinDetails], [loading], [error] and the load as a small
      machine ([modal_step]), with the early return of line 34;
    - the text of the all-time-low line (line 187), which prefixes a [+]
      to [formatPercentage(Math.abs(coin.atlChangePercentage))];
    - the description injected as HTML (line 207): the upstream text with
      every [<...>] removed by [replace(/<[^>]*>/g, '')], cut to 500
      characters, and followed by [...].
    The rest of the modal is rendering; the keyboard and scroll effects
    (lines 56-71) touch only the DOM. *)

From Stdlib Require Import QArith Qabs Ascii.
From S2P Require Import Prelude Config JsMap Cache JsValue Adapters HttpClient Gateway Formatters NumberFormat.
#[local] Set Warnings "-clear-no-such-hyp".
Local Open Scope string_scope.

(** ** [fetchCoinDetails] *)

Record modal := mk_modal {
  coinDetails : option cached;
  loading : bool;
  error : option json;
  pending_load : option started;
}.

Definition modal_initial : modal := mk_modal None true None None.

Definition detail_failed_message : string := "Unable to fetch coin details".

(** [coin.id] as [getCoinDetails] uses it, in the cache key
    [`coin_details_${coinId}`] and the path [`/coins/${id}`]: its
    [ToString].  The upstream ids are strings; a number or a boolean is
    printed, and an array, or a number [Number::toString] prints in
    exponent form, is outside the model ([None]). *)
Definition coin_id_string (c : Coin) : option string :=
  match id c with Some j => value_to_string j | None => None end.

(** Up to the [await]: the early return when [coin?.id] is falsy, then
    [setLoading(true)], [setError(null)] and the synchronous part of
    [getCoinDetails(coin.id)].  [None] when the id is outside the model. *)
Definition fetchCoinDetails (now : Z) (c : Coin) (m : modal) (st : gw_state) : option (modal * gw_state) :=
  if truthy (id c) then
    s ← coin_id_string c;
    let '(sr, st') := begin_op now (GetCoinDetails s) st in
    Some (mk_modal (coinDetails m) true None (Some sr), st')
  else Some (m, st).

(** After the [await]: [setCoinDetails(details)] or
    [setError(err.message || ...)], then [setLoading(false)]. *)
Definition settle_modal (cfg : api_config) (ev : net_event) (t : Z) (m : modal) (st : gw_state)
    : option (modal * gw_state) :=
  match pending_load m with
  | Some sr =>
      let '(r, st') := match sr with Hit v => (Ok v, st) | Miss p => finish_op cfg p ev t st end in
      match r with
      | Ok v => Some (mk_modal (Some v) false (error m) None, st')
      | Err e =>
          let msg := if tostring_nonempty (err_message e) then err_message e else JStr detail_failed_message in
          Some (mk_modal (coinDetails m) false (Some msg) None, st')
      end
  | None => None
  end.

Inductive modal_event :=
  | MOpen (now : Z)       (* the effect of lines 50-54 *)
  | MRetry (now : Z)      (* the retry button: [onRetry={fetchCoinDetails}] *)
  | MSettle (ev : net_event) (t : Z).

(** The effect only calls [fetchCoinDetails] when [coin?.id] is truthy,
    and the function itself returns early otherwise: both are one guard. *)
Definition modal_step (cfg : api_config) (c : Coin) (x : modal * gw_state) (e : modal_event)
    : option (modal * gw_state) :=
  match e with
  | MOpen now | MRetry now => fetchCoinDetails now c x.1 x.2
  | MSettle ev t => settle_modal cfg ev t x.1 x.2
  end.

Fixpoint modal_run (cfg : api_config) (c : Coin) (x : modal * gw_state) (es : list modal_event)
    : option (modal * gw_state) :=
  match es with
  | [] => Some x
  | e :: es' => x' ← modal_step cfg c x e; modal_run cfg c x' es'
  end.

(** ** The all-time-low line *)

(** [Math.abs(value)]: [ToNumber], then the magnitude. *)
Definition math_abs (n : num) : num :=
  match n with NFin q => NFin (Qabs q) | NNegInf | NPosInf => NPosInf | NNaN => NNaN end.

(** [+{formatPercentage(Math.abs(coin.atlChangePercentage))}]: the
    argument is a number, so [formatPercentage] goes straight to
    [toFixed]. *)
Definition atl_change_text (atlChangePercentage : jsval) : option string :=
  s ← percentage_of_number (math_abs (js_to_number atlChangePercentage)) 2;
  Some ("+" ++ s).

(** ** The description *)

Fixpoint has_gt (s : string) : bool :=
  match s with "" => false | String c s' => Ascii.eqb c ">" || has_gt s' end.

(** [s.replace(/<[^>]*>/g, '')]: scanning left to right, a [<] that has a
    [>] somewhere after it starts a match that ends at the first such [>]
    ([intag] holds inside it); a [<] with no [>] after it cannot start a
    match and stays. *)
Fixpoint strip_tags (intag : bool) (s : string) : string :=
  match s with
  | "" => ""
  | String c s' =>
      if intag then (if Ascii.eqb c ">" then strip_tags false s' else strip_tags true s')
      else if Ascii.eqb c "<" && has_gt s' then strip_tags true s'
      else String c (strip_tags false s')
  end.

(** [v?.p]: [undefined] on [null] and [undefined], else [v.p] (which
    cannot throw then). *)
Definition opt_prop (v : jsval) (p : string) : jsval :=
  match v with
  | None | Some JNull => None
  | _ => match get_prop v p with Ok r => r | Err _ => None end
  end.

(** [coinDetails.description?.en && ...]: [None] when the description is
    not rendered; a truthy [en] that is not a string has no [replace] and
    throws. *)
Definition description_html (details : json) : option (result js_error string) :=
  match get_prop (Some details) "description" with
  | Ok d =>
      let en := opt_prop d "en" in
      if truthy en then
        match en with
        | Some (JStr s) => Some (Ok (substring 0 500 (strip_tags false s) ++ "..."))
        | _ => Some (Err (type_error "coinDetails.description.en.replace is not a function"))
        end
      else None
  | Err e => Some (Err e)
  end.

(** ** What the modal renders, lines 73-258 *)

(** [v?.[0]] *)
Definition opt_index0 (v : jsval) : jsval :=
  match v with
  | Some (JArr (x :: _)) => Some x
  | Some (JStr (String c _)) => Some (JStr (String c ""))
  | Some (JObj fs) => assoc "0" fs
  | _ => None
  end.

Inductive link := Website (href : jsval) | Twitter (href : string) | Reddit (href : jsval).

(** Lines 214-250: [coinDetails.links && ...], each link when its value
    is truthy; the Twitter address is a template literal (the upstream
    screen name is a string; other values are outside the model). *)
Definition detail_links (details : json) : option (result js_error (list link)) :=
  match get_prop (Some details) "links" with
  | Err e => Some (Err e)
  | Ok l =>
      if truthy l then
        let home := match get_prop l "homepage" with Ok h => opt_index0 h | Err _ => None end in
        let tw := opt_prop l "twitter_screen_name" in
        let rd := opt_prop l "subreddit_url" in
        let website := if truthy home then [Website home] else [] in
        match (if truthy tw then match tw with
                                 | Some (JStr n) => Some [Twitter ("https://twitter.com/" ++ n)]
                                 | _ => None
                                 end
               else Some []) with
        | Some twitter => Some (Ok (website ++ twitter ++ (if truthy rd then [Reddit rd] else []))%list)
        | None => None
        end
      else Some (Ok [])
  end.

Record detail_fields := mk_fields {
  df_price : string;             (* formatCurrency(coin.currentPrice) *)
  df_change_up : bool;           (* coin.priceChangePercentage24h >= 0 *)
  df_change : string;            (* formatPercentage(coin.priceChangePercentage24h) *)
  df_rank : jsval;               (* coin.marketCapRank || 'N/A' *)
  df_market_cap : string;
  df_high : string;
  df_low : string;
  df_volume : string;
  df_supply : string;
  df_ath : string;
  df_ath_change : string;
  df_ath_date : string;
  df_atl : string;
  df_atl_change : string;        (* the line of line 187 *)
  df_atl_date : string;
  df_description : option string;
  df_links : list link;
  df_updated : string;
}.

Inductive modal_body := MSpinner | MError (message : json) | MFields (f : detail_fields).

Record modal_view := mk_modal_view { mv_image : jsval; mv_name : jsval; mv_symbol : jsval; mv_body : modal_body }.

Section ModalView.
(** [formatDate] prints through [Intl.DateTimeFormat] in the reader's
    time zone: the view is parametric in it. *)
Variable formatDate : jsval → string.

Local Open Scope medi_scope.

(** The fields, in the order JSX evaluates them: they come from the coin
    the modal was opened with; only the description and the links come
    from the detail payload. *)
Definition modal_fields (c : Coin) (details : option cached) : option (result js_error detail_fields) :=
  let price := formatCurrency (currentPrice c) 2 in
  let up := num_ge (js_to_number (priceChangePercentage24h c)) 0 in
  change ←? formatPercentage (priceChangePercentage24h c) 2;
  let rank := js_or (marketCapRank c) (Some (JStr "N/A")) in
  mc ←? Ok <$> formatMarketCap (marketCap c);
  let high := formatCurrency (high24h c) 2 in
  let low := formatCurrency (low24h c) 2 in
  vol ←? Ok <$> formatMarketCap (totalVolume c);
  supply ←? (if truthy (circulatingSupply c) then Ok <$> formatMarketCap (circulatingSupply c)
             else Some (Ok "N/A"));
  let ath_s := formatCurrency (ath c) 2 in
  athc ←? formatPercentage (athChangePercentage c) 2;
  let athd := formatDate (athDate c) in
  let atl_s := formatCurrency (atl c) 2 in
  atlc ←? Ok <$> atl_change_text (atlChangePercentage c);
  let atld := formatDate (atlDate c) in
  extra ←? (match details with
            | Some (CRaw j) =>
                if truthy (Some j) then
                  d ←? (match description_html j with
                        | Some (Ok h) => Some (Ok (Some h))
                        | Some (Err e) => Some (Err e)
                        | None => Some (Ok None)
                        end);
                  ls ←? detail_links j;
                  Some (Ok (d, ls))
                else Some (Ok (None, []))
            | None => Some (Ok (None, []))
            | Some _ => None
            end);
  Some (Ok (mk_fields price up change rank mc high low vol supply ath_s athc athd atl_s atlc atld
              extra.1 extra.2 (formatDate (lastUpdated c)))).

(** The modal: the header, then the spinner, the error or the fields. *)
Definition render_modal (c : Coin) (m : modal) : option (result js_error modal_view) :=
  body ←? (if loading m then Some (Ok MSpinner)
           else if truthy (error m) then Some (Ok (MError (default JNull (error m))))
           else f ←? modal_fields c (coinDetails m); Some (Ok (MFields f)));
  Some (Ok (mk_modal_view (image c) (name c) (symbol c) body)).

End ModalView.

(** ** The regular expression of line 207

    [/<[^>]*>/] denotes the words made of a [<], any characters other
    than [>], and a [>]. *)
Definition tag_lang (u : string) : Prop := ∃ m, u = String "<" (m ++ ">") ∧ has_gt m = false.

(** A match of the regular expression starts at the front of [s]. *)
Definition tag_at (s : string) : Prop := ∃ u x, s = u ++ x ∧ tag_lang u.

(** [s.replace(re, '')] for a global [re] with no empty match: the scan
    goes left to right from [lastIndex]; a match starting at the scan
    position is deleted and the scan resumes after it; where no match
    starts, the character is kept. *)
Inductive replace_all_tags : string → string → Prop :=
  | rt_nil : replace_all_tags "" ""
  | rt_match u s t : tag_lang u → replace_all_tags s t → replace_all_tags (u ++ s) t
  | rt_keep c s t :
      ¬ tag_at (String c s) → replace_all_tags s t → replace_all_tags (String c s) (String c t).

(** ** Lemmas *)

(** No [<] of [s] has a [>] after it. *)
Fixpoint no_open_tag (s : string) : bool :=
  match s with
  | "" => true
  | String c s' => (negb (Ascii.eqb c "<") || negb (has_gt s')) && no_open_tag s'
  end.

Lemma has_gt_app x y : has_gt (x ++ y) = has_gt x || has_gt y.
Proof. induction x as [|c x IH]; [done|]. rewrite string_app_cons. cbn. by rewrite IH, orb_assoc. Qed.

Lemma has_gt_prefix n s : has_gt (substring 0 n s) = true → has_gt s = true.
Proof.
  revert n. induction s as [|c s IH]; intros [|n]; cbn; try done.
  rewrite !orb_true_iff. intros [H|H]; [by left|right; by eapply IH].
Qed.

Lemma has_gt_strip b s : has_gt s = false → has_gt (strip_tags b s) = false.
Proof.
  revert b. induction s as [|c s IH]; intros b; [done|]. cbn. rewrite orb_false_iff. intros [Hc Hs].
  destruct b; [rewrite Hc; by apply IH|]. rewrite Hs, andb_false_r. cbn. by rewrite Hc, IH.
Qed.

Lemma no_open_tag_strip b s : no_open_tag (strip_tags b s) = true.
Proof.
  revert b. induction s as [|c s IH]; intros b; [done|]. cbn [strip_tags].
  destruct b; [by destruct (Ascii.eqb c ">")|].
  destruct (Ascii.eqb c "<") eqn:Hc; cbn [andb]; [destruct (has_gt s) eqn:Hg|].
  - apply IH.
  - cbn. rewrite Hc, has_gt_strip, IH by done. done.
  - cbn. by rewrite Hc, IH.
Qed.

Lemma no_open_tag_prefix n s : no_open_tag s = true → no_open_tag (substring 0 n s) = true.
Proof.
  revert n. induction s as [|c s IH]; intros [|n]; cbn; try done.
  rewrite !andb_true_iff, !orb_true_iff. intros [Hc Hs]. split; [|by apply IH].
  destruct Hc as [Hc|Hc]; [by left|right].
  apply negb_true_iff. apply negb_true_iff in Hc. destruct (has_gt (substring 0 n s)) eqn:E; [|done].
  apply has_gt_prefix in E. congruence.
Qed.

Lemma no_open_tag_app x y :
  no_open_tag x = true → no_open_tag y = true → has_gt y = false → no_open_tag (x ++ y) = true.
Proof.
  intros Hx Hy Hg. induction x as [|c x IH]; [done|]. rewrite string_app_cons. cbn in *.
  apply andb_true_iff in Hx as [Hc Hx]. rewrite has_gt_app, Hg, orb_false_r, IH, andb_true_r by done.
  exact Hc.
Qed.

(** The boolean check, read as: no [<...>] occurs in [s]. *)
Lemma no_open_tag_spec s : no_open_tag s = true → ¬ ∃ p q r, s = p ++ String "<" (q ++ String ">" r).
Proof.
  intros Hs (p & q & r & ->). induction p as [|c p IH].
  - rewrite string_app_nil in Hs. cbn [no_open_tag] in Hs. rewrite has_gt_app in Hs. cbn in Hs.
    by rewrite orb_true_r in Hs.
  - rewrite string_app_cons in Hs. cbn in Hs. apply andb_true_iff in Hs as [_ Hs]. by apply IH.
Qed.

(** A coin without an id: no event changes the modal, which stays in its
    first state, [loading] included. *)
Lemma modal_no_id_stays_loading cfg c st es :
  truthy (id c) = false →
  modal_run cfg c (modal_initial, st) es = Some (modal_initial, st) ∨
  modal_run cfg c (modal_initial, st) es = None.
Proof.
  intros Hid. induction es as [|e es IH]; [by left|]. destruct e as [now|now|ev t]; cbn.
  - unfold fetchCoinDetails. rewrite Hid. exact IH.
  - unfold fetchCoinDetails. rewrite Hid. exact IH.
  - by right.
Qed.

(** ** Properties *)

Local Open Scope Q_scope.

Lemma Qabs_idem q : Qabs (Qabs q) = Qabs q.
Proof. destruct q as [n d]. unfold Qabs. cbn. by rewrite Z.abs_idemp. Qed.

(** C39 (functional). The all-time-low line of the modal prints two plus
    signs: for every value whose [ToNumber] is a number below [10^21] in
    magnitude, the text is [++] followed by a numeral that reads back
    within [0.005] of the value's magnitude, and [%]. *)
Theorem atl_change_double_plus v q :
  js_to_number v = NFin q → ~ (inject_Z (10 ^ 21) <= Qabs q) →
  ∃ u m, atl_change_text v = Some ("++" ++ u ++ "%") ∧ string_to_number u = NFin m ∧
         Qabs (m - Qabs q) <= 1 # 200.
Proof.
  intros Hv Hq. assert (¬ inject_Z (10 ^ 21) <= Qabs (Qabs q)) as Hq' by (by rewrite Qabs_idem).
  destruct (toFixed_roundtrip (Qabs q) 2 Hq') as (u & m & Hf & Hu & _ & _ & _ & Hb).
  assert (Qlt0 (Qabs q) = false) as Hs.
  { unfold Qlt0. apply negb_false_iff, Qle_bool_iff, Qabs_nonneg. }
  exists u, m. unfold atl_change_text, percentage_of_number. rewrite Hv. cbn [math_abs num_ge].
  rewrite Hf, Hs, (proj2 (Qle_bool_iff _ _) (Qabs_nonneg q)). split_and!; [done|done|].
  rewrite Qabs_idem in Hb. exact Hb.
Qed.

Lemma atl_change_double_plus_witness :
  ∃ u m, atl_change_text (Some (JNum (-9999 # 100))) = Some ("++" ++ u ++ "%") ∧
         string_to_number u = NFin m ∧ Qabs (m - Qabs (-9999 # 100)) <= 1 # 200.
Proof.
  apply (atl_change_double_plus _ (-9999 # 100)); [reflexivity|].
  intros H. apply Qle_bool_iff in H. vm_compute in H. discriminate.
Defined.

(** C40 (safety). The description the modal injects with
    [dangerouslySetInnerHTML] never contains a complete tag: no [<] in it
    is followed, anywhere later, by a [>], whatever text the upstream
    sent. *)
Theorem description_no_tag details h :
  description_html details = Some (Ok h) → ¬ ∃ p q r, h = p ++ String "<" (q ++ String ">" r).
Proof.
  unfold description_html. intros Hd. apply no_open_tag_spec.
  destruct (get_prop _ _) as [d|]; [|discriminate].
  destruct (truthy (opt_prop d "en")); [|discriminate].
  destruct (opt_prop d "en") as [[| | |s| |]|]; try discriminate.
  injection Hd as <-. apply no_open_tag_app; [|done|done].
  apply no_open_tag_prefix, no_open_tag_strip.
Qed.

Lemma description_no_tag_witness :
  description_html (JObj [("description", JObj [("en", JStr "<p>Bit<b>coin</b> a < b, c>d <x")])])
    = Some (Ok "Bitcoin a d <x...") ∧
  ¬ ∃ p q r, "Bitcoin a d <x..." = p ++ String "<" (q ++ String ">" r).
Proof.
  assert (description_html (JObj [("description", JObj [("en", JStr "<p>Bit<b>coin</b> a < b, c>d <x")])])
    = Some (Ok "Bitcoin a d <x...")) as H by reflexivity.
  split; [exact H|]. exact (description_no_tag _ _ H).
Defined.

(** ** The tag stripper against the regular expression *)

Lemma string_length_app (x y : string) : (String.length (x ++ y) = String.length x + String.length y)%nat.
Proof. induction x as [|c x IH]; [done|]. rewrite string_app_cons. cbn. by rewrite IH. Qed.

(** Inside a tag, the stripper skips to the first [>]. *)
Lemma strip_tags_in_tag m r : has_gt m = false → strip_tags true (m ++ String ">" r) = strip_tags false r.
Proof.
  induction m as [|c m IH]; [done|]. rewrite string_app_cons. cbn. rewrite orb_false_iff.
  intros [-> Hm]. by apply IH.
Qed.

(** The first [>] of a string that has one. *)
Lemma has_gt_split s : has_gt s = true → ∃ m r, s = m ++ String ">" r ∧ has_gt m = false.
Proof.
  induction s as [|c s IH]; [done|]. cbn. destruct (Ascii.eqb_spec c ">") as [->|Hc]; cbn.
  - intros _. by exists "", s.
  - intros (m & r & -> & Hm)%IH. exists (String c m), r. split; [done|]. cbn.
    destruct (Ascii.eqb_spec c ">"); [done|exact Hm].
Qed.

Lemma strip_tags_match u s : tag_lang u → strip_tags false (u ++ s) = strip_tags false s.
Proof.
  intros (m & -> & Hm). rewrite string_app_cons, <- string_app_assoc. cbn [strip_tags].
  rewrite has_gt_app. cbn. rewrite orb_true_r. by apply strip_tags_in_tag.
Qed.

(** A match starts at [String c s] exactly when the stripper enters a tag. *)
Lemma tag_at_cons c s : tag_at (String c s) ↔ Ascii.eqb c "<" && has_gt s = true.
Proof.
  split.
  - intros (u & x & Hs & m & -> & Hm). rewrite string_app_cons in Hs. injection Hs as -> ->.
    rewrite <- string_app_assoc, has_gt_app. cbn. by rewrite orb_true_r.
  - intros [Hc%Ascii.eqb_eq (m & r & -> & Hm)%has_gt_split]%andb_true_iff. subst c.
    exists (String "<" (m ++ ">")), r. split; [|by exists m].
    by rewrite string_app_cons, <- string_app_assoc.
Qed.

Lemma replace_all_tags_strip s : replace_all_tags s (strip_tags false s).
Proof.
  remember (String.length s) as n eqn:Hn. revert s Hn.
  induction n as [n IH] using lt_wf_ind. intros [|c s] Hn; [constructor|].
  destruct (Ascii.eqb c "<" && has_gt s) eqn:Ht.
  - apply andb_true_iff in Ht as [Hc%Ascii.eqb_eq (m & r & -> & Hm)%has_gt_split]. subst c.
    replace (String "<" (m ++ String ">" r)) with (String "<" (m ++ ">") ++ r)
      by (by rewrite string_app_cons, <- string_app_assoc).
    rewrite strip_tags_match by (by exists m). apply rt_match; [by exists m|].
    eapply IH; [|done]. rewrite Hn. cbn [String.length]. rewrite string_length_app. cbn. lia.
  - cbn [strip_tags]. rewrite Ht. apply rt_keep.
    + rewrite tag_at_cons, Ht. discriminate.
    + eapply IH; [|done]. rewrite Hn. cbn. lia.
Qed.

(** The character scan [strip_tags] is the global
    replace of line 207: for every string, [replace(/<[^>]*>/g, '')] has
    exactly one result, and it is [strip_tags false s].  In particular a
    [<] with no [>] after it is kept, and a tag ends at its first [>]. *)
Theorem strip_tags_regex s t : replace_all_tags s t ↔ t = strip_tags false s.
Proof.
  split; [|intros ->; apply replace_all_tags_strip].
  induction 1 as [|u s t Hu _ IH|c s t Hn _ IH]; [done| |].
  - by rewrite strip_tags_match.
  - cbn [strip_tags]. destruct (Ascii.eqb c "<" && has_gt s) eqn:Ht.
    + exfalso. by apply Hn, tag_at_cons.
    + by rewrite IH.
Qed.
