(* ===== verification/App.v ===== *)
(** * The application shell: [src/src/App.js]

    [App] keeps one hook, [selectedCoin] (line 37).  The table and the
    highlight cards hand the object of a clicked row or item to
    [handleCoinClick] (lines 39-41; the components pass it through their
    own [handleCoinClick], CoinTable.js 182-186 and HighlightsSection.js
    199-203, and the row's and item's [onClick], CoinTable.js 37 and
    HighlightsSection.js 79-83); [handleCloseModal] (lines 43-45) clears
    it, from the close button or the Escape key handler of the modal
    (CoinDetailModal.js 56-71).  While a coin is selected, a
    [CoinDetailModal] for it is mounted (lines 72-77): a fresh instance,
    whose effect starts the detail load.  Its overlay covers the page
    ([fixed inset-0]), so no row or item can be clicked while it is open.
    Closing the modal unmounts it: a load it started still completes into
    the modal module's cache, and its state updates are dropped.

    The state is the selected object, the hooks of the mounted modal, the
    modal module's cache, the loads of closed modals still in flight, and
    what the modal's second effect (CoinDetailModal.js 56-71) does to the
    document: its [keydown] listener [handleEscape] and
    [document.body.style.overflow].  [App] re-renders only when
    [selectedCoin] changes, so the effect (whose dependency [onClose] is a
    new function at each render of [App]) runs once per mount and is
    cleaned up at the unmount.
    A trending coin carries [id], [name], [symbol] and [marketCapRank];
    the modal reads every other coin field of it as [undefined]. *)

From Stdlib Require Import QArith Ascii.
From S2P Require Import Prelude Config JsMap Cache JsValue Adapters HttpClient Gateway Highlights Formatters HighlightsView CoinTable CoinTableView CoinDetail.
#[local] Set Warnings "-clear-no-such-hyp".
Local Open Scope string_scope.

(** The object [handleCoinClick] receives. *)
Inductive clicked := FromCoin (c : Coin) | FromTrending (t : TrendingCoin).

(** An item of a highlight card, passed through [onClick(coin)]. *)
Definition clicked_of_item (x : item) : clicked :=
  match x with ItemCoin c => FromCoin c | ItemTrending t => FromTrending t end.

(** The object as the modal reads it, field by field. *)
Definition modal_coin (x : clicked) : Coin :=
  match x with
  | FromCoin c => c
  | FromTrending t =>
      mk_coin (t_id t) (t_symbol t) (t_name t) None None None (t_marketCapRank t) None None None
        None None None None None None None None None None None None None None None
  end.

Record app := mk_app {
  selectedCoin : option clicked;
  detail : modal;
  detail_gw : gw_state;
  orphans : list pending;
  instance : nat;            (* the number of modals mounted so far *)
  keydown : list nat;        (* the [keydown] listeners of [document]: each modal's [handleEscape] *)
  body_overflow : string;    (* [document.body.style.overflow] *)
}.

Definition app_initial : app := mk_app None modal_initial [] [] 0 [] "".

(** [removeEventListener('keydown', handleEscape)]: the one entry of
    that function goes. *)
Fixpoint remove_listener (i : nat) (l : list nat) : list nat :=
  match l with [] => [] | j :: l' => if (i =? j)%nat then l' else j :: remove_listener i l' end.

(** The modal's second effect, lines 56-66: its [handleEscape] listens to
    [keydown] and the page stops scrolling. *)
Definition escape_effect_setup (i : nat) (a : app) : list nat * string :=
  ((keydown a ++ [i])%list, "hidden").

(** Its cleanup, lines 67-70, when the modal unmounts. *)
Definition escape_effect_cleanup (i : nat) (a : app) : list nat * string :=
  (remove_listener i (keydown a), "unset").

(** The hooks of the open modal and the modal module's cache change. *)
Definition set_detail (m : modal) (st : gw_state) (a : app) : app :=
  mk_app (selectedCoin a) m st (orphans a) (instance a) (keydown a) (body_overflow a).

(** [handleCoinClick(coin)]: [setSelectedCoin(coin)]; the render mounts a
    fresh modal, whose effects run in order: [fetchCoinDetails] (it
    returns at once when [coin?.id] is falsy), then the Escape listener. *)
Definition handleCoinClick (now : Z) (x : clicked) (a : app) : option app :=
  '(m, st) ← fetchCoinDetails now (modal_coin x) modal_initial (detail_gw a);
  let i := S (instance a) in
  let '(kd, ov) := escape_effect_setup i a in
  Some (mk_app (Some x) m st (orphans a) i kd ov).

(** [handleCloseModal]: [setSelectedCoin(null)] unmounts the modal: its
    load in flight is orphaned and its effect cleaned up. *)
Definition handleCloseModal (a : app) : app :=
  let orphan := match pending_load (detail a) with Some (Miss p) => [p] | _ => [] end in
  let '(kd, ov) := escape_effect_cleanup (instance a) a in
  mk_app None modal_initial (detail_gw a) (orphans a ++ orphan)%list (instance a) kd ov.

Inductive app_event :=
  | ClickRow (now : Z) (c : Coin)               (* a row of the table *)
  | ClickItem (now : Z) (x : item)              (* an item of a highlight card *)
  | CloseModal                                 (* the close button of the modal *)
  | KeyDown (key : string)                     (* a key pressed anywhere on the page *)
  | DetailRetry (now : Z)                      (* the modal's Try Again *)
  | DetailSettle (ev : net_event) (t : Z)      (* the open modal's load completes *)
  | OrphanSettle (i : nat) (ev : net_event) (t : Z).  (* a closed modal's load completes *)

Definition app_step (cfg : api_config) (a : app) (e : app_event) : option app :=
  match e with
  | ClickRow now c =>
      match selectedCoin a with None => handleCoinClick now (FromCoin c) a | Some _ => None end
  | ClickItem now x =>
      match selectedCoin a with None => handleCoinClick now (clicked_of_item x) a | Some _ => None end
  | CloseModal => match selectedCoin a with Some _ => Some (handleCloseModal a) | None => None end
  | KeyDown key =>
      (* each listener runs [if (e.key === 'Escape') onClose()]; a second
         [setSelectedCoin(null)] in the same event changes nothing *)
      match keydown a with
      | [] => Some a
      | _ :: _ =>
          if String.eqb key "Escape" then
            match selectedCoin a with Some _ => Some (handleCloseModal a) | None => Some a end
          else Some a
      end
  | DetailRetry now =>
      match selectedCoin a with
      | Some x =>
          (* the button of the error state: [onRetry={fetchCoinDetails}] *)
          if negb (loading (detail a)) && truthy (error (detail a)) then
            '(m, st) ← fetchCoinDetails now (modal_coin x) (detail a) (detail_gw a);
            Some (set_detail m st a)
          else None
      | None => None
      end
  | DetailSettle ev t =>
      match selectedCoin a with
      | Some x =>
          '(m, st) ← settle_modal cfg ev t (detail a) (detail_gw a);
          Some (set_detail m st a)
      | None => None
      end
  | OrphanSettle i ev t =>
      p ← orphans a !! i;
      Some (mk_app (selectedCoin a) (detail a) (finish_op cfg p ev t (detail_gw a)).2
              (delete i (orphans a)) (instance a) (keydown a) (body_overflow a))
  end.

(** The events that close the modal. *)
Definition closes (e : app_event) : bool :=
  match e with CloseModal => true | KeyDown k => String.eqb k "Escape" | _ => false end.

Fixpoint app_run (cfg : api_config) (a : app) (es : list app_event) : option app :=
  match es with
  | [] => Some a
  | e :: es' => a' ← app_step cfg a e; app_run cfg a' es'
  end.

Inductive app_reachable (cfg : api_config) : app → Prop :=
  | app_init : app_reachable cfg app_initial
  | app_next a e a' : app_reachable cfg a → app_step cfg a e = Some a' → app_reachable cfg a'.

(** What the page shows of the modal: nothing, or the modal's view. *)
Definition render_app (formatDate : jsval → string) (a : app) : option (option (result js_error modal_view)) :=
  match selectedCoin a with
  | Some x => Some (render_modal formatDate (modal_coin x) (detail a))
  | None => None
  end.

(** ** Lemmas *)

(** The cells of the modal that come from the coin. *)
Lemma modal_fields_cells fd c d f :
  modal_fields fd c d = Some (Ok f) →
  df_price f = formatCurrency (currentPrice c) 2 ∧
  formatPercentage (priceChangePercentage24h c) 2 = Some (Ok (df_change f)) ∧
  atl_change_text (atlChangePercentage c) = Some (df_atl_change f).
Proof.
  unfold modal_fields.
  repeat match goal with
  | |- context [res_bind (Ok <$> ?m) _] => destruct m eqn:?; cbn [res_bind fmap option_fmap option_map]
  | |- context [res_bind ?m _] => destruct m as [[?|?]|] eqn:?; cbn [res_bind]
  end; try discriminate.
  intros [= <-]. cbn. split_and!; [done|done|done].
Qed.

(** A modal of a coin without an id shows its spinner: no event but
    closing it changes its hooks. *)
Lemma app_no_id_step cfg a e a' c :
  selectedCoin a = Some (FromCoin c) → truthy (id c) = false → detail a = modal_initial →
  closes e = false → app_step cfg a e = Some a' →
  selectedCoin a' = Some (FromCoin c) ∧ detail a' = modal_initial.
Proof.
  intros Hs Hid Hd He. destruct e as [now c'|now x| |k|now|ev t|i ev t]; cbn [app_step]; rewrite ?Hs, ?Hd.
  - done.
  - done.
  - done.
  - cbn in He. rewrite He. destruct (keydown a); by intros [= <-].
  - done.
  - done.
  - destruct (orphans a !! i); [|done]. intros [= <-]. by split.
Qed.

Lemma render_modal_fields fd c m img nm sym f :
  render_modal fd c m = Some (Ok (mk_modal_view img nm sym (MFields f))) →
  modal_fields fd c (coinDetails m) = Some (Ok f).
Proof.
  unfold render_modal. destruct (loading m); [done|]. destruct (truthy (error m)); [done|].
  destruct (modal_fields fd c (coinDetails m)) as [[f'|e]|]; cbn; [|done|done]. intros H. injection H. intros; by subst.
Qed.

Lemma app_run_no_id cfg a c es a' :
  selectedCoin a = Some (FromCoin c) → truthy (id c) = false → detail a = modal_initial →
  Forall (λ e, closes e = false) es → app_run cfg a es = Some a' →
  selectedCoin a' = Some (FromCoin c) ∧ detail a' = modal_initial.
Proof.
  intros Hs Hid Hd Hes. revert a Hs Hd. induction Hes as [|e es He _ IH]; intros a Hs Hd; cbn.
  - by intros [= <-].
  - destruct (app_step cfg a e) as [a1|] eqn:Hst; [|done]. cbn.
    destruct (app_no_id_step cfg a e a1 c Hs Hid Hd He Hst). by apply IH.
Qed.

(** The document while a modal is open, and while none is. *)
Definition dom_inv (a : app) : Prop :=
  match selectedCoin a with
  | Some _ => keydown a = [instance a] ∧ body_overflow a = "hidden"
  | None => keydown a = [] ∧ body_overflow a ≠ "hidden"
  end.

Lemma handleCoinClick_dom now x a a' : keydown a = [] → handleCoinClick now x a = Some a' → dom_inv a'.
Proof.
  intros Hk. unfold handleCoinClick, escape_effect_setup.
  destruct (fetchCoinDetails _ _ _ _) as [[m st]|]; [|done]. intros [= <-]. cbn. by rewrite Hk.
Qed.

Lemma handleCloseModal_dom a : keydown a = [instance a] → dom_inv (handleCloseModal a).
Proof.
  intros Hk. unfold handleCloseModal, escape_effect_cleanup. cbn. rewrite Hk. cbn.
  by rewrite Nat.eqb_refl.
Qed.

(** The events that leave the modal and the document as they are. *)
Local Ltac dom_same Hs Hk Ho := unfold dom_inv, set_detail; cbn; rewrite ?Hs, ?Hk; by split.

Lemma app_step_dom cfg a e a' : dom_inv a → app_step cfg a e = Some a' → dom_inv a'.
Proof.
  unfold dom_inv at 1. destruct (selectedCoin a) as [x|] eqn:Hs; intros [Hk Ho];
    destruct e as [now c|now it| |k|now|ev t|i ev t]; cbn [app_step]; rewrite ?Hs, ?Hk; try discriminate.
  - intros [= <-]. by apply handleCloseModal_dom.
  - destruct (String.eqb k "Escape"); intros [= <-]; [by apply handleCloseModal_dom|dom_same Hs Hk Ho].
  - case_match; [|done]. destruct (fetchCoinDetails _ _ _ _) as [[m st]|]; [|done]. intros [= <-]. dom_same Hs Hk Ho.
  - destruct (settle_modal _ _ _ _ _) as [[m st]|]; [|done]. intros [= <-]. dom_same Hs Hk Ho.
  - destruct (orphans a !! i); [|done]. intros [= <-]. dom_same Hs Hk Ho.
  - by apply handleCoinClick_dom.
  - by apply handleCoinClick_dom.
  - intros [= <-]. dom_same Hs Hk Ho.
  - destruct (orphans a !! i); [|done]. intros [= <-]. dom_same Hs Hk Ho.
Qed.

Lemma app_run_reachable cfg a es a' : app_reachable cfg a → app_run cfg a es = Some a' → app_reachable cfg a'.
Proof.
  revert a. induction es as [|e es IH]; intros a Ha; cbn; [by intros [= <-]|].
  destruct (app_step cfg a e) as [a1|] eqn:He; [|done]. cbn. apply IH. by eapply app_next.
Qed.

(** A click on a coin whose id is a non-empty string: a fresh modal
    that loads the details of that id. *)
Lemma click_string_id now c s a a' :
  id c = Some (JStr s) → s ≠ "" → handleCoinClick now (FromCoin c) a = Some a' →
  selectedCoin a' = Some (FromCoin c) ∧
  detail a' = mk_modal None true None (Some (begin_op now (GetCoinDetails s) (detail_gw a)).1) ∧
  detail_gw a' = (begin_op now (GetCoinDetails s) (detail_gw a)).2.
Proof.
  intros Hid Hs. unfold handleCoinClick, fetchCoinDetails, coin_id_string. cbn [modal_coin]. rewrite Hid.
  destruct s as [|ch s]; [done|]. cbn [truthy NumberFormat.value_to_string mbind option_bind].
  destruct (begin_op _ _ _) as [sr st']. by intros [= <-].
Qed.

(** The open modal's load that missed the cache completes and succeeds:
    the modal module's cache stores the payload under the load's key. *)
Lemma detail_settle_miss cfg a x p ev t a' v :
  selectedCoin a = Some x → pending_load (detail a) = Some (Miss p) → coinDetails (detail a) = None →
  app_step cfg a (DetailSettle ev t) = Some a' → coinDetails (detail a') = Some v →
  detail_gw a' = set t (p_key p) v (p_ttl p) (detail_gw a).
Proof.
  intros Hs Hp Hn. cbn [app_step]. rewrite Hs. unfold settle_modal. rewrite Hp. unfold finish_op.
  destruct (classify cfg ev) as [r|e]; cbn [mbind option_bind].
  - destruct (p_adapt p r) as [v'|e]; cbn; intros [= <-]; cbn; [by intros [= ->]|by rewrite Hn].
  - cbn. intros [= <-]. cbn. by rewrite Hn.
Qed.

(** ** Properties *)

(** C20 (safety). A coin without an id (every field of the upstream
    object is copied verbatim, so [id] may be missing) opens a modal that
    shows its spinner for ever: [fetchCoinDetails] returns before
    [setLoading(false)], and no event but closing the modal (its close
    button or the Escape key) changes it. *)
Theorem no_id_spinner_forever cfg fd a now c es a' :
  selectedCoin a = None → truthy (id c) = false → Forall (λ e, closes e = false) es →
  app_run cfg a (ClickRow now c :: es) = Some a' →
  selectedCoin a' = Some (FromCoin c) ∧
  render_app fd a' = Some (Some (Ok (mk_modal_view (image c) (name c) (symbol c) MSpinner))).
Proof.
  intros Hs Hid Hes. cbn [app_run app_step]. rewrite Hs. cbn [mbind option_bind].
  unfold handleCoinClick, fetchCoinDetails, escape_effect_setup. cbn [modal_coin]. rewrite Hid.
  intros Hr. apply (app_run_no_id _ _ c) in Hr as [Hs' Hd']; [|done|exact Hid|done|exact Hes].
  split; [exact Hs'|]. unfold render_app. by rewrite Hs', Hd'.
Qed.

(** A coin whose upstream object had no [id]. *)
Definition no_id_coin : Coin :=
  mk_coin None (Some (JStr "btc")) (Some (JStr "Bitcoin")) None None None None None None None
    None None None None None None None None None None None None None None None.

(** A trending coin as the adapter builds it. *)
Definition sample_trending : TrendingCoin :=
  mk_trending (Some (JStr "pepe")) (Some (JNum 29850)) (Some (JStr "Pepe")) (Some (JStr "PEPE"))
    (Some (JNum 30)) (Some (JStr "thumb.png")) None None (Some (JStr "pepe")) None (Some (JNum 0)).

Definition detail_ok : net_event :=
  mk_net_event 100 (NetResponse 200 "OK" (BodyJson (JObj [("id", JStr "pepe")]))).

(** A modal opened and closed before its load completed, so the load
    completes while the next modal is open. *)
Definition closed_detail_load : app :=
  match handleCoinClick 0 (FromTrending sample_trending) app_initial with
  | Some a => handleCloseModal a
  | None => app_initial
  end.

Lemma no_id_spinner_forever_witness :
  ∃ a', app_run (API_CONFIG empty_env) closed_detail_load
          [ClickRow 10 no_id_coin; KeyDown "Enter"; OrphanSettle 0 detail_ok 100] = Some a' ∧
        selectedCoin a' = Some (FromCoin no_id_coin) ∧
        render_app (λ _, "") a' =
          Some (Some (Ok (mk_modal_view (image no_id_coin) (name no_id_coin) (symbol no_id_coin) MSpinner))).
Proof.
  destruct (app_run (API_CONFIG empty_env) closed_detail_load
              [ClickRow 10 no_id_coin; KeyDown "Enter"; OrphanSettle 0 detail_ok 100]) as [a'|] eqn:E;
    [|vm_compute in E; discriminate].
  exists a'. split; [reflexivity|].
  refine (no_id_spinner_forever _ _ closed_detail_load 10 no_id_coin _ a' eq_refl eq_refl _ E).
  repeat constructor.
Defined.

(** C34 (functional). A coin of the Trending card opens a modal that
    prints its fields from the trending object, which has no price, no
    change and no all-time low: whenever the modal shows its fields, the
    price reads [N/A], the 24h change [N/A], and the all-time-low change
    [+NaN%] ([Math.abs(undefined)] is [NaN]). *)
Theorem trending_modal_nan fd a t img nm sym f :
  selectedCoin a = Some (FromTrending t) →
  render_app fd a = Some (Some (Ok (mk_modal_view img nm sym (MFields f)))) →
  df_atl_change f = "+NaN%" ∧ df_price f = "N/A" ∧ df_change f = "N/A".
Proof.
  intros Hs. unfold render_app. rewrite Hs. intros [= Hr%render_modal_fields].
  destruct (modal_fields_cells _ _ _ _ Hr) as (Hp & Hc & Ha). cbn in Hp, Hc, Ha.
  injection Hc as <-. injection Ha as <-. by split_and!.
Qed.

Lemma trending_modal_nan_witness :
  ∃ a' f, app_run (API_CONFIG empty_env) app_initial
            [ClickItem 0 (ItemTrending sample_trending); DetailSettle detail_ok 100] = Some a' ∧
          selectedCoin a' = Some (FromTrending sample_trending) ∧
          render_app (λ _, "") a' =
            Some (Some (Ok (mk_modal_view None (Some (JStr "Pepe")) (Some (JStr "PEPE")) (MFields f)))) ∧
          df_atl_change f = "+NaN%" ∧ df_price f = "N/A" ∧ df_change f = "N/A".
Proof.
  destruct (app_run (API_CONFIG empty_env) app_initial
              [ClickItem 0 (ItemTrending sample_trending); DetailSettle detail_ok 100]) as [a'|] eqn:E;
    [|vm_compute in E; discriminate].
  pose proof E as E'. vm_compute in E'. injection E' as Ea.
  remember (render_app (λ _, "") a') as r eqn:R.
  pose proof R as R'. rewrite <- Ea in R'. vm_compute in R'. rewrite R' in R. clear r R'.
  symmetry in R.
  assert (Hs : selectedCoin a' = Some (FromTrending sample_trending)) by (rewrite <- Ea; reflexivity).
  eexists a', _. split; [reflexivity|]. split; [exact Hs|]. split; [exact R|].
  exact (trending_modal_nan (λ _, "") a' sample_trending _ _ _ _ Hs R).
Defined.

(** C11 (invariant). The Escape listener of the modal (lines 56-71) is
    set up and cleaned up in step with the modal: in every reachable
    state, an open modal has exactly its own [keydown] listener on
    [document] and the page does not scroll, and with no modal open
    there is no listener and the page scrolls; so the Escape key closes
    an open modal. *)
Theorem modal_escape_listener cfg a :
  app_reachable cfg a →
  dom_inv a ∧ (∀ x, selectedCoin a = Some x → app_step cfg a (KeyDown "Escape") = Some (handleCloseModal a)).
Proof.
  intros Hr. assert (dom_inv a) as Hinv.
  { induction Hr as [|a e a' _ IH Hst]; [by split|]. by eapply app_step_dom. }
  split; [done|]. intros x Hs. unfold dom_inv in Hinv. rewrite Hs in Hinv. destruct Hinv as [Hk _].
  cbn. by rewrite Hk, Hs.
Qed.

Lemma modal_escape_listener_witness :
  ∃ a, app_run (API_CONFIG empty_env) app_initial
         [ClickRow 0 no_id_coin; KeyDown "Escape"; ClickItem 10 (ItemTrending sample_trending)] = Some a ∧
       dom_inv a ∧ app_step (API_CONFIG empty_env) a (KeyDown "Escape") = Some (handleCloseModal a).
Proof.
  destruct (app_run (API_CONFIG empty_env) app_initial
              [ClickRow 0 no_id_coin; KeyDown "Escape"; ClickItem 10 (ItemTrending sample_trending)])
    as [a|] eqn:E; [|vm_compute in E; discriminate].
  exists a. split; [reflexivity|].
  destruct (modal_escape_listener (API_CONFIG empty_env) a) as [Hd He];
    [exact (app_run_reachable _ _ _ _ (app_init _) E)|].
  split; [exact Hd|]. apply (He (FromTrending sample_trending)).
  vm_compute in E. by injection E as <-.
Defined.

(** C29 (functional). Reopening a coin within 30 seconds of a successful
    detail load is served from the modal module's cache: the first click
    on a coin with a string id misses and requests its details, the load
    stores the payload with the 30 s TTL of [getCoinDetails], and after
    the modal is closed a click on the same coin at most 30 s after the
    load completed starts no request: the new modal's load is a cache hit
    with that payload, and the cache is left as it was. *)
Theorem reopen_within_ttl_hits cfg a c s ev t now now2 a1 a2 a4 p v :
  selectedCoin a = None → id c = Some (JStr s) → s ≠ "" →
  app_step cfg a (ClickRow now c) = Some a1 → pending_load (detail a1) = Some (Miss p) →
  app_step cfg a1 (DetailSettle ev t) = Some a2 → coinDetails (detail a2) = Some v → cached_truthy v = true →
  (now2 - t <= 30000)%Z →
  app_run cfg a2 [CloseModal; ClickRow now2 c] = Some a4 →
  pending_load (detail a4) = Some (Hit v) ∧ detail_gw a4 = detail_gw a2.
Proof.
  intros Hs Hid Hne H1 Hp H2 Hv Hvt Ht H4. cbn [app_step] in H1. rewrite Hs in H1.
  destruct (click_string_id _ _ _ _ _ Hid Hne H1) as (Hs1 & Hd1 & Hg1).
  pose proof (detail_settle_miss cfg a1 _ p ev t a2 v Hs1 Hp ltac:(by rewrite Hd1) H2 Hv) as Hg2.
  rewrite Hd1 in Hp. cbn in Hp. injection Hp as Hb.
  destruct (begin_op now (GetCoinDetails s) (detail_gw a)) as [sr st1] eqn:Hbo. cbn in Hb, Hg1. subst sr.
  apply begin_op_miss in Hbo. subst p. cbn [app_run app_step] in H4.
  destruct (selectedCoin a2); [|done]. cbn [mbind option_bind] in H4.
  replace (selectedCoin (handleCloseModal a2)) with (@None clicked) in H4 by reflexivity.
  destruct (handleCoinClick now2 (FromCoin c) (handleCloseModal a2)) as [a4'|] eqn:H4'; [|done].
  injection H4 as <-.
  destruct (click_string_id _ _ _ _ _ Hid Hne H4') as (_ & -> & ->).
  replace (detail_gw (handleCloseModal a2)) with (detail_gw a2) by reflexivity. rewrite Hg2. cbn [op_pending p_key p_ttl]. unfold begin_op. cbn [op_pending p_key].
  rewrite get_set_within_ttl by lia. by rewrite Hvt.
Qed.

(** A coin of the table whose id is a string. *)
Definition bitcoin_coin : Coin :=
  mk_coin (Some (JStr "bitcoin")) (Some (JStr "btc")) (Some (JStr "Bitcoin")) None None None None None None None
    None None None None None None None None None None None None None None None.

Lemma reopen_within_ttl_hits_witness :
  ∃ a1 a2 a4 p v,
    app_step (API_CONFIG empty_env) app_initial (ClickRow 0 bitcoin_coin) = Some a1 ∧
    pending_load (detail a1) = Some (Miss p) ∧
    app_step (API_CONFIG empty_env) a1 (DetailSettle detail_ok 100) = Some a2 ∧
    coinDetails (detail a2) = Some v ∧
    app_run (API_CONFIG empty_env) a2 [CloseModal; ClickRow 20000 bitcoin_coin] = Some a4 ∧
    pending_load (detail a4) = Some (Hit v).
Proof.
  set (cfg := API_CONFIG empty_env).
  destruct (app_step cfg app_initial (ClickRow 0 bitcoin_coin)) as [a1|] eqn:H1; [|vm_compute in H1; discriminate].
  assert (E1 := H1). vm_compute in E1. injection E1 as E1.
  destruct (pending_load (detail a1)) as [[v0|p]|] eqn:Hp;
    assert (Hp' := Hp); rewrite <- E1 in Hp'; vm_compute in Hp'; try discriminate Hp'.
  destruct (app_step cfg a1 (DetailSettle detail_ok 100)) as [a2|] eqn:H2;
    [|rewrite <- E1 in H2; vm_compute in H2; discriminate H2].
  assert (E2 := H2). rewrite <- E1 in E2. vm_compute in E2. injection E2 as E2.
  destruct (coinDetails (detail a2)) as [v|] eqn:Hv;
    assert (Hv' := Hv); rewrite <- E2 in Hv'; vm_compute in Hv'; [|discriminate Hv'].
  destruct (app_run cfg a2 [CloseModal; ClickRow 20000 bitcoin_coin]) as [a4|] eqn:H4;
    [|rewrite <- E2 in H4; vm_compute in H4; discriminate H4].
  assert (Hvt : cached_truthy v = true) by (injection Hv' as <-; reflexivity).
  destruct (reopen_within_ttl_hits cfg app_initial bitcoin_coin "bitcoin" detail_ok 100 0 20000 a1 a2 a4 p v
              eq_refl eq_refl ltac:(done) H1 Hp H2 Hv Hvt ltac:(lia) H4) as [Hh _].
  exists a1, a2, a4, p, v. split_and!; first [assumption|reflexivity].
Defined.
